(* ===== verification/_CoqProject ===== *)
-Q . S2P
Prelude.v
Errors.v
Types.v
Options.v
Slices.v
Command.v
Codec.v
Bytes.v
Badger.v
Files.v
Raft.v
Node.v
Fsm.v
Wp.v
Sim.v
FsmApply.v
FsmRestore.v
RestoreProps.v
Crash.v
Linear.v
Write.v
WriteProps.v
Read.v
ReadProps.v
Cluster.v
Frame.v
Session.v
Open.v
OpenProps.v
Lifecycle.v
Layout.v
Replica.v
System.v
Hazards.v
Locks.v
Demo.v
DemoProps.v
