(* ===== verification/Prelude.v ===== *)
(** * Honeybadger: a verification development (root file)

    Honeybadger is a replicated key-value store in Go: one embedded Badger
    database per node, replicated through one hashicorp/raft group.  This
    library models the package (every .go file of the root directory of
    src/ but doc.go and the tests) and the program of
    src/examples/three-node in Rocq and proves what makes them correct.

    ** The program and its parts

    A caller opens a node ([Open], src/db.go).  A write ([Set], [Delete],
    [Batch], src/write.go) validates its arguments, stamps its TTL as an
    absolute expiry, builds one [command], and [apply] (src/db.go) encodes it
    with gob and submits it to Raft.  Once the entry is committed Raft calls
    [fsm.Apply] (src/fsm.go) on every node, which commits it to Badger in one
    transaction.  Raft also calls [fsm.Snapshot], [fsmSnapshot.Persist] and
    [fsm.Restore]; the last replaces the whole database by renaming
    directories.  Reads (src/read.go) go through a Raft barrier, or straight to
    the local database.  src/cluster.go and src/status.go change and report the
    membership.  [storeMu] guards the store pointer against [Restore] and
    [Close].  Two principles carry the design: a command is a blind write, so
    replaying an overlap is harmless, and an expiry is absolute, so every node
    agrees on it.

    ** How it is modelled

    A function that returns an error returns a [result]; a method of [DB] or
    [fsm] is a computation [ST World error] below: a function from a world to a
    world and a result, in which an error keeps the changes made before it.  A
    [World] (Node.v) has the fields of [DB], the file system, the clock, the
    passing of time, and the list of faults the environment will inject, one
    for each coming system or storage call: the theorems on failures quantify
    over these lists.  Go strings and byte slices are byte strings; Go integers
    are [Z], with [wrap64] where the source converts.  Third-party code is
    interfaces: [BadgerOps] and [RaftOps] are the calls the source makes,
    [BadgerLaws] and [RaftLaws] what Badger and Raft document about them, and
    [OpenOps] the constructors [Open] calls.  Concrete instances that satisfy
    the laws ([MapBadger], [SimRaft], [SimOpen]) run the witnesses.

    ** The files

    - Prelude.v: results, the monad, automation.
    - Errors.v, Types.v: src/types.go, [errors.Is], [errors.As],
      [errors.Join]; errors are symbolic ([Errorf] keeps the format, the
      arguments and the error under the %w).
    - Options.v: src/options.go, src/config.go ([setDefaults]).  Slices.v: the
      byte-slice constructors of src/options.go over a heap of shared arrays,
      with the copies they make.
    - Command.v: [command] and [commandPair] of src/fsm.go, and the abstract
      store: a finite map of entries with expiries ([kv]), [visible] for what a
      read can see, [≈[t]] for stores no read from time [t] on can tell apart,
      [run] for a log of commands, and the algebra of blind writes.
    - Codec.v: [encodeCommand] and [decodeCommand] over an interface, and the
      gob wire format as an implementation of it.
    - Bytes.v: the order of keys.  Badger.v: the storage interface.
    - Files.v: lexical paths, [os.RemoveAll], [os.MkdirAll], [os.Rename].
    - Raft.v: the consensus interface.  A call that waits returns a future,
      with what Raft's goroutine asked of the state machine meanwhile.
    - Node.v: [DB], the world, and the helpers of src/db.go.
    - Fsm.v: src/fsm.go.  Wp.v: a weakest-precondition logic for the monad.
      Sim.v: a concrete node for the witnesses.
    - FsmApply.v: [Apply].  FsmRestore.v, RestoreProps.v: [Restore],
      [restoreInPlace], [Persist].  Crash.v: [Restore] cut short by a crash.
    - Linear.v: the abstract state of a running node in terms of the log.
    - Write.v, WriteProps.v: src/write.go, [apply] of src/db.go.
    - Read.v, ReadProps.v: src/read.go.  Session.v: a write, then a read.
    - Cluster.v: src/cluster.go, src/status.go.
    - Frame.v, Lifecycle.v: the closed flag and what every operation keeps.
    - Open.v, OpenProps.v: [Open], [Close] and their helpers of src/db.go,
      with Go's named [err] and the stack of deferred cleanups.
    - Layout.v: the default directories.
    - Replica.v: a cluster as a step relation over the [fsm.go] operations.
      System.v: a write on one node of it, a read on another.
    - Hazards.v: behaviours the documentation does not expect.
    - Locks.v: [storeMu], the store pointer and [closed] as an interleaving
      machine of the goroutines of a node, with callbacks of [ViewBadger] that
      call their node while they hold the lock.
    - Demo.v, DemoProps.v: src/examples/three-node/main.go, three nodes of one
      process that share the file system and the clock ([Proc]); before each
      call of a node the goroutines of the nodes take their turn.

    ** What the theorems show

    - Replication: [Replica.convergence], [Replica.snapshot_sound].  In a
      cluster that delivers entries, overlaps snapshots with them, installs
      snapshots, fails at it or dies in the middle of it, and restarts, a node
      that was given the whole log serves the state of the log.  They rest on [Apply], [Persist] and [Restore] as
      modelled, not on a summary of them.
    - Consistency: [GetBytes_linearizable], [Scan_linearizable],
      [apply_committed], [reads_not_leader], [apply_not_leader].  A point read
      that gets past its preparation and meets no storage fault returns exactly
      the visible value or [ErrKeyNotFound] ([point_read]).
      [read_your_writes] and [acknowledged_everywhere] compose them: what a read
      returns after a write, on the same node or on any other.  The abstract
      specification is [Linear.tracks]: the store is the replay of the entries
      delivered over a base, entries answered with an error skipped.
    - The state machine: [Apply_atomic], [Restore_publishes],
      [Restore_completes], [Restore_staging_failure], [Restore_single_fault],
      [Restore_cut_short],
      [restoreInPlace_outcome], [Persist_complete], [Persist_Restore_roundtrip].
    - Writes and reads: [Batch_accepts], [Batch_rejects], [single_writes],
      [ttl_lifetime], [GetBytes_local], [Scan_local], [reads_refused],
      [command_wire_roundtrip].
    - Life cycle: [Open_no_leak], [Open_bootstraps], [Open_validates],
      [Close_once], [closed_operations], [operations_framed],
      [default_layout].
    - Membership: [membership_changes], [Status_reports], [WaitForLeader_ends].
    - Concurrency: [lock_safety], [lock_progress], [shut_is_final].  The lock
      cannot deadlock but in one way, [callbacks_block]: a writer waits, and all
      that hold the lock are callbacks that call their node.
    - Memory: [memory_typed], [mutations_immutable].  The constructors of
      Options.v are the abstract specification of those of Slices.v.
    - The demonstration: [run_ends], [waitFor_ends].
    - Divergences: [replay_resurrects], [closing_snapshot_gap],
      [swap_double_fault], [Restore_trailing_slash], [callback_deadlock];
      [closed_operations] has the operations that answer [ErrInvalidArgument] on
      a closed node.

    ** Bounds and fuel

    [wait_loop] of Cluster.v polls with fuel [timeout / 20ms + 2]: every poll
    that goes on sleeps at least 20ms, so the deadline passes first, which
    [WaitForLeader_ends] proves.  The struct decoder of Codec.v has one unit
    of fuel per field and one for the terminator, and refuses a field it does
    not know; the byte loop of [be_bytes] has eight, a 64-bit integer's.
    [poll_loop] of Demo.v polls with fuel [timeout / 25ms + 2], by the same
    argument ([waitFor_ends]).
    Nothing else needs fuel: loops over lists are structural.
    [command_wire_roundtrip] covers every command gob accepts, whose message
    is below gob's limit; TTL arithmetic wraps at 64 bits.

    ** What is not modelled, and the assumptions

    - doc.go (comments) and the tests.
    - Badger, Raft, the transport and the file system are their documented
      behaviour.  The content of a store does not depend on the time of the
      call that writes it; an iterator reads the clock once.  A lookup, a value
      read and every call that writes or opens a database may meet a fault;
      without one, the only error of a lookup of a nonempty key is
      [badger.ErrKeyNotFound].
    - The image of an open database in the modelled file system is the one it
      was opened from until the database is closed: that a method leaves the
      files alone says nothing of what Badger writes below them.
    - Outside Slices.v byte slices are immutable strings.  The package keeps
      no slice of its caller but in a [Mutation], which Slices.v shows to be a
      value; a caller that writes to a slice while a call is reading it is a
      data race, and not modelled.
    - In Demo.v the nodes talk to each other through what their goroutines do
      between two steps, which is arbitrary; text is kept as format and
      arguments.
    - In Replica.v a process that dies in [Restore] leaves the directories as
      the file system was at that call; Badger is assumed to recover a
      database that was in use ([recovers]).
    - In the world a method runs alone: the calls Raft makes while a method
      waits run where the method waits.  The lock that makes this sound is
      modelled on its own in Locks.v.  There a callback of [ViewBadger] may read
      and write through its node, and nest callbacks; one that calls [Close]
      waits for itself, and is not modelled.
    - In Replica.v an entry that decodes is applied without an error: a node
      whose transaction fails diverges, as the source says.  A restore that
      fails does so on one fault or on a stream Badger does not load; with two
      faults the node can lose its data ([swap_double_fault]).

    Planned: laws of membership changes; linearizable scans after a write. *)
From stdpp Require Export base tactics list gmap strings pretty.
From Stdlib Require Export ZArith Lia.
#[global] Set Default Goal Selector "!".

(** ** Results and the state-and-error monad

    A Go function that returns [(T, error)] is a function into [result E T];
    a method that reads and writes the world is a [ST W E T].  An error does
    not undo the state changes made before it, exactly as in Go. *)
Inductive result (E A : Type) : Type :=
| Ok (a : A)
| Err (e : E).
Arguments Ok {E A} _.
Arguments Err {E A} _.

Definition result_bind {E A B} (m : result E A) (f : A -> result E B) : result E B :=
  match m with Ok a => f a | Err e => Err e end.

Definition is_ok {E A} (r : result E A) : bool :=
  match r with Ok _ => true | Err _ => false end.

(** The [error] result of a Go function, [None] standing for [nil]. *)
Definition of_error {E} (e : option E) : result E unit :=
  match e with Some e => Err e | None => Ok tt end.

Definition error_of {E A} (r : result E A) : option E :=
  match r with Ok _ => None | Err e => Some e end.

Definition ST (W E A : Type) : Type := W -> W * result E A.

Definition st_ret {W E A} (a : A) : ST W E A := fun w => (w, Ok a).
Definition st_err {W E A} (e : E) : ST W E A := fun w => (w, Err e).
Definition st_lift {W E A} (r : result E A) : ST W E A := fun w => (w, r).
Definition st_get {W E} : ST W E W := fun w => (w, Ok w).
Definition st_mod {W E} (f : W -> W) : ST W E unit := fun w => (f w, Ok tt).
Definition st_bind {W E A B} (m : ST W E A) (f : A -> ST W E B) : ST W E B :=
  fun w => match m w with
           | (w', Ok a) => f a w'
           | (w', Err e) => (w', Err e)
           end.

(** [err := f()]: run [m] and hand its error to the continuation instead of
    returning it. *)
Definition st_try {W E A} (m : ST W E A) : ST W E (result E A) :=
  fun w => let '(w', r) := m w in (w', Ok r).

Declare Scope hb_scope.
Delimit Scope hb_scope with hb.
Notation "'let!' x ':=' m 'in' k" := (st_bind m (fun x => k))
  (at level 10, x name, m at level 100, k at level 200) : hb_scope.
Notation "'do!' m ';' k" := (st_bind m (fun _ => k))
  (at level 10, m at level 100, k at level 200) : hb_scope.
Notation "'ret!' a" := (st_ret a) (at level 100, a at level 9) : hb_scope.
Notation "'fail!' e" := (st_err e) (at level 100, e at level 9) : hb_scope.
#[global] Open Scope hb_scope.

(** Two computations with the same outcome on every world. *)
Definition st_equiv {W E A} (m n : ST W E A) : Prop := forall w, m w = n w.

(** ** Machine integers *)
Definition wrap64 (z : Z) : Z := z mod 2 ^ 64.

(** A Go [uint8]. *)
Definition wrap8 (z : Z) : Z := z mod 2 ^ 8.

(** ** Automation *)
Create HintDb hb discriminated.
Create Rewrite HintDb hb.

(** Expose one monadic computation to [simpl]. *)
Ltac st_unfold :=
  unfold st_bind, st_ret, st_err, st_get, st_mod, st_lift, st_try in *; simpl in *.

(** Case analysis on the scrutinee of a [match] or [if], in the goal or in a
    hypothesis, keeping the equation. *)
Ltac split_match :=
  match goal with
  | |- context [match ?x with _ => _ end] =>
      lazymatch x with context [match _ with _ => _ end] => fail | _ => destruct x eqn:? end
  | H : context [match ?x with _ => _ end] |- _ =>
      lazymatch x with context [match _ with _ => _ end] => fail | _ => destruct x eqn:? end
  end.
Ltac split_all := repeat (split_match; simplify_eq/=; try done).

(** Decide a boolean [Z] or [string] comparison. *)
Ltac case_Z :=
  match goal with
  | |- context [Z.eqb ?a ?b] => destruct (Z.eqb_spec a b)
  | |- context [Z.ltb ?a ?b] => destruct (Z.ltb_spec a b)
  | |- context [Z.leb ?a ?b] => destruct (Z.leb_spec a b)
  | H : context [Z.eqb ?a ?b] |- _ => destruct (Z.eqb_spec a b)
  | H : context [Z.ltb ?a ?b] |- _ => destruct (Z.ltb_spec a b)
  | H : context [Z.leb ?a ?b] |- _ => destruct (Z.leb_spec a b)
  end.

(** ** The monad's laws *)
#[export] Instance st_equiv_equivalence {W E A} : Equivalence (@st_equiv W E A).
Proof.
  split.
  - by intros m w.
  - intros m n H w. by rewrite H.
  - intros m n p H1 H2 w. by rewrite H1, H2.
Qed.

#[export] Instance st_bind_proper {W E A B} :
  Proper (st_equiv ==> pointwise_relation A st_equiv ==> st_equiv) (@st_bind W E A B).
Proof.
  intros m n Hmn f g Hfg w. unfold st_bind. rewrite Hmn.
  destruct (n w) as [w' [a | e]]; [apply Hfg | done].
Qed.

Lemma st_bind_ret {W E A B} (a : A) (f : A -> ST W E B) : st_equiv (st_bind (st_ret a) f) (f a).
Proof. done. Qed.

Lemma st_bind_assoc {W E A B C} (m : ST W E A) (f : A -> ST W E B) (g : B -> ST W E C) :
  st_equiv (st_bind (st_bind m f) g) (st_bind m (fun a => st_bind (f a) g)).
Proof. intros w. unfold st_bind. by destruct (m w) as [w' [a | e]]. Qed.

(** Inversion of a sequential composition: the first part failed, or it
    succeeded and the rest ran in the state it left. *)
Lemma st_bind_inv {W E A B} (m : ST W E A) (f : A -> ST W E B) w w' r :
  st_bind m f w = (w', r) ->
  (exists e, m w = (w', Err e) /\ r = Err e) \/
  (exists w1 a, m w = (w1, Ok a) /\ f a w1 = (w', r)).
Proof. unfold st_bind. destruct (m w) as [w1 [a | e]]; naive_solver. Qed.

Lemma st_bind_ok {W E A B} (m : ST W E A) (f : A -> ST W E B) w w' b :
  st_bind m f w = (w', Ok b) -> exists w1 a, m w = (w1, Ok a) /\ f a w1 = (w', Ok b).
Proof. intros [(e & _ & ?) | ?]%st_bind_inv; naive_solver. Qed.

Lemma st_bind_run {W E A B} (m : ST W E A) (f : A -> ST W E B) w w1 a :
  m w = (w1, Ok a) -> st_bind m f w = f a w1.
Proof. unfold st_bind. by intros ->. Qed.

Lemma st_bind_run_err {W E A B} (m : ST W E A) (f : A -> ST W E B) w w1 e :
  m w = (w1, Err e) -> st_bind m f w = (w1, Err e).
Proof. unfold st_bind. by intros ->. Qed.

Lemma wrap64_small z : (0 <= z < 2 ^ 64)%Z -> wrap64 z = z.
Proof. intros. by apply Z.mod_small. Qed.

Lemma wrap64_range z : (0 <= wrap64 z < 2 ^ 64)%Z.
Proof. by apply Z.mod_pos_bound. Qed.
