(* ===== verification/Errors.v ===== *)
(** * Errors: the error values of [types.go] and the [errors] package

    Error values are kept symbolic: [fmt.Errorf] with one [%w] is a node that
    carries the format, its other arguments and the wrapped error.
    [errors.Is] and [errors.As] walk the unwrap tree as the standard library
    does. *)
From S2P Require Import Prelude.

(** Errors compared by identity: the package's own sentinels
    ([types.go]), those of the libraries the source tests for with
    [errors.Is], and any other foreign error, told apart by its text. *)
Inductive sentinel : Set :=
| ErrKeyNotFound
| ErrNotLeader
| ErrClosed
| ErrNoLeader
| ErrInvalidArgument
| raft_ErrNotLeader
| raft_ErrCantBootstrap
| badger_ErrKeyNotFound
| foreign (text : string).

#[export] Instance sentinel_eq_dec : EqDecision sentinel.
Proof. solve_decision. Defined.

(** An argument of a format verb other than [%w]. *)
Inductive fmtarg : Set :=
| ArgInt (z : Z)
| ArgStr (s : string)
| ArgDur (ns : Z)
| ArgType (name : string).

Inductive error : Set :=
| Sentinel (s : sentinel)
| NotLeaderError (LeaderID LeaderAddr : string)
| New (text : string)
| Plain (format : string) (args : list fmtarg)      (** [fmt.Errorf] without [%w] *)
| Errorf (format : string) (args : list fmtarg) (wrapped : error)
| Join (errs : list error).

(** The message texts of the package's sentinels. *)
Definition sentinel_Error (s : sentinel) : string :=
  match s with
  | ErrKeyNotFound => "honeybadger: key not found"
  | ErrNotLeader => "honeybadger: not the leader"
  | ErrClosed => "honeybadger: database is closed"
  | ErrNoLeader => "honeybadger: no leader known"
  | ErrInvalidArgument => "honeybadger: invalid argument"
  | raft_ErrNotLeader => "node is not the leader"
  | raft_ErrCantBootstrap => "bootstrap only works on new clusters"
  | badger_ErrKeyNotFound => "Key not found"
  | foreign t => t
  end.

Definition is_empty (s : string) : bool := bool_decide (s = EmptyString).

(** The [Error] method of [NotLeaderError]. *)
Definition NotLeaderError_Error (LeaderID LeaderAddr : string) : string :=
  if negb (is_empty LeaderID) && negb (is_empty LeaderAddr) then
    sentinel_Error ErrNotLeader +:+ " (leader " +:+ LeaderID +:+ " at " +:+ LeaderAddr +:+ ")"
  else if negb (is_empty LeaderAddr) then
    sentinel_Error ErrNotLeader +:+ " (leader at " +:+ LeaderAddr +:+ ")"
  else sentinel_Error ErrNotLeader.

(** The [Unwrap] method of [NotLeaderError]. *)
Definition NotLeaderError_Unwrap (LeaderID LeaderAddr : string) : error :=
  Sentinel ErrNotLeader.

(** [errors.Is(err, target)] for a target compared by identity: the error
    itself, then what it unwraps to. *)
Fixpoint Is (err : error) (target : sentinel) : bool :=
  match err with
  | Sentinel s => bool_decide (s = target)
  | NotLeaderError id addr =>
      match NotLeaderError_Unwrap id addr with
      | Sentinel s => bool_decide (s = target)
      | _ => false
      end
  | New _ | Plain _ _ => false
  | Errorf _ _ e => Is e target
  | Join es => existsb (fun e => Is e target) es
  end.

(** [errors.As] into a [NotLeaderError] pointer: the first one of the unwrap tree. *)
Fixpoint As_NotLeaderError (err : error) : option (string * string) :=
  match err with
  | NotLeaderError id addr => Some (id, addr)
  | Errorf _ _ e => As_NotLeaderError e
  | Join es =>
      fold_right (fun e acc => match As_NotLeaderError e with Some x => Some x | None => acc end)
        None es
  | _ => None
  end.

(** [fmt.Errorf] with [%w] for [ErrInvalidArgument], the shape of every
    argument check of the package. *)
Definition invalid (format : string) (args : list fmtarg) : error :=
  Errorf format args (Sentinel ErrInvalidArgument).

(** [errors.Join]: [nil] errors are dropped, and joining only those is [nil]. *)
Definition errors_Join (errs : list (option error)) : option error :=
  match omap id errs with
  | [] => None
  | es => Some (Join es)
  end.

(** ** Lemmas *)

Lemma Is_Errorf f args e t : Is (Errorf f args e) t = Is e t.
Proof. done. Qed.

Lemma Is_invalid f args : Is (invalid f args) ErrInvalidArgument = true.
Proof. done. Qed.

Lemma Is_NotLeader id addr : Is (NotLeaderError id addr) ErrNotLeader = true.
Proof. done. Qed.

Lemma Is_Sentinel s : Is (Sentinel s) s = true.
Proof. simpl. by apply bool_decide_eq_true. Qed.

#[export] Hint Resolve Is_invalid Is_NotLeader Is_Sentinel : hb.
#[export] Hint Rewrite Is_Errorf : hb.

Lemma errors_Join_None es : errors_Join es = None <-> Forall (fun e => e = None) es.
Proof.
  assert (errors_Join es = None <-> omap id es = []) as ->.
  { unfold errors_Join. by destruct (omap id es). }
  induction es as [| [e |] es IH]; [done | |].
  - split; [done |]. intros H. by inversion H.
  - rewrite Forall_cons, <- IH. naive_solver.
Qed.

(** A joined error matches a target exactly when one of its parts does. *)
Lemma errors_Join_Is es t :
  (exists e, errors_Join es = Some e /\ Is e t = true) <->
  (exists e, Some e ∈ es /\ Is e t = true).
Proof.
  assert (forall e, e ∈ omap id es <-> Some e ∈ es) as Hin.
  { intros e. rewrite list_elem_of_omap. naive_solver. }
  unfold errors_Join. destruct (omap id es) as [| e0 es'] eqn:E.
  - split; [naive_solver |]. intros (e & He & _). apply Hin in He. by apply not_elem_of_nil in He.
  - split.
    + intros (e & [= <-] & H). cbn [Is] in H. apply existsb_exists in H as (x & Hx & H).
      exists x. split; [| done]. apply Hin. by apply list_elem_of_In.
    + intros (e & He & H). eexists; split; [done |]. cbn [Is]. apply existsb_exists.
      exists e. split; [| done]. apply list_elem_of_In. by apply Hin.
Qed.
