(* ===== verification/Types.v ===== *)
(** * Types: the exported data types of [types.go] and their renderings

    [NodeRole] and [State] are Go [uint8]s with named constants, so unknown
    values exist and are kept; the Raft enumerations they are translated from
    are foreign. *)
From S2P Require Import Prelude.

(** A Go [uint8] with named constants. *)
Abbreviation NodeRole := Z.
Definition RoleNone : NodeRole := 0.
Definition RoleVoter : NodeRole := 1.
Definition RoleNonvoter : NodeRole := 2.
Definition RoleStaging : NodeRole := 3.

(** [NodeRole.String]. *)
Definition NodeRole_String (r : NodeRole) : string :=
  if (r =? RoleNone)%Z then "None"
  else if (r =? RoleVoter)%Z then "Voter"
  else if (r =? RoleNonvoter)%Z then "Nonvoter"
  else if (r =? RoleStaging)%Z then "Staging"
  else "NodeRole(" +:+ pretty (wrap8 r) +:+ ")".

Record Node := mkNode { ID : string; RaftAddr : string; Role : NodeRole }.

#[export] Instance Node_eq_dec : EqDecision Node.
Proof. solve_decision. Defined.

(** The zero [Node{}]. *)
Definition zeroNode : Node := mkNode EmptyString EmptyString RoleNone.

Abbreviation State := Z.
Definition StateFollower : State := 0.
Definition StateCandidate : State := 1.
Definition StateLeader : State := 2.
Definition StateShutdown : State := 3.

(** [State.String]. *)
Definition State_String (s : State) : string :=
  if (s =? StateFollower)%Z then "Follower"
  else if (s =? StateCandidate)%Z then "Candidate"
  else if (s =? StateLeader)%Z then "Leader"
  else if (s =? StateShutdown)%Z then "Shutdown"
  else "State(" +:+ pretty (wrap8 s) +:+ ")".

(** The constants of [raft.RaftState] the source names; any other value of
    that foreign type falls in the last constructor. *)
Inductive RaftState : Set :=
| raft_Follower
| raft_Candidate
| raft_Leader
| raft_Shutdown
| raft_otherState (n : Z).

#[export] Instance RaftState_eq_dec : EqDecision RaftState.
Proof. solve_decision. Defined.

(** [stateFromRaft]. *)
Definition stateFromRaft (raftState : RaftState) : State :=
  match raftState with
  | raft_Candidate => StateCandidate
  | raft_Leader => StateLeader
  | raft_Shutdown => StateShutdown
  | _ => StateFollower
  end.

(** The constants of [raft.ServerSuffrage]. *)
Inductive ServerSuffrage : Set :=
| raft_Voter
| raft_Nonvoter
| raft_Staging
| raft_otherSuffrage (n : Z).

(** A [raft.Server] of a cluster configuration. *)
Record Server := mkServer { Suffrage : ServerSuffrage; ServerID : string; Address : string }.

(** [roleFromRaft] ([cluster.go]). *)
Definition roleFromRaft (suffrage : ServerSuffrage) : NodeRole :=
  match suffrage with
  | raft_Voter => RoleVoter
  | raft_Nonvoter => RoleNonvoter
  | raft_Staging => RoleStaging
  | raft_otherSuffrage _ => RoleNone
  end.

Record Status := mkStatus {
  st_Local : Node;
  st_State : State;
  st_Leader : option Node;
  st_AppliedIndex : Z
}.

Record Entry := mkEntry { e_Key : string; e_Value : string }.

#[export] Instance Entry_eq_dec : EqDecision Entry.
Proof. solve_decision. Defined.

(** ** Lemmas *)

(** The rendering of a role or a state never confuses a named constant with
    another value of the type. *)
Lemma bracket_inj a b p : p +:+ a +:+ ")" = p +:+ b +:+ ")" -> a = b.
Proof.
  induction p as [| c p IH]; simpl; [| intros [= H]; auto].
  revert b. induction a as [| x a IHa]; intros [| y b]; simpl; try done.
  - intros [= -> H]. by destruct b.
  - intros [= -> H]. by destruct a.
  - intros [= -> H]. f_equal. by apply IHa.
Qed.

(** The package's states and roles are in range. *)
Lemma stateFromRaft_range s : (0 <= stateFromRaft s <= StateShutdown)%Z.
Proof. by destruct s. Qed.

Lemma roleFromRaft_range s : (0 <= roleFromRaft s <= RoleStaging)%Z.
Proof. by destruct s. Qed.

(** ** Renderings *)

(** The byte values. *)
Definition bytes : list Z := seqZ 0 256.

Definition inj_on_bytes (f : Z -> string) : bool :=
  forallb (fun a => forallb (fun b => implb (bool_decide (f a = f b)) (a =? b)%Z) bytes) bytes.

Lemma inj_on_bytes_spec f a b :
  inj_on_bytes f = true -> (0 <= a < 256)%Z -> (0 <= b < 256)%Z -> f a = f b -> a = b.
Proof.
  intros H Ha Hb Hf. unfold inj_on_bytes in H. rewrite forallb_forall in H.
  assert (forall z, (0 <= z < 256)%Z -> In z bytes) as Hin.
  { intros z Hz. apply list_elem_of_In, elem_of_seqZ. lia. }
  specialize (H a (Hin a Ha)). rewrite forallb_forall in H. specialize (H b (Hin b Hb)).
  rewrite bool_decide_eq_true_2 in H by done. by apply Z.eqb_eq.
Qed.

(** The renderings of roles and of states tell all 256 values of their types
    apart: no unknown value is printed like a named one or like another. *)
Theorem renderings_injective a b :
  (0 <= a < 256)%Z -> (0 <= b < 256)%Z ->
  (NodeRole_String a = NodeRole_String b -> a = b) /\ (State_String a = State_String b -> a = b).
Proof. intros Ha Hb. split; (apply inj_on_bytes_spec; [by vm_compute | done | done]). Qed.

Lemma renderings_injective_witness : NodeRole_String 1 = NodeRole_String 1 -> (1 = 1)%Z.
Proof. apply (proj1 (renderings_injective 1 1 ltac:(lia) ltac:(lia))). Defined.
