(* ===== verification/Options.v ===== *)
(** * Options: [options.go], [config.go] and the TTL stamping of [write.go] *)
From S2P Require Import Prelude Errors.

(** A [time.Duration]: nanoseconds in an [int64]. *)
Abbreviation Duration := Z.
Definition Second : Duration := 1000000000.
Definition Millisecond : Duration := 1000000.

(** A [time.Time]: nanoseconds since the Unix epoch. [t.Unix()] is its
    number of whole seconds, rounded down. *)
Definition Unix (t : Z) : Z := t / Second.

(** ** Configuration ([config.go]) *)

Definition defaultApplyTimeout : Duration := 10 * Second.
Definition defaultSnapshotThreshold : Z := 8192.
Definition newClusterLeaderTimeout : Duration := 30 * Second.

(** The fields of a [badger.Options] the source reads or writes. *)
Record badger_Options := mkOptions { Dir : string; ValueDir : string; Logging : bool }.

#[export] Instance badger_Options_eq_dec : EqDecision badger_Options.
Proof. solve_decision. Defined.

Record AdvancedConfig := mkAdvanced {
  ApplyTimeout : Duration;
  SnapshotThreshold : Z;
  RaftAdvertise : string;
  BadgerOptions : option badger_Options;
  LogOutput : option string
}.

Record Config := mkConfig {
  NodeID : string;
  RaftBind : string;
  DataDir : string;
  Advanced : AdvancedConfig
}.

(** The writer [io.Discard]; other writers are told apart by name. *)
Definition io_Discard : string := "io.Discard".

(** The method [setDefaults] of [Config]. *)
Definition setDefaults (c : Config) : Config :=
  let a := Advanced c in
  mkConfig (NodeID c) (RaftBind c) (DataDir c)
    (mkAdvanced
       (if (ApplyTimeout a <=? 0)%Z then defaultApplyTimeout else ApplyTimeout a)
       (if (SnapshotThreshold a =? 0)%Z then defaultSnapshotThreshold else SnapshotThreshold a)
       (RaftAdvertise a)
       (BadgerOptions a)
       (match LogOutput a with None => Some io_Discard | w => w end)).

(** ** Open options *)

(** A value of the sealed interface [OpenOption]: the package's one
    implementation, or anything else (a [nil] interface). *)
Inductive OpenOption : Set :=
| newClusterOption
| otherOpenOption (typename : string).

Definition NewCluster : OpenOption := newClusterOption.

(** ** Set options and TTLs *)

Inductive SetOption : Set :=
| ttlOption (ttl : Duration)
| otherSetOption (typename : string).

Definition WithTTL (ttl : Duration) : SetOption := ttlOption ttl.

(** [absExpiry] ([write.go]), [now] being what [time.Now] returns there. *)
Definition absExpiry (now : Z) (ttl : Duration) : Z :=
  if (ttl =? 0)%Z then 0%Z else wrap64 (Unix (now + ttl)).

(** The loop of [resolveSetOptions]: the last TTL seen, [None] for
    [hasTTL == false]. *)
Fixpoint lastTTL (ttl : option Duration) (opts : list SetOption) : result error (option Duration) :=
  match opts with
  | [] => Ok ttl
  | ttlOption t :: opts' => lastTTL (Some t) opts'
  | otherSetOption n :: _ => Err (invalid "%w: unknown set option %T" [ArgType n])
  end.

(** What [resolveSetOptions] answers when its clock says [now]; [Write] has the
    function itself, which reads the clock. *)
Definition resolveSetOptions_at (now : Z) (opts : list SetOption) : result error Z :=
  result_bind (lastTTL None opts) (fun o =>
    match o with
    | None => Ok 0%Z
    | Some ttl =>
        if (ttl <=? 0)%Z then
          Err (invalid "%w: option WithTTL requires a positive TTL, got %s" [ArgDur ttl])
        else Ok (absExpiry now ttl)
    end).

(** ** Batch mutations *)

Abbreviation mutKind := Z.
Definition mutSet : mutKind := 1.
Definition mutDelete : mutKind := 2.

Record Mutation := mkMutation {
  m_kind : mutKind;
  m_key : string;
  m_value : string;
  m_opts : list SetOption
}.

(** The zero [Mutation{}]. *)
Definition zeroMutation : Mutation := mkMutation 0 EmptyString EmptyString [].

Definition SetBytesOp (key value : string) (opts : list SetOption) : Mutation :=
  mkMutation mutSet key value opts.
Definition SetOp (key value : string) (opts : list SetOption) : Mutation :=
  mkMutation mutSet key value opts.
Definition DeleteBytesOp (key : string) : Mutation :=
  mkMutation mutDelete key EmptyString [].
Definition DeleteOp (key : string) : Mutation :=
  mkMutation mutDelete key EmptyString [].

(** ** Read and scan options *)

Abbreviation ReadMode := Z.
Definition ReadLinearizable : ReadMode := 0.
Definition ReadLocal : ReadMode := 1.

(** [ReadMode.String]. *)
Definition ReadMode_String (m : ReadMode) : string :=
  if (m =? ReadLinearizable)%Z then "Linearizable"
  else if (m =? ReadLocal)%Z then "Local"
  else "ReadMode(" +:+ pretty (wrap8 m) +:+ ")".

Record ReadOptions := mkReadOptions { Mode : ReadMode; Timeout : Duration }.

(** The zero [ReadOptions{}]. *)
Definition zeroReadOptions : ReadOptions := mkReadOptions ReadLinearizable 0.

Definition timeoutOr (ro : ReadOptions) (def : Duration) : Duration :=
  if (0 <? Timeout ro)%Z then Timeout ro else def.

Definition defaultScanLimit : Z := 100.

Record ScanOptions := mkScanOptions { Read : ReadOptions; Limit : Z; Unlimited : bool }.

(** [ScanOptions.resolveLimit]: 0 stands for no limit. *)
Definition resolveLimit (so : ScanOptions) : result error Z :=
  if (Limit so <? 0)%Z then
    Err (invalid "%w: negative scan limit %d; use 0 for the default of %d or Unlimited: true"
           [ArgInt (Limit so); ArgInt defaultScanLimit])
  else if Unlimited so then Ok 0%Z
  else if (Limit so =? 0)%Z then Ok defaultScanLimit
  else Ok (Limit so).

(** ** Lemmas *)

(** The last [ttlOption] of a list of options. *)
Definition ttls (opts : list SetOption) : list Duration :=
  omap (fun o => match o with ttlOption t => Some t | otherSetOption _ => None end) opts.

Definition known_option (o : SetOption) : Prop :=
  match o with ttlOption _ => True | otherSetOption _ => False end.

#[export] Instance known_option_dec o : Decision (known_option o).
Proof. destruct o; simpl; apply _. Defined.

Lemma lastTTL_known t opts :
  Forall known_option opts -> lastTTL t opts = Ok (match last (ttls opts) with Some d => Some d | None => t end).
Proof.
  intros H. revert t. induction H as [| [d | n] opts Ho _ IH]; intros t; [done | | done].
  cbn [lastTTL]. rewrite IH. change (ttls (ttlOption d :: opts)) with (d :: ttls opts).
  destruct (ttls opts) as [| d' ds]; [done |].
  rewrite last_cons_cons. by destruct (last_is_Some (d' :: ds)) as [_ [x ->]].
Qed.

Lemma lastTTL_unknown t opts :
  ~ Forall known_option opts -> exists e, lastTTL t opts = Err e /\ Is e ErrInvalidArgument = true.
Proof.
  revert t. induction opts as [| [d | n] opts IH]; intros t H; simpl.
  - destruct H. constructor.
  - apply IH. intros ?. apply H. by constructor.
  - eauto with hb.
Qed.

(** The expiry is a 64-bit value whatever the clock. *)
Lemma absExpiry_range now ttl : (0 <= absExpiry now ttl < 2 ^ 64)%Z.
Proof. unfold absExpiry. case_Z; [lia | apply wrap64_range]. Qed.

(** Unless the clock is before 1970 or the result leaves 64 bits, the expiry
    is the whole second of [now + ttl]. *)
Lemma absExpiry_exact now ttl :
  (0 < ttl)%Z -> (0 <= Unix (now + ttl) < 2 ^ 64)%Z -> absExpiry now ttl = Unix (now + ttl).
Proof. intros Ht Hr. unfold absExpiry. case_Z; [lia |]. by apply wrap64_small. Qed.

Lemma Unix_mono a b : (a <= b)%Z -> (Unix a <= Unix b)%Z.
Proof. intros. by apply Z.div_le_mono. Qed.

Lemma resolveSetOptions_at_cases now opts :
  (exists e, resolveSetOptions_at now opts = Err e /\ Is e ErrInvalidArgument = true) \/
  (exists x, resolveSetOptions_at now opts = Ok x /\ (0 <= x < 2 ^ 64)%Z).
Proof.
  unfold resolveSetOptions_at. destruct (decide (Forall known_option opts)) as [H | H].
  - rewrite (lastTTL_known _ _ H). simpl. destruct (last (ttls opts)) as [d |]; simpl.
    + case_Z; [eauto with hb | right; eauto using absExpiry_range].
    + right. eexists; split; [done | lia].
  - destruct (lastTTL_unknown None _ H) as (e & -> & He). simpl. eauto.
Qed.

(** Defaults: whatever the caller left out or set to nonsense, the
    configuration in use has a positive apply timeout, a non-zero snapshot
    threshold and a log output; a set value is kept, the required fields are
    untouched, and completing a configuration twice changes nothing more. *)
Theorem setDefaults_complete c :
  let d := setDefaults c in
  (0 < ApplyTimeout (Advanced d))%Z /\ SnapshotThreshold (Advanced d) <> 0%Z /\
  LogOutput (Advanced d) <> None /\ setDefaults d = d /\
  (NodeID d, RaftBind d, DataDir d) = (NodeID c, RaftBind c, DataDir c) /\
  ((0 < ApplyTimeout (Advanced c))%Z -> ApplyTimeout (Advanced d) = ApplyTimeout (Advanced c)) /\
  (SnapshotThreshold (Advanced c) <> 0%Z -> SnapshotThreshold (Advanced d) = SnapshotThreshold (Advanced c)).
Proof.
  destruct c as [n b dd [t s adv bo lo]]. unfold setDefaults, defaultApplyTimeout, defaultSnapshotThreshold; simpl.
  destruct (Z.leb_spec t 0), (Z.eqb_spec s 0); simpl; unfold Second;
    (split; [lia |]); (split; [lia |]); (split; [by destruct lo |]); (split; [| repeat split; lia]);
    repeat (rewrite ?(proj2 (Z.leb_gt _ _)), ?(proj2 (Z.eqb_neq _ _)) by lia); by destruct lo.
Qed.

Lemma setDefaults_complete_witness :
  let d := setDefaults (mkConfig "n1" "a" "d" (mkAdvanced 0 0 EmptyString None None)) in
  (0 < ApplyTimeout (Advanced d))%Z /\ setDefaults d = d.
Proof.
  destruct (setDefaults_complete (mkConfig "n1" "a" "d" (mkAdvanced 0 0 EmptyString None None)))
    as (H1 & _ & _ & H2 & _). split; [exact H1 | exact H2].
Defined.
