(* ===== verification/Slices.v ===== *)
(** * Slices: the memory of [options.go]

    Go's slices share their arrays, so a caller can overwrite a key it has
    passed to a constructor.  Here arrays live in a heap, a slice is a window on
    one, and the constructors of [options.go] are the code that copies: whatever
    the caller then does to its own slices, a [Mutation] stays the value
    [Options] gives it. *)
From S2P Require Import Prelude Errors Options.
From Stdlib Require Import Ascii.

(** ** Slices *)

(** A window of [s_len] elements, that may grow to [s_cap], on an array. *)
Record slice := mkSlice { s_arr : nat; s_off : nat; s_len : nat; s_cap : nat }.

(** [None] is [nil]. *)
Abbreviation ref := (option slice).

Definition len (s : ref) : nat := from_option s_len 0 s.
Definition cap (s : ref) : nat := from_option s_cap 0 s.

(** [s[i:j:k]]. *)
Definition reslice (i j k : nat) (s : ref) : ref :=
  (fun s => mkSlice (s_arr s) (s_off s + i) (j - i) (k - i)) <$> s.

(** The arrays of one element type, by address. *)
Abbreviation arena A := (list (list A)).

Section Arena.
Context {A : Type} (zero : A) (grow : nat -> nat -> nat).   (** [grow]: the capacity the runtime picks *)

Definition elements (h : arena A) (s : ref) : list A :=
  match s with
  | None => []
  | Some s => take (s_len s) (drop (s_off s) (default [] (h !! s_arr s)))
  end.

Definition alloc (h : arena A) (xs : list A) (c : nat) : arena A * ref :=
  (h ++ [xs ++ replicate (c - length xs) zero], Some (mkSlice (length h) 0 (length xs) (Nat.max (length xs) c))).

(** [s[i] = x]. *)
Definition store_at (h : arena A) (s : slice) (i : nat) (x : A) : arena A :=
  alter (<[s_off s + i := x]>) (s_arr s) h.

(** [append(s, xs...)]: in place while the capacity lasts. *)
Definition append (h : arena A) (s : ref) (xs : list A) : arena A * ref :=
  let n := len s + length xs in
  if n <=? cap s then
    (match s with Some s => alter (list_inserts (s_off s + s_len s) xs) (s_arr s) h | None => h end,
     (fun s => mkSlice (s_arr s) (s_off s) n (s_cap s)) <$> s)
  else alloc h (elements h s ++ xs) (grow (cap s) n).

(** [bytes.Clone(s)]: [append([]byte{}, s...)], and [nil] for [nil]. *)
Definition bytes_Clone (h : arena A) (s : ref) : arena A * ref :=
  match s with
  | None => (h, None)
  | Some _ => let '(h1, e) := alloc h [] 0 in append h1 e (elements h1 s)
  end.

(** [slices.Clone(s)]: [append(s[:0:0], s...)]. *)
Definition slices_Clone (h : arena A) (s : ref) : arena A * ref :=
  append h (reslice 0 0 0 s) (elements h s).

(** What a program may do with the slices [rs] it holds. *)
Inductive slice_step : arena A -> list ref -> arena A -> list ref -> Prop :=
| do_make h rs xs c : slice_step h rs (fst (alloc h xs c)) (rs ++ [snd (alloc h xs c)])
| do_store h rs s i x : Some s ∈ rs -> i < s_len s -> slice_step h rs (store_at h s i x) rs
| do_reslice h rs s i j k : s ∈ rs -> i <= j -> j <= k -> k <= cap s -> slice_step h rs h (rs ++ [reslice i j k s])
| do_append h rs s xs : s ∈ rs -> slice_step h rs (fst (append h s xs)) (rs ++ [snd (append h s xs)]).

(** ** Well-typed slices, and slices that do not overlap *)

Definition well_typed (h : arena A) (s : ref) : Prop :=
  match s with
  | None => True
  | Some s => s_len s <= s_cap s /\ exists xs, h !! s_arr s = Some xs /\ s_off s + s_cap s <= length xs
  end.

Definition separate (s t : ref) : Prop :=
  match s, t with
  | Some s, Some t => s_arr s <> s_arr t \/ s_cap s = 0 \/ s_cap t = 0
  | _, _ => True
  end.

(** [s'] was obtained from [s]: slices stay well typed, and those that do not
    overlap [s] keep their elements and do not overlap [s'] either. *)
Definition obtains (h : arena A) (s : ref) (h' : arena A) (s' : ref) : Prop :=
  well_typed h' s' /\
  forall t, well_typed h t -> well_typed h' t /\ (separate s t -> elements h' t = elements h t /\ separate s' t).

Lemma obtains_trans h s h1 s1 h2 s2 : obtains h s h1 s1 -> obtains h1 s1 h2 s2 -> obtains h s h2 s2.
Proof.
  intros [_ H1] [Hw H2]. split; [done |]. intros t Ht. destruct (H1 t Ht) as [Ht1 Hs1].
  destruct (H2 t Ht1) as [Ht2 Hs2]. split; [done |]. intros Hs. destruct (Hs1 Hs) as [E1 Hs'].
  destruct (Hs2 Hs') as [E2 ?]. split; [by rewrite E2 | done].
Qed.

Lemma well_typed_grow h xs t : well_typed h t -> well_typed (h ++ [xs]) t.
Proof.
  destruct t as [t |]; [| done]. intros [? (ys & Hy & ?)]. split; [done |]. exists ys.
  by rewrite (lookup_app_l_Some _ _ _ _ Hy).
Qed.

Lemma elements_grow h xs t : well_typed h t -> elements (h ++ [xs]) t = elements h t.
Proof. destruct t as [t |]; [| done]. intros [_ (ys & Hy & _)]. simpl. by rewrite (lookup_app_l_Some _ _ _ _ Hy), Hy. Qed.

(** A new array overlaps nothing. *)
Lemma alloc_obtains h xs c s : obtains h s (fst (alloc h xs c)) (snd (alloc h xs c)).
Proof.
  split.
  - split; simpl; [lia |]. eexists. split; [by apply list_lookup_middle |]. rewrite length_app, length_replicate. lia.
  - intros t Ht. split; [by apply well_typed_grow |]. intros _. split; [by apply elements_grow |].
    destruct t as [t |]; [| done]. destruct Ht as [_ (ys & Hy & _)]. left. simpl.
    apply lookup_lt_Some in Hy. lia.
Qed.

Lemma alloc_elements h xs c : elements (fst (alloc h xs c)) (snd (alloc h xs c)) = xs.
Proof. simpl. rewrite list_lookup_middle by done. simpl. by rewrite drop_0, take_app_length. Qed.

(** Writing inside the window of [s]. *)
Lemma alter_obtains f h s n :
  (forall xs, length (f xs) = length xs) -> (s_cap s = 0 -> forall xs, f xs = xs) ->
  well_typed h (Some s) -> n <= s_cap s ->
  obtains h (Some s) (alter f (s_arr s) h) (Some (mkSlice (s_arr s) (s_off s) n (s_cap s))).
Proof.
  intros Hlen H0 [_ (xs & Hx & Hb)] Hn. split.
  - split; [done |]. exists (f xs). cbn [s_arr s_off s_cap]. rewrite list_lookup_alter_eq, Hx, Hlen. done.
  - intros [t |] Ht; [| done]. destruct Ht as [Hl (ys & Hy & Hc)]. split.
    + split; [done |]. destruct (decide (s_arr s = s_arr t)) as [E | Hne].
      * rewrite <- E in *. exists (f ys). by rewrite list_lookup_alter_eq, Hy, Hlen.
      * exists ys. by rewrite list_lookup_alter_ne.
    + intros Hs. split; [| done]. simpl. destruct Hs as [Hne | [Hz | Hz]].
      * by rewrite list_lookup_alter_ne.
      * f_equal. f_equal. f_equal. destruct (decide (s_arr s = s_arr t)) as [E | Hne].
        { rewrite E, list_lookup_alter_eq, Hy. simpl. by rewrite H0. }
        by rewrite list_lookup_alter_ne.
      * replace (s_len t) with 0 by lia. done.
Qed.

Lemma reslice_obtains h s i j k : well_typed h s -> i <= j -> j <= k -> k <= cap s -> obtains h s h (reslice i j k s).
Proof.
  intros Hs Hi Hj Hk. split.
  - destruct s as [s |]; [| done]. destruct Hs as [? (xs & Hx & ?)]. simpl in *. split; [simpl; lia |].
    exists xs. split; [done |]. simpl. lia.
  - intros t Ht. split; [done |]. intros Hst. split; [done |]. destruct s as [s |], t as [t |]; simpl in *; (done || lia).
Qed.

Lemma append_obtains h s xs : well_typed h s -> obtains h s (fst (append h s xs)) (snd (append h s xs)).
Proof.
  intros Hs. unfold append. destruct (Nat.leb_spec (len s + length xs) (cap s)) as [Hle | Hgt]; [| apply alloc_obtains].
  destruct s as [s |]; simpl in *; [| by split].
  apply alter_obtains; [intros; apply length_inserts | | done | done].
  intros Hz ys. assert (xs = []) as -> by (apply nil_length_inv; lia). done.
Qed.

Lemma list_inserts_window (xs : list A) off n ys :
  off + n + length xs <= length ys ->
  take (n + length xs) (drop off (list_inserts (off + n) xs ys)) = take n (drop off ys) ++ xs.
Proof.
  intros H. apply list_eq. intros i. rewrite lookup_app, length_take, length_drop.
  destruct (decide (i < n + length xs)) as [Hi | Hi].
  - rewrite lookup_take_lt, lookup_drop by done. destruct (decide (i < n)) as [Hin | Hin].
    + rewrite list_lookup_inserts_lt by lia. rewrite lookup_take_lt, lookup_drop by done.
      by destruct (ys !! (off + i)) eqn:E; [| apply lookup_ge_None in E; lia].
    + rewrite list_lookup_inserts by lia. rewrite lookup_take_ge by lia. f_equal. lia.
  - rewrite lookup_take_ge by lia. rewrite lookup_take_ge by lia. symmetry. apply lookup_ge_None. lia.
Qed.

Lemma append_elements h s xs :
  well_typed h s -> elements (fst (append h s xs)) (snd (append h s xs)) = elements h s ++ xs.
Proof.
  intros Hs. unfold append. destruct (Nat.leb_spec (len s + length xs) (cap s)) as [Hle | Hgt]; [| apply alloc_elements].
  destruct s as [s |]; simpl in *; [| by destruct xs; simpl in *; [| lia]].
  destruct Hs as [Hl (ys & Hy & Hb)]. rewrite list_lookup_alter_eq, Hy. simpl. apply list_inserts_window. lia.
Qed.

(** ** Copies *)

(** [s'] is a copy of [s] nothing overlaps. *)
Definition copies (h : arena A) (s : ref) (h' : arena A) (s' : ref) : Prop :=
  obtains h None h' s' /\ elements h' s' = elements h s.

Lemma bytes_Clone_copies h s : well_typed h s -> copies h s (fst (bytes_Clone h s)) (snd (bytes_Clone h s)).
Proof.
  intros Hs. destruct s as [s |]; [| done]. unfold bytes_Clone. destruct (alloc h [] 0) as [h1 e] eqn:E.
  pose proof (alloc_obtains h [] 0 None) as Ho. pose proof (alloc_elements h [] 0) as He. rewrite E in Ho, He. simpl in Ho, He.
  split.
  - eapply obtains_trans; [exact Ho |]. apply append_obtains, (proj1 Ho).
  - rewrite append_elements by exact (proj1 Ho). rewrite He. exact (proj1 (proj2 (proj2 Ho _ Hs) I)).
Qed.

Lemma slices_Clone_copies h s : well_typed h s -> copies h s (fst (slices_Clone h s)) (snd (slices_Clone h s)).
Proof.
  intros Hs. unfold slices_Clone.
  assert (obtains h None h (reslice 0 0 0 s)) as Ho.
  { split; [exact (proj1 (reslice_obtains h s 0 0 0 Hs ltac:(lia) ltac:(lia) ltac:(lia))) |]. intros t Ht. split; [done |]. intros _. split; [done |].
    destruct s, t; simpl; auto. }
  split.
  - eapply obtains_trans; [exact Ho |]. apply append_obtains, (proj1 Ho).
  - rewrite append_elements by exact (proj1 Ho). by destruct s.
Qed.

(** ** A program with its slices *)

Lemma slice_step_obtains h rs h' rs' :
  slice_step h rs h' rs' -> Forall (well_typed h) rs ->
  Forall (well_typed h') rs' /\
  forall t, well_typed h t -> well_typed h' t /\
    (Forall (fun s => separate s t) rs -> elements h' t = elements h t /\ Forall (fun s => separate s t) rs').
Proof.
  intros Hstep Hrs.
  assert (forall s s' (h' : arena A), s ∈ rs -> obtains h s h' s' ->
    Forall (well_typed h') (rs ++ [s']) /\
    forall t, well_typed h t -> well_typed h' t /\
      (Forall (fun s => separate s t) rs -> elements h' t = elements h t /\ Forall (fun s => separate s t) (rs ++ [s']))) as H.
  { intros s s' h1 Hin [Hw Ho]. split.
    - apply Forall_app. split; [| by constructor]. eapply Forall_impl; [exact Hrs |]. intros r Hr. apply (Ho r Hr).
    - intros t Ht. destruct (Ho t Ht) as [Ht' Hs]. split; [done |]. intros Hsep.
      rewrite Forall_forall in Hsep. destruct (Hs (Hsep s Hin)) as [E Hs']. split; [done |].
      apply Forall_app. split; [by apply Forall_forall | by constructor]. }
  destruct Hstep as [h rs xs c | h rs s i x Hin Hi | h rs s i j k Hin Hi Hj Hk | h rs s xs Hin].
  - destruct (alloc_obtains h xs c None) as [Hw Ho]. split.
    + apply Forall_app. split; [| by constructor]. eapply Forall_impl; [exact Hrs |]. intros r Hr. apply (Ho r Hr).
    + intros t Ht. destruct (Ho t Ht) as [Ht' Hs]. split; [done |]. intros Hsep. destruct (Hs I) as [E Hs'].
      split; [done |]. apply Forall_app. split; [done | by constructor].
  - pose proof Hrs as Hrs'. rewrite Forall_forall in Hrs'. pose proof (Hrs' _ Hin) as Hws.
    destruct (alter_obtains (<[s_off s + i := x]>) h s (s_len s)) as [_ Ho]; [| | done | by destruct Hws |].
    + intros xs. apply length_insert.
    + destruct Hws. lia.
    + split; [eapply Forall_impl; [exact Hrs |]; intros r Hr; apply (Ho r Hr) |].
      intros t Ht. destruct (Ho t Ht) as [Ht' Hs]. split; [done |]. intros Hsep. split; [| done].
      rewrite Forall_forall in Hsep. apply (Hs (Hsep _ Hin)).
  - apply (H s); [done |]. rewrite Forall_forall in Hrs. apply reslice_obtains; auto.
  - apply (H s); [done |]. rewrite Forall_forall in Hrs. apply append_obtains; auto.
Qed.

End Arena.

(** ** The constructors of mutations *)

(** The memory: arrays of bytes and arrays of options. *)
Record memory := mkMemory { h_bytes : arena ascii; h_opts : arena SetOption }.

(** A [Mutation], with its slices. *)
Record Mutation := mkMutation { m_kind : mutKind; m_key : ref; m_value : ref; m_opts : ref }.

Section Constructors.
Variable grow : nat -> nat -> nat.

Definition zero_byte : ascii := "000".
Definition zero_option : SetOption := otherSetOption "<nil>".

Abbreviation byte_alloc := (alloc zero_byte).
Abbreviation clone_bytes := (bytes_Clone zero_byte grow).
Abbreviation clone_opts := (slices_Clone zero_option grow).

(** [[]byte(s)]. *)
Definition bytes_of_string (h : arena ascii) (s : string) : arena ascii * ref :=
  byte_alloc h (String.list_ascii_of_string s) 0.

Definition SetBytesOp (key value opts : ref) (m : memory) : memory * Mutation :=
  let '(h1, key') := clone_bytes (h_bytes m) key in
  let '(h2, value') := clone_bytes h1 value in
  let '(o1, opts') := clone_opts (h_opts m) opts in
  (mkMemory h2 o1, mkMutation mutSet key' value' opts').

Definition SetOp (key value : string) (opts : ref) (m : memory) : memory * Mutation :=
  let '(h1, key') := bytes_of_string (h_bytes m) key in
  let '(h2, value') := bytes_of_string h1 value in
  let '(o1, opts') := clone_opts (h_opts m) opts in
  (mkMemory h2 o1, mkMutation mutSet key' value' opts').

Definition DeleteBytesOp (key : ref) (m : memory) : memory * Mutation :=
  let '(h1, key') := clone_bytes (h_bytes m) key in
  (mkMemory h1 (h_opts m), mkMutation mutDelete key' None None).

Definition DeleteOp (key : string) (m : memory) : memory * Mutation :=
  let '(h1, key') := bytes_of_string (h_bytes m) key in
  (mkMemory h1 (h_opts m), mkMutation mutDelete key' None None).

(** The value a slice of bytes, or a mutation, has in a memory. *)
Definition bytes_at (m : memory) (s : ref) : string := String.string_of_list_ascii (elements (h_bytes m) s).

Definition value_of (m : memory) (mu : Mutation) : Options.Mutation :=
  Options.mkMutation (m_kind mu) (bytes_at m (m_key mu)) (bytes_at m (m_value mu)) (elements (h_opts m) (m_opts mu)).

(** ** A caller *)

(** The memory, the slices the caller holds and the mutations it was given, in
    order; their fields are private. *)
Record caller := mkCaller { c_mem : memory; c_bytes : list ref; c_opts : list ref; c_muts : list Mutation }.

Definition given (r : memory * Mutation) (c : caller) : caller :=
  mkCaller (fst r) (c_bytes c) (c_opts c) (c_muts c ++ [snd r]).

(** A step of the caller: it works on its slices, or it calls a constructor; the
    label is the mutation [Options] makes of the values of the arguments. *)
Inductive caller_step : caller -> list Options.Mutation -> caller -> Prop :=
| on_bytes hb ho bs os ms hb' bs' :
    slice_step zero_byte grow hb bs hb' bs' ->
    caller_step (mkCaller (mkMemory hb ho) bs os ms) [] (mkCaller (mkMemory hb' ho) bs' os ms)
| on_opts hb ho bs os ms ho' os' :
    slice_step zero_option grow ho os ho' os' ->
    caller_step (mkCaller (mkMemory hb ho) bs os ms) [] (mkCaller (mkMemory hb ho') bs os' ms)
| calls_SetBytesOp c k v o :
    k ∈ c_bytes c -> v ∈ c_bytes c -> o ∈ c_opts c ->
    caller_step c [Options.SetBytesOp (bytes_at (c_mem c) k) (bytes_at (c_mem c) v) (elements (h_opts (c_mem c)) o)]
      (given (SetBytesOp k v o (c_mem c)) c)
| calls_SetOp c k v o :
    o ∈ c_opts c ->
    caller_step c [Options.SetOp k v (elements (h_opts (c_mem c)) o)] (given (SetOp k v o (c_mem c)) c)
| calls_DeleteBytesOp c k :
    k ∈ c_bytes c ->
    caller_step c [Options.DeleteBytesOp (bytes_at (c_mem c) k)] (given (DeleteBytesOp k (c_mem c)) c)
| calls_DeleteOp c k :
    caller_step c [Options.DeleteOp k] (given (DeleteOp k (c_mem c)) c).

(** A caller starts with [nil] slices only. *)
Definition start : caller := mkCaller (mkMemory [] []) [None] [None] [].

Inductive runs : caller -> list Options.Mutation -> Prop :=
| runs_start : runs start []
| runs_step c ms c' l : runs c ms -> caller_step c l c' -> runs c' (ms ++ l).

(** ** The invariant *)

(** A mutation is well typed, and no slice of the caller overlaps it. *)
Definition private_bytes (m : memory) (bs : list ref) (f : ref) : Prop :=
  well_typed (h_bytes m) f /\ Forall (fun s => separate s f) bs.
Definition private_opts (m : memory) (os : list ref) (f : ref) : Prop :=
  well_typed (h_opts m) f /\ Forall (fun s => separate s f) os.

Definition owned (m : memory) (bs os : list ref) (mu : Mutation) : Prop :=
  private_bytes m bs (m_key mu) /\ private_bytes m bs (m_value mu) /\ private_opts m os (m_opts mu).

Definition caller_ok (c : caller) : Prop :=
  Forall (well_typed (h_bytes (c_mem c))) (c_bytes c) /\ Forall (well_typed (h_opts (c_mem c))) (c_opts c) /\
  Forall (owned (c_mem c) (c_bytes c) (c_opts c)) (c_muts c).

(** The memory moved on: the slices of the caller are typed, and those that
    nothing overlaps keep their elements. *)
Definition evolves {A} (h : arena A) (rs : list ref) (h' : arena A) (rs' : list ref) : Prop :=
  Forall (well_typed h') rs' /\
  forall t, well_typed h t -> Forall (fun s => separate s t) rs ->
    well_typed h' t /\ elements h' t = elements h t /\ Forall (fun s => separate s t) rs'.

Lemma evolves_refl {A} (h : arena A) rs : Forall (well_typed h) rs -> evolves h rs h rs.
Proof. by split. Qed.

Lemma evolves_trans {A} (h h1 h2 : arena A) rs rs1 rs2 :
  evolves h rs h1 rs1 -> evolves h1 rs1 h2 rs2 -> evolves h rs h2 rs2.
Proof.
  intros [_ H1] [Hw H2]. split; [done |]. intros t Ht Hs. destruct (H1 t Ht Hs) as (Ht1 & E1 & Hs1).
  destruct (H2 t Ht1 Hs1) as (Ht2 & E2 & Hs2). repeat split; [done | congruence | done].
Qed.

Lemma slice_step_evolves {A} (z : A) h rs h' rs' :
  slice_step z grow h rs h' rs' -> Forall (well_typed h) rs -> evolves h rs h' rs'.
Proof.
  intros Hs Hrs. destruct (slice_step_obtains _ _ _ _ _ _ Hs Hrs) as [Hw Ho]. split; [done |].
  intros t Ht Hsep. destruct (Ho t Ht) as [? H]. by split; [| apply H].
Qed.

(** A copy nobody else can reach. *)
Lemma fresh_evolves {A} (h h' : arena A) rs s' :
  obtains h None h' s' -> Forall (well_typed h) rs ->
  evolves h rs h' rs /\ well_typed h' s' /\ Forall (fun s => separate s s') rs.
Proof.
  intros [Hw Ho] Hrs. rewrite Forall_forall in Hrs. split; [| split; [done |]].
  - split; [apply Forall_forall; intros r Hr; apply (Ho r), Hrs, Hr |].
    intros t Ht Hs. destruct (Ho t Ht) as [? H]. destruct (H I) as [? _]. by repeat split.
  - apply Forall_forall. intros r Hr. destruct (Ho r (Hrs r Hr)) as [_ H]. destruct (H I) as [_ Hsep].
    destruct r, s'; simpl in *; naive_solver.
Qed.

Lemma owned_evolves m bs os m' bs' os' mu :
  evolves (h_bytes m) bs (h_bytes m') bs' -> evolves (h_opts m) os (h_opts m') os' ->
  owned m bs os mu -> owned m' bs' os' mu /\ value_of m' mu = value_of m mu.
Proof.
  intros [_ Hb] [_ Ho] ([Hk1 Hk2] & [Hv1 Hv2] & [Hp1 Hp2]).
  destruct (Hb _ Hk1 Hk2) as (? & Ek & ?), (Hb _ Hv1 Hv2) as (? & Ev & ?), (Ho _ Hp1 Hp2) as (? & Eo & ?).
  split; [done |]. unfold value_of, bytes_at. by rewrite Ek, Ev, Eo.
Qed.

(** A constructor's result: the memory moved on, and the mutation is owned and
    has the value [mu0]. *)
Definition makes (m : memory) (bs os : list ref) (r : memory * Mutation) (mu0 : Options.Mutation) : Prop :=
  evolves (h_bytes m) bs (h_bytes (fst r)) bs /\ evolves (h_opts m) os (h_opts (fst r)) os /\
  owned (fst r) bs os (snd r) /\ value_of (fst r) (snd r) = mu0.

(** A field of it. *)
Definition field {A} (h : arena A) (rs : list ref) (r : arena A * ref) (xs : list A) : Prop :=
  evolves h rs (fst r) rs /\ well_typed (fst r) (snd r) /\ Forall (fun s => separate s (snd r)) rs /\
  elements (fst r) (snd r) = xs.

Lemma copies_field {A} (h : arena A) rs s h' s' :
  copies h s h' s' -> Forall (well_typed h) rs -> field h rs (h', s') (elements h s).
Proof. intros [Ho He] Hrs. by destruct (fresh_evolves _ _ _ _ Ho Hrs) as (? & ? & ?). Qed.

Lemma clone_bytes_field h rs s :
  well_typed h s -> Forall (well_typed h) rs -> field h rs (clone_bytes h s) (elements h s).
Proof. intros Hs Hrs. rewrite (surjective_pairing (clone_bytes h s)). by apply copies_field; [apply bytes_Clone_copies |]. Qed.

Lemma clone_opts_field h rs s :
  well_typed h s -> Forall (well_typed h) rs -> field h rs (clone_opts h s) (elements h s).
Proof. intros Hs Hrs. rewrite (surjective_pairing (clone_opts h s)). by apply copies_field; [apply slices_Clone_copies |]. Qed.

Lemma string_field h rs s :
  Forall (well_typed h) rs -> field h rs (bytes_of_string h s) (String.list_ascii_of_string s).
Proof.
  intros Hrs. unfold bytes_of_string. rewrite (surjective_pairing (byte_alloc _ _ _)).
  destruct (fresh_evolves _ _ _ _ (alloc_obtains zero_byte h (String.list_ascii_of_string s) 0 None) Hrs) as (? & ? & ?).
  split; [done |]. split; [done |]. split; [done |]. apply alloc_elements.
Qed.

(** Two fields made one after the other. *)
Lemma field_then {A} (h : arena A) rs h1 s1 xs1 h2 s2 xs2 :
  field h rs (h1, s1) xs1 -> field h1 rs (h2, s2) xs2 ->
  field h rs (h2, s1) xs1 /\ field h rs (h2, s2) xs2.
Proof.
  intros (He1 & Hw1 & Hs1 & <-) (He2 & Hw2 & Hs2 & <-). pose proof (evolves_trans _ _ _ _ _ _ He1 He2) as He.
  by destruct (proj2 He2 s1 Hw1 Hs1) as (? & ? & ?).
Qed.

Lemma set_makes m bs os kind h1 h2 o' k' v' p' xk xv xo :
  field (h_bytes m) bs (h1, k') xk -> field h1 bs (h2, v') xv -> field (h_opts m) os (o', p') xo ->
  makes m bs os (mkMemory h2 o', mkMutation kind k' v' p')
    (Options.mkMutation kind (String.string_of_list_ascii xk) (String.string_of_list_ascii xv) xo).
Proof.
  intros Hk Hv (Ho & Hwo & Hso & Eo). destruct (field_then _ _ _ _ _ _ _ _ Hk Hv) as [(He & ? & ? & Ek) (_ & ? & ? & Ev)].
  split; [exact He |]. split; [exact Ho |]. split; [done |].
  unfold value_of, bytes_at. simpl in *. by rewrite Ek, Ev, Eo.
Qed.

Lemma delete_makes m bs os h1 k' xk :
  Forall (well_typed (h_opts m)) os -> field (h_bytes m) bs (h1, k') xk ->
  makes m bs os (mkMemory h1 (h_opts m), mkMutation mutDelete k' None None)
    (Options.mkMutation mutDelete (String.string_of_list_ascii xk) EmptyString []).
Proof.
  intros Hos (He & ? & ? & Ek). assert (forall rs : list ref, Forall (fun s => separate s None) rs) as Hnil.
  { intros rs. apply Forall_forall. by intros [s |] _. }
  split; [exact He |]. split; [by apply evolves_refl |]. split; [by repeat split |].
  unfold value_of, bytes_at. simpl in *. by rewrite Ek.
Qed.

Lemma given_ok c r mu0 :
  makes (c_mem c) (c_bytes c) (c_opts c) r mu0 -> caller_ok c ->
  caller_ok (given r c) /\
  value_of (c_mem (given r c)) <$> c_muts (given r c) = (value_of (c_mem c) <$> c_muts c) ++ [mu0].
Proof.
  intros (Hb & Ho & Hown & Hval) (_ & _ & Hm). rewrite Forall_forall in Hm. split.
  - split; [apply Hb | split; [apply Ho |]]. apply Forall_app. split; [| by constructor].
    apply Forall_forall. intros mu Hmu. by eapply owned_evolves; [exact Hb | exact Ho | apply Hm].
  - simpl. rewrite fmap_app. simpl. rewrite Hval. f_equal. apply list_fmap_ext. intros i mu Hmu.
    by eapply owned_evolves; [exact Hb | exact Ho | eapply Hm, list_elem_of_lookup_2].
Qed.

Lemma SetBytesOp_makes m bs os k v o :
  Forall (well_typed (h_bytes m)) bs -> Forall (well_typed (h_opts m)) os -> k ∈ bs -> v ∈ bs -> o ∈ os ->
  makes m bs os (SetBytesOp k v o m) (Options.SetBytesOp (bytes_at m k) (bytes_at m v) (elements (h_opts m) o)).
Proof.
  intros Hb Ho Hk Hv Hin. unfold SetBytesOp, bytes_at.
  pose proof (proj1 (Forall_forall _ _) Hb) as Hb'. pose proof (proj1 (Forall_forall _ _) Ho) as Ho'.
  pose proof (clone_bytes_field _ _ _ (Hb' k Hk) Hb) as Fk. pose proof (bytes_Clone_copies zero_byte grow _ _ (Hb' k Hk)) as [[_ Hc] _].
  destruct (Hc v (Hb' v Hv)) as [Hv1 Ev]. destruct (Ev I) as [Ev' _]. clear Hc Ev.
  destruct (clone_bytes (h_bytes m) k) as [h1 k']. cbn [fst] in Hv1, Ev'.
  pose proof (clone_bytes_field h1 bs v Hv1 (proj1 (proj1 Fk))) as Fv. destruct (clone_bytes h1 v) as [h2 v'].
  pose proof (clone_opts_field _ _ _ (Ho' o Hin) Ho) as Fo. destruct (clone_opts (h_opts m) o) as [o1 p'].
  rewrite <- Ev'. by eapply set_makes.
Qed.

Lemma SetOp_makes m bs os k v o :
  Forall (well_typed (h_bytes m)) bs -> Forall (well_typed (h_opts m)) os -> o ∈ os ->
  makes m bs os (SetOp k v o m) (Options.SetOp k v (elements (h_opts m) o)).
Proof.
  intros Hb Ho Hin. unfold SetOp. pose proof (proj1 (Forall_forall _ _) Ho) as Ho'.
  pose proof (string_field _ _ k Hb) as Fk. destruct (bytes_of_string (h_bytes m) k) as [h1 k'].
  pose proof (string_field h1 bs v (proj1 (proj1 Fk))) as Fv. destruct (bytes_of_string h1 v) as [h2 v'].
  pose proof (clone_opts_field _ _ _ (Ho' o Hin) Ho) as Fo. destruct (clone_opts (h_opts m) o) as [o1 p'].
  pose proof (set_makes _ _ _ mutSet _ _ _ _ _ _ _ _ _ Fk Fv Fo) as H.
  by rewrite !String.string_of_list_ascii_of_string in H.
Qed.

Lemma DeleteBytesOp_makes m bs os k :
  Forall (well_typed (h_bytes m)) bs -> Forall (well_typed (h_opts m)) os -> k ∈ bs ->
  makes m bs os (DeleteBytesOp k m) (Options.DeleteBytesOp (bytes_at m k)).
Proof.
  intros Hb Ho Hk. unfold DeleteBytesOp, bytes_at. pose proof (proj1 (Forall_forall _ _) Hb) as Hb'.
  pose proof (clone_bytes_field _ _ _ (Hb' k Hk) Hb) as Fk. destruct (clone_bytes (h_bytes m) k) as [h1 k'].
  by apply delete_makes.
Qed.

Lemma DeleteOp_makes m bs os k :
  Forall (well_typed (h_bytes m)) bs -> Forall (well_typed (h_opts m)) os ->
  makes m bs os (DeleteOp k m) (Options.DeleteOp k).
Proof.
  intros Hb Ho. unfold DeleteOp. pose proof (string_field _ _ k Hb) as Fk.
  destruct (bytes_of_string (h_bytes m) k) as [h1 k']. pose proof (delete_makes _ _ _ _ _ _ Ho Fk) as H.
  by rewrite String.string_of_list_ascii_of_string in H.
Qed.

(** The caller's work on its own slices. *)
Lemma works_ok c m' bs' os' :
  evolves (h_bytes (c_mem c)) (c_bytes c) (h_bytes m') bs' ->
  evolves (h_opts (c_mem c)) (c_opts c) (h_opts m') os' -> caller_ok c ->
  caller_ok (mkCaller m' bs' os' (c_muts c)) /\
  value_of m' <$> c_muts c = (value_of (c_mem c) <$> c_muts c) ++ [].
Proof.
  intros Eb Eo (_ & _ & Hm). rewrite app_nil_r. rewrite Forall_forall in Hm. split.
  - split; [apply Eb | split; [apply Eo |]]. apply Forall_forall. intros mu Hmu.
    by eapply owned_evolves; [exact Eb | exact Eo | apply Hm].
  - apply list_fmap_ext. intros i mu Hmu.
    by eapply owned_evolves; [exact Eb | exact Eo | eapply Hm, list_elem_of_lookup_2].
Qed.

Lemma caller_step_ok c l c' :
  caller_step c l c' -> caller_ok c ->
  caller_ok c' /\ value_of (c_mem c') <$> c_muts c' = (value_of (c_mem c) <$> c_muts c) ++ l.
Proof.
  intros Hstep Hok. pose proof Hok as (Hb & Ho & _).
  destruct Hstep as [hb ho bs os ms hb' bs' Hs | hb ho bs os ms ho' os' Hs | c k v o Hk Hv Hin | c k v o Hin | c k Hk | c k].
  - apply (works_ok (mkCaller (mkMemory hb ho) bs os ms)); [by eapply slice_step_evolves | by apply evolves_refl | done].
  - apply (works_ok (mkCaller (mkMemory hb ho) bs os ms)); [by apply evolves_refl | by eapply slice_step_evolves | done].
  - apply given_ok; [by apply SetBytesOp_makes | done].
  - apply given_ok; [by apply SetOp_makes | done].
  - apply given_ok; [by apply DeleteBytesOp_makes | done].
  - apply given_ok; [by apply DeleteOp_makes | done].
Qed.

Lemma runs_ok c ms : runs c ms -> caller_ok c /\ value_of (c_mem c) <$> c_muts c = ms.
Proof.
  induction 1 as [| c ms c' l _ [Hok IH] Hs]; [by repeat constructor |].
  destruct (caller_step_ok _ _ _ Hs Hok) as [Hok' E]. split; [done |]. by rewrite E, IH.
Qed.

(** C31. Memory safety: whatever a caller does with its slices and whatever
    mutations it makes, every slice stays inside its array, and no slice the caller
    holds shares storage with a field of a mutation. *)
Theorem memory_typed c ms :
  runs c ms ->
  Forall (well_typed (h_bytes (c_mem c))) (c_bytes c) /\ Forall (well_typed (h_opts (c_mem c))) (c_opts c) /\
  Forall (owned (c_mem c) (c_bytes c) (c_opts c)) (c_muts c).
Proof. intros H. apply (runs_ok c ms H). Qed.

(** C30. Mutations are values: at every moment the mutations a caller was given
    have the values [Options] gives to the calls that made them, however the
    caller has since overwritten, resliced or appended to the slices it passed. *)
Theorem mutations_immutable c ms : runs c ms -> value_of (c_mem c) <$> c_muts c = ms.
Proof. intros H. apply (runs_ok c ms H). Qed.

End Constructors.

(** ** Witness *)

Definition doubling (c n : nat) : nat := Nat.max n (2 * c).

(** The caller makes a key, passes it, and overwrites it. *)
Definition k0 : ref := Some (mkSlice 0 0 3 5).
Definition caller1 : caller :=
  mkCaller (mkMemory [["a"; "b"; "c"; "000"; "000"]%char] []) [None; k0] [None] [].
Definition caller2 : caller := given (SetBytesOp doubling k0 k0 None (c_mem caller1)) caller1.
Definition caller3 : caller :=
  mkCaller (mkMemory (store_at (h_bytes (c_mem caller2)) (mkSlice 0 0 3 5) 0 "z"%char) (h_opts (c_mem caller2)))
    (c_bytes caller2) (c_opts caller2) (c_muts caller2).

Lemma caller3_runs : runs doubling caller3 [Options.SetBytesOp "abc" "abc" []].
Proof.
  apply (runs_step doubling caller2 [Options.SetBytesOp "abc" "abc" []] caller3 []).
  - apply (runs_step doubling caller1 [] caller2 [Options.SetBytesOp "abc" "abc" []]).
    + apply (runs_step doubling start [] caller1 []); [constructor |].
      apply (on_bytes doubling [] [] [None] [None] []), (do_make zero_byte doubling [] [None] ["a"; "b"; "c"]%char 5).
    + apply (calls_SetBytesOp doubling caller1 k0 k0 None); [by right; left .. | by left].
  - apply (on_bytes doubling _ _ [None; k0] [None]), (do_store _ _ _ [None; k0] (mkSlice 0 0 3 5)); [by right; left | simpl; lia].
Qed.

Lemma memory_typed_witness :
  Forall (owned (c_mem caller3) (c_bytes caller3) (c_opts caller3)) (c_muts caller3) /\ length (c_muts caller3) = 1.
Proof. split; [exact (proj2 (proj2 (memory_typed doubling caller3 _ caller3_runs))) | reflexivity]. Defined.

Lemma mutations_immutable_witness :
  bytes_at (c_mem caller3) k0 = "zbc" /\
  value_of (c_mem caller3) <$> c_muts caller3 = [Options.SetBytesOp "abc" "abc" []].
Proof. split; [reflexivity | exact (mutations_immutable doubling caller3 _ caller3_runs)]. Defined.
