(* ===== verification/Command.v ===== *)
(** * Command: the replicated command and what applying it means

    [command] and [commandPair] of [fsm.go], and the specification of a
    key-value store that the rest of the development refines to: a finite map
    from keys to entries with an absolute expiry.  A command is a blind write;
    the algebra of blind writes (last write per key) is the reason snapshots
    and replays converge. *)
From S2P Require Import Prelude Errors Options.

(** ** The stored data *)

(** What a key holds: a value and an absolute Unix expiry, 0 for none. *)
Record bentry := mkBEntry { be_Value : string; be_ExpiresAt : Z }.

#[export] Instance bentry_eq_dec : EqDecision bentry.
Proof. solve_decision. Defined.

Abbreviation kv := (gmap string bentry).

(** An entry with an expiry is gone once the clock's whole seconds reach it. *)
Definition expired (now : Z) (e : bentry) : bool :=
  negb (be_ExpiresAt e =? 0)%Z && (be_ExpiresAt e <=? Unix now)%Z.

(** What a read at time [now] sees under a key. *)
Definition visible (now : Z) (m : kv) (k : string) : option string :=
  match m !! k with
  | Some e => if expired now e then None else Some (be_Value e)
  | None => None
  end.

(** Stores no read from time [t] on can tell apart: they may differ in
    entries that have expired by then. *)
Definition kv_equiv (t : Z) (m1 m2 : kv) : Prop :=
  forall t' k, (t <= t')%Z -> visible t' m1 k = visible t' m2 k.
Notation "m1 '≈[' t ] m2" := (kv_equiv t m1 m2) (at level 70) : hb_scope.

(** ** Commands *)

Record commandPair := mkPair { Key : string; Value : string; ExpiresAtUnix : Z }.

Record command := mkCommand { Pairs : list commandPair; Deletes : list string }.

#[export] Instance commandPair_eq_dec : EqDecision commandPair.
Proof. solve_decision. Defined.
#[export] Instance command_eq_dec : EqDecision command.
Proof. solve_decision. Defined.

(** The entry a pair stores: the expiry is assigned only when positive. *)
Definition pair_entry (p : commandPair) : bentry :=
  mkBEntry (Value p) (if (0 <? ExpiresAtUnix p)%Z then ExpiresAtUnix p else 0).

(** Applying a whole command: every set, then every delete. *)
Definition cmd_apply (m : kv) (c : command) : kv :=
  fold_left (fun m k => delete k m) (Deletes c)
    (fold_left (fun m p => <[Key p := pair_entry p]> m) (Pairs c) m).

(** Applying a log of commands in order. *)
Definition run (cs : list command) (m : kv) : kv := fold_left cmd_apply cs m.

(** ** Blind writes: a command as a list of single-key writes *)

Abbreviation write := (string * option bentry)%type.

Definition write_apply (m : kv) (w : write) : kv :=
  match snd w with Some e => <[fst w := e]> m | None => delete (fst w) m end.

Definition writes_apply (ws : list write) (m : kv) : kv := fold_left write_apply ws m.

Definition cmd_writes (c : command) : list write :=
  ((fun p => (Key p, Some (pair_entry p))) <$> Pairs c) ++ ((fun k => (k, None)) <$> Deletes c).

Definition log_writes (cs : list command) : list write := mjoin (cmd_writes <$> cs).

(** The last write to a key in a list of writes. *)
Fixpoint last_write (k : string) (ws : list write) : option (option bentry) :=
  match ws with
  | [] => None
  | (k', o) :: ws' =>
      match last_write k ws' with
      | Some r => Some r
      | None => if decide (k' = k) then Some o else None
      end
  end.

(** ** Lemmas: equivalence of stores *)

#[export] Instance kv_equiv_equivalence t : Equivalence (kv_equiv t).
Proof.
  split.
  - by intros m t' k _.
  - intros m1 m2 H t' k Ht. by rewrite H.
  - intros m1 m2 m3 H1 H2 t' k Ht. by rewrite H1, H2.
Qed.

Lemma kv_equiv_later t t' m1 m2 : (t <= t')%Z -> m1 ≈[t] m2 -> m1 ≈[t'] m2.
Proof. intros Ht H u k Hu. apply H. lia. Qed.

Lemma visible_write t m k k' o :
  visible t (write_apply m (k', o)) k =
    if decide (k' = k) then
      match o with Some e => if expired t e then None else Some (be_Value e) | None => None end
    else visible t m k.
Proof.
  unfold visible, write_apply; destruct o as [e |]; simpl; case_decide; subst;
    by rewrite ?lookup_insert_eq, ?lookup_delete_eq, ?lookup_insert_ne, ?lookup_delete_ne.
Qed.

#[export] Instance write_apply_proper t : Proper (kv_equiv t ==> eq ==> kv_equiv t) write_apply.
Proof.
  intros m1 m2 H [k' o] _ <- t' k Ht. rewrite !visible_write. case_decide; [done |]. by apply H.
Qed.

#[export] Instance writes_apply_proper t ws : Proper (kv_equiv t ==> kv_equiv t) (writes_apply ws).
Proof.
  unfold writes_apply. induction ws as [| w ws IH]; intros m1 m2 H; simpl; [done |].
  apply IH. by rewrite H.
Qed.

(** Once expired, always expired. *)
Lemma expired_mono t t' e : (t <= t')%Z -> expired t e = true -> expired t' e = true.
Proof.
  unfold expired. intros Ht. pose proof (Unix_mono _ _ Ht).
  rewrite !andb_true_iff, !Z.leb_le. intros []; split; [done | lia].
Qed.

(** ** Lemmas: the algebra of blind writes *)

Lemma writes_apply_app ws1 ws2 m :
  writes_apply (ws1 ++ ws2) m = writes_apply ws2 (writes_apply ws1 m).
Proof. apply fold_left_app. Qed.

Lemma last_write_app k ws1 ws2 :
  last_write k (ws1 ++ ws2) =
    match last_write k ws2 with Some r => Some r | None => last_write k ws1 end.
Proof.
  induction ws1 as [| [k' o] ws1 IH]; simpl; [by destruct (last_write k ws2) |].
  rewrite IH. by destruct (last_write k ws2).
Qed.

(** Every key holds its last write, or what it held before. *)
Lemma writes_apply_lookup ws m k :
  writes_apply ws m !! k = match last_write k ws with Some o => o | None => m !! k end.
Proof.
  induction ws as [| [k' o] ws IH] using rev_ind; [done |].
  rewrite writes_apply_app, last_write_app. simpl. unfold write_apply; simpl.
  case_decide; subst; destruct o; by simplify_map_eq.
Qed.

(** Replaying an overlap: writes that were already applied can be applied
    again, followed by newer ones, without changing the outcome. *)
Lemma writes_overlap ws1 ws2 ws3 m :
  writes_apply (ws2 ++ ws3) (writes_apply (ws1 ++ ws2) m) = writes_apply (ws1 ++ ws2 ++ ws3) m.
Proof.
  apply map_eq. intros k. rewrite !writes_apply_lookup, !last_write_app.
  by destruct (last_write k ws3), (last_write k ws2), (last_write k ws1).
Qed.

Lemma cmd_apply_writes c m : cmd_apply m c = writes_apply (cmd_writes c) m.
Proof.
  unfold cmd_apply, cmd_writes. rewrite writes_apply_app. unfold writes_apply.
  assert (forall m, fold_left write_apply ((fun p => (Key p, Some (pair_entry p))) <$> Pairs c) m
    = fold_left (fun m p => <[Key p := pair_entry p]> m) (Pairs c) m) as ->.
  { induction (Pairs c) as [| p ps IH]; intros m'; simpl; [done | apply IH]. }
  generalize (fold_left (fun m p => <[Key p := pair_entry p]> m) (Pairs c) m).
  induction (Deletes c) as [| k ks IH]; intros m'; simpl; [done | apply IH].
Qed.

Lemma run_writes cs m : run cs m = writes_apply (log_writes cs) m.
Proof.
  revert m. induction cs as [| c cs IH]; intros m; [done |].
  change (log_writes (c :: cs)) with (cmd_writes c ++ log_writes cs).
  rewrite writes_apply_app, <- cmd_apply_writes, <- IH. done.
Qed.

Lemma run_app cs1 cs2 m : run (cs1 ++ cs2) m = run cs2 (run cs1 m).
Proof. apply fold_left_app. Qed.

#[export] Instance run_proper t cs : Proper (kv_equiv t ==> kv_equiv t) (run cs).
Proof. intros m1 m2 H. by rewrite !run_writes, H. Qed.

Lemma log_writes_app cs1 cs2 : log_writes (cs1 ++ cs2) = log_writes cs1 ++ log_writes cs2.
Proof. unfold log_writes. by rewrite fmap_app, join_app. Qed.

#[export] Hint Rewrite writes_apply_app last_write_app run_app log_writes_app : hb.

(** The overlap lemma for whole logs. *)
Lemma run_overlap cs1 cs2 cs3 m :
  run (cs2 ++ cs3) (run (cs1 ++ cs2) m) = run (cs1 ++ cs2 ++ cs3) m.
Proof. rewrite !run_writes, !log_writes_app. apply writes_overlap. Qed.

(** A store that becomes right by replaying the end of a log also becomes
    right by replaying more of it.  This is what makes it safe for Raft to
    restart a replay from an older index than the store has reached. *)
Lemma run_rollback t cs1 cs2 cs3 m s :
  run cs3 s ≈[t] run (cs1 ++ cs2 ++ cs3) m ->
  run (cs2 ++ cs3) s ≈[t] run (cs1 ++ cs2 ++ cs3) m.
Proof.
  intros H t' k Ht. specialize (H t' k Ht).
  rewrite !run_writes, !log_writes_app in *. unfold visible in *.
  rewrite !writes_apply_lookup, !last_write_app in *.
  by destruct (last_write k (log_writes cs3)), (last_write k (log_writes cs2)).
Qed.
