(* ===== verification/Codec.v ===== *)
(** * Codec: the gob encoding of commands

    [encodeCommand] and [decodeCommand] of [fsm.go] are written against the
    class [Codec], whose law is the round trip.  [Gob] implements the class
    with the documented wire format of [encoding/gob] for the type [command]:
    variable-length unsigned integers, length-prefixed bytes and slices,
    structs as field deltas with zero fields omitted, one length-prefixed
    message that starts with the type's id, after the type definitions.  The
    type definitions and the id depend on what the process registered before
    and are parameters; a stream with other type definitions is refused. *)
From S2P Require Import Prelude Errors Options Command.
From Stdlib Require Import Ascii.

(** [encoding/gob] on values of type [command]. *)
Class Codec := {
  gob_Encode : command -> result error string;
  gob_Decode : string -> result error command
}.

(** Every expiry is a [uint64]. *)
Definition wf_pair (p : commandPair) : Prop := (0 <= ExpiresAtUnix p < 2 ^ 64)%Z.
Definition wf_command (c : command) : Prop := Forall wf_pair (Pairs c).

(** What an encoder wrote is what a decoder reads. *)
Class CodecLaws `{Codec} := {
  gob_roundtrip c d : wf_command c -> gob_Encode c = Ok d -> gob_Decode d = Ok c
}.

Definition encodeCommand `{Codec} (cmd : command) : result error string :=
  match gob_Encode cmd with
  | Err err => Err (Errorf "honeybadger: encode command: %w" [] err)
  | Ok d => Ok d
  end.

Definition decodeCommand `{Codec} (data : string) : result error command := gob_Decode data.

(** ** The wire format *)
Module Gob.

Abbreviation wire := (list ascii).
Abbreviation parser A := (wire -> option (A * wire)).

(** The big-endian bytes of [n], without leading zeros. *)
Fixpoint be_bytes (fuel : nat) (n : N) (acc : wire) : wire :=
  match fuel with
  | 0 => acc
  | S fuel =>
      if (n =? 0)%N then acc
      else be_bytes fuel (n / 256) (ascii_of_N (n mod 256) :: acc)
  end.

Definition be_value (bs : wire) : N := fold_left (fun acc b => (acc * 256 + N_of_ascii b)%N) bs 0%N.

(** Unsigned integers: one byte below 128, else the negated byte count and the
    bytes. *)
Definition uint_enc (n : N) : wire :=
  if (n <? 128)%N then [ascii_of_N n]
  else let bs := be_bytes 8 n [] in ascii_of_N (256 - N.of_nat (length bs)) :: bs.

Definition uint_dec : parser N := fun l =>
  match l with
  | [] => None
  | b :: r =>
      if (N_of_ascii b <? 128)%N then Some (N_of_ascii b, r)
      else
        let n := N.to_nat (256 - N_of_ascii b) in
        if (8 <? n)%nat || (length r <? n)%nat then None
        else Some (be_value (take n r), drop n r)
  end.

(** [[]byte]: length and content. *)
Definition bytes_enc (s : string) : wire :=
  uint_enc (N.of_nat (String.length s)) ++ String.list_ascii_of_string s.

Definition bytes_dec : parser string := fun l =>
  match uint_dec l with
  | None => None
  | Some (n, r) =>
      if (length r <? N.to_nat n)%nat then None
      else Some (String.string_of_list_ascii (take (N.to_nat n) r), drop (N.to_nat n) r)
  end.

(** A struct: for each field sent, the distance from the field sent before,
    then its value; a zero ends the struct. *)
Fixpoint struct_enc (gap : nat) (fields : list (option wire)) : wire :=
  match fields with
  | [] => uint_enc 0
  | None :: fs => struct_enc (S gap) fs
  | Some b :: fs => uint_enc (N.of_nat gap) ++ b ++ struct_enc 1 fs
  end.

(** [next] is one more than the last field read; [set] decodes a field into
    the value. *)
Fixpoint struct_dec {A} (fuel : nat) (set : nat -> A -> parser A) (next : nat) (a : A) : parser A :=
  fun l =>
    match fuel with
    | 0 => None
    | S fuel =>
        match uint_dec l with
        | None => None
        | Some (0%N, r) => Some (a, r)
        | Some (d, r) =>
            let field := next + N.to_nat d in
            match set (pred field) a r with
            | None => None
            | Some (a', r') => struct_dec fuel set field a' r'
            end
        end
    end.

Definition pair_enc (p : commandPair) : wire :=
  struct_enc 1
    [ if is_empty (Key p) then None else Some (bytes_enc (Key p));
      if is_empty (Value p) then None else Some (bytes_enc (Value p));
      if (ExpiresAtUnix p =? 0)%Z then None else Some (uint_enc (Z.to_N (ExpiresAtUnix p))) ].

Definition pair_set (field : nat) (p : commandPair) : parser commandPair := fun l =>
  match field with
  | 0 => match bytes_dec l with Some (k, r) => Some (mkPair k (Value p) (ExpiresAtUnix p), r) | None => None end
  | 1 => match bytes_dec l with Some (v, r) => Some (mkPair (Key p) v (ExpiresAtUnix p), r) | None => None end
  | 2 => match uint_dec l with Some (n, r) => Some (mkPair (Key p) (Value p) (Z.of_N n), r) | None => None end
  | _ => None
  end.

Definition zeroPair : commandPair := mkPair EmptyString EmptyString 0.
Definition pair_dec : parser commandPair := struct_dec 4 pair_set 0 zeroPair.

(** A slice: its length and its elements, zero elements included. *)
Definition slice_enc {A} (enc : A -> wire) (xs : list A) : wire :=
  uint_enc (N.of_nat (length xs)) ++ mjoin (enc <$> xs).

Fixpoint elems_dec {A} (dec : parser A) (n : nat) : parser (list A) := fun l =>
  match n with
  | 0 => Some ([], l)
  | S n => match dec l with
           | None => None
           | Some (x, r) => match elems_dec dec n r with
                            | None => None
                            | Some (xs, r') => Some (x :: xs, r')
                            end
           end
  end.

Definition slice_dec {A} (dec : parser A) : parser (list A) := fun l =>
  match uint_dec l with
  | None => None
  | Some (n, r) => if (N.of_nat (length r) <? n)%N then None else elems_dec dec (N.to_nat n) r
  end.

Definition command_enc (c : command) : wire :=
  struct_enc 1
    [ match Pairs c with [] => None | ps => Some (slice_enc pair_enc ps) end;
      match Deletes c with [] => None | ks => Some (slice_enc bytes_enc ks) end ].

Definition command_set (field : nat) (c : command) : parser command := fun l =>
  match field with
  | 0 => match slice_dec pair_dec l with Some (ps, r) => Some (mkCommand ps (Deletes c), r) | None => None end
  | 1 => match slice_dec bytes_dec l with Some (ks, r) => Some (mkCommand (Pairs c) ks, r) | None => None end
  | _ => None
  end.

Definition command_dec : parser command := struct_dec 3 command_set 0 (mkCommand [] []).

(** The largest message an encoder accepts to write. *)
Definition tooBig : N := 2 ^ 33.

(** The type ids and definitions a process sends: its definition messages for
    [command] and the types below it, and the id of [command]. *)
Section Stream.
Variables (typedefs : string) (tid : N).

(** A positive type id as a signed integer. *)
Definition tid_enc : wire := uint_enc (2 * tid).

Definition Encode (c : command) : result error string :=
  let msg := tid_enc ++ command_enc c in
  if (tooBig <? N.of_nat (length msg))%N then Err (New "gob: encoder: message too big")
  else Ok (typedefs +:+ String.string_of_list_ascii (uint_enc (N.of_nat (length msg)) ++ msg)).

Fixpoint strip (p s : string) : option string :=
  match p, s with
  | EmptyString, _ => Some s
  | String x p', String y s' => if decide (x = y) then strip p' s' else None
  | String _ _, EmptyString => None
  end.

Definition Decode (data : string) : result error command :=
  match strip typedefs data with
  | None => Err (New "gob: unknown type id or corrupted data")
  | Some s =>
      match uint_dec (String.list_ascii_of_string s) with
      | None => Err (New "unexpected EOF")
      | Some (n, r) =>
          if (N.of_nat (length r) <? n)%N then Err (New "unexpected EOF")
          else match uint_dec (take (N.to_nat n) r) with
               | None => Err (New "unexpected EOF")
               | Some (t, r) =>
                   if (t =? 2 * tid)%N then
                     match command_dec r with
                     | Some (c, _) => Ok c
                     | None => Err (New "gob: bad data")
                     end
                   else Err (New "gob: unknown type id or corrupted data")
               end
      end
  end.

#[export] Instance codec : Codec := {| gob_Encode := Encode; gob_Decode := Decode |}.

End Stream.

(** ** Round trips *)

Lemma be_value_app bs bs' :
  be_value (bs ++ bs') = fold_left (fun acc b => (acc * 256 + N_of_ascii b)%N) bs' (be_value bs).
Proof. apply fold_left_app. Qed.

Lemma be_value_cons acc0 b bs :
  fold_left (fun acc b => (acc * 256 + N_of_ascii b)%N) bs (acc0 * 256 + N_of_ascii b)%N =
  fold_left (fun acc b => (acc * 256 + N_of_ascii b)%N) (b :: bs) acc0.
Proof. done. Qed.

Lemma be_bytes_value fuel n acc :
  (n < 256 ^ N.of_nat fuel)%N ->
  be_value (be_bytes fuel n acc) =
    fold_left (fun acc b => (acc * 256 + N_of_ascii b)%N) acc n.
Proof.
  revert n acc. induction fuel as [| fuel IH]; intros n acc Hn; cbn [be_bytes].
  - assert (n = 0)%N as -> by (simpl in Hn; lia). done.
  - destruct (N.eqb_spec n 0) as [-> | Hz]; [done |].
    rewrite Nat2N.inj_succ, N.pow_succ_r' in Hn.
    rewrite IH by (apply N.Div0.div_lt_upper_bound; lia). cbn [fold_left].
    rewrite N_ascii_embedding by (apply N.mod_lt; lia).
    f_equal. rewrite N.mul_comm. symmetry. apply N.div_mod'.
Qed.

Lemma be_bytes_length fuel n acc :
  (length acc <= length (be_bytes fuel n acc) <= fuel + length acc)%nat.
Proof.
  revert n acc. induction fuel as [| fuel IH]; intros n acc; simpl; [lia |].
  destruct (n =? 0)%N; [lia |].
  specialize (IH (n / 256)%N (ascii_of_N (n mod 256) :: acc)). simpl in IH. lia.
Qed.

Lemma be_bytes_pos fuel n : (0 < n)%N -> (0 < fuel) -> 0 < length (be_bytes fuel n []).
Proof.
  intros Hn Hf. destruct fuel as [| fuel]; [lia |]. cbn [be_bytes].
  destruct (N.eqb_spec n 0); [lia |].
  pose proof (be_bytes_length fuel (n / 256) [ascii_of_N (n mod 256)]) as H. simpl in H. lia.
Qed.

Lemma uint_roundtrip n r : (n < 2 ^ 64)%N -> uint_dec (uint_enc n ++ r) = Some (n, r).
Proof.
  intros Hn. unfold uint_enc. destruct (N.ltb_spec n 128) as [Hs | Hl].
  - simpl. rewrite N_ascii_embedding by lia. by rewrite (proj2 (N.ltb_lt _ _) Hs).
  - set (bs := be_bytes 8 n []).
    pose proof (be_bytes_length 8 n []) as Hlen. fold bs in Hlen. simpl in Hlen.
    pose proof (be_bytes_pos 8 n) as Hpos. fold bs in Hpos.
    assert (0 < length bs) as Hp by (apply Hpos; lia).
    simpl. rewrite N_ascii_embedding by lia.
    rewrite (proj2 (N.ltb_ge _ _)) by lia.
    replace (N.to_nat (256 - (256 - N.of_nat (length bs)))) with (length bs) by lia.
    rewrite (proj2 (Nat.ltb_ge 8 _)) by lia. rewrite length_app.
    rewrite (proj2 (Nat.ltb_ge _ _)) by lia. simpl.
    rewrite take_app_length, drop_app_length. unfold bs.
    rewrite be_bytes_value by (change (256 ^ N.of_nat 8)%N with (2 ^ 64)%N; lia). done.
Qed.

Lemma uint_enc_pos n : 0 < length (uint_enc n).
Proof. unfold uint_enc. destruct (n <? 128)%N; simpl; lia. Qed.

Definition short (s : string) : Prop := (N.of_nat (String.length s) < 2 ^ 64)%N.

Lemma length_list_ascii s : length (String.list_ascii_of_string s) = String.length s.
Proof. induction s; simpl; congruence. Qed.

Lemma bytes_roundtrip s r : short s -> bytes_dec (bytes_enc s ++ r) = Some (s, r).
Proof.
  intros Hs. unfold bytes_dec, bytes_enc. rewrite <- app_assoc, uint_roundtrip by done.
  rewrite Nat2N.id, length_app, length_list_ascii.
  rewrite (proj2 (Nat.ltb_ge _ _)) by lia.
  rewrite <- (length_list_ascii s), take_app_length, drop_app_length.
  by rewrite String.string_of_list_ascii_of_string.
Qed.

Lemma struct_dec_field {A} fuel (set : nat -> A -> parser A) next gap a a' b r :
  (0 < gap)%nat -> (N.of_nat gap < 2 ^ 64)%N ->
  set (pred (next + gap)) a (b ++ r) = Some (a', r) ->
  struct_dec (S fuel) set next a (uint_enc (N.of_nat gap) ++ b ++ r) =
    struct_dec fuel set (next + gap) a' r.
Proof.
  intros Hg Hl Hset. cbn [struct_dec]. rewrite uint_roundtrip by done.
  destruct (N.of_nat gap) eqn:E; [lia |].
  rewrite <- E, Nat2N.id, Hset. done.
Qed.

Lemma struct_dec_end {A} fuel (set : nat -> A -> parser A) next a r :
  struct_dec (S fuel) set next a (uint_enc 0 ++ r) = Some (a, r).
Proof. done. Qed.

#[local] Arguments struct_dec : simpl never.
#[local] Opaque uint_enc.

(** Decode one field of a struct: what its setter makes of the encoding is
    found by the round trips. *)
Ltac field_step :=
  rewrite <- ?app_assoc;
  erewrite struct_dec_field;
  [ | lia | lia
    | cbn [Nat.add pred pair_set Key Value ExpiresAtUnix];
      rewrite ?bytes_roundtrip, ?uint_roundtrip by (done || lia); reflexivity ];
  cbn [Nat.add Key Value ExpiresAtUnix].

Lemma pair_roundtrip p r :
  wf_pair p -> short (Key p) -> short (Value p) -> pair_dec (pair_enc p ++ r) = Some (p, r).
Proof.
  destruct p as [k v x]; unfold wf_pair; simpl. intros Hx Hk Hv.
  unfold pair_enc, pair_dec, zeroPair, is_empty; cbn [Key Value ExpiresAtUnix].
  destruct (bool_decide_reflect (k = EmptyString)) as [-> |],
    (bool_decide_reflect (v = EmptyString)) as [-> |], (Z.eqb_spec x 0) as [-> |]; cbn [struct_enc];
    repeat field_step; rewrite struct_dec_end; repeat f_equal; lia.
Qed.

Lemma elems_roundtrip {A} (enc : A -> wire) (dec : parser A) xs r :
  Forall (fun x => forall r, dec (enc x ++ r) = Some (x, r)) xs ->
  elems_dec dec (length xs) (mjoin (enc <$> xs) ++ r) = Some (xs, r).
Proof.
  intros H. revert r. induction H as [| x xs Hx _ IH]; intros r; [done |].
  cbn [length elems_dec fmap list_fmap mjoin list_join]. rewrite <- app_assoc, Hx.
  change (list_join (enc <$> xs)) with (mjoin (enc <$> xs)). by rewrite IH.
Qed.

Lemma mjoin_length {A} (enc : A -> wire) xs :
  (forall x, 0 < length (enc x)) -> length xs <= length (mjoin (enc <$> xs)).
Proof.
  intros Hp. induction xs as [| x xs IH]; [simpl; lia |].
  change (mjoin (enc <$> x :: xs)) with (enc x ++ mjoin (enc <$> xs)).
  rewrite length_app. pose proof (Hp x). simpl. lia.
Qed.

Lemma slice_roundtrip {A} (enc : A -> wire) (dec : parser A) xs r :
  (forall x, 0 < length (enc x)) -> (N.of_nat (length xs) < 2 ^ 64)%N ->
  Forall (fun x => forall r, dec (enc x ++ r) = Some (x, r)) xs ->
  slice_dec dec (slice_enc enc xs ++ r) = Some (xs, r).
Proof.
  intros Hp Hl H. unfold slice_dec, slice_enc. rewrite <- app_assoc, uint_roundtrip by done.
  rewrite (proj2 (N.ltb_ge _ _)).
  - rewrite Nat2N.id. by apply elems_roundtrip.
  - rewrite length_app. pose proof (mjoin_length enc xs Hp). lia.
Qed.

(** Sizes: what a message holds is not longer than the message. *)

Lemma struct_enc_pos gap fs : 0 < length (struct_enc gap fs).
Proof.
  revert gap. induction fs as [| [b |] fs IH]; intros gap; simpl; [| | apply IH].
  - apply uint_enc_pos.
  - rewrite length_app. pose proof (uint_enc_pos (N.of_nat gap)). lia.
Qed.

Lemma struct_enc_field gap fs b : Some b ∈ fs -> length b <= length (struct_enc gap fs).
Proof.
  revert gap. induction fs as [| f fs IH]; intros gap H; [by apply not_elem_of_nil in H |].
  apply elem_of_cons in H as [<- | H]; simpl; [rewrite !length_app; lia |].
  destruct f as [b' |]; [| by apply IH]. rewrite !length_app. specialize (IH 1 H). lia.
Qed.

Lemma bytes_enc_length s : String.length s <= length (bytes_enc s).
Proof. unfold bytes_enc. rewrite length_app, length_list_ascii. lia. Qed.

Lemma bytes_enc_pos s : 0 < length (bytes_enc s).
Proof. unfold bytes_enc. rewrite length_app. pose proof (uint_enc_pos (N.of_nat (String.length s))). lia. Qed.

Lemma slice_enc_elem {A} (enc : A -> wire) x xs : x ∈ xs -> length (enc x) <= length (slice_enc enc xs).
Proof.
  intros H. unfold slice_enc. rewrite length_app. cut (length (enc x) <= length (mjoin (enc <$> xs))); [lia |].
  induction xs as [| y ys IH]; [by apply not_elem_of_nil in H |].
  change (mjoin (enc <$> y :: ys)) with (enc y ++ mjoin (enc <$> ys)). rewrite length_app.
  apply elem_of_cons in H as [<- | H]; [lia |]. specialize (IH H). lia.
Qed.

Lemma slice_enc_count {A} (enc : A -> wire) xs :
  (forall x, 0 < length (enc x)) -> length xs <= length (slice_enc enc xs).
Proof. intros Hp. unfold slice_enc. rewrite length_app. pose proof (mjoin_length enc xs Hp). lia. Qed.

Lemma pair_enc_pos p : 0 < length (pair_enc p).
Proof. apply struct_enc_pos. Qed.

Lemma empty_length s : is_empty s = true -> String.length s = 0.
Proof. unfold is_empty. by intros ->%bool_decide_eq_true. Qed.

Lemma pair_enc_key p : String.length (Key p) <= length (pair_enc p).
Proof.
  destruct (is_empty (Key p)) eqn:E; [rewrite (empty_length _ E); lia |].
  etrans; [apply bytes_enc_length |]. apply struct_enc_field. rewrite E. left.
Qed.

Lemma pair_enc_value p : String.length (Value p) <= length (pair_enc p).
Proof.
  destruct (is_empty (Value p)) eqn:E; [rewrite (empty_length _ E); lia |].
  etrans; [apply bytes_enc_length |]. apply struct_enc_field. rewrite E. right. left.
Qed.

Lemma command_enc_pairs c : Pairs c <> [] -> length (slice_enc pair_enc (Pairs c)) <= length (command_enc c).
Proof. intros H. apply struct_enc_field. destruct (Pairs c); [done |]. left. Qed.

Lemma command_enc_deletes c : Deletes c <> [] -> length (slice_enc bytes_enc (Deletes c)) <= length (command_enc c).
Proof. intros H. apply struct_enc_field. destruct (Deletes c); [done |]. right. left. Qed.

(** A command whose encoding is below [2^64] bytes is read back. *)
Lemma command_roundtrip c r :
  wf_command c -> (N.of_nat (length (command_enc c)) < 2 ^ 64)%N ->
  command_dec (command_enc c ++ r) = Some (c, r).
Proof.
  intros Hwf Hlen.
  assert (Pairs c <> [] -> forall r, slice_dec pair_dec (slice_enc pair_enc (Pairs c) ++ r) = Some (Pairs c, r)) as Hps.
  { intros Hne r'. pose proof (command_enc_pairs c Hne) as H. apply slice_roundtrip; [apply pair_enc_pos | |].
    - pose proof (slice_enc_count pair_enc (Pairs c) pair_enc_pos). lia.
    - apply Forall_forall. intros p Hp r''. pose proof (slice_enc_elem pair_enc p _ Hp).
      pose proof (pair_enc_key p). pose proof (pair_enc_value p).
      apply pair_roundtrip; unfold short; [| lia | lia]. by eapply Forall_forall in Hwf. }
  assert (Deletes c <> [] -> forall r, slice_dec bytes_dec (slice_enc bytes_enc (Deletes c) ++ r) = Some (Deletes c, r)) as Hds.
  { intros Hne r'. pose proof (command_enc_deletes c Hne) as H. apply slice_roundtrip; [apply bytes_enc_pos | |].
    - pose proof (slice_enc_count bytes_enc (Deletes c) bytes_enc_pos). lia.
    - apply Forall_forall. intros k Hk r''. pose proof (slice_enc_elem bytes_enc k _ Hk).
      pose proof (bytes_enc_length k). apply bytes_roundtrip. unfold short. lia. }
  clear Hlen Hwf. destruct c as [ps ks]; simpl in *. unfold command_enc, command_dec; cbn [Pairs Deletes].
  destruct ps as [| p ps], ks as [| k ks]; cbn [struct_enc]; rewrite <- ?app_assoc;
    repeat (erewrite struct_dec_field;
      [ | lia | lia | cbn [Nat.add pred command_set Pairs Deletes];
          rewrite ?Hps, ?Hds by done; reflexivity ]; cbn [Nat.add Pairs Deletes]; rewrite <- ?app_assoc);
    apply struct_dec_end.
Qed.

Lemma strip_app p s : strip p (p +:+ s) = Some s.
Proof. induction p as [| x p IH]; simpl; [done |]. by rewrite decide_True. Qed.

Lemma list_ascii_of_string_of_list l : String.list_ascii_of_string (String.string_of_list_ascii l) = l.
Proof. apply String.list_ascii_of_string_of_list_ascii. Qed.

(** The codec keeps its promise, for every set of type definitions and every
    type id. *)
Lemma Encode_Decode typedefs tid c d :
  (tid < 2 ^ 62)%N -> wf_command c -> Encode typedefs tid c = Ok d -> Decode typedefs tid d = Ok c.
Proof.
  intros Ht Hwf. unfold Encode, Decode, tid_enc. set (msg := uint_enc (2 * tid) ++ command_enc c).
  destruct (N.ltb_spec tooBig (N.of_nat (length msg))) as [| Hlen]; [done |]. intros [= <-].
  unfold tooBig in Hlen. rewrite strip_app, list_ascii_of_string_of_list, <- (app_nil_r msg).
  rewrite app_nil_r at 1. rewrite uint_roundtrip by lia. rewrite app_nil_r.
  rewrite (proj2 (N.ltb_ge _ _)) by lia. rewrite Nat2N.id, firstn_all. unfold msg.
  rewrite uint_roundtrip by lia. rewrite N.eqb_refl.
  rewrite <- (app_nil_r (command_enc c)), command_roundtrip; [done | done |].
  unfold msg in Hlen. rewrite length_app in Hlen. lia.
Qed.

#[export] Instance codec_laws typedefs tid (H : (tid < 2 ^ 62)%N) : CodecLaws (H := codec typedefs tid).
Proof. split. intros c d. by apply Encode_Decode. Qed.

End Gob.

(** C37. Commands survive the log: with the wire format of [encoding/gob], whatever
    the type definitions and the type id of the process, a command whose
    expiries are 64-bit values is encoded unless its message passes gob's size
    limit, and the bytes decode to exactly that command. *)
Theorem command_wire_roundtrip typedefs tid c :
  (tid < 2 ^ 62)%N -> wf_command c ->
  match @encodeCommand (Gob.codec typedefs tid) c with
  | Ok d => @decodeCommand (Gob.codec typedefs tid) d = Ok c
  | Err _ => (Gob.tooBig < N.of_nat (length (Gob.tid_enc tid ++ Gob.command_enc c)))%N
  end.
Proof.
  intros Ht Hwf. unfold encodeCommand, decodeCommand. simpl.
  destruct (Gob.Encode typedefs tid c) as [d |] eqn:E; [by apply Gob.Encode_Decode |].
  revert E. unfold Gob.Encode. by destruct (N.ltb_spec Gob.tooBig
    (N.of_nat (length (Gob.tid_enc tid ++ Gob.command_enc c)))).
Qed.

Lemma command_wire_roundtrip_witness :
  let c := mkCommand [mkPair "k" "v" 1704067260] ["old"] in
  match @encodeCommand (Gob.codec "types" 65) c with
  | Ok d => @decodeCommand (Gob.codec "types" 65) d = Ok c
  | Err _ => (Gob.tooBig < N.of_nat (length (Gob.tid_enc 65 ++ Gob.command_enc c)))%N
  end.
Proof.
  apply (command_wire_roundtrip "types" 65 (mkCommand [mkPair "k" "v" 1704067260] ["old"])).
  - lia.
  - constructor; [split; simpl; lia | constructor].
Defined.
