(* ===== verification/Bytes.v ===== *)
(** * Bytes: lexicographic order and prefixes of byte strings

    A Go [string] and a [[]byte] are both sequences of bytes and both are
    modelled by [string].  Badger iterates over keys in this order. *)
From S2P Require Import Prelude.
From Stdlib Require Import Sorting.Sorted.

(** [bytes.Compare(a, b) < 0]. *)
Fixpoint bytes_ltb (a b : string) : bool :=
  match a, b with
  | EmptyString, EmptyString => false
  | EmptyString, String _ _ => true
  | String _ _, EmptyString => false
  | String x a', String y b' =>
      if (Ascii.N_of_ascii x <? Ascii.N_of_ascii y)%N then true
      else if (Ascii.N_of_ascii y <? Ascii.N_of_ascii x)%N then false
      else bytes_ltb a' b'
  end.

(** [bytes.HasPrefix(s, p)]. *)
Fixpoint has_prefix (p s : string) : bool :=
  match p, s with
  | EmptyString, _ => true
  | String x p', String y s' => bool_decide (x = y) && has_prefix p' s'
  | String _ _, EmptyString => false
  end.

Definition bytes_lt (a b : string) : Prop := bytes_ltb a b = true.
Definition bytes_le (a b : string) : Prop := bytes_ltb b a = false.

#[export] Instance bytes_lt_dec a b : Decision (bytes_lt a b).
Proof. unfold bytes_lt. apply _. Defined.
#[export] Instance bytes_le_dec a b : Decision (bytes_le a b).
Proof. unfold bytes_le. apply _. Defined.

(** ** Lemmas *)

Lemma ascii_eq_N x y : Ascii.N_of_ascii x = Ascii.N_of_ascii y -> x = y.
Proof. intros H. by rewrite <- (Ascii.ascii_N_embedding x), H, Ascii.ascii_N_embedding. Qed.

(** Case analysis on every comparison of two bytes. *)
Ltac case_bytes :=
  repeat match goal with
         | |- context [N.ltb ?a ?b] => destruct (N.ltb_spec a b); try lia; try done
         | H : context [N.ltb ?a ?b] |- _ => destruct (N.ltb_spec a b); try lia; try done
         end.

Lemma bytes_ltb_irrefl a : bytes_ltb a a = false.
Proof. induction a as [| x a IH]; simpl; [done |]. rewrite N.ltb_irrefl. done. Qed.

Lemma bytes_lt_trans a b c : bytes_lt a b -> bytes_lt b c -> bytes_lt a c.
Proof.
  unfold bytes_lt. revert b c.
  induction a as [| x a IH]; intros [| y b] [| z c]; simpl; try done.
  intros. case_bytes. eauto.
Qed.

Lemma bytes_lt_total a b : bytes_lt a b \/ a = b \/ bytes_lt b a.
Proof.
  unfold bytes_lt. revert b. induction a as [| x a IH]; intros [| y b]; simpl; auto.
  case_bytes; auto. assert (x = y) as -> by (apply ascii_eq_N; lia).
  destruct (IH b) as [? | [-> | ?]]; auto.
Qed.

Lemma bytes_lt_not_le a b : bytes_lt a b -> ~ bytes_le b a.
Proof. unfold bytes_lt, bytes_le. by intros ->. Qed.

Lemma bytes_lt_asym a b : bytes_lt a b -> bytes_le a b.
Proof.
  intros Hab. unfold bytes_le. destruct (bytes_ltb b a) eqn:E; [| done].
  pose proof (bytes_lt_trans _ _ _ Hab E) as H. unfold bytes_lt in H. by rewrite bytes_ltb_irrefl in H.
Qed.

Lemma bytes_le_cases a b : bytes_le a b -> bytes_lt a b \/ a = b.
Proof.
  intros H. destruct (bytes_lt_total a b) as [? | [? | Hba]]; auto.
  by apply bytes_lt_not_le in Hba.
Qed.

#[export] Instance bytes_le_trans : Transitive bytes_le.
Proof.
  intros a b c [Hab | ->]%bytes_le_cases [Hbc | ->]%bytes_le_cases.
  - apply bytes_lt_asym. by eapply bytes_lt_trans.
  - by apply bytes_lt_asym.
  - by apply bytes_lt_asym.
  - apply bytes_ltb_irrefl.
Qed.

#[export] Instance bytes_le_total : Total bytes_le.
Proof.
  intros a b. destruct (bytes_lt_total a b) as [? | [-> | ?]].
  - left. by apply bytes_lt_asym.
  - left. apply bytes_ltb_irrefl.
  - right. by apply bytes_lt_asym.
Qed.

(** A string with prefix [p] is not below [p]. *)
Lemma has_prefix_le p s : has_prefix p s = true -> bytes_ltb s p = false.
Proof.
  revert s. induction p as [| x p IH]; intros [| y s]; simpl; try done.
  intros [->%bool_decide_eq_true ?]%andb_true_iff. rewrite N.ltb_irrefl. auto.
Qed.

(** The strings with a given prefix are contiguous in the order: past the
    first string at or above [p] without the prefix, none has it. *)
Lemma has_prefix_convex p k k' :
  bytes_ltb k p = false -> has_prefix p k = false -> bytes_lt k k' -> has_prefix p k' = false.
Proof.
  unfold bytes_lt. revert k k'. induction p as [| x p IH]; intros [| y k] [| z k']; simpl; try done.
  intros H1 H2 H3. destruct (bool_decide_reflect (x = z)) as [<- | ?]; [| done]. simpl.
  case_bytes. assert (x = y) as <- by (apply ascii_eq_N; lia).
  rewrite bool_decide_eq_true_2 in H2 by done. eauto.
Qed.

Lemma has_prefix_app p s : has_prefix p (p +:+ s) = true.
Proof. induction p as [| x p IH]; simpl; [done |]. by rewrite bool_decide_eq_true_2. Qed.
