(* ===== verification/Badger.v ===== *)
(** * Badger: the interface of the storage engine

    Badger is a third-party library: its operations are the class
    [BadgerOps], what the source relies on is the class [BadgerLaws], and the
    components are proved against the two.  [MapBadger] is a concrete engine
    that satisfies the laws; witnesses run on it. *)
From S2P Require Import Prelude Errors Options Command Bytes.
From Stdlib Require Import Sorting.Sorted.
From stdpp Require Import sorting.

Class BadgerOps := {
  bdb : Type;                    (** an open database *)
  image : Type;                  (** the files Badger keeps in one directory *)
  backup : Type;                 (** a backup stream *)
  utxn : Type;                   (** a read-write transaction in progress *)
  empty_image : image;           (** an empty directory *)
  DefaultOptions : string -> badger_Options;
  db_open : image -> image -> result error bdb;     (** from the files of [Dir] and [ValueDir] *)
  db_files : bdb -> image;                          (** files left when the two directories are one *)
  db_files_split : bdb -> image * image;            (** files left in two directories *)
  db_new_txn : bdb -> utxn;
  txn_SetEntry : utxn -> string -> bentry -> result error utxn;
  txn_Delete : utxn -> string -> result error utxn;
  txn_Commit : utxn -> result error bdb;
  txn_Get : bdb -> Z -> string -> result error string;
  db_items : bdb -> Z -> list (string * string);    (** what an iterator yields after a rewind *)
  db_Backup : Z -> bdb -> result error backup;      (** full backup taken at the given time *)
  db_Load : bdb -> backup -> Z -> result error bdb
}.

(** The documented behaviour the source relies on.  [contents] is the store a
    database denotes, [txn_contents] the one a transaction would commit.

    - sets and deletes of a transaction become visible together, at commit;
    - a read sees the unexpired entry of its key, and a read of a key answers
      [ErrKeyNotFound] or the value: input and output errors are faults of the
      environment (Read.v);
    - an iterator yields the unexpired entries in strictly increasing key order;
    - a new directory opens as an empty database, and closing then opening a
      database keeps its data;
    - loading a backup into an empty database gives a store no later read can
      tell from the one backed up (entries already expired may be dropped). *)
Class BadgerLaws `{BadgerOps} := {
  contents : bdb -> kv;
  txn_contents : utxn -> kv;
  DefaultOptions_dir p : Dir (DefaultOptions p) = p /\ ValueDir (DefaultOptions p) = p;
  new_txn_contents db : txn_contents (db_new_txn db) = contents db;
  SetEntry_contents t k e t' :
    txn_SetEntry t k e = Ok t' -> txn_contents t' = <[k := e]> (txn_contents t);
  Delete_contents t k t' :
    txn_Delete t k = Ok t' -> txn_contents t' = delete k (txn_contents t);
  Commit_contents t db' : txn_Commit t = Ok db' -> contents db' = txn_contents t;
  Get_found db now k v : txn_Get db now k = Ok v -> visible now (contents db) k = Some v;
  Get_missing db now k e :
    txn_Get db now k = Err e -> Is e badger_ErrKeyNotFound = true ->
    visible now (contents db) k = None;
  Get_error db now k e : k <> EmptyString -> txn_Get db now k = Err e -> Is e badger_ErrKeyNotFound = true;
  items_sorted db now : StronglySorted (fun a b => bytes_lt (fst a) (fst b)) (db_items db now);
  items_visible db now k v : (k, v) ∈ db_items db now <-> visible now (contents db) k = Some v;
  open_fresh : exists db, db_open empty_image empty_image = Ok db /\ contents db = ∅;
  open_files db :
    exists db', db_open (db_files db) (db_files db) = Ok db' /\ contents db' = contents db;
  open_files_split db :
    exists db', db_open (fst (db_files_split db)) (snd (db_files_split db)) = Ok db' /\
                contents db' = contents db;
  Load_Backup now db bs db0 n db' :
    db_Backup now db = Ok bs -> contents db0 = ∅ -> db_Load db0 bs n = Ok db' ->
    contents db' ≈[now] contents db
}.

(** ** A concrete engine *)
Module MapBadger.

Definition txn_limit : nat := 1000.

(** The unexpired entries, before sorting. *)
Definition live (now : Z) (m : kv) : list (string * string) :=
  omap (fun p => if expired now (snd p) then None else Some (fst p, be_Value (snd p))) (map_to_list m).

Definition key_le (a b : string * string) : Prop := bytes_le (fst a) (fst b).

#[export] Instance key_le_dec a b : Decision (key_le a b).
Proof. unfold key_le. apply _. Defined.

Definition Get (m : kv) (now : Z) (k : string) : result error string :=
  match visible now m k with
  | Some v => Ok v
  | None => Err (Sentinel badger_ErrKeyNotFound)
  end.

Definition SetEntry (t : kv * nat) (k : string) (e : bentry) : result error (kv * nat) :=
  if is_empty k then Err (Sentinel (foreign "Key cannot be empty"))
  else if (snd t <? txn_limit)%nat then Ok (<[k := e]> (fst t), S (snd t))
  else Err (Sentinel (foreign "Txn is too big to fit into one request")).

Definition Delete (t : kv * nat) (k : string) : result error (kv * nat) :=
  if is_empty k then Err (Sentinel (foreign "Key cannot be empty"))
  else if (snd t <? txn_limit)%nat then Ok (delete k (fst t), S (snd t))
  else Err (Sentinel (foreign "Txn is too big to fit into one request")).

(** A backup drops the entries that have expired. *)
Definition Backup (now : Z) (m : kv) : kv := filter (fun p => expired now (snd p) = false) m.

#[export] Instance ops : BadgerOps := {|
  bdb := kv; image := kv; backup := kv; utxn := kv * nat;
  empty_image := ∅;
  DefaultOptions p := mkOptions p p true;
  db_open d v := if decide (d = v) then Ok d else Err (Sentinel (foreign "manifest mismatch"));
  db_files m := m;
  db_files_split m := (m, m);
  db_new_txn m := (m, 0);
  txn_SetEntry := SetEntry;
  txn_Delete := Delete;
  txn_Commit t := Ok (fst t);
  txn_Get := Get;
  db_items m now := merge_sort key_le (live now m);
  db_Backup now m := Ok (Backup now m);
  db_Load m bs _ := Ok (bs ∪ m)
|}.

Lemma live_spec now m k v : (k, v) ∈ live now m <-> visible now m k = Some v.
Proof.
  unfold live, visible. rewrite list_elem_of_omap. split.
  - intros ([k' e] & Hin%elem_of_map_to_list & Heq). simpl in Heq.
    destruct (expired now e) eqn:E; [done |]. injection Heq as -> <-. by rewrite Hin, E.
  - destruct (m !! k) as [e |] eqn:Hm; [| done]. destruct (expired now e) eqn:E; [done |].
    intros [= <-]. exists (k, e). split; [by apply elem_of_map_to_list |]. simpl. by rewrite E.
Qed.

Lemma live_keys_NoDup now m : NoDup (fst <$> live now m).
Proof.
  unfold live. pose proof (NoDup_fst_map_to_list m) as H. revert H.
  induction (map_to_list m) as [| [k e] l IH]; simpl; [constructor |].
  intros [Hk Hl]%NoDup_cons. destruct (expired now e); simpl; [by apply IH |].
  constructor; [| by apply IH]. intros ([k' v'] & -> & Hin)%list_elem_of_fmap.
  apply list_elem_of_omap in Hin as ([k'' e''] & Hin & Heq). simpl in *.
  destruct (expired now e''); [done |]. injection Heq as <- _.
  apply Hk, list_elem_of_fmap. by exists (k'', e'').
Qed.

Lemma items_sorted_ now m :
  StronglySorted (fun a b => bytes_lt (fst a) (fst b)) (merge_sort key_le (live now m)).
Proof.
  assert (Transitive key_le) by (intros ???; unfold key_le; apply transitivity).
  assert (Total key_le) by (intros ??; apply bytes_le_total).
  pose proof (StronglySorted_merge_sort key_le (live now m)) as Hs.
  assert (NoDup (fst <$> merge_sort key_le (live now m))) as Hnd.
  { rewrite merge_sort_Permutation. apply live_keys_NoDup. }
  revert Hnd. induction Hs as [| a l Hs IH Hall]; simpl; [constructor |].
  intros [Hin Hnd]%NoDup_cons. constructor; [by apply IH |].
  apply List.Forall_forall. intros b Hb. rewrite List.Forall_forall in Hall.
  destruct (bytes_le_cases _ _ (Hall b Hb)) as [| Heq]; [done |].
  destruct Hin. rewrite Heq. apply list_elem_of_fmap. exists b.
  split; [done | by apply list_elem_of_In].
Qed.

Lemma Load_Backup_ now (m m' : kv) : m' = ∅ -> Backup now m ∪ m' ≈[now] m.
Proof.
  intros -> t k Ht. rewrite map_union_empty. unfold visible, Backup.
  rewrite map_lookup_filter. destruct (m !! k) as [e |]; simpl; [| done].
  case_guard as E; simpl; [done |].
  rewrite (expired_mono now t e); [done | done |]. simpl in E. by destruct (expired now e).
Qed.

#[export] Program Instance laws : BadgerLaws := {|
  contents := fun m : kv => m;
  txn_contents := fun t : kv * nat => fst t
|}.
Next Obligation. done. Qed.
Next Obligation. done. Qed.
Next Obligation.
  intros t k e t'. simpl. unfold SetEntry. intros H. split_all.
Qed.
Next Obligation.
  intros t k t'. simpl. unfold Delete. intros H. split_all.
Qed.
Next Obligation. by intros t db' [= <-]. Qed.
Next Obligation. intros m now k v. simpl. unfold Get. intros. split_all. Qed.
Next Obligation. intros m now k e. simpl. unfold Get. intros. split_all. Qed.
Next Obligation. intros m now k e. simpl. unfold Get. intros. split_all. Qed.
Next Obligation. intros m now. apply items_sorted_. Qed.
Next Obligation.
  intros m now k v. rewrite <- live_spec. simpl. by rewrite merge_sort_Permutation.
Qed.
Next Obligation. exists ∅. simpl. by rewrite decide_True. Qed.
Next Obligation. intros m. exists m. simpl. by rewrite decide_True. Qed.
Next Obligation. intros m. exists m. simpl. by rewrite decide_True. Qed.
Next Obligation. intros now m bs m0 n m' [= <-] ? [= <-]. by apply Load_Backup_. Qed.

End MapBadger.
