(* ===== verification/Files.v ===== *)
(** * Files: the parts of [path/filepath] and [os] the source uses

    A path is resolved lexically to its list of components.  The file system
    maps a directory's components to the image of the database files it
    holds; directories that hold no database files (the parents, the Raft
    directory) are not represented.  Every system call takes an optional fault
    and fails when there is one; a failed [RemoveAll] may leave part of the
    directory behind. *)
From S2P Require Import Prelude Errors Options Command Badger.
From Stdlib Require Import Ascii.

(** ** Lexical paths *)

Definition slash : Ascii.ascii := "/"%char.

Fixpoint split_slash (s : string) : list string :=
  match s with
  | EmptyString => [EmptyString]
  | String c s' =>
      if decide (c = slash) then EmptyString :: split_slash s'
      else match split_slash s' with
           | h :: t => String c h :: t
           | [] => [String c EmptyString]
           end
  end.

Definition rooted (s : string) : bool :=
  match s with String c _ => bool_decide (c = slash) | EmptyString => false end.

(** One step of [filepath.Clean] over the components kept so far. *)
Definition clean_step (root : bool) (acc : list string) (c : string) : list string :=
  if decide (c = EmptyString \/ c = ".") then acc
  else if decide (c = "..") then
    match last acc with
    | None => if root then [] else [".."]
    | Some d => if decide (d = "..") then acc ++ [".."] else removelast acc
    end
  else acc ++ [c].

Definition clean (root : bool) (cs : list string) : list string :=
  fold_left (clean_step root) cs [].

(** The directory a path names: its cleaned components, below a root marker
    when the path is absolute. *)
Definition comps (s : string) : list string :=
  (if rooted s then ["/"] else []) ++ clean (rooted s) (split_slash s).

(** [filepath.Clean] and [filepath.Join], for a Unix separator. *)
Definition filepath_Clean (s : string) : string :=
  let body := String.concat "/" (clean (rooted s) (split_slash s)) in
  if rooted s then "/" +:+ body else if is_empty body then "." else body.

Fixpoint filepath_Join (elem : list string) : string :=
  match elem with
  | [] => EmptyString
  | e :: es => if is_empty e then filepath_Join es else filepath_Clean (String.concat "/" (e :: es))
  end.

(** ** The file system *)

Abbreviation path := (list string).

(** [q] is [p] or lies below it. *)
Definition under (p q : path) : Prop := p `prefix_of` q.

#[export] Instance under_dec p q : Decision (under p q).
Proof. unfold under. apply _. Defined.

Section Files.
Context `{B : BadgerOps}.

Abbreviation fsys := (gmap (list string) image).

(** What goes wrong in a call: the error returned, and what is left of the
    directory when the failure damaged it. *)
Record fault := mkFault { f_error : error; f_residue : option image }.

Definition residue (f : fault) (p : path) (fs : fsys) : fsys :=
  match f_residue f with
  | Some i => if decide (is_Some (fs !! p)) then <[p := i]> fs else fs
  | None => fs
  end.

(** [os.RemoveAll]: removing what is not there is no error. *)
Definition RemoveAll (f : option fault) (p : path) (fs : fsys) : fsys * result error unit :=
  match f with
  | None => (filter (fun e => ~ under p (fst e)) fs, Ok tt)
  | Some f => (residue f p fs, Err (f_error f))
  end.

(** [os.MkdirAll]: an existing directory is kept as it is. *)
Definition MkdirAll (f : option fault) (p : path) (fs : fsys) : fsys * result error unit :=
  match f with
  | None => (match fs !! p with Some _ => fs | None => <[p := empty_image]> fs end, Ok tt)
  | Some f => (fs, Err (f_error f))
  end.

(** The path [q] below [old], moved below [new]. *)
Definition move (old new q : path) : path := new ++ drop (length old) q.

(** [os.Rename] of a directory: the old name must exist, the new one must not
    name an existing directory, and a directory cannot move below itself. *)
Definition Rename (f : option fault) (old new : path) (fs : fsys) : fsys * result error unit :=
  match f with
  | Some f => (fs, Err (f_error f))
  | None =>
      if decide (fs !! old = None) then (fs, Err (Sentinel (foreign "no such file or directory")))
      else if decide (is_Some (fs !! new)) then (fs, Err (Sentinel (foreign "file exists")))
      else if decide (under old new) then (fs, Err (Sentinel (foreign "invalid argument")))
      else
        (list_to_map ((fun e => (move old new (fst e), snd e)) <$>
                        map_to_list (filter (fun e => under old (fst e)) fs))
         ∪ filter (fun e => ~ under old (fst e)) fs, Ok tt)
  end.

(** Two directories neither of which lies in the other. *)
Definition apart (p q : path) : Prop := ~ under p q /\ ~ under q p.

#[export] Instance apart_dec p q : Decision (apart p q).
Proof. unfold apart. apply _. Defined.

(** ** Lemmas *)

Lemma apart_sym p q : apart p q -> apart q p.
Proof. unfold apart. tauto. Qed.

Lemma apart_ne p q : apart p q -> p <> q.
Proof. intros [H _] ->. by apply H. Qed.

Lemma RemoveAll_self p fs : fst (RemoveAll None p fs) !! p = None.
Proof. simpl. apply map_lookup_filter_None. right. intros i _ H. by apply H. Qed.

Lemma RemoveAll_apart f p q fs :
  apart p q -> fst (RemoveAll f p fs) !! q = fs !! q.
Proof.
  intros Hpq. destruct f as [[e r] |]; simpl.
  - unfold residue; simpl. destruct r; [| done]. case_decide; [| done].
    rewrite lookup_insert_ne; [done | by apply apart_ne].
  - destruct (fs !! q) as [i |] eqn:E.
    + apply map_lookup_filter_Some. split; [done | apply Hpq].
    + apply map_lookup_filter_None. by left.
Qed.

Lemma MkdirAll_self p fs : is_Some (fst (MkdirAll None p fs) !! p).
Proof. simpl. destruct (fs !! p) eqn:E; [by rewrite E | by rewrite lookup_insert_eq]. Qed.

Lemma MkdirAll_ne f p q fs : p <> q -> fst (MkdirAll f p fs) !! q = fs !! q.
Proof. intros H. destruct f; simpl; [done |]. destruct (fs !! p); [done |]. by rewrite lookup_insert_ne. Qed.

Lemma move_self old new : move old new old = new.
Proof. unfold move. by rewrite drop_all, app_nil_r. Qed.

Lemma move_inj old new q1 q2 :
  under old q1 -> under old q2 -> move old new q1 = move old new q2 -> q1 = q2.
Proof.
  intros [r1 ->] [r2 ->]. unfold move. rewrite !drop_app_length. by intros ->%app_inv_head.
Qed.

Lemma Rename_new old new fs i :
  fs !! old = Some i -> fs !! new = None -> apart old new ->
  snd (Rename None old new fs) = Ok tt /\ fst (Rename None old new fs) !! new = Some i.
Proof.
  intros Hold Hnew [Ha _]. unfold Rename.
  rewrite decide_False by (by rewrite Hold). rewrite decide_False by (by rewrite Hnew; intros []).
  rewrite decide_False by done. split; [done |]. apply lookup_union_Some_l.
  apply elem_of_list_to_map_1.
  - rewrite <- list_fmap_compose. apply NoDup_fmap_2_strong; [| apply NoDup_map_to_list].
    intros [q1 i1] [q2 i2] [H1 U1]%elem_of_map_to_list%map_lookup_filter_Some
      [H2 U2]%elem_of_map_to_list%map_lookup_filter_Some Heq. simpl in *.
    assert (q1 = q2) as -> by (by eapply move_inj). by simplify_eq.
  - apply list_elem_of_fmap. exists (old, i). split; [simpl; by rewrite move_self |].
    apply elem_of_map_to_list, map_lookup_filter_Some. split; [done | by simpl].
Qed.

Lemma Rename_lookup_other old new fs q :
  ~ under old q -> ~ under new q -> fst (Rename None old new fs) !! q = fs !! q.
Proof.
  intros Ho Hn. unfold Rename. repeat (case_decide; [done |]). simpl.
  rewrite lookup_union_r.
  - destruct (fs !! q) as [i |] eqn:E.
    + apply map_lookup_filter_Some. by split.
    + apply map_lookup_filter_None. by left.
  - apply not_elem_of_list_to_map_1. rewrite <- list_fmap_compose.
    intros ([q' i'] & -> & _)%list_elem_of_fmap. apply Hn. simpl. by exists (drop (length old) q').
Qed.

Lemma Rename_old old new fs :
  fs !! new = None -> is_Some (fs !! old) -> apart old new ->
  fst (Rename None old new fs) !! old = None.
Proof.
  intros Hnew [i Hold] [Ha Hb]. unfold Rename.
  rewrite decide_False by (by rewrite Hold). rewrite decide_False by (by rewrite Hnew; intros []).
  rewrite decide_False by done. simpl. apply lookup_union_None. split.
  - apply not_elem_of_list_to_map_1. rewrite <- list_fmap_compose.
    intros ([q' i'] & Heq & _)%list_elem_of_fmap. simpl in Heq. apply Hb.
    rewrite Heq. by exists (drop (length old) q').
  - apply map_lookup_filter_None. right. intros ? _ H. by apply H.
Qed.

Lemma Rename_fail f old new fs : fst (Rename (Some f) old new fs) = fs.
Proof. done. Qed.

End Files.

(** A path whose last component is an ordinary name: appending a suffix to it
    changes that component and nothing else. *)
Lemma split_slash_not_nil s : split_slash s <> [].
Proof. destruct s as [| c s]; simpl; [done |]. case_decide; [done |]. by destruct (split_slash s). Qed.

Fixpoint slash_free (s : string) : bool :=
  match s with EmptyString => true | String c s' => negb (bool_decide (c = slash)) && slash_free s' end.

Lemma split_slash_free s : slash_free s = true -> split_slash s = [s].
Proof.
  induction s as [| c s IH]; simpl; [done |]. intros [Hc Hs]%andb_true_iff.
  case_bool_decide; [done |]. rewrite decide_False by done. by rewrite IH.
Qed.

Lemma split_slash_app p s : split_slash (p +:+ String slash s) = split_slash p ++ split_slash s.
Proof.
  induction p as [| c p IH]; simpl; [done |]. rewrite IH. case_decide; [done |].
  destruct (split_slash p) eqn:E; [| done]. by apply split_slash_not_nil in E.
Qed.

Definition plain (s : string) : Prop :=
  slash_free s = true /\ s <> EmptyString /\ s <> "." /\ s <> "..".

Lemma comps_snoc p s :
  p <> EmptyString -> plain s -> comps (p +:+ String slash s) = comps p ++ [s].
Proof.
  intros Hp (Hf & H1 & H2 & H3). unfold comps, clean.
  assert (rooted (p +:+ String slash s) = rooted p) as -> by (destruct p; [congruence | done]).
  rewrite split_slash_app, (split_slash_free s) by done. rewrite fold_left_app. simpl.
  unfold clean_step at 1. rewrite decide_False by naive_solver. rewrite decide_False by done.
  by rewrite app_assoc.
Qed.

Lemma snoc_apart (cs : list string) a b : a <> b -> apart (cs ++ [a]) (cs ++ [b]).
Proof.
  intros Hab. split; intros H%prefix_app_inv; apply prefix_cons_inv_1 in H; congruence.
Qed.
