(* ===== verification/Raft.v ===== *)
(** * Raft: the interface of the consensus library

    [hashicorp/raft] is third-party: the calls the source makes are the class
    [RaftOps] over a foreign state [raftw] that may change at every call (a
    node can lose leadership between two calls).  A call that blocks returns a
    future that also lists what Raft's goroutine asked of the state machine
    meanwhile.  [RaftLaws] states what Raft documents about a successful
    [Apply] and [Barrier].  [SimRaft] is a concrete single-node Raft for the
    witnesses. *)
From S2P Require Import Prelude Errors Types Options.

(** A committed command entry: [raft.Log]. *)
Record rlog := mkLog { Index : Z; Data : string }.

#[export] Instance rlog_eq_dec : EqDecision rlog.
Proof. solve_decision. Defined.

(** What Raft calls on the state machine while a call of the node waits. *)
Inductive fsm_call (backup : Type) : Type :=
| CallApply (l : rlog)
| CallRestore (rc : backup).
Arguments CallApply {backup} _.
Arguments CallRestore {backup} _.

(** The outcome of a Raft future: the state machine calls made before it
    resolved, its error, and which call's response is its response. *)
Record future (backup : Type) := mkFuture {
  fut_calls : list (fsm_call backup);
  fut_error : option error;
  fut_response : nat
}.
Arguments mkFuture {backup} _ _ _.
Arguments fut_calls {backup} _.
Arguments fut_error {backup} _.
Arguments fut_response {backup} _.

Class RaftOps (backup : Type) := {
  raftw : Type;
  raft_State : raftw -> raftw * RaftState;
  raft_LeaderWithID : raftw -> raftw * (string * string);   (** address, ID *)
  raft_Apply : string -> Duration -> raftw -> raftw * future backup;
  raft_Barrier : Duration -> raftw -> raftw * future backup;
  raft_AddVoter : string -> string -> Z -> Duration -> raftw -> raftw * future backup;
  raft_RemoveServer : string -> Z -> Duration -> raftw -> raftw * future backup;
  raft_GetConfiguration : raftw -> raftw * result error (list Server);
  raft_Snapshot : raftw -> raftw * future backup;
  raft_Stats : raftw -> raftw * gmap string string;
  raft_ShutdownCall : raftw -> raftw * future backup;   (** the method [Shutdown] *)
  transport_LocalAddr : raftw -> string;
  transport_Close : raftw -> raftw * option error;
  boltStore_Close : raftw -> raftw * option error
}.

(** The entries numbered [i] up to [j] of a log, as state machine calls. *)
Definition delivery {backup} (cs : list rlog) (i j : nat) : list (fsm_call backup) :=
  CallApply <$> take (j - i) (drop i cs).

(** What Raft promises.  [committed] is the command log the cluster has
    committed when the state was observed, [applied] the number of its entries
    this node's state machine has been given.

    - a node is only given committed entries;
    - the committed log only grows, whatever is called;
    - a successful barrier or apply hands the state machine the next committed
      entries in order;
    - a barrier returns once everything committed before it was handed over;
    - a successful apply's entry carries the submitted bytes, comes after
      everything committed before, and its response is the future's. *)
Class RaftLaws (backup : Type) `{RaftOps backup} := {
  committed : raftw -> list rlog;
  applied : raftw -> nat;
  applied_committed w : applied w <= length (committed w);
  State_committed w : committed w `prefix_of` committed (fst (raft_State w)) /\
                      applied (fst (raft_State w)) = applied w;
  LeaderWithID_committed w :
    committed w `prefix_of` committed (fst (raft_LeaderWithID w)) /\
    applied (fst (raft_LeaderWithID w)) = applied w;
  Barrier_delivers t w w' fut :
    raft_Barrier t w = (w', fut) -> fut_error fut = None ->
    committed w `prefix_of` committed w' /\
    length (committed w) <= applied w' /\
    applied w <= applied w' /\
    fut_calls fut = delivery (committed w') (applied w) (applied w');
  Apply_delivers d t w w' fut :
    raft_Apply d t w = (w', fut) -> fut_error fut = None ->
    committed w `prefix_of` committed w' /\
    applied w <= applied w' /\
    fut_calls fut = delivery (committed w') (applied w) (applied w') /\
    length (committed w) <= applied w + fut_response fut < applied w' /\
    Data <$> (committed w' !! (applied w + fut_response fut)) = Some d
}.

(** ** A concrete single-node Raft *)
Module SimRaft.
Section SimRaft.
Context {backup : Type}.

Record world := mkWorld {
  s_state : RaftState;
  s_leader : string * string;
  s_log : list rlog;
  s_applied : nat;
  s_servers : list Server;
  s_addr : string;
  s_pending : list rlog      (** entries that commit behind this node's back *)
}.

Definition commit (l : list rlog) (a : nat) (w : world) : world :=
  mkWorld (s_state w) (s_leader w) l a (s_servers w) (s_addr w) [].

(** How much of the log this node was given: never more than there is. *)
Definition delivered (w : world) : nat := s_applied w `min` length (s_log w).

Definition is_leader (w : world) : bool := bool_decide (s_state w = raft_Leader).

(** Everything committed, then the new entry, is handed over at once. *)
Definition Apply (d : string) (_ : Duration) (w : world) : world * future backup :=
  if is_leader w then
    let old := s_log w ++ s_pending w in
    let l := old ++ [mkLog (Z.of_nat (S (length old))) d] in
    (commit l (length l) w,
     mkFuture (delivery l (delivered w) (length l)) None (length old - delivered w))
  else (w, mkFuture [] (Some (Sentinel raft_ErrNotLeader)) 0).

Definition Barrier (_ : Duration) (w : world) : world * future backup :=
  if is_leader w then
    let l := s_log w ++ s_pending w in
    (commit l (length l) w, mkFuture (delivery l (delivered w) (length l)) None 0)
  else (w, mkFuture [] (Some (Sentinel raft_ErrNotLeader)) 0).

Definition set_servers (ss : list Server) (w : world) : world :=
  mkWorld (s_state w) (s_leader w) (s_log w) (s_applied w) ss (s_addr w) (s_pending w).

Definition reconfigure (ss : list Server) (w : world) : world * future backup :=
  if is_leader w then (set_servers ss w, mkFuture [] None 0)
  else (w, mkFuture [] (Some (Sentinel raft_ErrNotLeader)) 0).

Definition Shutdown (w : world) : world * future backup :=
  (mkWorld raft_Shutdown (s_leader w) (s_log w) (s_applied w) (s_servers w) (s_addr w) (s_pending w),
   mkFuture [] None 0).

#[export] Instance ops : RaftOps backup := {|
  raftw := world;
  raft_State w := (w, s_state w);
  raft_LeaderWithID w := (w, s_leader w);
  raft_Apply := Apply;
  raft_Barrier := Barrier;
  raft_AddVoter id addr _ _ w := reconfigure (s_servers w ++ [mkServer raft_Voter id addr]) w;
  raft_RemoveServer id _ _ w := reconfigure (filter (fun s => ServerID s <> id) (s_servers w)) w;
  raft_GetConfiguration w := (w, Ok (s_servers w));
  raft_Snapshot w := (w, mkFuture [] None 0);
  raft_Stats w := (w, {[ "state" := "Leader" ]});
  raft_ShutdownCall := Shutdown;
  transport_LocalAddr := s_addr;
  transport_Close w := (w, None);
  boltStore_Close w := (w, None)
|}.

End SimRaft.

#[export] Program Instance laws {backup} : RaftLaws backup (H := @ops backup) := {|
  committed := s_log;
  applied := delivered
|}.
Next Obligation. intros backup w. unfold delivered. lia. Qed.
Next Obligation. done. Qed.
Next Obligation. done. Qed.
Next Obligation.
  intros backup t w w' fut. simpl. unfold Barrier. destruct (is_leader w); [| by intros [= <- <-]].
  intros [= <- <-] _. unfold delivered; simpl. rewrite Nat.min_id, length_app.
  repeat split; [by eexists | lia | lia].
Qed.
Next Obligation.
  intros backup d t w w' fut. simpl. unfold Apply. destruct (is_leader w); [| by intros [= <- <-]].
  intros [= <- <-] _. simpl.
  assert (delivered w <= length (s_log w)) as Hd by (unfold delivered; lia).
  set (old := s_log w ++ s_pending w). set (e := mkLog _ d).
  assert (length (s_log w) <= length old) by (unfold old; rewrite length_app; lia).
  assert (delivered (commit (old ++ [e]) (length (old ++ [e])) w) = S (length old)) as ->.
  { unfold delivered; simpl. rewrite Nat.min_id, length_app. simpl. lia. }
  replace (delivered w + (length old - delivered w)) with (length old) by lia.
  repeat split; try lia.
  - unfold old. rewrite <- app_assoc. by eexists.
  - by rewrite length_app, Nat.add_comm.
  - by rewrite list_lookup_middle.
Qed.

End SimRaft.
