(* ===== verification/Node.v ===== *)
(** * Node: the [DB] of [db.go], the world it runs in, and its store

    A method of [DB] is a computation over [World]: the node's fields, the
    file system, the faults the environment will inject into the coming
    system and storage calls, and the clock. *)
From S2P Require Import Prelude Errors Types Options Command Badger Files Raft.

Section Node.
Context `{B : BadgerOps} {R : RaftOps backup}.

(** ** State *)

(** An open Badger instance: the options it was opened with and its data. *)
Record handle := mkHandle { h_opts : badger_Options; h_db : bdb }.

(** The fields of [DB] and, for [appliedIndex], of its [fsm].  [logger] keeps
    what was printed to it (format and error), newest last.  [raft] stands for the Raft node, its
    transport and its log store.  [storeMu] is the subject of [Locks]: here
    every method runs alone. *)
Record DB := mkDB {
  cfg : Config;
  raft : raftw;
  logger : list (string * error);
  store : option handle;
  badgerOpts : badger_Options;
  badgerDir : string;
  closed : bool;
  closeOnce : bool;
  closeErr : option error;
  appliedIndex : Z
}.

Record World := mkWorld {
  w_db : DB;
  w_fs : gmap (list string) image;
  w_faults : list (option fault);   (** one per coming fallible call; none left: no fault *)
  w_clock : Z;
  w_ticks : list Z                  (** time that passes at each coming look at the clock *)
}.

Abbreviation M := (ST World error).

Definition set_db (f : DB -> DB) (w : World) : World :=
  mkWorld (f (w_db w)) (w_fs w) (w_faults w) (w_clock w) (w_ticks w).
Definition set_fs (fs : gmap (list string) image) (w : World) : World :=
  mkWorld (w_db w) fs (w_faults w) (w_clock w) (w_ticks w).
Definition set_store (s : option handle) (w : World) : World :=
  set_db (fun d => mkDB (cfg d) (raft d) (logger d) s (badgerOpts d) (badgerDir d)
                     (closed d) (closeOnce d) (closeErr d) (appliedIndex d)) w.
Definition set_raft (r : raftw) (w : World) : World :=
  set_db (fun d => mkDB (cfg d) r (logger d) (store d) (badgerOpts d) (badgerDir d)
                     (closed d) (closeOnce d) (closeErr d) (appliedIndex d)) w.
Definition set_appliedIndex (i : Z) (w : World) : World :=
  set_db (fun d => mkDB (cfg d) (raft d) (logger d) (store d) (badgerOpts d) (badgerDir d)
                     (closed d) (closeOnce d) (closeErr d) i) w.
Definition set_closed (w : World) : World :=
  set_db (fun d => mkDB (cfg d) (raft d) (logger d) (store d) (badgerOpts d) (badgerDir d)
                     true (closeOnce d) (closeErr d) (appliedIndex d)) w.
Definition set_closeErr (e : option error) (w : World) : World :=
  set_db (fun d => mkDB (cfg d) (raft d) (logger d) (store d) (badgerOpts d) (badgerDir d)
                     (closed d) true e (appliedIndex d)) w.
Definition add_log (e : string * error) (w : World) : World :=
  set_db (fun d => mkDB (cfg d) (raft d) (logger d ++ [e]) (store d) (badgerOpts d) (badgerDir d)
                     (closed d) (closeOnce d) (closeErr d) (appliedIndex d)) w.

(** ** The environment *)

(** The fault of the next fallible call, if any. *)
Definition pop_fault : M (option fault) := fun w =>
  match w_faults w with
  | [] => (w, Ok None)
  | f :: fs => (mkWorld (w_db w) (w_fs w) fs (w_clock w) (w_ticks w), Ok f)
  end.

Definition tick (w : World) : Z := match w_ticks w with [] => 0%Z | t :: _ => Z.max 0 t end.

(** [time.Now]: later calls may read a later time. *)
Definition time_Now : M Z := fun w =>
  (mkWorld (w_db w) (w_fs w) (w_faults w) (w_clock w + tick w) (tail (w_ticks w)), Ok (w_clock w)).

(** [time.Sleep]: at least [d] passes. *)
Definition time_Sleep (d : Duration) : M unit := fun w =>
  (mkWorld (w_db w) (w_fs w) (w_faults w) (w_clock w + Z.max 0 d + tick w) (tail (w_ticks w)), Ok tt).

(** A file system call on the node's file system. *)
Definition os_call (op : option fault -> gmap (list string) image -> gmap (list string) image * result error unit)
  : M unit :=
  let! f := pop_fault in
  let! w := st_get in
  let p := op f (w_fs w) in
  do! st_mod (set_fs (fst p)); st_lift (snd p).

Definition os_RemoveAll (p : path) : M unit := os_call (fun f => RemoveAll f p).
Definition os_MkdirAll (p : path) : M unit := os_call (fun f => MkdirAll f p).
Definition os_Rename (old new : path) : M unit := os_call (fun f => Rename f old new).

(** A call on Raft that does not wait. *)
Definition raft_call {A} (f : raftw -> raftw * A) : M A := fun w =>
  let p := f (raft (w_db w)) in (set_raft (fst p) w, Ok (snd p)).

Definition logger_Printf (format : string) (e : error) : M unit := st_mod (add_log (format, e)).

(** ** Badger, on the node's file system *)

(** Whether the LSM tree and the value log share a directory. *)
Definition colocated (o : badger_Options) : bool := bool_decide (comps (Dir o) = comps (ValueDir o)).

(** [badger.Open]: missing directories are created, then the files are read. *)
Definition badger_Open (o : badger_Options) : M handle :=
  let! f := pop_fault in
  match f with
  | Some f => fail! (f_error f)
  | None =>
      do! st_mod (fun w => set_fs (fst (MkdirAll None (comps (Dir o)) (w_fs w))) w);
      do! st_mod (fun w => set_fs (fst (MkdirAll None (comps (ValueDir o)) (w_fs w))) w);
      let! w := st_get in
      match w_fs w !! comps (Dir o), w_fs w !! comps (ValueDir o) with
      | Some i, Some j => st_lift (result_bind (db_open i j) (fun db => Ok (mkHandle o db)))
      | _, _ => fail! (Sentinel (foreign "no such file or directory"))
      end
  end.

(** The files a closed instance leaves. *)
Definition flush (h : handle) (fs : gmap (list string) image) : gmap (list string) image :=
  if colocated (h_opts h) then <[comps (Dir (h_opts h)) := db_files (h_db h)]> fs
  else <[comps (Dir (h_opts h)) := fst (db_files_split (h_db h))]>
         (<[comps (ValueDir (h_opts h)) := snd (db_files_split (h_db h))]> fs).

(** The method [Close] of [badger.DB]. *)
Definition badger_Close (h : handle) : M unit :=
  let! f := pop_fault in
  match f with
  | None => st_mod (fun w => set_fs (flush h (w_fs w)) w)
  | Some f =>
      do! st_mod (fun w => set_fs (residue f (comps (Dir (h_opts h))) (w_fs w)) w);
      fail! (f_error f)
  end.

(** The method [Load] of [badger.DB]. *)
Definition badger_Load (h : handle) (rc : backup) (maxPendingWrites : Z) : M handle :=
  let! f := pop_fault in
  match f with
  | None => st_lift (result_bind (db_Load (h_db h) rc maxPendingWrites) (fun db => Ok (mkHandle (h_opts h) db)))
  | Some f => fail! (f_error f)
  end.

(** The method [Update] of [badger.DB] on the node's store: [fn] builds the transaction, an
    error of it discards everything, and the commit installs it at once. *)
Definition badger_Update (h : handle) (fn : utxn -> result error utxn) : M unit :=
  let! t := st_lift (fn (db_new_txn (h_db h))) in
  let! f := pop_fault in
  match f with
  | Some f => fail! (f_error f)
  | None =>
      let! db := st_lift (txn_Commit t) in
      st_mod (set_store (Some (mkHandle (h_opts h) db)))
  end.

(** ** The store of a node ([db.go], [fsm.go]) *)

(** [checkOpen]. *)
Definition checkOpen : M unit :=
  let! w := st_get in if closed (w_db w) then fail! (Sentinel ErrClosed) else ret! tt.

(** [withStore]. *)
Definition withStore {A} (fn : handle -> M A) : M A :=
  do! checkOpen;
  let! w := st_get in
  match store (w_db w) with
  | None => fail! (Sentinel ErrClosed)
  | Some h => fn h
  end.

(** [closeStore]. *)
Definition closeStore : M unit :=
  let! w := st_get in
  match store (w_db w) with
  | None => ret! tt
  | Some h =>
      let! r := st_try (badger_Close h) in
      do! st_mod (set_store None); st_lift r
  end.

(** [reopenLocked] ([fsm.go]). *)
Definition reopenLocked : M unit :=
  let! w := st_get in
  let! r := st_try (badger_Open (badgerOpts (w_db w))) in
  match r with
  | Err err =>
      do! logger_Printf "fsm: reopen badger after failed restore: %v" err;
      st_mod (set_store None)
  | Ok h => st_mod (set_store (Some h))
  end.

(** [notLeaderErr]. *)
Definition notLeaderErr : M error :=
  let! l := raft_call raft_LeaderWithID in ret! (NotLeaderError (snd l) (fst l)).

(** The error returned for a Raft error: a [NotLeaderError] for Raft's own. *)
Definition raft_error {A} (err : error) : M A :=
  if Is err raft_ErrNotLeader then let! e := notLeaderErr in fail! e else fail! err.

(** ** Lemmas *)

Lemma tick_nonneg (w : World) : (0 <= tick w)%Z.
Proof. unfold tick. destruct (w_ticks w); lia. Qed.

Lemma checked_open {A} (f : unit -> M A) (w : World) :
  closed (w_db w) = false -> st_bind checkOpen f w = f tt w.
Proof. intros H. unfold checkOpen, st_bind, st_get. by rewrite H. Qed.

Lemma checked_closed {A} (f : unit -> M A) (w : World) :
  closed (w_db w) = true -> st_bind checkOpen f w = (w, Err (Sentinel ErrClosed)).
Proof. intros H. unfold checkOpen, st_bind, st_get. by rewrite H. Qed.

Lemma checked_ok {A} (f : unit -> M A) (w w' : World) a :
  st_bind checkOpen f w = (w', Ok a) -> closed (w_db w) = false /\ f tt w = (w', Ok a).
Proof.
  destruct (closed (w_db w)) eqn:E; [by rewrite checked_closed | by rewrite checked_open].
Qed.

(** Refused before anything happens. *)
Definition refused {A} (m : M A) (w : World) : Prop :=
  exists e, m w = (w, Err e) /\ Is e ErrInvalidArgument = true.

(** The error of a node that is not the leader. *)
Lemma notLeader_run {A} (w : World) :
  exists w' id addr r, (let! e := notLeaderErr in st_err (A := A) e) w = (w', Err (NotLeaderError id addr)) /\
    raft_LeaderWithID r = (raft (w_db w'), (addr, id)).
Proof.
  destruct (raft_LeaderWithID (raft (w_db w))) as [r' [addr id]] eqn:E.
  exists (set_raft r' w), id, addr, (raft (w_db w)). split; [| done].
  unfold notLeaderErr, raft_call, st_bind, st_ret, st_err. by rewrite E.
Qed.

End Node.

#[global] Arguments mkHandle {B} _ _.
#[global] Arguments mkDB {B R} _ _ _ _ _ _ _ _ _ _.
#[global] Arguments mkWorld {B R} _ _ _ _ _.
#[global] Arguments DB {B R}, B R.
#[global] Arguments World {B R}, B R.
