(* ===== verification/Fsm.v ===== *)
(** * Fsm: the replicated state machine of [fsm.go]

    [Apply], [Snapshot], [Restore] and [Persist] as Raft calls them, on the
    world of [Node].  The gob encoding of commands is the interface of [Codec]. *)
From S2P Require Import Prelude Errors Types Options Command Codec Badger Files Raft Node.

Definition snapshotLoadMaxPendingWrites : Z := 256.

(** A [raft.SnapshotSink]: what was written to it and how it was finished. *)
Inductive sink_state : Set := SinkOpen | SinkClosed | SinkCancelled.
Record sink (backup : Type) := mkSink { sk_data : option backup; sk_state : sink_state }.
Arguments mkSink {backup} _ _.
Arguments sk_data {backup} _.
Arguments sk_state {backup} _.

Section Fsm.
Context `{B : BadgerOps} {R : RaftOps backup} `{C : Codec}.

Abbreviation M := (ST World error).

(** ** Apply *)

(** The loop over [cmd.Pairs]. *)
Fixpoint apply_pairs (ps : list commandPair) (txn : utxn) : result error utxn :=
  match ps with
  | [] => Ok txn
  | p :: ps => result_bind (txn_SetEntry txn (Key p) (pair_entry p)) (apply_pairs ps)
  end.

(** The loop over [cmd.Deletes]. *)
Fixpoint apply_deletes (ks : list string) (txn : utxn) : result error utxn :=
  match ks with
  | [] => Ok txn
  | k :: ks => result_bind (txn_Delete txn k) (apply_deletes ks)
  end.

(** The body of the transaction. *)
Definition apply_txn (cmd : command) (txn : utxn) : result error utxn :=
  result_bind (apply_pairs (Pairs cmd) txn) (apply_deletes (Deletes cmd)).

(** The method [Apply] of [fsm]: its result is the response Raft keeps, [None] for [nil]. *)
Definition Apply (log : rlog) : M (option error) :=
  match decodeCommand (Data log) with
  | Err err =>
      let err := Errorf "honeybadger: decode command at index %d: %w" [ArgInt (Index log)] err in
      do! logger_Printf "fsm: %v" err; ret! (Some err)
  | Ok cmd =>
      let! r := st_try (withStore (fun b => badger_Update b (apply_txn cmd))) in
      match r with
      | Err err =>
          let err := Errorf "honeybadger: apply command at index %d: %w" [ArgInt (Index log)] err in
          do! (if negb (Is err ErrClosed) then logger_Printf "fsm: %v" err else ret! tt);
          ret! (Some err)
      | Ok _ => do! st_mod (set_appliedIndex (Index log)); ret! None
      end
  end.

(** ** Snapshot and Persist *)

(** The method [Snapshot] of [fsm] only keeps the node: the [fsmSnapshot] carries nothing. *)
Definition Snapshot : result error unit := Ok tt.

Definition sink_Close (s : sink backup) : M (sink backup * option error) :=
  let! f := pop_fault in
  match f with
  | None => ret! (mkSink (sk_data s) SinkClosed, None)
  | Some f => ret! (s, Some (f_error f))
  end.

Definition sink_Cancel (s : sink backup) : M (sink backup * option error) :=
  let! f := pop_fault in
  match f with
  | None => ret! (mkSink (sk_data s) SinkCancelled, None)
  | Some f => ret! (s, Some (f_error f))
  end.

(** The method [Backup] of [badger.DB], from version 0, at the current time. *)
Definition badger_Backup (h : handle) : M backup :=
  let! f := pop_fault in
  let! w := st_get in
  match f with
  | Some f => fail! (f_error f)
  | None => st_lift (db_Backup (w_clock w) (h_db h))
  end.

(** The method [Persist] of [fsmSnapshot]: the sink it leaves and the error it returns. *)
Definition Persist (s : sink backup) : M (sink backup * option error) :=
  let! w := st_get in
  match store (w_db w) with
  | None =>
      let! c := sink_Cancel s in
      match snd c with
      | Some err => ret! (fst c, Some err)
      | None => ret! (fst c, Some (Sentinel ErrClosed))
      end
  | Some h =>
      let! r := st_try (badger_Backup h) in
      match r with
      | Err err =>
          let! c := sink_Cancel s in
          match snd c with
          | Some cancelErr => ret! (fst c, Some cancelErr)
          | None => ret! (fst c, Some (Errorf "honeybadger: backup badger into snapshot: %w" [] err))
          end
      | Ok bs => sink_Close (mkSink (Some bs) (sk_state s))
      end
  end.

(** ** Restore *)

(** [restoreErr]. *)
Definition restoreErr {A} (step : string) (err : error) : M A :=
  let wrapped := Errorf "honeybadger: restore: %s: %w" [ArgStr step] err in
  do! logger_Printf "fsm: %v" wrapped; fail! wrapped.

(** [if err := m; err != nil { cleanup; return restoreErr(step, err) }]. *)
Definition or_restoreErr {A} (m : M A) (cleanup : M unit) (step : string) : M A :=
  let! r := st_try m in
  match r with
  | Ok a => ret! a
  | Err err => do! cleanup; restoreErr step err
  end.

(** A call whose error the source drops. *)
Definition ignore (m : M unit) : M unit := do! st_try m; ret! tt.

(** [rollbackAndReopenLocked]. *)
Definition rollbackAndReopenLocked (backupDir liveDir : path) : M unit :=
  let! r := st_try (os_Rename backupDir liveDir) in
  do! (match r with
       | Err err => logger_Printf "fsm: roll back badger dir after failed restore: %v" err
       | Ok _ => ret! tt
       end);
  reopenLocked.

(** The body of the loop over the two directories in [restoreInPlace]. *)
Definition wipe_dir (dir : path) : M unit :=
  do! or_restoreErr (os_RemoveAll dir) (ret! tt) "wipe badger dir";
  or_restoreErr (os_MkdirAll dir) (ret! tt) "recreate badger dir".

(** [restoreInPlace]. *)
Definition restoreInPlace (rc : backup) : M unit :=
  let! w := st_get in
  let db := w_db w in
  do! (match store db with
       | None => ret! tt
       | Some h =>
           let! r := st_try (badger_Close h) in
           do! st_mod (set_store None);
           match r with
           | Err err => restoreErr "close badger" err
           | Ok _ => ret! tt
           end
       end);
  do! wipe_dir (comps (badgerDir db));
  do! wipe_dir (comps (ValueDir (badgerOpts db)));
  let! store := or_restoreErr (badger_Open (badgerOpts db)) (ret! tt) "reopen badger" in
  let! store' := or_restoreErr (badger_Load store rc snapshotLoadMaxPendingWrites)
                   (ignore (badger_Close store)) "load snapshot" in
  do! st_mod (set_store (Some store'));
  st_mod (set_appliedIndex 0).

(** The staging phase of [Restore]: it leaves the loaded snapshot closed in the
    staging directory. *)
Definition restoreStage (stagingDir : string) (rc : backup) : M unit :=
  let! w := st_get in
  let staging := comps stagingDir in
  do! or_restoreErr (os_RemoveAll staging) (ret! tt) "clean staging dir";
  let stagingOpts := mkOptions stagingDir stagingDir (Logging (badgerOpts (w_db w))) in
  do! or_restoreErr (os_MkdirAll staging) (ret! tt) "create staging dir";
  let! stage := or_restoreErr (badger_Open stagingOpts)
                  (ignore (os_RemoveAll staging)) "open staging badger" in
  let! stage' := or_restoreErr (badger_Load stage rc snapshotLoadMaxPendingWrites)
                   (do! ignore (badger_Close stage); ignore (os_RemoveAll staging))
                   "load snapshot into staging badger" in
  or_restoreErr (badger_Close stage') (ignore (os_RemoveAll staging)) "close staging badger".

(** Closing the live store before the swap: its error is only logged. *)
Definition closeForSwap : M unit :=
  let! w := st_get in
  match store (w_db w) with
  | None => ret! tt
  | Some h =>
      let! r := st_try (badger_Close h) in
      do! (match r with
           | Err err => logger_Printf "fsm: close badger for restore swap: %v" err
           | Ok _ => ret! tt
           end);
      st_mod (set_store None)
  end.

(** The swap phase of [Restore], under the exclusive store lock. *)
Definition restoreSwap (live staging backup : path) : M unit :=
  let! w := st_get in
  do! ignore (os_RemoveAll backup);
  do! closeForSwap;
  do! or_restoreErr (os_Rename live backup) reopenLocked "move live dir aside";
  do! or_restoreErr (os_Rename staging live) (rollbackAndReopenLocked backup live)
        "move staging dir into place";
  let! store := or_restoreErr (badger_Open (badgerOpts (w_db w)))
                  (do! ignore (os_RemoveAll live); rollbackAndReopenLocked backup live)
                  "open restored badger" in
  do! ignore (os_RemoveAll backup);
  do! st_mod (set_store (Some store));
  st_mod (set_appliedIndex 0).

(** The method [Restore] of [fsm]. *)
Definition Restore (rc : backup) : M unit :=
  let! w := st_get in
  let db := w_db w in
  let liveDir := badgerDir db in
  let vd := ValueDir (badgerOpts db) in
  if negb (is_empty vd) && negb (bool_decide (vd = liveDir)) then restoreInPlace rc
  else
    let stagingDir := liveDir +:+ ".restore-tmp" in
    let backupDir := liveDir +:+ ".restore-old" in
    do! restoreStage stagingDir rc;
    restoreSwap (comps liveDir) (comps stagingDir) (comps backupDir).

(** ** Waiting for a Raft future *)

(** The calls Raft makes on the state machine, in order, with the response of
    each. *)
Fixpoint fsm_calls (cs : list (fsm_call backup)) : M (list (option error)) :=
  match cs with
  | [] => ret! []
  | CallApply l :: cs =>
      let! r := Apply l in let! rs := fsm_calls cs in ret! (r :: rs)
  | CallRestore rc :: cs =>
      let! r := st_try (Restore rc) in let! rs := fsm_calls cs in ret! (error_of r :: rs)
  end.

(** A Raft call and the wait for its future: its error, and its response. *)
Definition raft_await (f : raftw -> raftw * future backup) : M (option error * option error) :=
  let! fut := raft_call f in
  let! rs := fsm_calls (fut_calls fut) in
  ret! (fut_error fut, default None (rs !! fut_response fut)).

End Fsm.
