(* ===== verification/Wp.v ===== *)
(** * Wp: program logic for the node's computations

    A weakest precondition for [ST] computations and its rules for the
    primitive operations of [Node]: each rule says what an operation does to a
    world given by its five fields, in terms of the coming fault. *)
From S2P Require Import Prelude Errors Types Options Command Codec Badger Files Raft Node Fsm.

Definition wp {W E A} (m : ST W E A) (Q : result E A -> W -> Prop) (w : W) : Prop :=
  Q (snd (m w)) (fst (m w)).

Lemma wp_elim {W E A} (m : ST W E A) Q w w' r : wp m Q w -> m w = (w', r) -> Q r w'.
Proof. unfold wp. intros H Hm. by rewrite Hm in H. Qed.

Lemma wp_intro {W E A} (m : ST W E A) (Q : result E A -> W -> Prop) w :
  (forall w' r, m w = (w', r) -> Q r w') -> wp m Q w.
Proof. unfold wp. intros H. apply H. by destruct (m w). Qed.

Lemma wp_run {W E A} (m : ST W E A) Q w : wp m Q w -> exists w' r, m w = (w', r) /\ Q r w'.
Proof. unfold wp. intros H. exists (fst (m w)), (snd (m w)). by destruct (m w). Qed.

Lemma wp_mono {W E A} (m : ST W E A) (Q Q' : result E A -> W -> Prop) w :
  wp m Q w -> (forall r w', Q r w' -> Q' r w') -> wp m Q' w.
Proof. unfold wp. auto. Qed.

Lemma wp_bind {W E A B} (m : ST W E A) (f : A -> ST W E B) Q w :
  wp m (fun r w' => match r with Ok a => wp (f a) Q w' | Err e => Q (Err e) w' end) w ->
  wp (st_bind m f) Q w.
Proof. unfold wp, st_bind. destruct (m w) as [w' [a | e]]; done. Qed.

Lemma wp_try {W E A} (m : ST W E A) (Q : result E (result E A) -> W -> Prop) w :
  wp m (fun r w' => Q (Ok r) w') w -> wp (st_try m) Q w.
Proof. unfold wp, st_try. by destruct (m w). Qed.

Lemma wp_ret {W E A} (a : A) (Q : result E A -> W -> Prop) w : Q (Ok a) w -> wp (st_ret a) Q w.
Proof. done. Qed.
Lemma wp_err {W E A} (e : E) (Q : result E A -> W -> Prop) w : Q (Err e) w -> wp (st_err e) Q w.
Proof. done. Qed.
Lemma wp_lift {W E A} (r : result E A) Q (w : W) : Q r w -> wp (st_lift r) Q w.
Proof. done. Qed.
Lemma wp_get {W E} (Q : result E W -> W -> Prop) w : Q (Ok w) w -> wp st_get Q w.
Proof. done. Qed.
Lemma wp_mod {W E} (f : W -> W) (Q : result E unit -> W -> Prop) w :
  Q (Ok tt) (f w) -> wp (st_mod f) Q w.
Proof. done. Qed.

Section Rules.
Context `{B : BadgerOps} {R : RaftOps backup} `{C : Codec} `{L : !BadgerLaws}.

(** ** Faults *)

Definition next_fault (fl : list (option fault)) : option fault := default None (head fl).

(** At most one of the coming calls fails. *)
Definition one_fault (fl : list (option fault)) : Prop :=
  forall i j, is_Some (next_fault (drop i fl)) -> is_Some (next_fault (drop j fl)) -> i = j.

(** Some coming call fails. *)
Definition faulty (fl : list (option fault)) : Prop := exists i, is_Some (next_fault (drop i fl)).

Lemma one_fault_other fl i j f :
  one_fault fl -> next_fault (drop i fl) = Some f -> i <> j -> next_fault (drop j fl) = None.
Proof.
  intros H Hi Hij. destruct (next_fault (drop j fl)) as [g |] eqn:Hj; [| done].
  destruct Hij. apply H; eauto.
Qed.

Lemma tail_drop {A} i (l : list A) : tail (drop i l) = drop (S i) l.
Proof. revert l. induction i as [| i IH]; intros [| x l]; try done. apply IH. Qed.

Lemma next_fault_drop_app i k (fl : list (option fault)) :
  next_fault (drop i (replicate k None ++ fl)) = if decide (i < k) then None else next_fault (drop (i - k) fl).
Proof.
  revert i. induction k as [| k IH]; intros i; cbn [replicate app].
  - rewrite decide_False by lia. by rewrite Nat.sub_0_r.
  - destruct i as [| i]; [by rewrite decide_True by lia |].
    cbn [drop]. rewrite IH. repeat case_decide; try lia; done.
Qed.

(** One fault, at the [k]th call. *)
Lemma one_fault_at k f : one_fault (replicate k None ++ [Some f]).
Proof.
  intros i j. rewrite !next_fault_drop_app. repeat case_decide; try (by intros []).
  destruct (i - k) as [| i'] eqn:Hi, (j - k) as [| j'] eqn:Hj; simpl; try (by intros []); try lia.
  - intros _. rewrite drop_nil. by intros [].
  - rewrite drop_nil. by intros [].
  - rewrite drop_nil. by intros [].
Qed.

Lemma faulty_drop i fl : faulty (drop i fl) -> faulty fl.
Proof. intros [j H]. exists (i + j). by rewrite <- drop_drop. Qed.

Lemma not_faulty_nil : ~ faulty [].
Proof. intros [i H]. rewrite drop_nil in H. by destruct H. Qed.

Lemma no_fault_one : one_fault [].
Proof. intros i j. rewrite drop_nil. by intros []. Qed.

Lemma wp_pop_fault (Q : result error (option fault) -> World -> Prop) db fs fl clk tk :
  Q (Ok (next_fault fl)) (mkWorld db fs (tail fl) clk tk) ->
  wp pop_fault Q (mkWorld db fs fl clk tk).
Proof. by destruct fl. Qed.

(** ** System calls *)

Lemma wp_os_call op (Q : result error unit -> World -> Prop) db fs fl clk tk :
  Q (snd (op (next_fault fl) fs)) (mkWorld db (fst (op (next_fault fl) fs)) (tail fl) clk tk) ->
  wp (os_call op) Q (mkWorld db fs fl clk tk).
Proof. by destruct fl. Qed.

Lemma wp_RemoveAll p (Q : result error unit -> World -> Prop) db fs fl clk tk :
  (forall fs' r, (forall q, apart p q -> fs' !! q = fs !! q) ->
     (next_fault fl = None -> fs' !! p = None /\ r = Ok tt) ->
     (forall f, next_fault fl = Some f -> r = Err (f_error f)) ->
     Q r (mkWorld db fs' (tail fl) clk tk)) ->
  wp (os_RemoveAll p) Q (mkWorld db fs fl clk tk).
Proof.
  intros H. apply wp_os_call, H.
  - intros q. by apply RemoveAll_apart.
  - intros ->. split; [apply RemoveAll_self | done].
  - by intros f ->.
Qed.

Lemma wp_MkdirAll p (Q : result error unit -> World -> Prop) db fs fl clk tk :
  (forall fs' r, (forall q, p <> q -> fs' !! q = fs !! q) ->
     (next_fault fl = None -> fs' !! p = Some (default empty_image (fs !! p)) /\ r = Ok tt) ->
     (forall f, next_fault fl = Some f -> r = Err (f_error f)) ->
     Q r (mkWorld db fs' (tail fl) clk tk)) ->
  wp (os_MkdirAll p) Q (mkWorld db fs fl clk tk).
Proof.
  intros H. apply wp_os_call, H.
  - intros q. by apply MkdirAll_ne.
  - intros ->. simpl. destruct (fs !! p) eqn:E; [by rewrite E | by rewrite lookup_insert_eq].
  - by intros f ->.
Qed.

(** Renaming between two places neither of which lies in the other: it works
    exactly when the old name exists, the new one does not, and no fault comes. *)
Lemma wp_Rename old new (Q : result error unit -> World -> Prop) db fs fl clk tk :
  apart old new ->
  (forall i fs', next_fault fl = None -> fs !! old = Some i -> fs !! new = None ->
     fs' !! new = Some i -> fs' !! old = None ->
     (forall q, apart old q -> apart new q -> fs' !! q = fs !! q) ->
     Q (Ok tt) (mkWorld db fs' (tail fl) clk tk)) ->
  (forall e, is_Some (next_fault fl) \/ fs !! old = None \/ is_Some (fs !! new) ->
     Q (Err e) (mkWorld db fs (tail fl) clk tk)) ->
  wp (os_Rename old new) Q (mkWorld db fs fl clk tk).
Proof.
  intros Ha H1 H2. apply wp_os_call. destruct (next_fault fl) as [f |]; [apply H2; eauto |].
  destruct (fs !! old) as [i |] eqn:Hold; [destruct (fs !! new) as [j |] eqn:Hnew |].
  - unfold Rename. rewrite decide_False by (by rewrite Hold).
    rewrite decide_True by (by rewrite Hnew). apply H2. eauto.
  - destruct (Rename_new old new fs i Hold Hnew Ha) as [-> Hn]. apply (H1 i); try done.
    + apply Rename_old; eauto.
    + intros q [Hq _] [Hq' _]. by apply Rename_lookup_other.
  - unfold Rename. rewrite decide_True by done. apply H2. eauto.
Qed.

(** ** Badger *)

(** Opening a database whose two directories are one. *)
Lemma wp_Open o (Q : result error handle -> World -> Prop) db fs fl clk tk :
  comps (ValueDir o) = comps (Dir o) ->
  (next_fault fl = None ->
   forall fs' i, i = default empty_image (fs !! comps (Dir o)) ->
     fs' !! comps (Dir o) = Some i ->
     (forall q, comps (Dir o) <> q -> fs' !! q = fs !! q) ->
     Q (result_bind (db_open i i) (fun d => Ok (mkHandle o d))) (mkWorld db fs' (tail fl) clk tk)) ->
  (forall f, next_fault fl = Some f -> Q (Err (f_error f)) (mkWorld db fs (tail fl) clk tk)) ->
  wp (badger_Open o) Q (mkWorld db fs fl clk tk).
Proof.
  intros Hv H1 H2. unfold badger_Open. apply wp_bind, wp_pop_fault.
  destruct (next_fault fl) as [f |]; [by apply wp_err, H2 |].
  apply wp_bind, wp_mod, wp_bind, wp_mod, wp_bind, wp_get.
  unfold set_fs; simpl. rewrite Hv. set (p := comps (Dir o)) in *.
  destruct (fs !! p) as [i |] eqn:E.
  - rewrite E, E. by apply wp_lift, H1.
  - rewrite lookup_insert_eq. rewrite lookup_insert_eq. apply wp_lift, H1; [done | done | |].
    + by rewrite lookup_insert_eq.
    + intros q Hq. by rewrite lookup_insert_ne.
Qed.

Lemma wp_Close h (Q : result error unit -> World -> Prop) db fs fl clk tk :
  comps (ValueDir (h_opts h)) = comps (Dir (h_opts h)) ->
  (forall fs' r, (forall q, comps (Dir (h_opts h)) <> q -> fs' !! q = fs !! q) ->
     (next_fault fl = None -> fs' !! comps (Dir (h_opts h)) = Some (db_files (h_db h)) /\ r = Ok tt) ->
     (forall f, next_fault fl = Some f ->
        r = Err (f_error f) /\ (is_Some (fs !! comps (Dir (h_opts h))) -> is_Some (fs' !! comps (Dir (h_opts h))))) ->
     Q r (mkWorld db fs' (tail fl) clk tk)) ->
  wp (badger_Close h) Q (mkWorld db fs fl clk tk).
Proof.
  intros Hv H. unfold badger_Close. apply wp_bind, wp_pop_fault.
  destruct (next_fault fl) as [f |].
  - apply wp_bind, wp_mod, wp_err. unfold set_fs; simpl. apply H; [| done |].
    + intros q Hq. unfold residue. destruct (f_residue f); [| done]. case_decide; [| done].
      by rewrite lookup_insert_ne.
    + intros f' [= <-]. split; [done |]. intros Hs. unfold residue.
      destruct (f_residue f); [| done]. case_decide; [| done]. by rewrite lookup_insert_eq.
  - apply wp_mod. unfold set_fs, flush, colocated; simpl. rewrite bool_decide_eq_true_2 by done.
    apply H; [| | done].
    + intros q Hq. by rewrite lookup_insert_ne.
    + by rewrite lookup_insert_eq.
Qed.

Lemma wp_Load h rc n (Q : result error handle -> World -> Prop) db fs fl clk tk :
  (next_fault fl = None ->
   Q (result_bind (db_Load (h_db h) rc n) (fun d => Ok (mkHandle (h_opts h) d))) (mkWorld db fs (tail fl) clk tk)) ->
  (forall f, next_fault fl = Some f -> Q (Err (f_error f)) (mkWorld db fs (tail fl) clk tk)) ->
  wp (badger_Load h rc n) Q (mkWorld db fs fl clk tk).
Proof.
  intros H1 H2. unfold badger_Load. apply wp_bind, wp_pop_fault.
  destruct (next_fault fl) as [f |]; [by apply wp_err, H2 | by apply wp_lift, H1].
Qed.

(** Opening and closing whatever the layout: only the files change. *)
Lemma wp_Open_any o (Q : result error handle -> World -> Prop) db fs fl clk tk :
  (forall (fs' : gmap (list string) image) r, Q r (mkWorld db fs' (tail fl) clk tk)) ->
  wp (badger_Open o) Q (mkWorld db fs fl clk tk).
Proof.
  intros H. unfold badger_Open. apply wp_bind, wp_pop_fault. destruct (next_fault fl); [apply H |].
  apply wp_bind, wp_mod, wp_bind, wp_mod, wp_bind, wp_get. cbn [w_fs set_fs].
  repeat case_match; apply H.
Qed.

Lemma wp_Close_any h (Q : result error unit -> World -> Prop) db fs fl clk tk :
  (forall (fs' : gmap (list string) image) r, Q r (mkWorld db fs' (tail fl) clk tk)) ->
  wp (badger_Close h) Q (mkWorld db fs fl clk tk).
Proof.
  intros H. unfold badger_Close. apply wp_bind, wp_pop_fault. destruct (next_fault fl); [| apply H].
  apply wp_bind, wp_mod, H.
Qed.

(** Two directories that are empty or not there open as a fresh database. *)
Lemma wp_Open_empty o (Q : result error handle -> World -> Prop) db fs fl clk tk :
  default empty_image (fs !! comps (Dir o)) = empty_image ->
  default empty_image (fs !! comps (ValueDir o)) = empty_image ->
  (forall fs' d, contents d = ∅ -> Q (Ok (mkHandle o d)) (mkWorld db fs' (tail fl) clk tk)) ->
  (forall f fs', next_fault fl = Some f -> Q (Err (f_error f)) (mkWorld db fs' (tail fl) clk tk)) ->
  wp (badger_Open o) Q (mkWorld db fs fl clk tk).
Proof.
  intros Hd Hv H1 H2. unfold badger_Open. apply wp_bind, wp_pop_fault.
  destruct (next_fault fl) as [f |]; [by apply wp_err, H2 |].
  apply wp_bind, wp_mod, wp_bind, wp_mod, wp_bind, wp_get. cbn [w_fs set_fs].
  set (p := comps (Dir o)) in *. set (q := comps (ValueDir o)) in *.
  set (fs1 := fst (MkdirAll None p fs)). set (fs2 := fst (MkdirAll None q fs1)).
  assert (fs2 !! p = Some empty_image /\ fs2 !! q = Some empty_image) as [-> ->].
  { unfold fs2, fs1, MkdirAll; cbn [fst]. clear fs1 fs2. clearbody p q.
    destruct (fs !! p) eqn:Ep, (fs !! q) eqn:Eq, (decide (p = q)) as [<- | Hpq]; simpl in *;
      repeat (rewrite ?lookup_insert_eq, ?lookup_insert_ne, ?Ep, ?Eq by done; simpl); split; congruence. }
  destruct open_fresh as (d & -> & Hc). by apply wp_lift, H1.
Qed.

(** A transaction: built, committed and installed, or no effect on the node. *)
Lemma wp_Update h fn (Q : result error unit -> World -> Prop) db fs fl clk tk :
  (forall t d, fn (db_new_txn (h_db h)) = Ok t -> txn_Commit t = Ok d -> next_fault fl = None ->
     Q (Ok tt) (set_store (Some (mkHandle (h_opts h) d)) (mkWorld db fs (tail fl) clk tk))) ->
  (forall e fl', Q (Err e) (mkWorld db fs fl' clk tk)) ->
  wp (badger_Update h fn) Q (mkWorld db fs fl clk tk).
Proof.
  intros H1 H2. unfold badger_Update. apply wp_bind, wp_lift.
  destruct (fn (db_new_txn (h_db h))) as [t | e]; [| apply H2].
  apply wp_bind, wp_pop_fault. destruct (next_fault fl) as [f |] eqn:Hf; [by apply wp_err, H2 |].
  apply wp_bind, wp_lift. destruct (txn_Commit t) as [d | e] eqn:Hc; [| apply H2].
  apply wp_mod. by eapply H1.
Qed.

Lemma wp_withStore {A} (fn : handle -> ST World error A) Q (w : World) :
  (closed (w_db w) = true \/ store (w_db w) = None -> Q (Err (Sentinel ErrClosed)) w) ->
  (forall h, closed (w_db w) = false -> store (w_db w) = Some h -> wp (fn h) Q w) ->
  wp (withStore fn) Q w.
Proof.
  intros H1 H2. unfold withStore, checkOpen. apply wp_bind, wp_bind, wp_get.
  destruct (closed (w_db w)) eqn:Hc; [by apply wp_err, H1; left |].
  apply wp_ret, wp_bind, wp_get. destruct (store (w_db w)) as [h |] eqn:Hs; [| by apply wp_err, H1; right].
  by apply H2.
Qed.

(** ** Restore's combinators *)

Lemma wp_ignore m (Q : result error unit -> World -> Prop) (w : World) :
  wp m (fun _ w' => Q (Ok tt) w') w -> wp (ignore m) Q w.
Proof. intros H. unfold ignore. apply wp_bind, wp_try. eapply wp_mono; [exact H |]. done. Qed.

(** The error a failed step of [Restore] returns and logs. *)
Definition restore_error (step : string) (err : error) : error :=
  Errorf "honeybadger: restore: %s: %w" [ArgStr step] err.

Lemma wp_or_restoreErr {A} (m : ST World error A) cleanup step Q (w : World) :
  wp m (fun r w' =>
    match r with
    | Ok a => Q (Ok a) w'
    | Err e => wp cleanup (fun r' w'' =>
        match r' with
        | Ok _ => Q (Err (restore_error step e)) (add_log ("fsm: %v", restore_error step e) w'')
        | Err e' => Q (Err e') w''
        end) w'
    end) w ->
  wp (or_restoreErr m cleanup step) Q w.
Proof.
  intros H. unfold or_restoreErr. apply wp_bind, wp_try. eapply wp_mono; [exact H |].
  intros [a | e] w' Hq; [by apply wp_ret |]. apply wp_bind. eapply wp_mono; [exact Hq |].
  intros [[] | e'] w'' Hq'; [| done]. exact Hq'.
Qed.

End Rules.
