(* ===== verification/Sim.v ===== *)
(** * Sim: a concrete node to run the model on

    The map-based Badger, the single-node Raft and the gob codec put together,
    with sample worlds.  Witnesses evaluate the model here. *)
From S2P Require Import Prelude Errors Types Options Command Codec Badger Files Raft Node Fsm.

(** The instances, to be imported where a witness needs them. *)
Module SimInstances.
#[export] Existing Instance MapBadger.ops.
#[export] Existing Instance MapBadger.laws.
#[export] Existing Instance SimRaft.ops.
#[export] Existing Instance SimRaft.laws.
#[export] Instance sim_codec : Codec := Gob.codec "types" 65.
#[export] Instance sim_codec_laws : CodecLaws := Gob.codec_laws "types" 65 eq_refl.
End SimInstances.

Module Sim.
Import SimInstances.

Definition config : Config :=
  mkConfig "n1" "127.0.0.1:7001" "/data/n1"
    (mkAdvanced defaultApplyTimeout defaultSnapshotThreshold EmptyString None (Some io_Discard)).

Definition opts : badger_Options := mkOptions "/data/n1/badger" "/data/n1/badger" false.

Definition server (s : RaftState) (log : list rlog) (applied : nat) : SimRaft.world :=
  SimRaft.mkWorld s ("127.0.0.1:7001", "n1") log applied
    [mkServer raft_Voter "n1" "127.0.0.1:7001"] "127.0.0.1:7001" [].

(** A map as a database. *)
Definition mem (m : kv) : @bdb MapBadger.ops := m.

(** A node whose store holds [m], in Raft state [r]. *)
Definition db (r : SimRaft.world) (m : kv) : DB :=
  mkDB config r [] (Some (mkHandle opts (mem m))) opts "/data/n1/badger" false false None 0.

(** The time of the samples: a whole second of 2024. *)
Definition t0 : Z := 1704067200 * Second.

Definition world (r : SimRaft.world) (m : kv) (faults : list (option fault)) : World :=
  mkWorld (db r m) {[ comps "/data/n1/badger" := (m : image) ]} faults t0 [].

(** A leader with an empty log, and with the given committed log. *)
Definition leader : SimRaft.world := server raft_Leader [] 0.
Definition follower : SimRaft.world := server raft_Follower [] 0.

Definition entry (v : string) : bentry := mkBEntry v 0.
Definition kv1 : kv := {[ "a" := entry "1" ]}.

Definition set_cmd (k v : string) : command := mkCommand [mkPair k v 0] [].
Definition del_cmd (k : string) : command := mkCommand [] [k].

(** The bytes of a command on the log. *)
Definition bytes_of (c : command) : string :=
  match gob_Encode c with Ok d => d | Err _ => EmptyString end.

Definition boom : fault := mkFault (Sentinel (foreign "I/O error")) None.

End Sim.
