(* ===== verification/FsmApply.v ===== *)
(** * FsmApply: correctness of [Apply]

    A committed command is applied all-or-nothing in one transaction; the
    applied index and the log output move exactly as the source says. *)
From S2P Require Import Prelude Errors Types Options Command Codec Badger Files Raft Node Fsm Wp Sim.

Section Apply.
Context `{B : BadgerOps} `{R : RaftOps backup} `{C : Codec} `{L : !BadgerLaws}.

(** ** The transaction *)

Lemma apply_pairs_contents ps t t' :
  apply_pairs ps t = Ok t' ->
  txn_contents t' = fold_left (fun m p => <[Key p := pair_entry p]> m) ps (txn_contents t).
Proof.
  revert t. induction ps as [| p ps IH]; intros t; simpl; [by intros [= ->] |].
  destruct (txn_SetEntry t (Key p) (pair_entry p)) as [t1 |] eqn:E; [| done].
  intros H. rewrite <- (SetEntry_contents _ _ _ _ E). by apply IH.
Qed.

Lemma apply_deletes_contents ks t t' :
  apply_deletes ks t = Ok t' -> txn_contents t' = fold_left (fun m k => delete k m) ks (txn_contents t).
Proof.
  revert t. induction ks as [| k ks IH]; intros t; simpl; [by intros [= ->] |].
  destruct (txn_Delete t k) as [t1 |] eqn:E; [| done].
  intros H. rewrite <- (Delete_contents _ _ _ E). by apply IH.
Qed.

(** What the transaction of a command would commit. *)
Lemma apply_txn_contents cmd d t :
  apply_txn cmd (db_new_txn d) = Ok t -> txn_contents t = cmd_apply (contents d) cmd.
Proof.
  unfold apply_txn. destruct (apply_pairs _ _) as [t1 |] eqn:E; [| done]. simpl. intros H.
  rewrite (apply_deletes_contents _ _ _ H), (apply_pairs_contents _ _ _ E), new_txn_contents. done.
Qed.

(** ** The two outcomes *)

(** The world after a successful apply: the store holds the transaction's
    result, the applied index moved, nothing else changed but faults used up. *)
Definition applied_to (l : rlog) (h : handle) (d : bdb) (w w' : World) : Prop :=
  exists fl, w' = set_appliedIndex (Index l)
    (set_store (Some (mkHandle (h_opts h) d))
       (mkWorld (w_db w) (w_fs w) fl (w_clock w) (w_ticks w))).

Definition Apply_post (l : rlog) (w : World) (r : result error (option error)) (w' : World) : Prop :=
  (exists cmd h d,
     r = Ok None /\ decodeCommand (Data l) = Ok cmd /\
     closed (w_db w) = false /\ store (w_db w) = Some h /\
     contents d = cmd_apply (contents (h_db h)) cmd /\ applied_to l h d w w') \/
  (exists e fl, r = Ok (Some e) /\
     (w' = mkWorld (w_db w) (w_fs w) fl (w_clock w) (w_ticks w) /\ Is e ErrClosed = true \/
      w' = add_log ("fsm: %v", e) (mkWorld (w_db w) (w_fs w) fl (w_clock w) (w_ticks w)))).

Lemma Apply_wp l w : wp (Apply l) (Apply_post l w) w.
Proof.
  destruct w as [db fs fl clk tk]. unfold Apply.
  destruct (decodeCommand (Data l)) as [cmd | e] eqn:Hd.
  2:{ apply wp_bind, wp_mod, wp_ret. right. eexists _, fl. split; [done | by right]. }
  apply wp_bind, wp_try.
  lazymatch goal with |- wp _ ?Q _ => set (K := Q) end.
  assert (forall e fl', K (Err e) (mkWorld db fs fl' clk tk)) as Herr.
  { intros e fl'. unfold K. apply wp_bind. cbn [Is].
    destruct (Is e ErrClosed) eqn:He; cbn [negb]; [apply wp_ret, wp_ret | apply wp_mod, wp_ret];
      right; eexists _, fl'; (split; [done |]); [by left | by right]. }
  apply wp_withStore; [intros _; apply Herr |]. simpl. intros h Hc Hs.
  apply wp_Update; [| intros; apply Herr]. intros t d Ht Hcm _. unfold K.
  apply wp_bind, wp_mod, wp_ret. left. exists cmd, h, d.
  rewrite (Commit_contents _ _ Hcm), (apply_txn_contents _ _ _ Ht).
  repeat split; try done. by exists (tail fl).
Qed.

(** An open node with a store, no fault coming and a transaction Badger
    accepts: the command is applied. *)
Lemma Apply_run l w cmd h t d :
  decodeCommand (Data l) = Ok cmd -> closed (w_db w) = false -> store (w_db w) = Some h ->
  next_fault (w_faults w) = None ->
  apply_txn cmd (db_new_txn (h_db h)) = Ok t -> txn_Commit t = Ok d ->
  exists w', Apply l w = (w', Ok None) /\ applied_to l h d w w' /\
             contents d = cmd_apply (contents (h_db h)) cmd.
Proof.
  destruct w as [db fs fl clk tk]. simpl. intros Hd Hc Hs Hf Ht Hcm.
  unfold Apply, withStore, checkOpen, badger_Update, st_try, st_bind, st_get, st_lift, st_ret, st_mod; simpl.
  rewrite Hd; simpl. rewrite Hc; simpl. rewrite Hs, Ht. destruct fl as [| [f |] fl]; simpl in *; [| done |];
    rewrite Hcm; eexists; (split; [done |]); (split; [by eexists |]);
    by rewrite (Commit_contents _ _ Hcm), (apply_txn_contents _ _ _ Ht).
Qed.

Lemma Apply_inv l w w' r : Apply l w = (w', r) -> Apply_post l w r w'.
Proof. apply wp_elim, Apply_wp. Qed.

Lemma Apply_nil_inv l w w' :
  Apply l w = (w', Ok None) ->
  exists cmd h d, decodeCommand (Data l) = Ok cmd /\
     closed (w_db w) = false /\ store (w_db w) = Some h /\
     contents d = cmd_apply (contents (h_db h)) cmd /\ applied_to l h d w w'.
Proof. intros [(cmd & h & d & _ & ?) | (e & fl & ? & _)]%Apply_inv; [eauto | done]. Qed.

(** [Apply] always answers. *)
Lemma Apply_answers l w : exists w' r, Apply l w = (w', Ok r).
Proof.
  destruct (Apply l w) as [w' r] eqn:E. exists w'.
  apply Apply_inv in E as [(? & ? & ? & -> & _) | (? & ? & -> & _)]; eauto.
Qed.

(** ** Properties *)

(** What one call of [Apply] may do to the node, response included. *)
Definition Apply_outcome (l : rlog) (w w' : World) (r : option error) : Prop :=
  match r with
  | None =>
      exists cmd h h',
        decodeCommand (Data l) = Ok cmd /\ store (w_db w) = Some h /\ store (w_db w') = Some h' /\
        contents (h_db h') = cmd_apply (contents (h_db h)) cmd /\
        appliedIndex (w_db w') = Index l /\ logger (w_db w') = logger (w_db w)
  | Some e =>
      store (w_db w') = store (w_db w) /\ appliedIndex (w_db w') = appliedIndex (w_db w) /\
      (Is e ErrClosed = false -> logger (w_db w') = logger (w_db w) ++ [("fsm: %v", e)])
  end.

(** C12. A committed command is applied all-or-nothing: with a [nil] response the
    store holds the result of every set then every delete of the command and
    the applied index is the entry's; with an error the store and the applied
    index are what they were, and the error was logged unless it is
    [ErrClosed].  [Apply] always returns one of the two, and never touches the
    files on disk. *)
Theorem Apply_atomic l w :
  exists w' r, Apply l w = (w', Ok r) /\ Apply_outcome l w w' r /\ w_fs w' = w_fs w.
Proof.
  destruct (Apply_answers l w) as (w' & r & E). exists w', r. split; [done |].
  apply Apply_inv in E as [(cmd & h & d & [= ->] & Hd & _ & Hs & Hc & fl & ->) | (e & fl & [= ->] & H)].
  - split; [| done]. by exists cmd, h, (mkHandle (h_opts h) d).
  - destruct H as [[-> He] | ->]; (split; [| done]); (split; [done |]); (split; [done |]); congruence || done.
Qed.

(** An open node whose store accepts the command's transaction, with no
    fault coming, applies it: the response is [nil] and the store's contents
    are the command applied to the old ones. *)
Theorem Apply_applies l w cmd h t d :
  decodeCommand (Data l) = Ok cmd -> closed (w_db w) = false -> store (w_db w) = Some h ->
  next_fault (w_faults w) = None ->
  apply_txn cmd (db_new_txn (h_db h)) = Ok t -> txn_Commit t = Ok d ->
  exists w', Apply l w = (w', Ok None) /\ store (w_db w') = Some (mkHandle (h_opts h) d) /\
             contents d = cmd_apply (contents (h_db h)) cmd /\ appliedIndex (w_db w') = Index l.
Proof.
  intros Hd Hc Hs Hf Ht Hcm.
  destruct (Apply_run l w cmd h t d Hd Hc Hs Hf Ht Hcm) as (w' & E & (fl & ->) & Hcont). by eexists.
Qed.

(** Once the node is closing, or its store is gone, every committed command
    is refused with an error matching [ErrClosed]: nothing changes, not even
    the log output, because that error is expected noise during shutdown. *)
Theorem Apply_closed l w cmd :
  decodeCommand (Data l) = Ok cmd -> closed (w_db w) = true \/ store (w_db w) = None ->
  exists e, Apply l w = (w, Ok (Some e)) /\ Is e ErrClosed = true.
Proof.
  intros Hd Hc. exists (Errorf "honeybadger: apply command at index %d: %w" [ArgInt (Index l)] (Sentinel ErrClosed)).
  split; [| done]. destruct w as [db fs fl clk tk]; simpl in *.
  unfold Apply, withStore, checkOpen, st_try, st_bind, st_get, st_ret; simpl. rewrite Hd; simpl.
  destruct (closed db); simpl; [done |]. destruct Hc as [? | ->]; done.
Qed.

End Apply.

(** ** Witnesses *)
Section Witnesses.
Import SimInstances.

Definition cmd1 : command := mkCommand [mkPair "b" "2" 0] ["a"].
Definition world1 : World := Sim.world Sim.leader Sim.kv1 [].

Definition log1 : rlog := mkLog 7 (Sim.bytes_of cmd1).

Lemma Apply_atomic_witness :
  exists w' r, Apply log1 world1 = (w', Ok r) /\ Apply_outcome log1 world1 w' r /\ w_fs w' = w_fs world1.
Proof. exact (Apply_atomic log1 world1). Defined.

Lemma Apply_applies_witness :
  exists w', Apply log1 world1 = (w', Ok None) /\ appliedIndex (w_db w') = Index log1.
Proof.
  destruct (Apply_applies log1 world1 cmd1 (mkHandle Sim.opts (Sim.mem Sim.kv1))
              (({[ "b" := Sim.entry "2" ]} : kv), 2) (Sim.mem {[ "b" := Sim.entry "2" ]}))
    as (w' & E & _ & _ & Hi).
  - vm_compute. reflexivity.
  - reflexivity.
  - reflexivity.
  - reflexivity.
  - vm_compute. reflexivity.
  - reflexivity.
  - by exists w'.
Defined.

Lemma Apply_closed_witness :
  exists e, Apply log1 (set_closed world1) =
    (set_closed world1, Ok (Some e)) /\ Is e ErrClosed = true.
Proof.
  apply (Apply_closed log1 (set_closed world1) cmd1);
    [vm_compute; reflexivity | left; reflexivity].
Defined.

End Witnesses.
