(* ===== verification/FsmRestore.v ===== *)
(** * FsmRestore: correctness of [Restore] and [Persist]

    The staged restore is proved for every sequence of faults the environment
    may inject: what a success means, that a staging failure leaves the node
    alone, and that any single fault leaves either the new data or the old data
    being served. *)
From S2P Require Import Prelude Errors Types Options Command Codec Badger Files Raft Node Fsm Wp Sim.

Section Restore.
Context `{B : BadgerOps} `{R : RaftOps backup} `{C : Codec} `{L : !BadgerLaws}.

(** The node less its log output. *)
Definition core (d : DB) : DB :=
  mkDB (cfg d) (raft d) [] (store d) (badgerOpts d) (badgerDir d)
    (closed d) (closeOnce d) (closeErr d) (appliedIndex d).

(** The node with another store. *)
Definition with_store (s : option handle) (d : DB) : DB :=
  mkDB (cfg d) (raft d) (logger d) s (badgerOpts d) (badgerDir d)
    (closed d) (closeOnce d) (closeErr d) (appliedIndex d).

(** The node with another store and the applied index back at 0. *)
Definition restored (s : option handle) (d : DB) : DB :=
  mkDB (cfg d) (raft d) (logger d) s (badgerOpts d) (badgerDir d)
    (closed d) (closeOnce d) (closeErr d) 0.

(** The staging and backup directories of [Restore]. *)
Definition stagingDir (d : DB) : string := badgerDir d +:+ ".restore-tmp".
Definition backupDir (d : DB) : string := badgerDir d +:+ ".restore-old".

(** The layout the staged restore is meant for: tree and value log in the live
    directory, the three directories disjoint. *)
Definition staged_layout (d : DB) : Prop :=
  Dir (badgerOpts d) = badgerDir d /\ ValueDir (badgerOpts d) = badgerDir d /\
  apart (comps (badgerDir d)) (comps (stagingDir d)) /\
  apart (comps (badgerDir d)) (comps (backupDir d)) /\
  apart (comps (stagingDir d)) (comps (backupDir d)).

(** ** The staging phase *)

(** What is left when staging fails: the same node but for one more line of
    log, and the same directories outside the staging directory.  A fault is to
    blame, or a snapshot Badger does not load. *)
Definition staging_failed (staging : path) (rc : backup) (w : World) (e : error) (w' : World) : Prop :=
  (faulty (w_faults w) \/ exists d0 e0, contents d0 = ∅ /\ db_Load d0 rc snapshotLoadMaxPendingWrites = Err e0) /\
  core (w_db w') = core (w_db w) /\
  logger (w_db w') = logger (w_db w) ++ [("fsm: %v", e)] /\
  (forall q, apart staging q -> w_fs w' !! q = w_fs w !! q).

(** Staging from the opening of the fresh database on. *)
Lemma stage_rest_wp dir rc log db fs0 fs fl clk tk (Q : result error unit -> World -> Prop) :
  (forall e w', staging_failed (comps dir) rc (mkWorld db fs0 fl clk tk) e w' -> Q (Err e) w') ->
  (forall fs' d0 d,
     contents d0 = ∅ -> db_Load d0 rc snapshotLoadMaxPendingWrites = Ok d ->
     fs' !! comps dir = Some (db_files d) ->
     (forall q, apart (comps dir) q -> fs' !! q = fs0 !! q) ->
     Q (Ok tt) (mkWorld db fs' (drop 5 fl) clk tk)) ->
  fs !! comps dir = Some empty_image ->
  (forall q, apart (comps dir) q -> fs !! q = fs0 !! q) ->
  wp (let! stage := or_restoreErr (badger_Open (mkOptions dir dir log))
                  (ignore (os_RemoveAll (comps dir))) "open staging badger" in
      let! stage' := or_restoreErr (badger_Load stage rc snapshotLoadMaxPendingWrites)
                   (do! ignore (badger_Close stage); ignore (os_RemoveAll (comps dir)))
                   "load snapshot into staging badger" in
      or_restoreErr (badger_Close stage') (ignore (os_RemoveAll (comps dir))) "close staging badger")
    Q (mkWorld db fs (drop 2 fl) clk tk).
Proof.
  intros Herr Hok A2 F2. set (p := comps dir) in *.
  assert (forall (fs3 : gmap (list string) image) fl3 (e3 : error) step,
    (faulty fl \/ exists d0 e0, contents d0 = ∅ /\ db_Load d0 rc snapshotLoadMaxPendingWrites = Err e0) ->
    (forall q, apart p q -> fs3 !! q = fs0 !! q) ->
    wp (ignore (os_RemoveAll p)) (fun r' w'' => match r' with
        | Ok _ => Q (Err (restore_error step e3)) (add_log ("fsm: %v", restore_error step e3) w'')
        | Err e' => Q (Err e') w'' end) (mkWorld db fs3 fl3 clk tk)) as Hclean.
  { intros fs3 fl3 e3 step Hb F3. apply wp_ignore, wp_RemoveAll. intros fs4 r4 F4 _ _.
    apply Herr. repeat split; [done |]. intros q Hq. simpl. by rewrite F4, F3. }
  set (o := mkOptions dir dir _).
  apply wp_bind, wp_or_restoreErr, (wp_Open o); [done | |].
  2:{ intros f Hf. apply Hclean; [left; exists 2; by rewrite Hf | done]. }
  intros _ fs3 i -> A3 F3. simpl in A3, F3. fold p in A3, F3. rewrite A2 in A3. simpl in A3.
  assert (forall fs4 : gmap (list string) image, (forall q, p <> q -> fs4 !! q = fs3 !! q) ->
    forall q, apart p q -> fs4 !! q = fs0 !! q) as Hframe.
  { intros fs4 F4 q Hq. rewrite F4, F3, F2; [done | done | by apply apart_ne ..]. }
  simpl. fold p. rewrite A2. simpl. destruct open_fresh as (d0 & -> & Hd0). simpl.
  rewrite tail_drop. apply wp_bind, wp_or_restoreErr, wp_Load.
  2:{ intros f Hf. apply wp_bind, wp_ignore, wp_Close; [done |]. intros fs4 r4 F4 _ _.
      apply Hclean; [left; exists 3; by rewrite Hf | by apply Hframe]. }
  intros _. simpl. destruct (db_Load d0 rc _) as [d | e] eqn:Hl; simpl.
  2:{ apply wp_bind, wp_ignore, wp_Close; [done |]. intros fs4 r4 F4 _ _.
      apply Hclean; [right; eauto | by apply Hframe]. }
  rewrite tail_drop. apply wp_or_restoreErr, wp_Close; [done |]. intros fs5 r5 F5 N5 E5.
  simpl in F5, N5, E5. fold p in F5, N5. rewrite tail_drop.
  destruct (next_fault (drop 4 fl)) as [f |] eqn:Hf.
  - destruct (E5 f eq_refl) as [-> _]. apply Hclean; [left; exists 4; by rewrite Hf | by apply Hframe].
  - destruct (N5 eq_refl) as [A5 ->]. eapply Hok; [done | done | done | by apply Hframe].
Qed.

Lemma restoreStage_wp dir rc db fs fl clk tk (Q : result error unit -> World -> Prop) :
  (forall e w', staging_failed (comps dir) rc (mkWorld db fs fl clk tk) e w' -> Q (Err e) w') ->
  (forall fs' d0 d,
     contents d0 = ∅ -> db_Load d0 rc snapshotLoadMaxPendingWrites = Ok d ->
     fs' !! comps dir = Some (db_files d) ->
     (forall q, apart (comps dir) q -> fs' !! q = fs !! q) ->
     Q (Ok tt) (mkWorld db fs' (drop 5 fl) clk tk)) ->
  wp (restoreStage dir rc) Q (mkWorld db fs fl clk tk).
Proof.
  intros Herr Hok. unfold restoreStage. set (p := comps dir) in *.
  assert (forall i (e : error) step (fs' : gmap (list string) image),
    is_Some (next_fault (drop i fl)) -> (forall q, apart p q -> fs' !! q = fs !! q) -> forall fl',
    Q (Err (restore_error step e))
      (add_log ("fsm: %v", restore_error step e) (mkWorld db fs' fl' clk tk))) as Hfail.
  { intros i e step fs' Hi F fl'. apply Herr. split; [left; by exists i |]. by split. }
  apply wp_bind, wp_get, wp_bind, wp_or_restoreErr, wp_RemoveAll. intros fs1 r1 F1 N1 E1.
  destruct (next_fault fl) as [f |] eqn:Hf.
  { rewrite (E1 f eq_refl). apply wp_ret, (Hfail 0); [by rewrite drop_0, Hf | done]. }
  destruct (N1 eq_refl) as [A1 ->]. clear N1 E1 Hf.
  apply wp_bind, wp_or_restoreErr, wp_MkdirAll. intros fs2 r2 F2 N2 E2.
  assert (forall q, apart p q -> fs2 !! q = fs !! q) as F2'.
  { intros q Hq. rewrite F2; [by apply F1 | by apply apart_ne]. }
  change (tail fl) with (tail (drop 0 fl)) in *. rewrite tail_drop in *.
  destruct (next_fault (drop 1 fl)) as [f |] eqn:Hf.
  { rewrite (E2 f eq_refl). apply wp_ret, (Hfail 1); [by rewrite Hf | done]. }
  destruct (N2 eq_refl) as [A2 ->]. rewrite A1 in A2. simpl in A2. clear N2 E2 Hf F1 F2 A1 fs1.
  rewrite tail_drop. by eapply (stage_rest_wp dir rc _ db fs).
Qed.

(** ** The swap phase *)

Lemma reopenLocked_wp db fs fl clk tk (Q : result error unit -> World -> Prop) :
  comps (ValueDir (badgerOpts db)) = comps (Dir (badgerOpts db)) ->
  (forall w' s lg, core (w_db w') = core (with_store s db) -> logger (w_db w') = logger db ++ lg ->
     (is_Some s -> is_Some (w_fs w' !! comps (Dir (badgerOpts db)))) ->
     (forall d0, next_fault fl = None -> fs !! comps (Dir (badgerOpts db)) = Some (db_files d0) ->
        exists d, s = Some (mkHandle (badgerOpts db) d) /\ contents d = contents d0) ->
     Q (Ok tt) w') ->
  wp reopenLocked Q (mkWorld db fs fl clk tk).
Proof.
  intros Hv H. unfold reopenLocked. apply wp_bind, wp_get, wp_bind, wp_try.
  apply (wp_Open (badgerOpts db)); [done | |].
  - intros Hf fs' i -> Hi _. set (j := default empty_image _). destruct (db_open j j) as [d | e] eqn:E; simpl.
    + apply wp_mod, (H _ (Some (mkHandle (badgerOpts db) d)) []); [done | by rewrite app_nil_r | by eexists |].
      intros d0 _ Hd0. unfold j in E. rewrite Hd0 in E. simpl in E.
      destruct (open_files d0) as (d' & Ho & Hc). rewrite Ho in E. injection E as <-. eauto.
    + apply wp_bind, wp_mod, wp_mod. eapply (H _ None [_]); [done | done | by intros [? [=]] |].
      intros d0 _ Hd0. unfold j in E. rewrite Hd0 in E. simpl in E.
      destruct (open_files d0) as (d' & Ho & _). by rewrite Ho in E.
  - intros f Hf. apply wp_bind, wp_mod, wp_mod. eapply (H _ None [_]); [done | done | by intros [? [=]] |].
    intros d0 Hn. by rewrite Hf in Hn.
Qed.

Lemma rollback_wp backup live db fs fl clk tk (Q : result error unit -> World -> Prop) :
  comps (Dir (badgerOpts db)) = live -> comps (ValueDir (badgerOpts db)) = live -> apart backup live ->
  (forall w' s lg, core (w_db w') = core (with_store s db) -> logger (w_db w') = logger db ++ lg ->
     (is_Some s -> is_Some (w_fs w' !! live)) ->
     (forall d0, next_fault fl = None -> next_fault (tail fl) = None ->
        fs !! backup = Some (db_files d0) -> fs !! live = None ->
        exists d, s = Some (mkHandle (badgerOpts db) d) /\ contents d = contents d0) ->
     Q (Ok tt) w') ->
  wp (rollbackAndReopenLocked backup live) Q (mkWorld db fs fl clk tk).
Proof.
  intros Hd Hv Ha H. unfold rollbackAndReopenLocked. apply wp_bind, wp_try, wp_Rename; [done | |].
  - intros i fs' _ Hi _ Hl _ _. apply wp_bind, wp_ret, reopenLocked_wp; [congruence |].
    intros w' s lg Hc Hlg Hfs Hs. rewrite Hd in Hfs. eapply H; [done | done | done |]. intros d0 _ Hn Hb _. apply Hs; [done |].
    congruence.
  - intros e He. apply wp_bind, wp_mod, reopenLocked_wp; [simpl; congruence |].
    intros w' s lg Hc Hlg Hfs Hs. simpl in Hfs. rewrite Hd in Hfs.
    eapply (H _ s (_ :: lg)); [by rewrite Hc | | done |].
    + rewrite Hlg. simpl. by rewrite <- app_assoc.
    + intros d0 Hn _ Hb Hl. rewrite Hn, Hb, Hl in He. destruct He as [[? ?] | [? | [? ?]]]; done.
Qed.

(** What a failed swap leaves: the node but for the store and the log output,
    the error logged last; a store that is being served has its directory; and
    if this was the only fault, the old data is being served.  A fault is to blame, unless there was nothing to swap. *)
Definition swap_failed (fl : list (option fault)) (db : DB) (e : error) (w' : World) : Prop :=
  (faulty fl \/ store db = None) /\
  exists s lg, core (w_db w') = core (with_store s db) /\
    logger (w_db w') = logger db ++ lg ++ [("fsm: %v", e)] /\
    (is_Some s -> is_Some (w_fs w' !! comps (badgerDir db))) /\
    (forall h, one_fault fl -> store db = Some h ->
       exists d, s = Some (mkHandle (badgerOpts db) d) /\ contents d = contents (h_db h)).

(** What a successful swap leaves: the staged data published, the applied
    index at 0, the staged files in the live directory's place, no staging
    directory, and no backup directory unless a fault kept it. *)
Definition swap_done (fl : list (option fault)) (db : DB) (dn : bdb) (w' : World) : Prop :=
  exists d, core (w_db w') = core (restored (Some (mkHandle (badgerOpts db) d)) db) /\
    contents d = contents dn /\ w_fs w' !! comps (badgerDir db) = Some (db_files dn) /\
    w_fs w' !! comps (stagingDir db) = None /\
    (~ faulty fl -> w_fs w' !! comps (backupDir db) = None).

Section Swap.
Variables (live staging backup : path) (db : DB) (dn : bdb).
Hypotheses (Hdir : comps (Dir (badgerOpts db)) = live) (Hvdir : comps (ValueDir (badgerOpts db)) = live)
  (Hlive : comps (badgerDir db) = live)
  (Hstaging : comps (stagingDir db) = staging) (Hbackup : comps (backupDir db) = backup)
  (Hls : apart live staging) (Hlb : apart live backup) (Hsb : apart staging backup).

(** The rest of the swap runs in this situation: the live store is closed,
    [k] calls were made, the old data is in the live directory unless its close
    failed, and the backup directory is gone unless its removal failed. *)
Section Closed.
Variables (db2 : DB) (fs : gmap (list string) image) (fl : list (option fault)) (k : nat)
  (clk : Z) (tk : list Z) (lg : list (string * error)).
Hypotheses (Hc2 : core db2 = core (with_store None db)) (Hlg2 : logger db2 = logger db ++ lg)
  (Hst : fs !! staging = Some (db_files dn))
  (Hbk : next_fault fl = None -> fs !! backup = None)
  (Hold : forall h, store db = Some h -> k = 2 /\ is_Some (fs !! live) /\
     (next_fault (drop 1 fl) = None -> fs !! live = Some (db_files (h_db h)))).

Lemma closed_opts : badgerOpts db2 = badgerOpts db.
Proof. change (badgerOpts (core db2) = badgerOpts db). by rewrite Hc2. Qed.

(** A failure at call [i] that reopened something, having kept the old files
    for the reopening when it is the only fault. *)
Lemma closed_failed (i : nat) step e (w' : World) s lg' :
  is_Some (next_fault (drop i fl)) \/ store db = None ->
  core (w_db w') = core (with_store s db2) -> logger (w_db w') = logger db2 ++ lg' ->
  (is_Some s -> is_Some (w_fs w' !! live)) ->
  (forall h, one_fault fl -> store db = Some h ->
     exists d, s = Some (mkHandle (badgerOpts db) d) /\ contents d = contents (h_db h)) ->
  swap_failed fl db (restore_error step e) (add_log ("fsm: %v", restore_error step e) w').
Proof.
  intros Hi Hc Hlg Hfs Hs. split; [destruct Hi; [left; by exists i | by right] |].
  exists s, (lg ++ lg'). split; [| split; [| split; [by rewrite Hlive | done]]].
  - transitivity (core (with_store s (core db2))); [exact Hc | by rewrite Hc2].
  - simpl. by rewrite Hlg, Hlg2, !app_assoc.
Qed.

(** Moving the live directory aside fails. *)
Lemma aside_failed_wp e step (Q : result error unit -> World -> Prop) :
  is_Some (next_fault (drop k fl)) \/ fs !! live = None \/ is_Some (fs !! backup) ->
  (forall w', swap_failed fl db (restore_error step e) w' -> Q (Err (restore_error step e)) w') ->
  wp reopenLocked (fun r' w'' => match r' with
      | Ok _ => Q (Err (restore_error step e)) (add_log ("fsm: %v", restore_error step e) w'')
      | Err e' => Q (Err e') w'' end) (mkWorld db2 fs (drop (S k) fl) clk tk).
Proof.
  intros He HQ. pose proof closed_opts as Ho2.
  assert (store db = None \/ exists i, i <> 1 /\ i <> 3 /\ is_Some (next_fault (drop i fl))) as Hblame.
  { destruct (store db) as [h |] eqn:Hs; [right | by left].
    destruct (Hold h eq_refl) as (-> & [il Hil] & _).
    destruct He as [Hf | [He | [j He]]]; [by exists 2 | congruence |].
    exists 0. rewrite drop_0. destruct (next_fault fl); [eauto |]. by rewrite Hbk in He. }
  apply reopenLocked_wp; [congruence |]. intros w' s lg' Hc Hlg Hfs Hs. apply HQ.
  assert (exists i, is_Some (next_fault (drop i fl)) \/ store db = None) as [i Hi].
  { destruct Hblame as [? | (i & _ & _ & ?)]; [by exists 0; right | by exists i; left]. }
  rewrite Ho2 in *. rewrite Hdir in Hfs. eapply (closed_failed i); [done | done | done | done |]. intros h H1 Hh.
  destruct Hblame as [? | (j & Hj1 & Hj3 & [f Hf])]; [congruence |].
  destruct (Hold h Hh) as (-> & _ & Hfiles). apply Hs; rewrite ?Hdir.
  - by apply (one_fault_other _ j _ f).
  - apply Hfiles. by apply (one_fault_other _ j _ f).
Qed.

(** A later call [i] fails while the backup directory holds the old files:
    they are rolled back. *)
Lemma later_failed_wp (i j : nat) (fs3 : gmap (list string) image) (il : image) e step (Q : result error unit -> World -> Prop) :
  is_Some (next_fault (drop i fl)) -> i < j -> (store db = None \/ 2 < i) ->
  fs !! live = Some il -> fs3 !! backup = Some il ->
  ((forall i', i < i' -> next_fault (drop i' fl) = None) -> fs3 !! live = None) ->
  (forall w', swap_failed fl db (restore_error step e) w' -> Q (Err (restore_error step e)) w') ->
  wp (rollbackAndReopenLocked backup live) (fun r' w'' => match r' with
      | Ok _ => Q (Err (restore_error step e)) (add_log ("fsm: %v", restore_error step e) w'')
      | Err e' => Q (Err e') w'' end) (mkWorld db2 fs3 (drop j fl) clk tk).
Proof.
  intros Hi Hj H2 Hil Hb3 Hl3 HQ. pose proof closed_opts as Ho2.
  apply rollback_wp; [congruence | congruence | by apply apart_sym |].
  intros w' s lg' Hc Hlg Hfs Hs. apply HQ. eapply (closed_failed i); [by left | done | done | done |].
  rewrite Ho2 in Hs. intros h H1 Hh. destruct (Hold h Hh) as (_ & _ & Hfiles).
  destruct H2 as [? | H2]; [congruence |]. destruct Hi as [f Hf].
  assert (forall i', i' <> i -> next_fault (drop i' fl) = None) as Hno.
  { intros i' ?. by apply (one_fault_other fl i _ f). }
  apply Hs; rewrite ?tail_drop; [apply Hno; lia .. | |].
  - rewrite Hb3, <- Hil. apply Hfiles, Hno. lia.
  - apply Hl3. intros i' ?. apply Hno. lia.
Qed.

Lemma swap_rest_wp (Q : result error unit -> World -> Prop) :
  (forall e w', swap_failed fl db e w' -> Q (Err e) w') ->
  (forall w', swap_done fl db dn w' -> Q (Ok tt) w') ->
  wp (do! or_restoreErr (os_Rename live backup) reopenLocked "move live dir aside";
      do! or_restoreErr (os_Rename staging live) (rollbackAndReopenLocked backup live)
            "move staging dir into place";
      let! store := or_restoreErr (badger_Open (badgerOpts db))
                      (do! ignore (os_RemoveAll live); rollbackAndReopenLocked backup live)
                      "open restored badger" in
      do! ignore (os_RemoveAll backup);
      do! st_mod (set_store (Some store));
      st_mod (set_appliedIndex 0)) Q (mkWorld db2 fs (drop k fl) clk tk).
Proof.
  intros Herr Hok.
  assert (store db = None \/ 2 < S k) as Hk.
  { destruct (store db) as [h |] eqn:E; [right; destruct (Hold h eq_refl); lia | by left]. }
  apply wp_bind, wp_or_restoreErr, wp_Rename; [done | |].
  2:{ intros e0 He. rewrite tail_drop. apply aside_failed_wp; [done | by intros; apply Herr]. }
  intros il fs3 _ Hil _ Hb3 Hl3 F3. rewrite tail_drop.
  assert (fs3 !! staging = Some (db_files dn)) as Hst3.
  { rewrite F3; [done | done | by apply apart_sym]. }
  apply wp_bind, wp_or_restoreErr, wp_Rename; [by apply apart_sym | |].
  2:{ intros e0 [Hf | [He | [? He]]]; [| congruence ..]. rewrite tail_drop.
      apply (later_failed_wp (S k) _ _ il); [done | lia | done | done | done | done | by intros; apply Herr]. }
  intros i4 fs4 _ Hi4 _ Hl4 Hs4 F4. rewrite tail_drop.
  assert (fs4 !! backup = Some il) as Hb4 by (by rewrite F4).
  assert (fs4 !! live = Some (db_files dn)) as Hn4 by congruence.
  apply wp_bind, wp_or_restoreErr, (wp_Open (badgerOpts db)); [congruence | |].
  - intros _ fs5 i -> Hi5 F5. rewrite Hdir in *. rewrite Hn4 in *. simpl in *.
    destruct (open_files dn) as (d & -> & Hcont). simpl.
    apply wp_bind, wp_ignore, wp_RemoveAll. intros fs6 r6 F6 N6 _.
    apply wp_bind, wp_mod, wp_mod, Hok. exists d. split; [| split; [done | split; [| split]]].
    + change (core (restored (Some (mkHandle (badgerOpts db) d)) (core db2)) =
              core (restored (Some (mkHandle (badgerOpts db) d)) db)). by rewrite Hc2.
    + simpl. rewrite Hlive, F6; [done | by apply apart_sym].
    + simpl. rewrite Hstaging, F6 by (by apply apart_sym). rewrite F5; [done | by apply apart_ne].
    + simpl. rewrite Hbackup. intros Hno. apply N6. rewrite !tail_drop.
      destruct (next_fault (drop (S (S (S k))) fl)) as [f |] eqn:E; [| done].
      destruct Hno. exists (S (S (S k))). by rewrite E.
  - intros f Hf. rewrite tail_drop. apply wp_bind, wp_ignore, wp_RemoveAll. intros fs5 r5 F5 N5 _.
    rewrite tail_drop. apply (later_failed_wp (S (S k)) _ _ il); [by rewrite Hf | lia | | done | | |].
    + destruct Hk; [by left | right; lia].
    + by rewrite F5.
    + intros Hno. apply N5, Hno. lia.
    + by intros; apply Herr.
Qed.

End Closed.

Lemma restoreSwap_wp fs fl clk tk (Q : result error unit -> World -> Prop) :
  fs !! staging = Some (db_files dn) ->
  (forall h, store db = Some h -> h_opts h = badgerOpts db /\ is_Some (fs !! live)) ->
  (forall e w', swap_failed fl db e w' -> Q (Err e) w') ->
  (forall w', swap_done fl db dn w' -> Q (Ok tt) w') ->
  wp (restoreSwap live staging backup) Q (mkWorld db fs fl clk tk).
Proof.
  intros Hst Hopen Herr Hok. unfold restoreSwap.
  apply wp_bind, wp_get, wp_bind, wp_ignore, wp_RemoveAll. intros fs1 r1 F1 N1 _.
  assert (fs1 !! staging = Some (db_files dn)) as Hst1 by (rewrite F1; [done | by apply apart_sym]).
  assert (fs1 !! live = fs !! live) as Hl1 by (apply F1; by apply apart_sym).
  apply wp_bind. unfold closeForSwap. apply wp_bind, wp_get. cbn [w_db].
  destruct (store db) as [h |] eqn:Hs.
  - destruct (Hopen h eq_refl) as [Ho [il Hil]].
    apply wp_bind, wp_try, wp_Close; [congruence |]. rewrite Ho, Hdir. intros fs2 r2 F2 N2 E2.
    assert (tail (tail fl) = drop 2 fl) as -> by (by destruct fl as [| ? []]).
    assert (tail fl = drop 1 fl) as Ht by (by destruct fl). rewrite Ht in N2, E2.
    assert (fs2 !! staging = Some (db_files dn)) as Hst2.
    { rewrite F2; [done | by apply apart_ne]. }
    assert (next_fault fl = None -> fs2 !! backup = None) as Hbk2.
    { intros Hf. rewrite F2; [by apply N1 | by apply apart_ne]. }
    assert (forall h', store db = Some h' -> 2 = 2 /\ is_Some (fs2 !! live) /\
      (next_fault (drop 1 fl) = None -> fs2 !! live = Some (db_files (h_db h')))) as Hold.
    { intros h'. rewrite Hs. intros [= <-]. split; [done |]. split; [| by apply N2].
      destruct (next_fault (drop 1 fl)) as [f |] eqn:Hf.
      - apply (E2 f eq_refl). rewrite Hl1. eauto.
      - destruct (N2 eq_refl) as [-> _]. eauto. }
    destruct r2 as [[] | e2].
    + apply wp_bind, wp_ret, wp_mod. unfold set_store, set_db; simpl.
      eapply (swap_rest_wp _ _ _ 2 _ _ []); try done; by rewrite app_nil_r.
    + apply wp_bind, wp_mod, wp_mod. unfold set_store, add_log, set_db; simpl.
      eapply (swap_rest_wp _ _ _ 2 _ _ [_]); done.
  - apply wp_ret. assert (tail fl = drop 1 fl) as -> by (by destruct fl).
    eapply (swap_rest_wp _ _ _ 1 _ _ []); try done; [| by rewrite app_nil_r | naive_solver | congruence].
    unfold core, with_store; simpl. by rewrite Hs.
Qed.

End Swap.

(** ** The whole staged restore *)

(** The live store was opened with the node's options and its directory is
    there. *)
Definition live_ready (w : World) : Prop :=
  forall h, store (w_db w) = Some h ->
    h_opts h = badgerOpts (w_db w) /\ is_Some (w_fs w !! comps (badgerDir (w_db w))).

Lemma Restore_wp rc w (Q : result error unit -> World -> Prop) :
  staged_layout (w_db w) -> live_ready w ->
  (forall e w', staging_failed (comps (stagingDir (w_db w))) rc w e w' -> Q (Err e) w') ->
  (forall e w', swap_failed (drop 5 (w_faults w)) (w_db w) e w' -> Q (Err e) w') ->
  (forall d0 d w', contents d0 = ∅ -> db_Load d0 rc snapshotLoadMaxPendingWrites = Ok d ->
     swap_done (drop 5 (w_faults w)) (w_db w) d w' -> Q (Ok tt) w') ->
  wp (Restore rc) Q w.
Proof.
  destruct w as [db fs fl clk tk]; unfold live_ready; simpl.
  intros (Hd & Hv & Hls & Hlb & Hsb) Hr H1 H2 H3. unfold Restore. apply wp_bind, wp_get. cbn [w_db].
  rewrite Hv, (bool_decide_eq_true_2 (badgerDir db = badgerDir db)), andb_false_r by done.
  apply wp_bind, restoreStage_wp; [done |]. intros fs' d0 d Hd0 Hl Hst F.
  apply (restoreSwap_wp _ _ _ db d); try congruence; try done.
  - intros h Hh. destruct (Hr h Hh) as [? Hi]. split; [done |]. rewrite F; [done | by apply apart_sym].
  - eauto.
Qed.

Lemma core_store d1 d2 : core d1 = core d2 -> store d1 = store d2.
Proof. intros H. change (store (core d1) = store (core d2)). by rewrite H. Qed.
Lemma core_appliedIndex d1 d2 : core d1 = core d2 -> appliedIndex d1 = appliedIndex d2.
Proof. intros H. change (appliedIndex (core d1) = appliedIndex (core d2)). by rewrite H. Qed.
Lemma core_layout d1 d2 : core d1 = core d2 -> badgerOpts d1 = badgerOpts d2 /\ badgerDir d1 = badgerDir d2.
Proof.
  intros H. change (badgerOpts (core d1) = badgerOpts (core d2) /\ badgerDir (core d1) = badgerDir (core d2)).
  by rewrite H.
Qed.
Lemma core_closed d1 d2 : core d1 = core d2 -> closed d1 = closed d2.
Proof. intros H. change (closed (core d1) = closed (core d2)). by rewrite H. Qed.

(** The default shape of a store's directory, [parent/name], has the layout. *)
Lemma slash_free_app a b : slash_free (a +:+ b) = slash_free a && slash_free b.
Proof.
  induction a as [| c a IH]; [done |]. change (String c a +:+ b) with (String c (a +:+ b)).
  simpl. by rewrite IH, andb_assoc.
Qed.

Lemma length_string_app a b : String.length (a +:+ b) = String.length a + String.length b.
Proof. induction a as [| x a IH]; [done |]. exact (f_equal S IH). Qed.

Lemma string_app_inj a b c : a +:+ b = a +:+ c -> b = c.
Proof. induction a as [| x a IH]; [done |]. intros [= ?]. auto. Qed.

Lemma plain_suffix name s :
  slash_free name = true -> slash_free s = true -> 2 < String.length s -> plain (name +:+ s).
Proof.
  intros Hn Hs Hl. pose proof (length_string_app name s) as Hlen.
  split; [by rewrite slash_free_app, Hn, Hs |].
  repeat split; intros H; rewrite H in Hlen; simpl in Hlen; lia.
Qed.

Lemma string_app_assoc a b c : (a +:+ b) +:+ c = a +:+ (b +:+ c).
Proof. induction a as [| x a IH]; [done |]. exact (f_equal (String x) IH). Qed.

Lemma string_app_ne a b : b <> EmptyString -> a <> a +:+ b.
Proof.
  intros Hb H%(f_equal String.length). rewrite length_string_app in H.
  destruct b; [done | simpl in H; lia].
Qed.

Lemma staged_layout_plain p name (d : DB) :
  badgerDir d = p +:+ String slash name -> p <> EmptyString -> plain name ->
  Dir (badgerOpts d) = badgerDir d -> ValueDir (badgerOpts d) = badgerDir d ->
  staged_layout d.
Proof.
  intros Hb Hp Hn Hd Hv. unfold staged_layout, stagingDir, backupDir. rewrite Hb in *.
  rewrite !string_app_assoc.
  assert (forall s, String slash name +:+ s = String slash (name +:+ s)) as Hcons by done.
  assert (plain (name +:+ ".restore-tmp") /\ plain (name +:+ ".restore-old")) as [H1 H2].
  { destruct Hn as [Hn _]. split; apply plain_suffix; try done; simpl; lia. }
  rewrite !Hcons, !comps_snoc by done.
  split; [done |]. split; [done |]. split; [| split]; apply snoc_apart.
  - by apply string_app_ne.
  - by apply string_app_ne.
  - by intros ?%string_app_inj.
Qed.

End Restore.
