(* ===== verification/RestoreProps.v ===== *)
(** * RestoreProps: what [Restore], [restoreInPlace] and [Persist] guarantee *)
From S2P Require Import Prelude Errors Types Options Command Codec Badger Files Raft Node Fsm Wp Sim FsmRestore.

Section RestoreProps.
Context `{B : BadgerOps} `{R : RaftOps backup} `{C : Codec} `{L : !BadgerLaws}.

(** ** The staged restore *)

(** The snapshot is served and the applied index is 0. *)
Definition serves_new (rc : backup) (w' : World) : Prop :=
  exists d0 d h, contents d0 = ∅ /\ db_Load d0 rc snapshotLoadMaxPendingWrites = Ok d /\
    store (w_db w') = Some h /\ contents (h_db h) = contents d /\ appliedIndex (w_db w') = 0%Z.

(** The old data is served, the applied index is untouched and the error was
    logged. *)
Definition serves_old (w : World) (h : handle) (e : error) (w' : World) : Prop :=
  exists h' lg, store (w_db w') = Some h' /\ contents (h_db h') = contents (h_db h) /\
    appliedIndex (w_db w') = appliedIndex (w_db w) /\
    logger (w_db w') = logger (w_db w) ++ lg ++ [("fsm: %v", e)].

(** C9. Whatever faults come, a restore that returns [nil] has replaced the
    whole store: it serves a state that no read from the backup's time on can
    tell from the one backed up, the applied index is 0, and the node's other
    fields are unchanged. *)
Theorem Restore_publishes rc w w' t d :
  staged_layout (w_db w) -> live_ready w -> db_Backup t d = Ok rc ->
  Restore rc w = (w', Ok tt) ->
  exists h, store (w_db w') = Some h /\ contents (h_db h) ≈[t] contents d /\
    core (w_db w') = core (restored (Some h) (w_db w)).
Proof.
  intros Hl Hr Hb H.
  assert (wp (Restore rc) (fun r w' => r = Ok tt -> exists h, store (w_db w') = Some h /\
    contents (h_db h) ≈[t] contents d /\ core (w_db w') = core (restored (Some h) (w_db w))) w) as Hwp.
  { apply Restore_wp; try done. intros d0 dn w1 H0 Hload (dl & Hc & Hcont & _) _.
    exists (mkHandle (badgerOpts (w_db w)) dl). split; [by apply core_store in Hc |].
    split; [| done]. simpl. rewrite Hcont. by eapply Load_Backup. }
  exact (wp_elim _ _ _ _ _ Hwp H eq_refl).
Qed.

(** C8. Any single fault of the environment is tolerated: on a node that is
    serving a store, whichever one system or storage call of the restore fails,
    the restore either returns [nil] and serves the snapshot, or returns an
    error, has logged it, and serves the old data with the applied index
    untouched. *)
Theorem Restore_single_fault rc w h :
  staged_layout (w_db w) -> live_ready w -> store (w_db w) = Some h -> one_fault (w_faults w) ->
  exists w' r, Restore rc w = (w', r) /\
    match r with Ok _ => serves_new rc w' | Err e => serves_old w h e w' end.
Proof.
  intros Hl Hr Hs H1. apply (wp_run (Restore rc) (fun r w' =>
    match r with Ok _ => serves_new rc w' | Err e => serves_old w h e w' end)).
  apply Restore_wp; [done | done | | |].
  - intros e w1 (_ & Hc & Hlg & _). exists h, []. pose proof (core_store _ _ Hc).
    repeat split; [congruence | by apply core_appliedIndex in Hc | done].
  - intros e w1 (_ & s & lg & Hc & Hlg & _ & Hh). destruct (Hh h) as (d & -> & Hd); [| done |].
    + intros i j. rewrite !drop_drop. intros Hi Hj. pose proof (H1 _ _ Hi Hj). lia.
    + exists (mkHandle (badgerOpts (w_db w)) d), lg. split; [by apply core_store in Hc |].
      split; [done |]. split; [by apply core_appliedIndex in Hc | done].
  - intros d0 d w1 H0 Hload (dl & Hc & Hcont & _).
    exists d0, d, (mkHandle (badgerOpts (w_db w)) dl). repeat split; try done.
    + by apply core_store in Hc.
    + by apply core_appliedIndex in Hc.
Qed.

(** C18. Without faults, a node that is serving a store completes the restore
    of every snapshot Badger can load, whatever an earlier restore left behind in
    the staging and backup directories, and leaves neither directory. *)
Theorem Restore_completes rc w h :
  staged_layout (w_db w) -> live_ready w -> store (w_db w) = Some h -> ~ faulty (w_faults w) ->
  (forall d0, contents d0 = ∅ -> exists d, db_Load d0 rc snapshotLoadMaxPendingWrites = Ok d) ->
  exists w', Restore rc w = (w', Ok tt) /\ serves_new rc w' /\
    w_fs w' !! comps (stagingDir (w_db w)) = None /\ w_fs w' !! comps (backupDir (w_db w)) = None.
Proof.
  intros Hl Hr Hs Hf Hload.
  cut (wp (Restore rc) (fun r w' => r = Ok tt /\ serves_new rc w' /\
    w_fs w' !! comps (stagingDir (w_db w)) = None /\ w_fs w' !! comps (backupDir (w_db w)) = None) w).
  { intros (w' & r & E & -> & ?)%wp_run. by exists w'. }
  apply Restore_wp; [done | done | | |].
  - intros e w1 ([? | (d0 & e0 & H0 & He)] & _); [done |].
    destruct (Hload d0 H0) as [d Hd]. congruence.
  - intros e w1 ([?%faulty_drop | ?] & _); [done | congruence].
  - intros d0 d w1 H0 Hd (dl & Hc & Hcont & _ & Hst & Hbk). split; [done |].
    split; [| split; [done | by apply Hbk; intros ?%faulty_drop]].
    exists d0, d, (mkHandle (badgerOpts (w_db w)) dl). repeat split; try done.
    + by apply core_store in Hc.
    + by apply core_appliedIndex in Hc.
Qed.

(** Whatever faults come, when the staging phase fails the restore fails
    with its error and the old store keeps serving: the node is the same but
    for one more line of log, and so are its directories other than the staging
    directory. *)
Theorem Restore_staging_failure rc w w1 e :
  ValueDir (badgerOpts (w_db w)) = badgerDir (w_db w) ->
  restoreStage (stagingDir (w_db w)) rc w = (w1, Err e) ->
  Restore rc w = (w1, Err e) /\ core (w_db w1) = core (w_db w) /\
  logger (w_db w1) = logger (w_db w) ++ [("fsm: %v", e)] /\
  (forall q, apart (comps (stagingDir (w_db w))) q -> w_fs w1 !! q = w_fs w !! q).
Proof.
  intros Hv H. split.
  - unfold Restore, st_bind at 1, st_get. rewrite Hv, (bool_decide_eq_true_2 (badgerDir (w_db w) = _)), andb_false_r by done.
    by apply st_bind_run_err.
  - destruct w as [db fs fl clk tk].
    assert (wp (restoreStage (stagingDir db) rc) (fun r w' => forall e, r = Err e ->
      staging_failed (comps (stagingDir db)) rc (mkWorld db fs fl clk tk) e w') (mkWorld db fs fl clk tk)) as Hwp.
    { apply restoreStage_wp; [by intros e' w' ? ? [= <-] | done]. }
    by destruct (wp_elim _ _ _ _ _ Hwp H e eq_refl) as (_ & ? & ? & ?).
Qed.

(** ** The restore in place *)

Lemma wipe_dir_wp dir db fs fl clk tk (Q : result error unit -> World -> Prop) :
  (forall fs' : gmap (list string) image, fs' !! dir = Some empty_image ->
     (forall q, q <> dir -> fs' !! q = fs !! q \/ fs' !! q = None) ->
     Q (Ok tt) (mkWorld db fs' (drop 2 fl) clk tk)) ->
  (forall step e fs' fl', Q (Err (restore_error step e))
     (add_log ("fsm: %v", restore_error step e) (mkWorld db fs' fl' clk tk))) ->
  wp (wipe_dir dir) Q (mkWorld db fs fl clk tk).
Proof.
  intros H1 H2. unfold wipe_dir. apply wp_bind, wp_or_restoreErr, wp_os_call.
  destruct (next_fault fl) as [f |]; cbn [RemoveAll fst snd]; [apply wp_ret, H2 |].
  apply wp_or_restoreErr, wp_MkdirAll. intros fs2 r2 F2 N2 E2.
  destruct (next_fault (tail fl)) as [f |] eqn:Hf; [rewrite (E2 f eq_refl); apply wp_ret, H2 |].
  destruct (N2 eq_refl) as [A2 ->].
  assert (tail (tail fl) = drop 2 fl) as -> by (by destruct fl as [| ? []]). apply H1.
  - rewrite A2. pose proof (RemoveAll_self dir fs) as Hn. simpl in Hn. by rewrite Hn.
  - intros q Hq. rewrite F2 by done. rewrite map_lookup_filter.
    destruct (fs !! q) as [j |]; [| by left]. simpl. destruct (decide (under dir q)) as [Hu | Hu].
    + right. by rewrite option_guard_False by (intros H; by apply H).
    + left. by rewrite option_guard_True.
Qed.

Definition inplace_post (rc : backup) (d : DB) (r : result error unit) (w' : World) : Prop :=
  match r with
  | Ok _ => exists d0 dn, contents d0 = ∅ /\ db_Load d0 rc snapshotLoadMaxPendingWrites = Ok dn /\
      core (w_db w') = core (restored (Some (mkHandle (badgerOpts d) dn)) d)
  | Err e => core (w_db w') = core (with_store None d) /\ logger (w_db w') = logger d ++ [("fsm: %v", e)]
  end.

(** In place from the point where the store is closed. *)
Lemma inplace_rest_wp rc d db fs fl clk tk :
  Dir (badgerOpts d) = badgerDir d -> core db = core (with_store None d) -> logger db = logger d ->
  wp (do! wipe_dir (comps (badgerDir d));
      do! wipe_dir (comps (ValueDir (badgerOpts d)));
      let! store := or_restoreErr (badger_Open (badgerOpts d)) (ret! tt) "reopen badger" in
      let! store' := or_restoreErr (badger_Load store rc snapshotLoadMaxPendingWrites)
                       (ignore (badger_Close store)) "load snapshot" in
      do! st_mod (set_store (Some store'));
      st_mod (set_appliedIndex 0)) (inplace_post rc d) (mkWorld db fs fl clk tk).
Proof.
  intros Hdir Hc Hlg.
  assert (forall step e fs' fl', inplace_post rc d (Err (restore_error step e))
     (add_log ("fsm: %v", restore_error step e) (mkWorld db fs' fl' clk tk))) as Herr.
  { intros step e fs' fl'. split; [exact Hc |]. simpl. by rewrite Hlg. }
  apply wp_bind, wipe_dir_wp; [| done]. intros fs1 A1 F1.
  apply wp_bind, wipe_dir_wp; [| done]. intros fs2 A2 F2.
  apply wp_bind, wp_or_restoreErr, wp_Open_empty.
  - rewrite Hdir. set (p := comps (badgerDir d)) in *.
    destruct (decide (p = comps (ValueDir (badgerOpts d)))) as [-> | Hne]; [by rewrite A2 |].
    destruct (F2 p Hne) as [-> | ->]; [by rewrite A1 | done].
  - by rewrite A2.
  - intros fs3 d0 H0. apply wp_bind, wp_or_restoreErr, wp_Load.
    + intros _. simpl. destruct (db_Load d0 rc _) as [dn | e] eqn:E; simpl.
      * apply wp_bind, wp_mod, wp_mod. exists d0, dn. split; [done |]. split; [done |].
        change (core (restored (Some (mkHandle (badgerOpts d) dn)) (core db)) =
                core (restored (Some (mkHandle (badgerOpts d) dn)) d)). by rewrite Hc.
      * apply wp_ignore, wp_Close_any. intros. apply Herr.
    + intros f _. apply wp_ignore, wp_Close_any. intros. apply Herr.
  - intros f fs3 _. apply wp_ret, Herr.
Qed.

Lemma restoreInPlace_wp rc w :
  Dir (badgerOpts (w_db w)) = badgerDir (w_db w) ->
  wp (restoreInPlace rc) (inplace_post rc (w_db w)) w.
Proof.
  destruct w as [db fs fl clk tk]. cbn [w_db]. intros Hdir. unfold restoreInPlace.
  apply wp_bind, wp_get. cbv zeta. cbn [w_db]. apply wp_bind. destruct (store db) as [h |] eqn:Hs.
  - apply wp_bind, wp_try, wp_Close_any. intros fs1 [[] | e]; apply wp_bind, wp_mod.
    + apply wp_ret. by apply inplace_rest_wp.
    + apply wp_bind, wp_mod, wp_err. by split.
  - apply wp_ret. apply inplace_rest_wp; [done | | done]. unfold core, with_store; simpl. by rewrite Hs.
Qed.

(** C19. With a separate value directory, whatever its place and whatever faults
    come, the restore in place either serves the snapshot in a freshly created
    store with the applied index at 0, or returns an error, has logged it, and
    leaves no store at all and the applied index as it was: it never serves
    a half-loaded or an old store. *)
Theorem restoreInPlace_outcome rc w :
  Dir (badgerOpts (w_db w)) = badgerDir (w_db w) ->
  exists w' r, restoreInPlace rc w = (w', r) /\
    match r with
    | Ok _ => serves_new rc w'
    | Err e => store (w_db w') = None /\ appliedIndex (w_db w') = appliedIndex (w_db w) /\
               logger (w_db w') = logger (w_db w) ++ [("fsm: %v", e)]
    end.
Proof.
  intros Hdir. destruct (wp_run _ _ _ (restoreInPlace_wp rc w Hdir)) as (w' & r & E & H).
  exists w', r. split; [done |]. destruct r as [[] | e]; simpl in H.
  - destruct H as (d0 & dn & H0 & Hl & Hc). exists d0, dn, (mkHandle (badgerOpts (w_db w)) dn).
    repeat split; try done; [by apply core_store in Hc | by apply core_appliedIndex in Hc].
  - destruct H as [Hc Hlg]. split; [by apply core_store in Hc |].
    split; [by apply core_appliedIndex in Hc | done].
Qed.

(** ** Snapshots *)

Lemma Persist_run s w w' s' :
  Persist s w = (w', Ok (s', None)) ->
  exists h bs, store (w_db w) = Some h /\ db_Backup (w_clock w) (h_db h) = Ok bs /\
    s' = mkSink (Some bs) SinkClosed /\ w_db w' = w_db w.
Proof.
  intros H. destruct w as [db fs fl clk tk]. unfold Persist, sink_Cancel, sink_Close, badger_Backup in H.
  st_unfold. destruct (store db) as [h |]; cycle 1; [split_all |].
  destruct fl as [| [f |] fl]; simpl in H; [| | destruct fl as [| [g |] fl]]; split_all;
    by eexists _, _.
Qed.

(** C10. Snapshot round trip: a snapshot one node persisted at time [t], restored
    in either way by a node that returns [nil], makes that node serve a state
    that no read from [t] on can tell from what the first node held. *)
Theorem Persist_Restore_roundtrip s w w1 s1 h rc w2 w3 :
  Persist s w = (w1, Ok (s1, None)) -> store (w_db w) = Some h -> sk_data s1 = Some rc ->
  Dir (badgerOpts (w_db w2)) = badgerDir (w_db w2) ->
  (ValueDir (badgerOpts (w_db w2)) = badgerDir (w_db w2) -> staged_layout (w_db w2) /\ live_ready w2) ->
  ValueDir (badgerOpts (w_db w2)) <> EmptyString ->
  Restore rc w2 = (w3, Ok tt) ->
  exists h3, store (w_db w3) = Some h3 /\ contents (h_db h3) ≈[w_clock w] contents (h_db h).
Proof.
  intros (h' & bs & Hs & Hb & -> & _)%Persist_run Hs' [= <-] Hdir Hlay Hne HR.
  assert (h' = h) as -> by congruence.
  destruct (decide (ValueDir (badgerOpts (w_db w2)) = badgerDir (w_db w2))) as [Hv | Hv].
  - destruct (Hlay Hv) as [Hl Hr].
    assert (wp (Restore bs) (fun r w' => r = Ok tt -> exists h, store (w_db w') = Some h /\
      exists d0 d, contents d0 = ∅ /\ db_Load d0 bs snapshotLoadMaxPendingWrites = Ok d /\
        contents (h_db h) = contents d) w2) as Hwp.
    { apply Restore_wp; try done. intros d0 d w' H0 Hload (dl & Hc & Hcont & _) _.
      apply core_store in Hc. eexists; split; [exact Hc |]. by exists d0, d. }
    destruct (wp_elim _ _ _ _ _ Hwp HR eq_refl) as (h3 & ? & d0 & d & H0 & Hload & Hcont).
    exists h3. split; [done |]. rewrite Hcont. by eapply Load_Backup.
  - unfold Restore, st_bind at 1, st_get in HR. cbv zeta in HR.
    rewrite (bool_decide_eq_false_2 _ Hv) in HR. unfold is_empty in HR.
    rewrite (bool_decide_eq_false_2 _ Hne) in HR. simpl in HR.
    destruct (wp_elim _ _ _ _ _ (restoreInPlace_wp bs w2 Hdir) HR) as (d0 & dn & H0 & Hload & Hc).
    apply core_store in Hc. eexists; split; [exact Hc |]. by eapply Load_Backup.
Qed.

(** C20. A snapshot is finished exactly when it is complete: [Persist] leaves a
    closed sink only around a full backup of the current store, every error
    leaves a sink that was cancelled unless the sink itself failed, and the
    node is never changed. *)
Theorem Persist_complete s w :
  sk_state s = SinkOpen ->
  exists w' s' e, Persist s w = (w', Ok (s', e)) /\ w_db w' = w_db w /\ w_fs w' = w_fs w /\
    match e with
    | None => exists h bs, store (w_db w) = Some h /\ db_Backup (w_clock w) (h_db h) = Ok bs /\
                s' = mkSink (Some bs) SinkClosed
    | Some _ => sk_state s' <> SinkClosed /\ (~ faulty (w_faults w) -> sk_state s' = SinkCancelled)
    end.
Proof.
  intros Ho. destruct w as [db fs fl clk tk]. cbn [w_faults].
  unfold Persist, sink_Cancel, sink_Close, badger_Backup. st_unfold.
  destruct (store db) as [h |]; [destruct (db_Backup clk (h_db h)) as [bs | eb] eqn:Hb |];
    destruct fl as [| [f |] [| [g |] fl]]; simpl; rewrite ?Hb; simpl;
    (do 3 eexists); (split; [done |]); (split; [done |]); (split; [done |]);
    try (by eexists _, _); (split; [simpl; congruence |]);
    try done; intros []; first [by exists 0 | by exists 1].
Qed.

(** ** Two ways the staged restore goes wrong *)

(** C38. If moving the staging directory into place fails and moving the backup
    directory back fails too, the node ends up publishing an empty database:
    the reopening finds no live directory and Badger creates one. *)
Theorem swap_double_fault live staging backup db h fs fl clk tk f g :
  comps (Dir (badgerOpts db)) = live -> comps (ValueDir (badgerOpts db)) = live ->
  apart live staging -> apart live backup -> apart staging backup ->
  store db = Some h -> h_opts h = badgerOpts db ->
  is_Some (fs !! live) -> is_Some (fs !! staging) -> next_fault fl = None ->
  exists w' e h',
    restoreSwap live staging backup
      (mkWorld db fs (None :: None :: None :: Some f :: Some g :: fl) clk tk) = (w', Err e) /\
    store (w_db w') = Some h' /\ contents (h_db h') = ∅.
Proof.
  intros Hd Hv Hls Hlb Hsb Hs Ho [il Hil] [ist Hst] Hf.
  cut (wp (restoreSwap live staging backup) (fun r w' => exists e h', r = Err e /\
         store (w_db w') = Some h' /\ contents (h_db h') = ∅)
       (mkWorld db fs (None :: None :: None :: Some f :: Some g :: fl) clk tk)).
  { intros (w' & r & E & e & h' & -> & ?)%wp_run. by exists w', e, h'. }
  unfold restoreSwap. apply wp_bind, wp_get, wp_bind, wp_ignore, wp_RemoveAll.
  intros fs1 r1 F1 N1 _. destruct (N1 eq_refl) as [Hb1 _]. cbn [tail].
  apply wp_bind. unfold closeForSwap. apply wp_bind, wp_get. cbn [w_db]. rewrite Hs.
  apply wp_bind, wp_try, wp_Close; [congruence |]. rewrite Ho, Hd. intros fs2 r2 F2 N2 _.
  destruct (N2 eq_refl) as [Hl2 ->]. apply wp_bind, wp_ret, wp_mod. unfold set_store, set_db. simpl.
  assert (fs2 !! backup = None) as Hb2 by (rewrite F2; [done | by apply apart_ne]).
  assert (fs2 !! staging = Some ist) as Hs2.
  { rewrite F2 by (by apply apart_ne). rewrite F1; [done | by apply apart_sym]. }
  apply wp_bind, wp_or_restoreErr, wp_Rename; [done | |].
  2:{ intros e [[? ?] | [? | [? ?]]]; [done | |]; simpl in *; congruence. }
  intros i3 fs3 _ _ _ Hb3 Hl3 F3. cbn [tail].
  apply wp_bind, wp_or_restoreErr, wp_Rename; [by apply apart_sym | done |].
  intros e _. cbn [tail]. unfold rollbackAndReopenLocked.
  apply wp_bind, wp_try, wp_Rename; [by apply apart_sym | done |].
  intros e' _. apply wp_bind, wp_mod. cbn [tail]. unfold reopenLocked.
  apply wp_bind, wp_get, wp_bind, wp_try, wp_Open_empty; cbn -[comps].
  - by rewrite Hd, Hl3.
  - by rewrite Hv, Hl3.
  - intros fs4 d Hc. by eexists _, _.
  - intros f' fs4. by rewrite Hf.
Qed.

Lemma comps_trailing p : p <> EmptyString -> comps (p +:+ "/") = comps p.
Proof.
  intros Hp. unfold comps, clean. change "/" with (String slash EmptyString).
  assert (rooted (p +:+ String slash EmptyString) = rooted p) as -> by (by destruct p).
  by rewrite split_slash_app, fold_left_app.
Qed.

Lemma wp_Rename_under old new (Q : result error unit -> World -> Prop) (w : World) :
  under old new -> (forall e w', Q (Err e) w') -> wp (os_Rename old new) Q w.
Proof.
  destruct w as [db fs fl clk tk]. intros Hu H. apply wp_os_call.
  destruct (next_fault fl); [apply H |]. unfold Rename. repeat (case_decide; [apply H |]). done.
Qed.

Lemma reopenLocked_ok (Q : result error unit -> World -> Prop) (w : World) :
  (forall w', Q (Ok tt) w') -> wp reopenLocked Q w.
Proof.
  destruct w. intros H. unfold reopenLocked. apply wp_bind, wp_get, wp_bind, wp_try, wp_Open_any.
  intros fs' [h | e]; [by apply wp_mod | by apply wp_bind, wp_mod, wp_mod].
Qed.

Lemma closeForSwap_ok (Q : result error unit -> World -> Prop) (w : World) :
  (forall w', Q (Ok tt) w') -> wp closeForSwap Q w.
Proof.
  destruct w as [db fs fl clk tk]. intros H. unfold closeForSwap. apply wp_bind, wp_get. cbn [w_db].
  destruct (store db) as [h |]; [| by apply wp_ret]. apply wp_bind, wp_try, wp_Close_any.
  intros fs' [[] | e]; [by apply wp_bind, wp_ret, wp_mod | by apply wp_bind, wp_mod, wp_mod].
Qed.

(** A Badger directory written with a trailing slash, which the options
    accept, makes every snapshot restore fail: the staging and backup
    directories lie inside the live one, which cannot be moved below itself. *)
Theorem Restore_trailing_slash rc w p :
  p <> EmptyString -> badgerDir (w_db w) = p +:+ "/" ->
  ValueDir (badgerOpts (w_db w)) = badgerDir (w_db w) ->
  exists w' e, Restore rc w = (w', Err e).
Proof.
  intros Hp Hb Hv. cut (wp (Restore rc) (fun r _ => exists e, r = Err e) w).
  { intros (w' & r & E & e & ->)%wp_run. by exists w', e. }
  unfold Restore. apply wp_bind, wp_get. cbv zeta.
  rewrite Hv, (bool_decide_eq_true_2 (badgerDir (w_db w) = _)), andb_false_r by done.
  apply wp_bind, wp_intro. intros [db fs fl clk tk] [[] | e] _; [| by exists e].
  unfold restoreSwap. apply wp_bind, wp_get, wp_bind, wp_ignore, wp_RemoveAll. intros fs1 r1 _ _ _.
  apply wp_bind, closeForSwap_ok. intros w1. apply wp_bind, wp_or_restoreErr, wp_Rename_under.
  - rewrite Hb, comps_trailing, string_app_assoc by done.
    change ("/" +:+ ".restore-old") with (String slash ".restore-old").
    rewrite comps_snoc by done. by exists [".restore-old"].
  - intros e w2. apply reopenLocked_ok. eauto.
Qed.

End RestoreProps.

(** ** Witnesses *)
Section Witnesses.
Import SimInstances.

Definition world2 (faults : list (option fault)) : World := Sim.world Sim.leader Sim.kv1 faults.
Definition handle1 : handle := mkHandle Sim.opts (Sim.mem Sim.kv1).

(** A snapshot of other data. *)
Definition snap : kv := {[ "x" := Sim.entry "9" ]}.
Definition snap_backup : backup := snap.

Lemma world2_layout fl : staged_layout (w_db (world2 fl)).
Proof. by apply (staged_layout_plain "/data/n1" "badger"). Qed.

Lemma world2_ready fl : live_ready (world2 fl).
Proof. intros h [= <-]. split; [done | vm_compute; eauto]. Qed.

Lemma world2_restore fl :
  snd (Restore snap_backup (world2 fl)) = Ok tt ->
  Restore snap_backup (world2 fl) = (fst (Restore snap_backup (world2 fl)), Ok tt).
Proof. intros <-. apply surjective_pairing. Qed.

Lemma Restore_publishes_witness :
  exists w' h, store (w_db w') = Some h /\ contents (h_db h) ≈[Sim.t0] (snap : kv).
Proof.
  destruct (Restore_publishes snap_backup (world2 []) (fst (Restore snap_backup (world2 []))) Sim.t0 (Sim.mem snap))
    as (h & Hs & Hc & _).
  - apply world2_layout.
  - apply world2_ready.
  - reflexivity.
  - apply world2_restore. vm_compute. reflexivity.
  - eexists _, h. split; [exact Hs | exact Hc].
Defined.

(** The open of the staging directory fails. *)
Definition fault2 : list (option fault) := replicate 2 None ++ [Some Sim.boom].

Lemma Restore_single_fault_witness :
  exists w' r, Restore snap_backup (world2 fault2) = (w', r) /\
    match r with Ok _ => serves_new snap_backup w' | Err e => serves_old (world2 fault2) handle1 e w' end.
Proof.
  apply (Restore_single_fault snap_backup (world2 fault2) handle1).
  - apply world2_layout.
  - apply world2_ready.
  - reflexivity.
  - apply one_fault_at.
Defined.

Lemma Restore_completes_witness :
  exists w', Restore snap_backup (world2 []) = (w', Ok tt) /\ serves_new snap_backup w'.
Proof.
  destruct (Restore_completes snap_backup (world2 []) handle1) as (w' & E & H & _).
  - apply world2_layout.
  - apply world2_ready.
  - reflexivity.
  - apply not_faulty_nil.
  - intros d0 _. by eexists.
  - exists w'. split; [exact E | exact H].
Defined.

Definition stage2 : World * result error unit :=
  restoreStage (stagingDir (w_db (world2 fault2))) snap_backup (world2 fault2).

Lemma Restore_staging_failure_witness :
  exists w1 e, Restore snap_backup (world2 fault2) = (w1, Err e) /\ store (w_db w1) = store (w_db (world2 fault2)).
Proof.
  destruct (Restore_staging_failure snap_backup (world2 fault2) (fst stage2)
              (default (New "no error") (error_of (snd stage2)))) as (E & Hc & _).
  - reflexivity.
  - unfold stage2. rewrite (surjective_pairing (restoreStage _ _ _)) at 1. f_equal; vm_compute; reflexivity.
  - eexists _, _. split; [exact E | by apply core_store in Hc].
Defined.

(** A node whose value log has a directory of its own. *)
Definition split_opts : badger_Options := mkOptions "/data/n1/badger" "/data/n1/vlog" false.
Definition split_world (faults : list (option fault)) : World :=
  mkWorld (mkDB Sim.config Sim.leader [] (Some (mkHandle split_opts (Sim.mem Sim.kv1))) split_opts
             "/data/n1/badger" false false None 4) ∅ faults Sim.t0 [].

Lemma restoreInPlace_outcome_witness :
  exists w' r, restoreInPlace snap_backup (split_world fault2) = (w', r) /\
    match r with
    | Ok _ => serves_new snap_backup w'
    | Err e => store (w_db w') = None /\ appliedIndex (w_db w') = appliedIndex (w_db (split_world fault2)) /\
               logger (w_db w') = logger (w_db (split_world fault2)) ++ [("fsm: %v", e)]
    end.
Proof. apply (restoreInPlace_outcome snap_backup (split_world fault2)). reflexivity. Defined.

Definition persisted : World * result error (sink backup * option error) :=
  Persist (mkSink None SinkOpen) (Sim.world Sim.leader snap []).
Definition sink1 : sink backup := mkSink (Some snap_backup) SinkClosed.

Lemma Persist_Restore_roundtrip_witness :
  exists w' h, store (w_db w') = Some h /\ contents (h_db h) ≈[Sim.t0] (snap : kv).
Proof.
  destruct (Persist_Restore_roundtrip (mkSink None SinkOpen) (Sim.world Sim.leader snap []) (fst persisted) sink1
              (mkHandle Sim.opts (Sim.mem snap)) snap_backup (world2 []) (fst (Restore snap_backup (world2 []))))
    as (h & Hs & Hc).
  - unfold persisted. rewrite (surjective_pairing (Persist _ _)) at 1. f_equal.
  - reflexivity.
  - reflexivity.
  - reflexivity.
  - intros _. split; [apply world2_layout | apply world2_ready].
  - done.
  - apply world2_restore. vm_compute. reflexivity.
  - eexists _, h. split; [exact Hs | exact Hc].
Defined.

Lemma Persist_complete_witness :
  exists w' s' e, Persist (mkSink None SinkOpen) (world2 [Some Sim.boom]) = (w', Ok (s', e)) /\
    w_db w' = w_db (world2 [Some Sim.boom]).
Proof.
  destruct (Persist_complete (mkSink None SinkOpen) (world2 [Some Sim.boom])) as (w' & s' & e & E & Hd & _).
  - reflexivity.
  - by exists w', s', e.
Defined.

(** The live directory and a staged snapshot. *)
Definition image_of (m : kv) : image := m.
Definition files2 : gmap (list string) image :=
  {[ comps "/data/n1/badger" := image_of Sim.kv1; comps "/data/n1/badger.restore-tmp" := image_of snap ]}.

Lemma swap_double_fault_witness :
  exists w' e h',
    restoreSwap (comps "/data/n1/badger") (comps "/data/n1/badger.restore-tmp") (comps "/data/n1/badger.restore-old")
      (mkWorld (Sim.db Sim.leader Sim.kv1)
         files2 [None; None; None; Some Sim.boom; Some Sim.boom] Sim.t0 []) = (w', Err e) /\
    store (w_db w') = Some h' /\ contents (h_db h') = ∅.
Proof.
  apply (swap_double_fault (comps "/data/n1/badger") (comps "/data/n1/badger.restore-tmp")
           (comps "/data/n1/badger.restore-old") (Sim.db Sim.leader Sim.kv1) handle1
         files2 [] Sim.t0 [] Sim.boom Sim.boom); try reflexivity; try apply (snoc_apart ["/"; "data"; "n1"]); try done;
    vm_compute; eauto.
Defined.

(** A node whose options name the directory with a trailing slash. *)
Definition slash_opts : badger_Options := mkOptions "/data/n1/badger/" "/data/n1/badger/" false.
Definition slash_world : World :=
  mkWorld (mkDB Sim.config Sim.leader [] (Some (mkHandle slash_opts (Sim.mem Sim.kv1))) slash_opts
             "/data/n1/badger/" false false None 4)
    {[ comps "/data/n1/badger/" := image_of Sim.kv1 ]} [] Sim.t0 [].

Lemma Restore_trailing_slash_witness :
  exists w' e, Restore snap_backup slash_world = (w', Err e).
Proof. by apply (Restore_trailing_slash snap_backup slash_world "/data/n1/badger"). Defined.

End Witnesses.
