(* ===== verification/Crash.v ===== *)
(** * Crash: a staged [Restore] cut short

    The source says that the swap is not crash-atomic and can leave either
    generation on disk.  Here a crash is a call that fails, perhaps after part
    of its work, and after which no call has any effect: what the file system
    holds at the end is then what it held at the crash. *)
From S2P Require Import Prelude Errors Types Options Command Codec Badger Files Raft Node Fsm Wp Sim FsmRestore RestoreProps.

Section Crash.
Context `{B : BadgerOps} `{R : RaftOps backup} `{C : Codec} `{L : !BadgerLaws}.

(** A call that does nothing. *)
Definition dead (f : option fault) : Prop := exists g, f = Some g /\ f_residue g = None.

(** Among the next [n] calls, those after a failure do nothing. *)
Definition cut (n : nat) (fl : list (option fault)) : Prop :=
  forall i j, i < j -> j < n -> is_Some (next_fault (drop i fl)) -> dead (next_fault (drop j fl)).

(** The most calls a staged restore makes. *)
Definition restore_calls : nat := 13.

(** The generation of the data found whole in the directories [fs'] after a
    restore of [rc] over the instance [h] from the directories of [w] was cut
    short. *)
Inductive generation (rc : backup) (h : handle) (w : World) (fs' : gmap (list string) image) : Prop :=
| old_in_use :
    fs' !! comps (badgerDir (w_db w)) = w_fs w !! comps (badgerDir (w_db w)) ->
    generation rc h w fs'
| old_closing f i d0 dn :     (** cut while Badger was closing the old instance: the new data is complete *)
    next_fault (drop 6 (w_faults w)) = Some f -> f_residue f = Some i ->
    fs' !! comps (badgerDir (w_db w)) = Some i ->
    contents d0 = ∅ -> db_Load d0 rc snapshotLoadMaxPendingWrites = Ok dn ->
    fs' !! comps (stagingDir (w_db w)) = Some (db_files dn) -> generation rc h w fs'
| old_closed :
    fs' !! comps (badgerDir (w_db w)) = Some (db_files (h_db h)) -> generation rc h w fs'
| between_moves d0 dn :     (** no live directory: both generations are next to it *)
    contents d0 = ∅ -> db_Load d0 rc snapshotLoadMaxPendingWrites = Ok dn ->
    fs' !! comps (badgerDir (w_db w)) = None ->
    fs' !! comps (backupDir (w_db w)) = Some (db_files (h_db h)) ->
    fs' !! comps (stagingDir (w_db w)) = Some (db_files dn) -> generation rc h w fs'
| new_in_place d0 dn :
    contents d0 = ∅ -> db_Load d0 rc snapshotLoadMaxPendingWrites = Ok dn ->
    fs' !! comps (badgerDir (w_db w)) = Some (db_files dn) -> generation rc h w fs'.

(** ** Calls that do nothing *)

Lemma cut_drop n k fl : cut (k + n) fl -> cut n (drop k fl).
Proof. intros H i j Hij Hj. rewrite !drop_drop. apply H; lia. Qed.

Lemma wp_RemoveAll_dead p (Q : result error unit -> World -> Prop) db fs fl clk tk :
  dead (next_fault fl) -> (forall e, Q (Err e) (mkWorld db fs (tail fl) clk tk)) ->
  wp (os_RemoveAll p) Q (mkWorld db fs fl clk tk).
Proof. intros (g & Hg & Hr) H. apply wp_os_call. rewrite Hg. simpl. unfold residue. rewrite Hr. apply H. Qed.

Lemma wp_Close_dead h (Q : result error unit -> World -> Prop) db fs fl clk tk :
  dead (next_fault fl) -> (forall e, Q (Err e) (mkWorld db fs (tail fl) clk tk)) ->
  wp (badger_Close h) Q (mkWorld db fs fl clk tk).
Proof.
  intros (g & Hg & Hr) H. unfold badger_Close. apply wp_bind, wp_pop_fault. rewrite Hg.
  apply wp_bind, wp_mod, wp_err. unfold residue, set_fs; simpl. rewrite Hr. apply H.
Qed.

Lemma wp_Rename_dead old new (Q : result error unit -> World -> Prop) db fs fl clk tk :
  dead (next_fault fl) -> (forall e, Q (Err e) (mkWorld db fs (tail fl) clk tk)) ->
  wp (os_Rename old new) Q (mkWorld db fs fl clk tk).
Proof. intros (g & Hg & _) H. apply wp_os_call. rewrite Hg. apply H. Qed.

Lemma reopenLocked_dead (Q : result error unit -> World -> Prop) db fs fl clk tk :
  dead (next_fault fl) -> (forall r w', w_fs w' = fs -> Q r w') ->
  wp reopenLocked Q (mkWorld db fs fl clk tk).
Proof.
  intros (g & Hg & _) H. unfold reopenLocked, badger_Open.
  apply wp_bind, wp_get, wp_bind, wp_try, wp_bind, wp_pop_fault. rewrite Hg.
  by apply wp_err, wp_bind, wp_mod, wp_mod, H.
Qed.

Lemma rollback_dead backup live (Q : result error unit -> World -> Prop) db fs fl clk tk :
  dead (next_fault fl) -> dead (next_fault (tail fl)) -> (forall r w', w_fs w' = fs -> Q r w') ->
  wp (rollbackAndReopenLocked backup live) Q (mkWorld db fs fl clk tk).
Proof.
  intros H1 H2 H. unfold rollbackAndReopenLocked. apply wp_bind, wp_try, wp_Rename_dead; [done |].
  intros e. by apply wp_bind, wp_mod, reopenLocked_dead.
Qed.

(** A step of the swap that fails, with a cleanup that does nothing. *)
Lemma step_dead {A} (m : ST World error A) (cleanup : ST World error unit) (step : string) (k : A -> ST World error unit)
    (P : gmap (list string) image -> Prop) (w : World) :
  wp m (fun r w' => exists e, r = Err e /\ wp cleanup (fun _ w'' => P (w_fs w'')) w') w ->
  wp (let! a := or_restoreErr m cleanup step in k a) (fun _ w' => P (w_fs w')) w.
Proof.
  intros H. apply wp_bind, wp_or_restoreErr. eapply wp_mono; [exact H |]. intros r w' (e & -> & Hc).
  eapply wp_mono; [exact Hc |]. by intros [[] | e'] w''.
Qed.

(** Once nothing works, the swap leaves the directories alone. *)
Lemma aside_dead (live backup : path) (k : unit -> ST World error unit) (P : gmap (list string) image -> Prop) db fs fl clk tk :
  dead (next_fault fl) -> dead (next_fault (tail fl)) -> P fs ->
  wp (let! a := or_restoreErr (os_Rename live backup) reopenLocked "move live dir aside" in k a)
    (fun _ w' => P (w_fs w')) (mkWorld db fs fl clk tk).
Proof.
  intros H1 H2 HP. apply step_dead, wp_Rename_dead; [done |]. intros e. exists e. split; [done |].
  apply reopenLocked_dead; [done |]. by intros r w' ->.
Qed.

(** ** The swap, cut short *)

Section Swap.
Variables (live staging backup : path) (db : DB) (h : handle) (dn : bdb) (fs : gmap (list string) image)
  (fl : list (option fault)) (P : gmap (list string) image -> Prop).
Hypotheses (Hdir : comps (Dir (badgerOpts db)) = live) (Hvdir : comps (ValueDir (badgerOpts db)) = live)
  (Hls : apart live staging) (Hlb : apart live backup) (Hsb : apart staging backup)
  (Hst : fs !! staging = Some (db_files dn)) (Hcut : cut 8 fl).
Hypotheses
  (Pold : forall fs' : gmap (list string) image, fs' !! live = Some (db_files (h_db h)) -> P fs')
  (Pmid : forall fs' : gmap (list string) image, fs' !! live = None -> fs' !! backup = Some (db_files (h_db h)) ->
     fs' !! staging = Some (db_files dn) -> P fs')
  (Pnew : forall fs' : gmap (list string) image, fs' !! live = Some (db_files dn) -> P fs').

(** From the first rename on, the old instance being closed. *)
Lemma moves_cut db2 fs2 clk tk :
  badgerOpts db2 = badgerOpts db -> fs2 !! live = Some (db_files (h_db h)) -> fs2 !! backup = None ->
  fs2 !! staging = Some (db_files dn) ->
  wp (do! or_restoreErr (os_Rename live backup) reopenLocked "move live dir aside";
      do! or_restoreErr (os_Rename staging live) (rollbackAndReopenLocked backup live)
            "move staging dir into place";
      let! store := or_restoreErr (badger_Open (badgerOpts db))
                      (do! ignore (os_RemoveAll live); rollbackAndReopenLocked backup live)
                      "open restored badger" in
      do! ignore (os_RemoveAll backup);
      do! st_mod (set_store (Some store));
      st_mod (set_appliedIndex 0)) (fun _ w' => P (w_fs w')) (mkWorld db2 fs2 (drop 2 fl) clk tk).
Proof.
  intros Ho2 Hl2 Hb2 Hs2. destruct (next_fault (drop 2 fl)) as [f |] eqn:Hf2.
  { apply step_dead, wp_os_call. rewrite Hf2. eexists. split; [done |]. rewrite tail_drop.
    apply reopenLocked_dead; [apply (Hcut 2 3); eauto; lia |]. intros r w' ->. by apply Pold. }
  apply wp_bind, wp_or_restoreErr, wp_Rename; [done | | intros e0 [[? ?] | [? | [? ?]]]; congruence].
  intros i3 fs3 _ Hi3 _ Hb3 Hl3 F3. rewrite tail_drop.
  assert (fs3 !! staging = Some (db_files dn)) as Hs3.
  { rewrite F3; [done | done | by apply apart_sym]. }
  destruct (next_fault (drop 3 fl)) as [f |] eqn:Hf3.
  { apply step_dead, wp_os_call. rewrite Hf3. eexists. split; [done |]. rewrite tail_drop.
    apply rollback_dead; rewrite ?tail_drop; [apply (Hcut 3 4); eauto; lia | apply (Hcut 3 5); eauto; lia |].
    intros r w' ->. apply Pmid; [done | simpl; congruence | done]. }
  apply wp_bind, wp_or_restoreErr, wp_Rename;
    [by apply apart_sym | | intros e0 [[? ?] | [? | [? ?]]]; congruence].
  intros i4 fs4 _ Hi4 _ Hl4 _ _. rewrite tail_drop.
  assert (fs4 !! live = Some (db_files dn)) as Hn4 by congruence.
  apply wp_bind, wp_or_restoreErr, (wp_Open (badgerOpts db)); [congruence | |].
  - intros _ fs5 i -> Hi5 _. rewrite Hdir in *. rewrite Hn4 in *. simpl in *.
    destruct (open_files dn) as (d & -> & _). simpl.
    apply wp_bind, wp_ignore, wp_RemoveAll. intros fs6 r6 F6 _ _.
    apply wp_bind, wp_mod, wp_mod, Pnew. simpl. rewrite F6; [done | by apply apart_sym].
  - intros f Hf4. rewrite tail_drop.
    apply wp_bind, wp_ignore, wp_RemoveAll_dead; [apply (Hcut 4 5); eauto; lia |].
    intros e5. rewrite tail_drop.
    apply rollback_dead; rewrite ?tail_drop; [apply (Hcut 4 6); eauto; lia | apply (Hcut 4 7); eauto; lia |].
    intros [[] | e'] w' Hw; simpl; rewrite Hw; by apply Pnew.
Qed.

Lemma restoreSwap_cut clk tk :
  store db = Some h -> h_opts h = badgerOpts db -> is_Some (fs !! live) ->
  (forall fs' : gmap (list string) image, fs' !! live = fs !! live -> P fs') ->
  (forall (fs' : gmap (list string) image) f i, next_fault (drop 1 fl) = Some f -> f_residue f = Some i ->
     fs' !! live = Some i -> fs' !! staging = Some (db_files dn) -> P fs') ->
  wp (restoreSwap live staging backup) (fun _ w' => P (w_fs w')) (mkWorld db fs fl clk tk).
Proof.
  intros Hs Ho [il Hil] Pintact Pclosing. unfold restoreSwap. rewrite <- (drop_0 fl).
  apply wp_bind, wp_get, wp_bind, wp_ignore, wp_RemoveAll. intros fs1 r1 F1 N1 _. rewrite tail_drop.
  assert (fs1 !! staging = Some (db_files dn)) as Hst1 by (rewrite F1; [done | by apply apart_sym]).
  assert (fs1 !! live = fs !! live) as Hl1 by (apply F1; by apply apart_sym).
  apply wp_bind. unfold closeForSwap. apply wp_bind, wp_get. cbn [w_db]. rewrite Hs.
  destruct (next_fault (drop 0 fl)) as [f0 |] eqn:Hf0.
  { apply wp_bind, wp_try, wp_Close_dead; [apply (Hcut 0 1); eauto; lia |]. intros e1. rewrite tail_drop.
    apply wp_bind, wp_mod, wp_mod. unfold add_log, set_store, set_db.
    cbn [w_db w_fs w_faults w_clock w_ticks]. apply aside_dead; rewrite ?tail_drop;
      [apply (Hcut 0 2); eauto; lia | apply (Hcut 0 3); eauto; lia | by apply Pintact]. }
  destruct (N1 eq_refl) as [Hb1 _]. unfold badger_Close. apply wp_bind, wp_try, wp_bind, wp_pop_fault.
  rewrite tail_drop, Ho. unfold flush, colocated. rewrite Ho, Hdir, Hvdir, bool_decide_eq_true_2 by done.
  destruct (next_fault (drop 1 fl)) as [f1 |] eqn:Hf1.
  - apply wp_bind, wp_mod, wp_err, wp_bind, wp_mod, wp_mod. unfold set_fs, add_log, set_store, set_db.
    cbn [w_db w_fs w_faults w_clock w_ticks]. apply aside_dead; rewrite ?tail_drop;
      [apply (Hcut 1 2); eauto; lia | apply (Hcut 1 3); eauto; lia |].
    unfold residue. destruct (f_residue f1) as [i |] eqn:Hr; [| by apply Pintact].
    case_decide; [| by apply Pintact]. eapply Pclosing; [done | done | by rewrite lookup_insert_eq |].
    rewrite lookup_insert_ne; [done | by apply apart_ne].
  - apply wp_mod, wp_bind, wp_ret, wp_mod. unfold set_fs, set_store, set_db.
    cbn [w_db w_fs w_faults w_clock w_ticks]. apply moves_cut; [done | by rewrite lookup_insert_eq | |].
    + rewrite lookup_insert_ne; [done | by apply apart_ne].
    + rewrite lookup_insert_ne; [done | by apply apart_ne].
Qed.

End Swap.

Lemma Restore_cut_wp rc w h :
  staged_layout (w_db w) -> live_ready w -> store (w_db w) = Some h -> cut restore_calls (w_faults w) ->
  wp (Restore rc) (fun _ w' => generation rc h w (w_fs w')) w.
Proof.
  intros (Hd & Hv & Hls & Hlb & Hsb) Hr Hs Hcut. destruct (Hr h Hs) as [Ho [il Hil]].
  destruct w as [db fs fl clk tk]; simpl in *. unfold Restore. apply wp_bind, wp_get. cbn [w_db].
  rewrite Hv, (bool_decide_eq_true_2 (badgerDir db = badgerDir db)), andb_false_r by done.
  apply wp_bind, restoreStage_wp.
  - intros e w' (_ & _ & _ & F). apply old_in_use, F. by apply apart_sym.
  - intros fs' d0 dn Hd0 Hload Hst F.
    assert (fs' !! comps (badgerDir db) = fs !! comps (badgerDir db)) as Hl by (by apply F, apart_sym).
    apply (restoreSwap_cut _ _ _ db h dn); try congruence; try done.
    + apply (cut_drop 8 5), Hcut.
    + intros fs2 H. by apply old_closed.
    + intros fs2 H1 H2 H3. by eapply between_moves.
    + intros fs2 H. by eapply new_in_place.
    + rewrite Hl. by eexists.
    + intros fs2 H. apply old_in_use. simpl. congruence.
    + intros fs2 f i Hf Hi Hl2 Hst2. rewrite drop_drop in Hf. by eapply old_closing.
Qed.

(** ** What the next process finds *)

(** The files [img] of a database that was in use, or that Badger was closing. *)
Definition in_use (w : World) (img : image) : Prop :=
  w_fs w !! comps (badgerDir (w_db w)) = Some img \/
  exists f, next_fault (drop 6 (w_faults w)) = Some f /\ f_residue f = Some img.

(** Badger recovers the data of [h] from such files, if they are what is left. *)
Definition recovers (h : handle) (w : World) (fs' : gmap (list string) image) : Prop :=
  forall img d, fs' !! comps (badgerDir (w_db w)) = Some img -> in_use w img ->
    db_open img img = Ok d -> contents d = contents (h_db h).

(** The contents [m] of the database the next process opens. *)
Inductive reopened (rc : backup) (h : handle) (m : kv) : Prop :=
| reopened_old : m = contents (h_db h) -> reopened rc h m
| reopened_new d0 dn : contents d0 = ∅ -> db_Load d0 rc snapshotLoadMaxPendingWrites = Ok dn ->
    m = contents dn -> reopened rc h m
| reopened_empty : m = ∅ -> reopened rc h m.

Lemma generation_reopens rc h w w0 :
  staged_layout (w_db w) -> generation rc h w (w_fs w0) -> recovers h w (w_fs w0) ->
  is_Some (w_fs w !! comps (badgerDir (w_db w))) ->
  wp (badger_Open (badgerOpts (w_db w))) (fun r w1 => forall h', r = Ok h' ->
    h_opts h' = badgerOpts (w_db w) /\ is_Some (w_fs w1 !! comps (badgerDir (w_db w))) /\
    reopened rc h (contents (h_db h'))) w0.
Proof.
  intros (Hd & Hv & _) Hg Hrec Hlive. destruct w0 as [db0 fs0 fl0 clk0 tk0]. simpl in Hg, Hrec.
  apply wp_Open; [congruence | | by intros f _ h'].
  intros _ fs1 i Hi Hi1 _ h'. rewrite Hd in *.
  assert (forall d, db_open i i = Ok d -> reopened rc h (contents d)) as H.
  { intros d Hopen. destruct Hg as [Hl | f i' d0 dn Hf Hres Hl _ _ _ | Hl | d0 dn H0 Hload Hl _ _ | d0 dn H0 Hload Hl];
      rewrite Hl in Hi; simpl in Hi.
    - destruct Hlive as [il Hil]. rewrite Hil in Hi, Hl. simpl in Hi. subst i.
      eapply reopened_old, Hrec; [done | by left | done].
    - subst i. eapply reopened_old, Hrec; [done | right; eauto | done].
    - subst i. destruct (open_files (h_db h)) as (d' & E & Hc). apply reopened_old. congruence.
    - subst i. destruct open_fresh as (d' & E & Hc). apply reopened_empty. congruence.
    - subst i. destruct (open_files dn) as (d' & E & Hc). eapply reopened_new; [done | done | congruence]. }
  destruct (db_open i i) as [d |] eqn:Hopen; intros [= <-]; simpl.
  split; [done |]. split; [by eexists | by apply H].
Qed.

(** A process that dies in a staged restore, and the next one. *)
Lemma crash_reopens rc h w w0 w1 h' :
  staged_layout (w_db w) -> live_ready w -> store (w_db w) = Some h -> cut restore_calls (w_faults w) ->
  w_fs w0 = w_fs (fst (Restore rc w)) -> recovers h w (w_fs w0) ->
  badger_Open (badgerOpts (w_db w)) w0 = (w1, Ok h') ->
  h_opts h' = badgerOpts (w_db w) /\ is_Some (w_fs w1 !! comps (badgerDir (w_db w))) /\
  reopened rc h (contents (h_db h')).
Proof.
  intros Hl Hr Hs Hcut Hfs Hrec HO. destruct (Hr h Hs) as [_ Hlive].
  assert (generation rc h w (w_fs w0)) as Hg by (rewrite Hfs; exact (Restore_cut_wp rc w h Hl Hr Hs Hcut)).
  exact (wp_elim _ _ _ _ _ (generation_reopens rc h w w0 Hl Hg Hrec Hlive) HO h' eq_refl).
Qed.

(** C11. However a staged restore of a node that is serving a store is cut
    short, a generation of the data is on disk whole: the live directory is the
    one that was in use, or holds the old data or the new; or Badger was
    interrupted at closing the old instance, and the staging directory holds the
    new data; or there is no live directory, and the old and the new data are
    both whole in the backup and the staging directory. *)
Theorem Restore_cut_short rc w h :
  staged_layout (w_db w) -> live_ready w -> store (w_db w) = Some h -> cut restore_calls (w_faults w) ->
  generation rc h w (w_fs (fst (Restore rc w))).
Proof. intros. by apply Restore_cut_wp. Qed.

End Crash.

(** ** Witness *)
Section Witnesses.
Import SimInstances.

Lemma cut_at `{B : BadgerOps} k n f : f_residue f = None -> cut n (replicate k None ++ replicate n (Some f)).
Proof.
  intros Hf i j Hij Hj. rewrite !next_fault_drop_app. repeat case_decide; try (by intros []); try lia.
  intros _. exists f. split; [| done]. rewrite drop_replicate. by destruct (n - (j - k)) eqn:E; [lia |].
Qed.

(** A crash between the two renames: there is no live directory. *)
Definition crash8 : World := world2 (replicate 8 None ++ replicate 13 (Some Sim.boom)).

Lemma Restore_cut_short_witness :
  generation snap_backup handle1 crash8 (w_fs (fst (Restore snap_backup crash8))) /\
  w_fs (fst (Restore snap_backup crash8)) !! comps "/data/n1/badger" = None.
Proof.
  split; [| vm_compute; reflexivity].
  apply (Restore_cut_short snap_backup crash8 handle1).
  - apply world2_layout.
  - apply world2_ready.
  - reflexivity.
  - apply (cut_at 8 13). reflexivity.
Defined.

End Witnesses.
