(* ===== verification/Linear.v ===== *)
(** * Linear: what the store is, in terms of the replicated log

    The abstract specification of a running node: its store is the replay of
    the committed log up to the applied index over a base state, less the
    entries whose [Apply] answered an error.  A successful wait on Raft moves
    the node along the log and keeps this true. *)
From S2P Require Import Prelude Errors Types Options Command Codec Badger Files Raft Node Fsm Wp Sim FsmApply.

Section Linear.
Context `{B : BadgerOps} `{R : RaftOps backup} `{C : Codec} `{L : !BadgerLaws} `{RL : !RaftLaws backup}.

(** Replaying entries with the response each of them got. *)
Definition replay_entry (m : kv) (e : rlog * option error) : kv :=
  match snd e, decodeCommand (Data (fst e)) with
  | None, Ok c => cmd_apply m c
  | _, _ => m
  end.

Definition replay (ls : list rlog) (rs : list (option error)) (m : kv) : kv :=
  fold_left replay_entry (zip ls rs) m.

(** The node's store is the replay, from [base] and entry [n] on, of the
    entries it was given, with responses [rs]. *)
Definition tracks (base : kv) (n : nat) (rs : list (option error)) (w : World) : Prop :=
  exists h, store (w_db w) = Some h /\
    n + length rs = applied (raft (w_db w)) /\
    contents (h_db h) = replay (take (length rs) (drop n (committed (raft (w_db w))))) rs base.

(** ** What an [Apply] leaves alone *)

(** The parts of the world the state machine does not touch. *)
Definition same_frame (w w' : World) : Prop :=
  cfg (w_db w') = cfg (w_db w) /\ raft (w_db w') = raft (w_db w) /\
  closed (w_db w') = closed (w_db w) /\ closeOnce (w_db w') = closeOnce (w_db w) /\
  w_fs w' = w_fs w /\ w_clock w' = w_clock w /\ w_ticks w' = w_ticks w.

#[export] Instance same_frame_preorder : PreOrder same_frame.
Proof.
  split; [by intros w |].
  intros w1 w2 w3 (? & ? & ? & ? & ? & ? & ?) (? & ? & ? & ? & ? & ? & ?). repeat split; congruence.
Qed.

Lemma Apply_step l w :
  exists w' r, Apply l w = (w', Ok r) /\ same_frame w w' /\
    forall h, store (w_db w) = Some h ->
      exists h', store (w_db w') = Some h' /\ contents (h_db h') = replay_entry (contents (h_db h)) (l, r).
Proof.
  destruct (Apply_answers l w) as (w' & r & E). exists w', r. split; [done |].
  apply Apply_inv in E as [(cmd & h & d & [= ->] & Hd & Hc & Hs & Hcont & fl & ->) | (e & fl & [= ->] & H)].
  - split; [done |]. intros h0. rewrite Hs. intros [= <-]. exists (mkHandle (h_opts h) d).
    split; [done |]. unfold replay_entry; simpl. by rewrite Hd.
  - split; [by destruct H as [[-> _] | ->] |]. intros h Hs. exists h.
    by destruct H as [[-> _] | ->].
Qed.

Lemma replay_cons l ls r rs m : replay (l :: ls) (r :: rs) m = replay ls rs (replay_entry m (l, r)).
Proof. done. Qed.

(** The state machine handles every delivered entry, in order. *)
Lemma fsm_calls_run ls w :
  exists w' rs, fsm_calls (CallApply <$> ls) w = (w', Ok rs) /\ same_frame w w' /\
    length rs = length ls /\
    forall h, store (w_db w) = Some h ->
      exists h', store (w_db w') = Some h' /\ contents (h_db h') = replay ls rs (contents (h_db h)).
Proof.
  revert w. induction ls as [| l ls IH]; intros w.
  - exists w, []. repeat split; eauto.
  - destruct (Apply_step l w) as (w1 & r & E1 & F1 & S1). destruct (IH w1) as (w2 & rs & E2 & F2 & Hl & S2).
    exists w2, (r :: rs). split; [| split; [by etrans | split; [simpl; by rewrite Hl |]]].
    + simpl. erewrite st_bind_run by exact E1. erewrite st_bind_run by exact E2. done.
    + intros h Hs. destruct (S1 h Hs) as (h1 & Hs1 & Hc1). destruct (S2 h1 Hs1) as (h2 & Hs2 & Hc2).
      exists h2. split; [done |]. rewrite replay_cons. by rewrite Hc2, Hc1.
Qed.

(** Whatever Raft asks of the state machine, the wait ends. *)
Lemma fsm_calls_total cs w : exists w' rs, fsm_calls cs w = (w', Ok rs).
Proof.
  revert w. induction cs as [| [l | rc] cs IH]; intros w; [by exists w, [] | |].
  - destruct (Apply_answers l w) as (w1 & r & E). destruct (IH w1) as (w2 & rs & E2).
    exists w2, (r :: rs). simpl. erewrite st_bind_run by exact E. by erewrite st_bind_run by exact E2.
  - simpl. unfold st_bind at 1, st_try. destruct (Restore rc w) as [w1 r].
    destruct (IH w1) as (w2 & rs & E2). exists w2, (error_of r :: rs). by erewrite st_bind_run by exact E2.
Qed.

Lemma raft_await_total f w :
  exists w' resp, raft_await f w = (w', Ok (fut_error (snd (f (raft (w_db w)))), resp)).
Proof.
  destruct (f (raft (w_db w))) as [r fut] eqn:Hf.
  destruct (fsm_calls_total (fut_calls fut) (set_raft r w)) as (w' & rs & E).
  eexists w', _. unfold raft_await, raft_call, st_bind at 1. rewrite Hf. cbn [fst snd].
  by erewrite st_bind_run by exact E.
Qed.

Lemma replay_app ls1 ls2 rs1 rs2 m :
  length ls1 = length rs1 -> replay (ls1 ++ ls2) (rs1 ++ rs2) m = replay ls2 rs2 (replay ls1 rs1 m).
Proof. intros H. unfold replay. rewrite zip_with_app by done. apply fold_left_app. Qed.

(** When no entry was refused, the replay is the run of the commands. *)
Lemma replay_run ls rs cs m :
  Forall2 (fun l c => decodeCommand (Data l) = Ok c) ls cs ->
  length rs = length ls -> Forall (fun r => r = None) rs -> replay ls rs m = run cs m.
Proof.
  intros H. revert rs m. induction H as [| l c ls cs Hd _ IH]; intros [| r rs] m Hl Hr; try done.
  inversion Hr; subst. rewrite replay_cons. unfold replay_entry at 1; simpl. rewrite Hd.
  apply IH; [by injection Hl | done].
Qed.

(** A longer committed log does not change what was replayed. *)
Lemma take_drop_prefix {A} (l1 l2 : list A) n k :
  l1 `prefix_of` l2 -> n + k <= length l1 -> take k (drop n l2) = take k (drop n l1).
Proof.
  intros [l ->] H. rewrite drop_app_le by lia. rewrite take_app_le; [done | rewrite length_drop; lia].
Qed.

Lemma tracks_raft base n rs w r :
  committed (raft (w_db w)) `prefix_of` committed r -> applied r = applied (raft (w_db w)) ->
  tracks base n rs w -> tracks base n rs (set_raft r w).
Proof.
  intros Hp Ha (h & Hs & Hn & Hc). exists h. pose proof (applied_committed (raft (w_db w))). cbn [set_raft set_db w_db store raft].
  pose proof (prefix_length _ _ Hp). rewrite Ha. repeat split; [done | done |].
  rewrite Hc. f_equal. symmetry. apply take_drop_prefix; [done | lia].
Qed.

Lemma tracks_State base n rs w w' s :
  raft_call raft_State w = (w', Ok s) -> tracks base n rs w ->
  tracks base n rs w' /\ committed (raft (w_db w)) `prefix_of` committed (raft (w_db w')).
Proof.
  unfold raft_call. intros [= <- <-] H. destruct (State_committed (raft (w_db w))) as [Hp Ha].
  split; [by apply tracks_raft | done].
Qed.

Lemma delivery_app {A} (cs : list A) i j k :
  i <= j -> j <= k ->
  take (k - i) (drop i cs) = take (j - i) (drop i cs) ++ take (k - j) (drop j cs).
Proof.
  intros. replace (k - i) with ((j - i) + (k - j)) by lia.
  rewrite <- take_take_drop, drop_drop. do 3 f_equal. lia.
Qed.

(** The state machine was handed the entries of the committed log of [r] that
    follow the first [n + length rs], answered [rs'] to them, and this took the
    node from [w] to [w']. *)
Definition delivered (n : nat) (rs rs' : list (option error)) (r : raftw) (w w' : World) : Prop :=
  fsm_calls (CallApply <$> take (length rs') (drop (n + length rs) (committed r))) (set_raft r w) = (w', Ok rs').

(** Waiting on Raft: if the future's calls are the delivery of the committed
    log up to its applied index, the node still tracks the log afterwards. *)
Lemma raft_await_tracks f w base n rs w' fut :
  f (raft (w_db w)) = (w', fut) ->
  committed (raft (w_db w)) `prefix_of` committed w' ->
  applied (raft (w_db w)) <= applied w' ->
  fut_calls fut = delivery (committed w') (applied (raft (w_db w))) (applied w') ->
  tracks base n rs w ->
  exists w2 rs', raft_await f w = (w2, Ok (fut_error fut, default None (rs' !! fut_response fut))) /\
    delivered n rs rs' w' w w2 /\
    tracks base n (rs ++ rs') w2 /\ raft (w_db w2) = w' /\ length rs' = applied w' - applied (raft (w_db w)) /\
    closed (w_db w2) = closed (w_db w) /\ cfg (w_db w2) = cfg (w_db w) /\ w_clock w2 = w_clock w.
Proof.
  intros Hf Hp Ha Hcalls (h & Hs & Hn & Hc). pose proof (applied_committed w') as Hle.
  pose proof (applied_committed (raft (w_db w))) as Hle0.
  destruct (fsm_calls_run (take (applied w' - applied (raft (w_db w))) (drop (applied (raft (w_db w))) (committed w')))
              (set_raft w' w)) as (w2 & rs' & E & (Fc & Fr & Fcl & _ & _ & Fk & _) & Hlen & Hst).
  destruct (Hst h Hs) as (h' & Hs' & Hc').
  rewrite length_take, length_drop, Nat.min_l in Hlen by lia.
  exists w2, rs'. split; [| split; [| split; [| by repeat split]]].
  - unfold raft_await, raft_call, st_bind at 1. rewrite Hf. cbn [fst snd]. rewrite Hcalls. unfold delivery.
    erewrite st_bind_run by exact E. done.
  - unfold delivered. by rewrite Hn, Hlen.
  - exists h'. rewrite Fr. cbn [set_raft set_db w_db raft]. rewrite length_app.
    split; [done |]. split; [lia |].
    rewrite Hc', Hc. rewrite <- (take_drop_prefix (committed (raft (w_db w))) (committed w')) by (done || lia).
    rewrite <- replay_app by (rewrite length_take, length_drop; pose proof (prefix_length _ _ Hp); lia).
    f_equal. replace (length rs + length rs') with (applied w' - n) by lia.
    replace (length rs) with (applied (raft (w_db w)) - n) by lia. symmetry. apply delivery_app; lia.
Qed.

End Linear.
