(* ===== verification/Write.v ===== *)
(** * Write: [write.go], and [apply] of [db.go]

    [Set], [Delete] and [Batch] validate their arguments, build one command,
    and submit it through Raft. *)
From S2P Require Import Prelude Errors Types Options Command Codec Badger Files Raft Node Fsm.

Section Write.
Context `{B : BadgerOps} {R : RaftOps backup} `{C : Codec}.

Abbreviation M := (ST World error).

(** The method [apply] of [DB]. *)
Definition apply (cmd : command) : M unit :=
  do! checkOpen;
  let! s := raft_call raft_State in
  if negb (bool_decide (s = raft_Leader)) then let! e := notLeaderErr in fail! e
  else
    let! data := st_lift (encodeCommand cmd) in
    let! w := st_get in
    let! future := raft_await (raft_Apply data (ApplyTimeout (Advanced (cfg (w_db w))))) in
    match fst future with
    | Some err => raft_error err
    | None =>
        match snd future with
        | Some fsmErr => fail! fsmErr
        | None => ret! tt
        end
    end.

(** [resolveSetOptions] ([options.go]), which reads the clock only to stamp a
    valid TTL. *)
Definition resolveSetOptions (opts : list SetOption) : M Z :=
  let! o := st_lift (lastTTL None opts) in
  match o with
  | None => ret! 0%Z
  | Some ttl =>
      if (ttl <=? 0)%Z then
        fail! (invalid "%w: option WithTTL requires a positive TTL, got %s" [ArgDur ttl])
      else let! now := time_Now in ret! (absExpiry now ttl)
  end.

Definition empty_key : error := invalid "%w: key must not be empty" [].

Definition SetBytes (key value : string) (opts : list SetOption) : M unit :=
  if is_empty key then fail! empty_key
  else
    let! expiresAt := resolveSetOptions opts in
    apply (mkCommand [mkPair key value expiresAt] []).

(** The method [Set] of [DB]: a string is its bytes. *)
Definition DB_Set (key value : string) (opts : list SetOption) : M unit := SetBytes key value opts.

Definition DeleteBytes (key : string) : M unit :=
  if is_empty key then fail! empty_key else apply (mkCommand [] [key]).

(** The method [Delete] of [DB]. *)
Definition DB_Delete (key : string) : M unit := DeleteBytes key.

(** The loop of [Batch]: [i] counts the mutations, [seen] is [seenKeys]. *)
Fixpoint batch_loop (i : Z) (ms : list Mutation) (seen : gset string)
    (setPairs : list commandPair) (deleteKeys : list string) : M command :=
  match ms with
  | [] => ret! (mkCommand setPairs deleteKeys)
  | m :: ms =>
      if is_empty (m_key m) then
        fail! (invalid "%w: batch mutation %d: key must not be empty" [ArgInt i])
      else if bool_decide (m_key m ∈ seen) then
        fail! (invalid "%w: batch mutation %d: duplicate key %q" [ArgInt i; ArgStr (m_key m)])
      else
        let seen := {[ m_key m ]} ∪ seen in
        if (m_kind m =? mutSet)%Z then
          let! r := st_try (resolveSetOptions (m_opts m)) in
          match r with
          | Err err => fail! (Errorf "batch mutation %d: %w" [ArgInt i] err)
          | Ok expiresAt =>
              batch_loop (i + 1) ms seen
                (setPairs ++ [mkPair (m_key m) (m_value m) expiresAt]) deleteKeys
          end
        else if (m_kind m =? mutDelete)%Z then
          batch_loop (i + 1) ms seen setPairs (deleteKeys ++ [m_key m])
        else fail! (invalid
               "%w: batch mutation %d: not created by SetOp/SetBytesOp/DeleteOp/DeleteBytesOp" [ArgInt i])
  end.

Definition Batch (mutations : list Mutation) : M unit :=
  do! checkOpen;
  match mutations with
  | [] => ret! tt
  | _ => let! cmd := batch_loop 0 mutations ∅ [] [] in apply cmd
  end.

End Write.
