(* ===== verification/WriteProps.v ===== *)
(** * WriteProps: what a write is, when it is refused, what its [nil] means *)
From S2P Require Import Prelude Errors Types Options Command Codec Badger Files Raft Node Fsm Wp Sim FsmApply Linear Write.

(** ** Argument validation *)

(** The options of a set are valid: known, and the last TTL positive. *)
Definition opts_valid (opts : list SetOption) : Prop :=
  Forall known_option opts /\ match last (ttls opts) with Some d => (0 < d)%Z | None => True end.

#[export] Instance opts_valid_dec opts : Decision (opts_valid opts).
Proof. unfold opts_valid. destruct (last (ttls opts)); apply _. Defined.

Definition mutation_valid (m : Mutation) : Prop :=
  m_key m <> EmptyString /\
  (m_kind m = mutSet /\ opts_valid (m_opts m) \/ m_kind m = mutDelete).

#[export] Instance mutation_valid_dec m : Decision (mutation_valid m).
Proof. unfold mutation_valid. apply _. Defined.

Definition batch_valid (ms : list Mutation) : Prop :=
  Forall mutation_valid ms /\ NoDup (m_key <$> ms).

#[export] Instance batch_valid_dec ms : Decision (batch_valid ms).
Proof. unfold batch_valid. apply _. Defined.

(** The expiry a valid set gets at time [now]. *)
Definition stamp (now : Z) (opts : list SetOption) : Z :=
  match last (ttls opts) with Some d => absExpiry now d | None => 0%Z end.

(** What a mutation does on its own, when its TTL is stamped at [now]. *)
Definition mutation_write (now : Z) (m : Mutation) : string * option bentry :=
  (m_key m, if (m_kind m =? mutSet)%Z
            then Some (pair_entry (mkPair (m_key m) (m_value m) (stamp now (m_opts m)))) else None).

Section Writes.
Context `{B : BadgerOps} `{R : RaftOps backup} `{C : Codec} `{L : !BadgerLaws}.

(** Time passed, and nothing else happened. *)
Definition later (w w' : World) : Prop :=
  w_db w' = w_db w /\ w_fs w' = w_fs w /\ w_faults w' = w_faults w /\ (w_clock w <= w_clock w')%Z.

#[export] Instance later_preorder : PreOrder later.
Proof.
  split; [by intros w |].
  intros w1 w2 w3 (? & ? & ? & ?) (? & ? & ? & ?). repeat split; (congruence || lia).
Qed.

Lemma time_Now_later (w : World) :
  exists w', time_Now w = (w', Ok (w_clock w)) /\ later w w'.
Proof.
  eexists. split; [done |]. repeat split; simpl. pose proof (tick_nonneg w). lia.
Qed.

Lemma resolveSetOptions_valid opts (w : World) :
  opts_valid opts ->
  exists w', resolveSetOptions opts w = (w', Ok (stamp (w_clock w) opts)) /\ later w w'.
Proof.
  intros [Hk Hl]. unfold resolveSetOptions, stamp, st_bind at 1, st_lift.
  rewrite (lastTTL_known None opts Hk). destruct (last (ttls opts)) as [d |].
  - case_Z; [lia |]. destruct (time_Now_later w) as (w' & E & Hw). exists w'.
    split; [by erewrite st_bind_run by exact E | done].
  - by exists w.
Qed.

Lemma resolveSetOptions_invalid opts (w : World) :
  ~ opts_valid opts ->
  exists e, resolveSetOptions opts w = (w, Err e) /\ Is e ErrInvalidArgument = true.
Proof.
  intros H. unfold resolveSetOptions, st_bind at 1, st_lift.
  destruct (decide (Forall known_option opts)) as [Hk | Hk].
  - rewrite (lastTTL_known None opts Hk). destruct (last (ttls opts)) as [d |] eqn:E.
    + case_Z; [eauto with hb |]. destruct H. split; [done |]. by rewrite E.
    + destruct H. split; [done |]. by rewrite E.
  - destruct (lastTTL_unknown None _ Hk) as (e & -> & ?). eauto.
Qed.

Lemma stamp_range now opts : (0 <= stamp now opts < 2 ^ 64)%Z.
Proof. unfold stamp. destruct (last _); [apply absExpiry_range | lia]. Qed.

(** The function and its clockless reference agree. *)
Lemma resolveSetOptions_at_spec opts (w : World) :
  snd (resolveSetOptions opts w) = resolveSetOptions_at (w_clock w) opts.
Proof.
  unfold resolveSetOptions, resolveSetOptions_at. st_unfold.
  destruct (lastTTL None opts) as [[d |] | e]; simpl; try done. by case_Z.
Qed.

(** ** The loop of [Batch] *)

Lemma is_empty_spec s : is_empty s = true <-> s = EmptyString.
Proof. apply bool_decide_eq_true. Qed.

Lemma is_empty_false s : s <> EmptyString -> is_empty s = false.
Proof. intros. by apply bool_decide_eq_false. Qed.

(** A valid batch, none of whose keys was seen before, is collected. *)
Lemma batch_loop_valid ms : forall i seen ps ds (w : World),
  batch_valid ms -> (forall k, k ∈ m_key <$> ms -> k ∉ seen) ->
  exists w' ps' ds' ws,
    batch_loop i ms seen ps ds w = (w', Ok (mkCommand (ps ++ ps') (ds ++ ds'))) /\ later w w' /\
    Forall2 (fun m x => exists t, (w_clock w <= t <= w_clock w')%Z /\ x = mutation_write t m) ms ws /\
    cmd_writes (mkCommand ps' ds') ≡ₚ ws /\ Forall wf_pair ps'.
Proof.
  induction ms as [| m ms IH]; intros i seen ps ds w [Hv Hn] Hs.
  { exists w, [], [], []. rewrite !app_nil_r. by repeat constructor. }
  inversion Hv as [| ? ? [Hk Hm] Hv']; subst. inversion Hn as [| ? ? Hnk Hn']; subst.
  assert (forall k, k ∈ m_key <$> ms -> k ∉ {[ m_key m ]} ∪ seen) as Hs'.
  { intros k Hin. apply not_elem_of_union. split; [| by apply Hs, list_elem_of_further].
    intros ->%elem_of_singleton. done. }
  cbn [batch_loop]. rewrite (is_empty_false _ Hk), bool_decide_eq_false_2
    by (apply Hs, list_elem_of_here).
  destruct Hm as [[Hkind Ho] | Hkind].
  - rewrite Hkind. destruct (resolveSetOptions_valid _ w Ho) as (w1 & E & Hw1).
    set (p := mkPair (m_key m) (m_value m) (stamp (w_clock w) (m_opts m))).
    destruct (IH (i + 1)%Z ({[ m_key m ]} ∪ seen) (ps ++ [p]) ds w1 (conj Hv' Hn') Hs')
      as (w2 & ps' & ds' & ws & E2 & Hw2 & HF & Hp & Hwf).
    exists w2, (p :: ps'), ds', (mutation_write (w_clock w) m :: ws).
    split; [| split; [by etrans | split; [| split]]].
    + simpl. unfold st_bind at 1, st_try. rewrite E. fold p. by rewrite E2, <- app_assoc.
    + destruct Hw1 as (_ & _ & _ & ?), Hw2 as (_ & _ & _ & ?). constructor.
      * exists (w_clock w). split; [lia | done].
      * eapply Forall2_impl; [exact HF |]. intros m' x (t & Ht & Hx). exists t. split; [lia | done].
    + unfold mutation_write. rewrite Hkind. simpl. by constructor.
    + constructor; [apply stamp_range | done].
  - rewrite Hkind. destruct (IH (i + 1)%Z ({[ m_key m ]} ∪ seen) ps (ds ++ [m_key m]) w (conj Hv' Hn') Hs')
      as (w2 & ps' & ds' & ws & E2 & Hw2 & HF & Hp & Hwf).
    exists w2, ps', (m_key m :: ds'), (mutation_write (w_clock w) m :: ws).
    split; [| split; [done | split; [| split]]]; try done.
    + simpl. by rewrite E2, <- app_assoc.
    + constructor; [| done]. exists (w_clock w). split; [| done]. destruct Hw2 as (_ & _ & _ & ?). lia.
    + unfold mutation_write. rewrite Hkind. simpl. rewrite <- Hp. unfold cmd_writes. simpl.
      symmetry. apply Permutation_middle.
Qed.

(** An invalid batch, or one with a key seen before, is refused. *)
Lemma batch_loop_invalid ms : forall i seen ps ds (w : World),
  ~ (batch_valid ms /\ (forall k, k ∈ m_key <$> ms -> k ∉ seen)) ->
  exists w' e, batch_loop i ms seen ps ds w = (w', Err e) /\ Is e ErrInvalidArgument = true /\ later w w'.
Proof.
  induction ms as [| m ms IH]; intros i seen ps ds w H.
  { destruct H. split; [by repeat constructor |]. by intros k Hk%not_elem_of_nil. }
  cbn [batch_loop]. destruct (is_empty (m_key m)) eqn:Hk; [eexists _, _; by split |].
  case_bool_decide as Hseen; [eexists _, _; by split |].
  assert (m_key m <> EmptyString) as Hk'.
  { intros Hk'%is_empty_spec. congruence. }
  assert ((m_kind m = mutSet /\ opts_valid (m_opts m) \/ m_kind m = mutDelete) ->
    ~ (batch_valid ms /\ (forall k, k ∈ m_key <$> ms -> k ∉ {[ m_key m ]} ∪ seen))) as Hrest.
  { intros Hm [[Hv Hn] Hs]. destruct H. split; [split |].
    - by constructor.
    - constructor; [| done]. intros Hin. apply (Hs _ Hin). set_solver.
    - intros k [-> | Hin]%elem_of_cons; [done |]. specialize (Hs k Hin). set_solver. }
  case_Z; [| case_Z].
  - destruct (decide (opts_valid (m_opts m))) as [Ho | Ho].
    + destruct (resolveSetOptions_valid _ w Ho) as (w1 & E & Hw1). unfold st_bind, st_try. rewrite E.
      destruct (IH (i + 1)%Z ({[ m_key m ]} ∪ seen)
                  (ps ++ [mkPair (m_key m) (m_value m) (stamp (w_clock w) (m_opts m))]) ds w1)
        as (w2 & e2 & E2 & He & Hw2); [apply Hrest; by left |].
      exists w2, e2. split; [exact E2 |]. split; [done | by etrans].
    + destruct (resolveSetOptions_invalid _ w Ho) as (e1 & E & He). unfold st_bind, st_try. rewrite E.
      by eexists _, _.
  - apply IH, Hrest. by right.
  - eexists _, _. by split.
Qed.

(** The order of writes to distinct keys does not matter. *)
Lemma last_write_elem ws k o :
  NoDup (fst <$> ws) -> last_write k ws = Some o <-> (k, o) ∈ ws.
Proof.
  revert o. induction ws as [| [k' o'] ws IH]; intros o; simpl.
  - split; [done | by intros ?%not_elem_of_nil].
  - intros [Hk Hn]%NoDup_cons. specialize (fun o => IH o Hn) as IH'. rewrite elem_of_cons, <- IH'.
    destruct (last_write k ws) as [r |] eqn:E; [| case_decide; naive_solver].
    split; [naive_solver |]. intros [[= -> ->] | ?]; [| done]. destruct Hk.
    apply list_elem_of_fmap. exists (k', r). split; [done |]. by apply IH'.
Qed.

Lemma writes_apply_perm ws1 ws2 m :
  NoDup (fst <$> ws1) -> ws1 ≡ₚ ws2 -> writes_apply ws1 m = writes_apply ws2 m.
Proof.
  intros Hn Hp. assert (NoDup (fst <$> ws2)) as Hn2 by (by rewrite <- Hp).
  apply map_eq. intros k. rewrite !writes_apply_lookup.
  destruct (last_write k ws1) as [o |] eqn:E1.
  - apply last_write_elem in E1; [| done]. rewrite Hp in E1. apply last_write_elem in E1; [| done]. by rewrite E1.
  - destruct (last_write k ws2) as [o |] eqn:E2; [| done].
    apply last_write_elem in E2; [| done]. rewrite <- Hp in E2. apply last_write_elem in E2; [| done]. congruence.
Qed.

Lemma batch_keys (P : Z -> Prop) ms ws :
  Forall2 (fun m x => exists t, P t /\ x = mutation_write t m) ms ws -> fst <$> ws = m_key <$> ms.
Proof. induction 1 as [| m x ms ws (t & _ & ->) _ IH]; [done |]. simpl. by f_equal. Qed.

(** ** Properties *)

Lemma Batch_submits ms (w : World) :
  closed (w_db w) = false -> batch_valid ms -> ms <> [] ->
  exists w' cmd ws, Batch ms w = apply cmd w' /\ later w w' /\ wf_command cmd /\
    Forall2 (fun m x => exists t, (w_clock w <= t <= w_clock w')%Z /\ x = mutation_write t m) ms ws /\
    forall m0, cmd_apply m0 cmd = writes_apply ws m0.
Proof.
  intros Hc Hv Hne.
  destruct (batch_loop_valid ms 0 ∅ [] [] w Hv) as (w' & ps & ds & ws & E & Hw & HF & Hp & Hwf);
    [set_solver |].
  exists w', (mkCommand ps ds), ws. split; [| split; [done | split; [done | split; [done |]]]].
  - unfold Batch. rewrite checked_open by done. destruct ms as [| m ms]; [done |].
    by erewrite st_bind_run by exact E.
  - intros m0. rewrite cmd_apply_writes. apply writes_apply_perm; [| done].
    rewrite Hp. destruct Hv as [_ Hn]. by rewrite (batch_keys (fun t => (w_clock w <= t <= w_clock w')%Z) ms ws HF).
Qed.

(** C13. A valid batch on an open node is submitted as one command whose effect
    is that of its mutations one after the other, left to right, each TTL
    stamped between the call and the submission; nothing but time passes
    before.  The command groups the sets before the deletes, which changes
    nothing because the keys are distinct. *)
Theorem Batch_accepts ms (w : World) :
  closed (w_db w) = false -> batch_valid ms -> ms <> [] ->
  exists w' cmd ws, Batch ms w = apply cmd w' /\ later w w' /\ wf_command cmd /\
    Forall2 (fun m x => exists t, (w_clock w <= t <= w_clock w')%Z /\ x = mutation_write t m) ms ws /\
    forall m0, cmd_apply m0 cmd = writes_apply ws m0.
Proof. apply Batch_submits. Qed.

Lemma Batch_refused ms (w : World) :
  closed (w_db w) = false -> ~ batch_valid ms ->
  exists w' e, Batch ms w = (w', Err e) /\ Is e ErrInvalidArgument = true /\ later w w'.
Proof.
  intros Hc Hv. destruct (batch_loop_invalid ms 0 ∅ [] [] w) as (w' & e & E & He & Hw); [naive_solver |].
  exists w', e. split; [| done]. unfold Batch. rewrite checked_open by done. destruct ms as [| m ms].
  - destruct Hv. by repeat constructor.
  - by apply st_bind_run_err.
Qed.

(** C14. A batch with an empty or repeated key, an invalid TTL, an unknown option
    or a mutation no constructor built is refused with [ErrInvalidArgument]
    before anything is submitted: only time passes. *)
Theorem Batch_rejects ms (w : World) :
  closed (w_db w) = false -> ~ batch_valid ms ->
  exists w' e, Batch ms w = (w', Err e) /\ Is e ErrInvalidArgument = true /\ later w w'.
Proof. apply Batch_refused. Qed.

(** What a single-key write submits. *)
Definition submits (m : World -> World * result error unit) (w : World) (k : string) (o : Z -> option bentry) : Prop :=
  exists w' cmd, m w = apply cmd w' /\ later w w' /\ wf_command cmd /\
    forall m0, cmd_apply m0 cmd = write_apply m0 (k, o (w_clock w)).

Lemma SetBytes_submits key value opts (w : World) :
  key <> EmptyString -> opts_valid opts ->
  submits (SetBytes key value opts) w key (fun now => Some (pair_entry (mkPair key value (stamp now opts)))).
Proof.
  intros Hk Ho. destruct (resolveSetOptions_valid opts w Ho) as (w' & E & Hw).
  exists w', (mkCommand [mkPair key value (stamp (w_clock w) opts)] []).
  split; [| split; [done | split; [by repeat constructor; apply stamp_range | done]]].
  unfold SetBytes. rewrite (is_empty_false _ Hk). by erewrite st_bind_run by exact E.
Qed.

Lemma SetBytes_refused key value opts (w : World) :
  ~ (key <> EmptyString /\ opts_valid opts) -> refused (SetBytes key value opts) w.
Proof.
  intros H. unfold refused, SetBytes. destruct (decide (key = EmptyString)) as [-> | Hk]; [by eexists |].
  rewrite (is_empty_false _ Hk). destruct (resolveSetOptions_invalid opts w) as (e & E & He); [tauto |].
  exists e. split; [by apply st_bind_run_err | done].
Qed.

Lemma DeleteBytes_submits key (w : World) :
  key <> EmptyString -> submits (DeleteBytes key) w key (fun _ => None).
Proof.
  intros H. exists w, (mkCommand [] [key]). unfold DeleteBytes. rewrite (is_empty_false _ H). by repeat constructor.
Qed.

(** C22. A set with a non-empty key and valid options submits the write of
    exactly that key, with the expiry stamped once from the clock; any other
    set, and a delete of the empty key, is refused with [ErrInvalidArgument] and
    no effect at all, whether or not the node is closed.  A delete of a
    non-empty key submits its deletion. *)
Theorem single_writes key value opts (w : World) :
  (if decide (key <> EmptyString /\ opts_valid opts) then
     submits (SetBytes key value opts) w key
       (fun now => Some (pair_entry (mkPair key value (stamp now opts))))
   else refused (SetBytes key value opts) w) /\
  (if decide (key <> EmptyString) then submits (DeleteBytes key) w key (fun _ => None)
   else refused (DeleteBytes key) w).
Proof.
  split; case_decide as H.
  - destruct H. by apply SetBytes_submits.
  - by apply SetBytes_refused.
  - by apply DeleteBytes_submits.
  - destruct (decide (key = EmptyString)) as [-> |]; [| done]. by eexists.
Qed.

(** C23. On an open node that is not the leader, or that loses leadership before
    Raft accepts the entry, [apply] returns a [NotLeaderError] that names the
    leader Raft knows at that moment; on a closed node it returns [ErrClosed]
    and does nothing. *)
Theorem apply_not_leader cmd (w : World) :
  (closed (w_db w) = true -> apply cmd w = (w, Err (Sentinel ErrClosed))) /\
  (closed (w_db w) = false ->
   snd (raft_State (raft (w_db w))) <> raft_Leader \/
   (exists data err, encodeCommand cmd = Ok data /\ Is err raft_ErrNotLeader = true /\
      fut_error (snd (raft_Apply data (ApplyTimeout (Advanced (cfg (w_db w)))) (fst (raft_State (raft (w_db w))))))
        = Some err) ->
   exists w' id addr r, apply cmd w = (w', Err (NotLeaderError id addr)) /\
     raft_LeaderWithID r = (raft (w_db w'), (addr, id))).
Proof.
  unfold apply. split; intros Hc; [by apply checked_closed |]. intros Hl. rewrite checked_open by done.
  unfold raft_call, st_bind at 1. destruct (raft_State (raft (w_db w))) as [r1 s] eqn:E1. cbn [fst snd] in *.
  case_bool_decide as Hs; cbn [negb]; [| apply notLeader_run].
  destruct Hl as [? | (data & err & Hd & He & Hf)]; [done |].
  unfold st_bind at 1, st_lift. rewrite Hd. unfold st_bind at 1, st_get.
  destruct (raft_await_total (raft_Apply data (ApplyTimeout (Advanced (cfg (w_db w))))) (set_raft r1 w))
    as (w2 & resp & E2).
  cbn [set_raft set_db w_db cfg raft] in *. rewrite Hf in E2.
  erewrite st_bind_run by exact E2. cbn [fst]. unfold raft_error. rewrite He. apply notLeader_run.
Qed.

End Writes.

Section Durable.
Context `{B : BadgerOps} `{R : RaftOps backup} `{C : Codec} `{L : !BadgerLaws} `{RL : !RaftLaws backup} `{CL : !CodecLaws}.

(** A write that returns [nil]: where its entry is. *)
Lemma apply_delivers base n rs cmd (w w' : World) :
  tracks base n rs w -> wf_command cmd -> apply cmd w = (w', Ok tt) ->
  exists i rs' l, delivered n rs rs' (raft (w_db w')) w w' /\ tracks base n (rs ++ rs') w' /\
    length (committed (raft (w_db w))) <= n + i /\
    committed (raft (w_db w')) !! (n + i) = Some l /\ decodeCommand (Data l) = Ok cmd /\
    (rs ++ rs') !! i = Some None.
Proof.
  intros Ht Hwf H. unfold apply in H.
  apply checked_ok in H as [_ H].
  apply st_bind_ok in H as (w1 & s & H1 & H). destruct (tracks_State _ _ _ _ _ _ H1 Ht) as [Ht1 Hp1].
  destruct (bool_decide _); cbn [negb] in H; [| by apply st_bind_ok in H as (? & ? & _ & ?)].
  apply st_bind_ok in H as (w1' & data & Hd & H). injection Hd as <- Hd.
  apply st_bind_ok in H as (w1' & w1'' & Hg & H). injection Hg as <- <-.
  apply st_bind_ok in H as (w2 & out & H2 & H).
  destruct (raft_Apply data (ApplyTimeout (Advanced (cfg (w_db w1)))) (raft (w_db w1))) as [r2 fut] eqn:Ef.
  destruct (raft_await_total (raft_Apply data (ApplyTimeout (Advanced (cfg (w_db w1))))) w1) as (w2' & resp & E2).
  rewrite Ef in E2. cbn [snd] in E2. rewrite E2 in H2. injection H2 as <- <-. cbn [fst snd] in H.
  destruct (fut_error fut) as [err |] eqn:Hfe.
  { unfold raft_error in H. destruct (Is err raft_ErrNotLeader); [by apply st_bind_ok in H as (? & ? & _ & ?) | done]. }
  destruct resp as [? |]; [done |]. injection H as <-.
  destruct (Apply_delivers _ _ _ _ _ Ef Hfe) as (Hp2 & Ha & Hcalls & Hr & Hdata).
  destruct (raft_await_tracks _ _ _ _ _ _ _ Ef Hp2 Ha Hcalls Ht1) as (w3 & rs' & E3 & Hdel & Ht3 & Hr3 & Hlen & _).
  rewrite Hfe in E3. rewrite E3 in E2. injection E2 as <- Hresp.
  destruct Ht1 as (h1 & _ & Hn1 & _).
  destruct (committed r2 !! (applied (raft (w_db w1)) + fut_response fut)) as [l |] eqn:El; [| done].
  exists (length rs + fut_response fut), rs', l. rewrite Nat.add_assoc, Hn1, Hr3.
  split; [by injection H1 as <- <- |]. repeat split; [done | | done | | ].
  - pose proof (prefix_length _ _ Hp1). lia.
  - simpl in Hdata. injection Hdata as ->. unfold encodeCommand in Hd. unfold decodeCommand.
    destruct (gob_Encode cmd) as [d |] eqn:Eg; [| done]. injection Hd as <-. by eapply gob_roundtrip.
  - rewrite lookup_app_r by lia. rewrite Nat.add_sub', <- Hresp at 1.
    destruct (lookup_lt_is_Some_2 rs' (fut_response fut)) as [r Hrr]; [lia |].
    rewrite Hrr in *. simpl in *. by subst.
Qed.

(** C5. A write that returns [nil] is durable: its command is on the committed
    log, after everything that was committed when the write was submitted, this
    node has applied it without error, and the node's store is the replay of
    the log up to a point past it. *)
Theorem apply_committed base n rs cmd (w w' : World) :
  tracks base n rs w -> wf_command cmd -> apply cmd w = (w', Ok tt) ->
  exists i rs' l, delivered n rs rs' (raft (w_db w')) w w' /\ tracks base n (rs ++ rs') w' /\
    length (committed (raft (w_db w))) <= n + i /\
    committed (raft (w_db w')) !! (n + i) = Some l /\ decodeCommand (Data l) = Ok cmd /\
    (rs ++ rs') !! i = Some None.
Proof. apply apply_delivers. Qed.

End Durable.

(** C21. Lifetime of a set: without a TTL it is visible at every time; with a
    positive TTL it is never visible from [now + ttl] on, and it is visible up
    to one second before, the granularity of the expiry.  This does not depend
    on when or how often the entry is applied. *)
Theorem ttl_lifetime (now t : Z) key value opts (m : kv) :
  let after := visible t (<[key := pair_entry (mkPair key value (stamp now opts))]> m) key in
  match last (ttls opts) with
  | None => after = Some value
  | Some ttl =>
      (0 < ttl)%Z -> (0 < Unix (now + ttl) < 2 ^ 64)%Z ->
      ((now + ttl <= t)%Z -> after = None) /\
      ((t + Second <= now + ttl)%Z -> after = Some value)
  end.
Proof.
  cbv zeta. unfold visible. rewrite lookup_insert_eq. unfold stamp, expired, pair_entry.
  destruct (last (ttls opts)) as [ttl |]; simpl; [| done]. intros Ht Hr.
  rewrite (absExpiry_exact now ttl Ht) by (destruct Hr; split; [by apply Z.lt_le_incl | done]).
  destruct Hr as [Hr _]. rewrite (proj2 (Z.ltb_lt 0 _)) by done. cbn [be_ExpiresAt be_Value].
  rewrite (proj2 (Z.eqb_neq _ _)) by lia. simpl. split; intros H.
  - pose proof (Unix_mono _ _ H). case_Z; [done | lia].
  - destruct (Z.leb_spec (Unix (now + ttl)) (Unix t)); [| done]. pose proof (Unix_mono _ _ H) as H'. revert H'. unfold Unix in *.
    replace (t + Second)%Z with (t + 1 * Second)%Z by lia. rewrite Z.div_add by done. lia.
Qed.

(** ** Witnesses *)
Section Witnesses.
Import SimInstances.

Definition w0 : World := Sim.world Sim.leader Sim.kv1 [].
Definition w0_follower : World := Sim.world Sim.follower Sim.kv1 [].

Definition good_batch : list Mutation :=
  [DeleteOp "a"; SetOp "b" "2" [WithTTL (60 * Second)%Z]; SetOp "c" "3" []].
Definition bad_batch : list Mutation := [SetOp "b" "2" []; DeleteOp "b"].

Lemma Batch_accepts_witness :
  exists w' cmd ws, Batch good_batch w0 = apply cmd w' /\
    forall m0, cmd_apply m0 cmd = writes_apply ws m0.
Proof.
  destruct (Batch_accepts good_batch w0) as (w' & cmd & ws & E & _ & _ & _ & H).
  - reflexivity.
  - apply (bool_decide_unpack (batch_valid good_batch)). vm_compute. exact I.
  - done.
  - by exists w', cmd, ws.
Defined.

Lemma Batch_rejects_witness :
  exists w' e, Batch bad_batch w0 = (w', Err e) /\ Is e ErrInvalidArgument = true.
Proof.
  destruct (Batch_rejects bad_batch w0) as (w' & e & E & He & _).
  - reflexivity.
  - apply (bool_decide_unpack (~ batch_valid bad_batch)). vm_compute. exact I.
  - by exists w', e.
Defined.

Lemma apply_not_leader_witness :
  exists w' id addr, apply (Sim.set_cmd "k" "v") w0_follower = (w', Err (NotLeaderError id addr)).
Proof.
  destruct (proj2 (apply_not_leader (Sim.set_cmd "k" "v") w0_follower)) as (w' & id & addr & r & E & _).
  - reflexivity.
  - by left.
  - by exists w', id, addr.
Defined.

Definition w0_done : World := fst (apply (Sim.set_cmd "k" "v") w0).

Lemma apply_committed_witness :
  exists i, 0 <= i /\ exists l, committed (raft (w_db w0_done)) !! (0 + i) = Some l /\
    decodeCommand (Data l) = Ok (Sim.set_cmd "k" "v").
Proof.
  destruct (apply_committed Sim.kv1 0 [] (Sim.set_cmd "k" "v") w0 w0_done)
    as (i & rs' & l & _ & _ & _ & Hl & Hd & _).
  - by eexists.
  - by repeat constructor.
  - unfold w0_done. rewrite (surjective_pairing (apply _ w0)) at 1. f_equal; vm_compute; reflexivity.
  - exists i. split; [lia |]. exists l. split; [exact Hl | exact Hd].
Defined.

Lemma ttl_lifetime_witness :
  visible (Sim.t0 + 60 * Second) (<[ "k" := pair_entry (mkPair "k" "v" (stamp Sim.t0 [WithTTL (60 * Second)%Z])) ]> (∅ : kv)) "k" = None.
Proof.
  apply (ttl_lifetime Sim.t0 (Sim.t0 + 60 * Second) "k" "v" [WithTTL (60 * Second)%Z] ∅); vm_compute; auto.
  discriminate.
Defined.

End Witnesses.
