(* ===== verification/Read.v ===== *)
(** * Read: [read.go] *)
From S2P Require Import Prelude Errors Types Options Command Codec Bytes Badger Files Raft Node Fsm.

Section Read.
Context `{B : BadgerOps} {R : RaftOps backup} `{C : Codec}.

Abbreviation M := (ST World error).

(** ** Badger's read-only transactions *)

(** The method [Get] of a transaction: expiry is judged at the time of the call,
    and the lookup may fail to read the database. *)
Definition txn_get (b : handle) (key : string) : M string :=
  let! now := time_Now in
  let! f := pop_fault in
  match f with Some f => fail! (f_error f) | None => st_lift (txn_Get (h_db b) now key) end.

(** The method [ValueCopy] of an item, which may fail to read the value. *)
Definition item_ValueCopy (value : string) : M string :=
  let! f := pop_fault in
  match f with Some f => fail! (f_error f) | None => ret! value end.

(** The method [Seek] of an iterator: the items from the smallest key at or
    after [prefix] on. *)
Fixpoint seek (prefix : string) (items : list (string * string)) : list (string * string) :=
  match items with
  | [] => []
  | (k, v) :: items' => if bytes_ltb k prefix then seek prefix items' else items
  end.

(** ** The operations *)

(** The method [Barrier] of [DB]. *)
Definition Barrier (timeout : Duration) : M unit :=
  do! checkOpen;
  let! future := raft_await (raft_Barrier timeout) in
  match fst future with
  | Some err => raft_error err
  | None => ret! tt
  end.

Definition prepareRead (ro : ReadOptions) : M unit :=
  if (Timeout ro <? 0)%Z then fail! (invalid "%w: negative read timeout %s" [ArgDur (Timeout ro)])
  else if (Mode ro =? ReadLinearizable)%Z then
    do! checkOpen;
    let! s := raft_call raft_State in
    if negb (bool_decide (s = raft_Leader)) then let! e := notLeaderErr in fail! e
    else
      let! w := st_get in
      Barrier (timeoutOr ro (ApplyTimeout (Advanced (cfg (w_db w)))))
  else if (Mode ro =? ReadLocal)%Z then checkOpen
  else fail! (invalid "%w: unknown read mode %d" [ArgInt (Mode ro)]).

Definition getBytes (key : string) : M string :=
  withStore (fun b =>
    let! item := st_try (txn_get b key) in
    match item with
    | Err err => if Is err badger_ErrKeyNotFound then fail! (Sentinel ErrKeyNotFound) else fail! err
    | Ok value => item_ValueCopy value
    end).

Definition GetBytes (key : string) (ro : ReadOptions) : M string :=
  if is_empty key then fail! (invalid "%w: key must not be empty" [])
  else do! prepareRead ro; getBytes key.

Definition GetWithOptions (key : string) (ro : ReadOptions) : M string := GetBytes key ro.

(** The method [Get] of [DB]. *)
Definition DB_Get (key : string) : M string := GetWithOptions key zeroReadOptions.

(** The loop of [ScanPrefixBytes] over the iterator. *)
Fixpoint scan_loop (prefix : string) (limit : Z) (it : list (string * string)) (entries : list Entry)
  : M (list Entry) :=
  match it with
  | [] => ret! entries
  | (key, v) :: it =>
      if negb (has_prefix prefix key) then ret! entries
      else if (0 <? limit)%Z && (limit <=? Z.of_nat (length entries))%Z then ret! entries
      else
        let! value := item_ValueCopy v in
        scan_loop prefix limit it (entries ++ [mkEntry key value])
  end.

Definition ScanPrefixBytes (prefix : string) (opts : ScanOptions) : M (list Entry) :=
  let! limit := st_lift (resolveLimit opts) in
  do! prepareRead (Read opts);
  withStore (fun b =>
    let! now := time_Now in
    scan_loop prefix limit (seek prefix (db_items (h_db b) now)) []).

(** [ViewBadger]: the callback is any computation on the open database, or
    [nil]. *)
Definition ViewBadger (ro : ReadOptions) (fn : option (handle -> M unit)) : M unit :=
  match fn with
  | None => fail! (invalid "%w: nil ViewBadger callback" [])
  | Some fn => do! prepareRead ro; withStore (fun b => fn b)
  end.

End Read.
