(* ===== verification/ReadProps.v ===== *)
(** * ReadProps: what reads and scans see *)
From Stdlib Require Import Sorting.Sorted.
From S2P Require Import Prelude Errors Types Options Command Codec Bytes Badger Files Raft Node Fsm Wp Sim FsmApply Linear Write Read.

(** ** Scans as a function of the store *)

Definition has_pre (prefix : string) (e : string * string) : Prop := has_prefix prefix (fst e) = true.

#[export] Instance has_pre_dec prefix e : Decision (has_pre prefix e).
Proof. unfold has_pre. apply _. Defined.

Definition key_lt (a b : string * string) : Prop := bytes_lt (fst a) (fst b).

(** The items up to the first without the prefix. *)
Fixpoint run_of (prefix : string) (it : list (string * string)) : list (string * string) :=
  match it with
  | [] => []
  | e :: it => if has_prefix prefix (fst e) then e :: run_of prefix it else []
  end.

Definition entry_of (e : string * string) : Entry := mkEntry (fst e) (snd e).

(** The effective limit cuts a list, 0 does not. *)
Definition cut {A} (limit : Z) (l : list A) : list A :=
  if (0 <? limit)%Z then take (Z.to_nat limit) l else l.

(** The specification of a scan at time [now]: the visible entries with the
    prefix, in strictly increasing key order, cut at the limit. *)
Definition scan_spec (prefix : string) (limit now : Z) (m : kv) (es : list Entry) : Prop :=
  exists all, es = cut limit all /\
    StronglySorted (fun a b => bytes_lt (e_Key a) (e_Key b)) all /\
    forall k v, mkEntry k v ∈ all <-> has_prefix prefix k = true /\ visible now m k = Some v.

(** In key order, the prefixed items from [prefix] on are consecutive. *)
Lemma run_of_filter prefix it :
  StronglySorted key_lt it -> Forall (fun e => bytes_ltb (fst e) prefix = false) it ->
  run_of prefix it = filter (has_pre prefix) it.
Proof.
  induction 1 as [| e it Hs IH He]; intros Hf; [done |]. inversion Hf; subst.
  rewrite filter_cons. simpl. case_decide as Hp; unfold has_pre in Hp; [by rewrite Hp, IH |].
  apply not_true_is_false in Hp. rewrite Hp. destruct (filter (has_pre prefix) it) as [| x l] eqn:Ef; [done |].
  assert (x ∈ filter (has_pre prefix) it) as [Hp' Hx]%list_elem_of_filter by (rewrite Ef; left).
  rewrite Forall_forall in He. specialize (He x Hx). unfold has_pre in Hp'.
  rewrite (has_prefix_convex prefix (fst e) (fst x)) in Hp'; done.
Qed.

Lemma seek_filter prefix items :
  StronglySorted key_lt items -> run_of prefix (seek prefix items) = filter (has_pre prefix) items.
Proof.
  induction 1 as [| [k v] items Hs IH He]; [done |]. simpl. destruct (bytes_ltb k prefix) eqn:E.
  - rewrite filter_cons, decide_False; [done |]. unfold has_pre; simpl. intros H%has_prefix_le. congruence.
  - apply run_of_filter; [by constructor |]. constructor; [done |].
    eapply Forall_impl; [exact He |]. intros [k' v'] Hlt. unfold key_lt in Hlt; simpl in *.
    destruct (bytes_ltb k' prefix) eqn:E'; [| done].
    pose proof (bytes_lt_trans _ _ _ Hlt E') as H. unfold bytes_lt in H. congruence.
Qed.

Lemma StronglySorted_filter {A} (Q : A -> A -> Prop) (P : A -> Prop) `{!forall x, Decision (P x)} l :
  StronglySorted Q l -> StronglySorted Q (filter P l).
Proof.
  induction 1 as [| x l Hs IH Hx]; [constructor |]. rewrite filter_cons. case_decide; [| done].
  constructor; [done |]. rewrite Forall_forall in *. intros y [_ Hy]%list_elem_of_filter. by apply Hx.
Qed.

Lemma StronglySorted_entries l :
  StronglySorted key_lt l -> StronglySorted (fun a b => bytes_lt (e_Key a) (e_Key b)) (entry_of <$> l).
Proof.
  induction 1 as [| x l Hs IH Hx]; [constructor |]. simpl. constructor; [done |].
  by apply Forall_fmap.
Qed.

Section Reads.
Context `{B : BadgerOps} `{R : RaftOps backup} `{C : Codec} `{L : !BadgerLaws}.

(** The seek and the filtered items meet the specification. *)
Lemma items_scan_spec prefix limit now d :
  scan_spec prefix limit now (contents d) (cut limit (entry_of <$> run_of prefix (seek prefix (db_items d now)))).
Proof.
  rewrite seek_filter by apply items_sorted. eexists. split; [done |]. split.
  - apply StronglySorted_entries, StronglySorted_filter, items_sorted.
  - intros k v. rewrite <- items_visible, list_elem_of_fmap. split.
    + intros ([k' v'] & [= -> ->] & [Hp Hi]%list_elem_of_filter). by split.
    + intros [Hp Hi]. exists (k, v). split; [done |]. by apply list_elem_of_filter.
Qed.

Lemma cut_all {A} limit (l1 l2 : list A) :
  (limit <= Z.of_nat (length l1))%Z -> (0 < limit)%Z -> (Z.of_nat (length l1) <= limit)%Z -> cut limit (l1 ++ l2) = l1.
Proof.
  intros. unfold cut. case_Z; [| lia]. apply take_app_length'. lia.
Qed.

(** The loop copies the run of prefixed items up to the limit, unless reading
    a value fails. *)
Lemma scan_loop_run prefix limit it : forall entries (w : World),
  ((0 < limit)%Z -> (Z.of_nat (length entries) <= limit)%Z) ->
  exists w' r, scan_loop prefix limit it entries w = (w', r) /\ w_db w' = w_db w /\ w_clock w' = w_clock w /\
    match r with
    | Ok es => es = cut limit (entries ++ (entry_of <$> run_of prefix it))
    | Err _ => faulty (w_faults w)
    end.
Proof.
  induction it as [| [k v] it IH]; intros entries w Hl; cbn [scan_loop run_of fst].
  - eexists w, _. repeat split. simpl. rewrite app_nil_r. unfold cut. case_Z; [| done].
    rewrite take_ge; [done | lia].
  - destruct (has_prefix prefix k); cbn [negb].
    2:{ eexists w, _. repeat split. simpl. rewrite app_nil_r. unfold cut. case_Z; [| done].
        rewrite take_ge; [done | lia]. }
    destruct ((0 <? limit)%Z && (limit <=? Z.of_nat (length entries))%Z) eqn:E.
    { apply andb_true_iff in E as [H1%Z.ltb_lt H2%Z.leb_le].
      eexists w, _. repeat split. rewrite cut_all; [done | lia ..]. }
    unfold st_bind, item_ValueCopy, pop_fault. destruct w as [db fs fl clk tk]; simpl.
    assert ((0 < limit)%Z -> (Z.of_nat (length (entries ++ [mkEntry k v])) <= limit)%Z) as Hl'.
    { intros Hp. rewrite length_app. simpl. apply andb_false_iff in E as [H1%Z.ltb_ge | H2%Z.leb_gt]; lia. }
    assert (forall fl', (faulty fl' -> faulty fl) -> exists w' r,
      scan_loop prefix limit it (entries ++ [mkEntry k v]) (mkWorld db fs fl' clk tk) = (w', r) /\
      w_db w' = db /\ w_clock w' = clk /\
      match r with
      | Ok es => es = cut limit (entries ++ entry_of (k, v) :: (entry_of <$> run_of prefix it))
      | Err _ => faulty fl
      end) as Hgo.
    { intros fl' Hf. destruct (IH _ (mkWorld db fs fl' clk tk) Hl') as (w' & r & -> & ? & ? & Hr).
      exists w', r. repeat split; [done | done |]. destruct r; [| by apply Hf].
      by rewrite <- app_assoc in Hr. }
    destruct fl as [| [f |] fl]; simpl.
    + by apply Hgo.
    + eexists _, _. repeat split. by exists 0.
    + apply Hgo. by intros [i Hi]; exists (S i).
Qed.

Lemma resolveLimit_cases so :
  match resolveLimit so with
  | Ok n => (0 <= Limit so)%Z /\ (0 <= n)%Z /\ (n = 0%Z <-> Unlimited so = true)
  | Err e => (Limit so < 0)%Z /\ Is e ErrInvalidArgument = true
  end.
Proof.
  unfold resolveLimit, defaultScanLimit. destruct (Z.ltb_spec (Limit so) 0); [by split |].
  destruct (Unlimited so); [by split; [lia | split; [lia |]] |].
  case_Z; (split; [lia | split; [lia | split; (lia || done)]]).
Qed.

(** The scan proper, on an open node with a store. *)
Definition scan_store (prefix : string) (limit : Z) : ST World error (list Entry) :=
  withStore (fun b =>
    let! now := time_Now in
    scan_loop prefix limit (seek prefix (db_items (h_db b) now)) []).

Lemma ScanPrefixBytes_limit prefix opts limit (w : World) :
  resolveLimit opts = Ok limit ->
  ScanPrefixBytes prefix opts w = st_bind (prepareRead (Read opts)) (fun _ => scan_store prefix limit) w.
Proof. intros H. unfold ScanPrefixBytes, st_bind at 1, st_lift. by rewrite H. Qed.

Lemma scan_store_run prefix limit h (w : World) :
  (0 <= limit)%Z -> closed (w_db w) = false -> store (w_db w) = Some h ->
  exists w' r, scan_store prefix limit w = (w', r) /\ w_db w' = w_db w /\
    match r with
    | Ok es => scan_spec prefix limit (w_clock w) (contents (h_db h)) es
    | Err _ => faulty (w_faults w)
    end.
Proof.
  intros Hl Hc Hs. unfold scan_store, withStore. rewrite checked_open by done.
  unfold st_bind at 1, st_get. rewrite Hs. unfold st_bind, time_Now.
  destruct w as [db fs fl clk tk]; simpl in *.
  lazymatch goal with |- context [scan_loop _ _ ?it [] ?w1] =>
    destruct (scan_loop_run prefix limit it [] w1) as (w' & r & E & Hd & _ & Hr) end; [simpl; lia |].
  exists w', r. split; [exact E |]. split; [exact Hd |].
  destruct r as [es |]; [| done]. rewrite Hr. apply items_scan_spec.
Qed.

(** What a point read of [key] at time [now] on contents [m] answers, given the
    faults ahead: the visible value, or [ErrKeyNotFound] when there is none; the
    lookup and the copying of the value may fail, and then it answers that
    failure. *)
Definition read_outcome (key : string) (now : Z) (m : kv) (fl : list (option fault)) : result error string :=
  match next_fault fl with
  | Some f => Err (if Is (f_error f) badger_ErrKeyNotFound then Sentinel ErrKeyNotFound else f_error f)
  | None =>
      match visible now m key with
      | None => Err (Sentinel ErrKeyNotFound)
      | Some v => match next_fault (tail fl) with Some f => Err (f_error f) | None => Ok v end
      end
  end.

Definition point_read (key : string) (now : Z) (m : kv) (fl : list (option fault)) (r : result error string) : Prop :=
  r = read_outcome key now m fl.

Lemma getBytes_run key h (w : World) :
  key <> EmptyString -> closed (w_db w) = false -> store (w_db w) = Some h ->
  exists w' r, getBytes key w = (w', r) /\ w_db w' = w_db w /\
    point_read key (w_clock w) (contents (h_db h)) (w_faults w) r.
Proof.
  intros Hk Hc Hs. unfold getBytes, withStore. rewrite checked_open by done.
  unfold st_bind at 1, st_get. rewrite Hs. unfold point_read, read_outcome.
  unfold txn_get, item_ValueCopy, time_Now, pop_fault, st_try, st_lift, st_bind.
  destruct w as [db fs fl clk tk]. cbn [w_db w_fs w_faults w_clock w_ticks].
  assert (forall fl', exists w' r,
    match txn_Get (h_db h) clk key with
    | Ok v => item_ValueCopy v
    | Err e => if Is e badger_ErrKeyNotFound then st_err (Sentinel ErrKeyNotFound) else st_err e
    end (mkWorld db fs fl' (clk + tick (mkWorld db fs fl clk tk)) (tail tk)) = (w', r) /\ w_db w' = db /\
    r = match visible clk (contents (h_db h)) key with
        | None => Err (Sentinel ErrKeyNotFound)
        | Some v => match next_fault fl' with Some f => Err (f_error f) | None => Ok v end
        end) as Hrest.
  { intros fl'. destruct (txn_Get (h_db h) clk key) as [v | e] eqn:E.
    - apply Get_found in E. rewrite E. unfold item_ValueCopy, pop_fault, st_bind.
      destruct fl' as [| [f |] fl']; eexists _, _; (split; [reflexivity | by split]).
    - pose proof (Get_error _ _ _ _ Hk E) as He. rewrite He, (Get_missing _ _ _ _ E He).
      eexists _, _. split; [reflexivity | by split]. }
  destruct fl as [| [f |] fl]; cbn [next_fault tail].
  - exact (Hrest []).
  - unfold st_err. cbv beta iota. cbn [default head].
    destruct (Is (f_error f) badger_ErrKeyNotFound) eqn:Hf; eexists _, _; (split; [reflexivity |]);
      (split; [reflexivity |]); change (next_fault (Some f :: fl)) with (Some f); cbv beta iota; by rewrite Hf.
  - exact (Hrest fl).
Qed.

(** ** Local reads *)

Lemma prepareRead_local ro (w : World) :
  Mode ro = ReadLocal -> (0 <= Timeout ro)%Z -> prepareRead ro w = checkOpen w.
Proof. intros Hm Ht. unfold prepareRead. by rewrite (proj2 (Z.ltb_ge _ _) Ht), Hm. Qed.

Lemma GetBytes_local_run key ro h (w : World) :
  key <> EmptyString -> Mode ro = ReadLocal -> (0 <= Timeout ro)%Z ->
  closed (w_db w) = false -> store (w_db w) = Some h ->
  exists w' r, GetBytes key ro w = (w', r) /\ w_db w' = w_db w /\
    point_read key (w_clock w) (contents (h_db h)) (w_faults w) r.
Proof.
  intros Hk Hm Ht Hc Hs. unfold GetBytes, is_empty. rewrite bool_decide_eq_false_2 by done.
  erewrite st_bind_run.
  - by apply getBytes_run.
  - rewrite prepareRead_local by done. unfold checkOpen, st_bind, st_get. by rewrite Hc.
Qed.

(** C24. A local read on an open node reads its own store and asks nothing of
    Raft: it answers the value of the unexpired entry of the key, [ErrKeyNotFound]
    when there is none, and nothing else unless the lookup or the copying of the
    value fails, whose error it then answers.  No part of the node changes. *)
Theorem GetBytes_local key ro h (w : World) :
  key <> EmptyString -> Mode ro = ReadLocal -> (0 <= Timeout ro)%Z ->
  closed (w_db w) = false -> store (w_db w) = Some h ->
  exists w' r, GetBytes key ro w = (w', r) /\ w_db w' = w_db w /\
    point_read key (w_clock w) (contents (h_db h)) (w_faults w) r.
Proof. apply GetBytes_local_run. Qed.

(** C25. A local scan on an open node returns the visible entries with the
    prefix, all of them when unlimited, else the first ones up to the limit, in
    strictly increasing key order; it fails only when reading a value does, and
    changes no part of the node. *)
Theorem Scan_local prefix opts h (w : World) limit :
  Mode (Read opts) = ReadLocal -> (0 <= Timeout (Read opts))%Z -> resolveLimit opts = Ok limit ->
  closed (w_db w) = false -> store (w_db w) = Some h ->
  exists w' r, ScanPrefixBytes prefix opts w = (w', r) /\ w_db w' = w_db w /\
    match r with
    | Ok es => scan_spec prefix limit (w_clock w) (contents (h_db h)) es
    | Err _ => faulty (w_faults w)
    end.
Proof.
  intros Hm Ht Hl Hc Hs. rewrite (ScanPrefixBytes_limit _ _ limit) by done.
  erewrite st_bind_run.
  - apply scan_store_run; [| done ..]. pose proof (resolveLimit_cases opts) as H. rewrite Hl in H. lia.
  - rewrite prepareRead_local by done. unfold checkOpen, st_bind, st_get. by rewrite Hc.
Qed.

(** ** Refused reads *)

(** Options no read accepts. *)
Definition bad_read (ro : ReadOptions) : Prop :=
  (Timeout ro < 0)%Z \/ (Mode ro <> ReadLinearizable /\ Mode ro <> ReadLocal).

#[export] Instance bad_read_dec ro : Decision (bad_read ro).
Proof. unfold bad_read. apply _. Defined.

Lemma prepareRead_bad ro (w : World) : bad_read ro -> refused (prepareRead ro) w.
Proof.
  unfold refused, prepareRead. intros H. destruct (Z.ltb_spec (Timeout ro) 0); [by eexists |].
  destruct H as [? | [H1 H2]]; [lia |]. rewrite (proj2 (Z.eqb_neq _ _) H1), (proj2 (Z.eqb_neq _ _) H2). by eexists.
Qed.

Lemma refused_bind {A} (m : ST World error unit) (f : unit -> ST World error A) (w : World) :
  refused m w -> refused (st_bind m f) w.
Proof. intros (e & E & He). exists e. split; [by apply st_bind_run_err | done]. Qed.

(** A read with a negative timeout or an unknown mode, a point read of the
    empty key, a scan with a negative limit and a view without a callback are
    refused with [ErrInvalidArgument] and no effect, whether or not the node is
    closed, and whatever its Raft state. *)
Theorem reads_refused key ro prefix opts fn (w : World) :
  (key = EmptyString \/ bad_read ro -> refused (GetBytes key ro) w) /\
  ((Limit opts < 0)%Z \/ bad_read (Read opts) -> refused (ScanPrefixBytes prefix opts) w) /\
  (fn = None \/ bad_read ro -> refused (ViewBadger ro fn) w).
Proof.
  split; [| split].
  - intros H. unfold GetBytes, is_empty. case_bool_decide; [by eexists |].
    destruct H; [done |]. by apply refused_bind, prepareRead_bad.
  - intros H. unfold ScanPrefixBytes. pose proof (resolveLimit_cases opts) as Hc.
    unfold refused, st_bind at 1, st_lift. destruct (resolveLimit opts) as [n | e]; [| exists e; naive_solver].
    destruct H; [lia |]. by apply refused_bind, prepareRead_bad.
  - intros H. unfold ViewBadger. destruct fn as [fn |]; [| by eexists].
    destruct H; [done |]. by apply refused_bind, prepareRead_bad.
Qed.

(** Why a linearizable read with options [ro] cannot be served: the node does not
    lead, or the barrier fails. *)
Definition read_refusal (ro : ReadOptions) (w : World) : option error :=
  let '(r, s) := raft_State (raft (w_db w)) in
  if decide (s = raft_Leader)
  then fut_error (snd (raft_Barrier (timeoutOr ro (ApplyTimeout (Advanced (cfg (w_db w))))) r))
  else Some (Sentinel raft_ErrNotLeader).

(** The error a caller sees for it: not leading is reported with the leader Raft
    knows of then, anything else as it is. *)
Definition refusal_reported (err : error) (w' : World) (e : error) : Prop :=
  if Is err raft_ErrNotLeader then
    exists id addr r, raft_LeaderWithID r = (raft (w_db w'), (addr, id)) /\ e = NotLeaderError id addr
  else e = err.

Lemma prepareRead_refused ro err (w : World) :
  closed (w_db w) = false -> (0 <= Timeout ro)%Z -> Mode ro = ReadLinearizable -> read_refusal ro w = Some err ->
  exists w' e, prepareRead ro w = (w', Err e) /\ refusal_reported err w' e.
Proof.
  intros Hc Ht Hm Hr. unfold prepareRead, refusal_reported. rewrite Hm, (proj2 (Z.ltb_ge _ _) Ht), Z.eqb_refl.
  rewrite checked_open by done. unfold raft_call, st_bind at 1. unfold read_refusal in Hr.
  destruct (raft_State (raft (w_db w))) as [r1 s] eqn:E1. cbn [fst snd].
  assert (forall w0 : World, exists w' e, st_bind notLeaderErr (fun e => st_err (A := unit) e) w0 = (w', Err e) /\
    exists id addr r, raft_LeaderWithID r = (raft (w_db w'), (addr, id)) /\ e = NotLeaderError id addr) as Hnl.
  { intros w0. destruct (notLeader_run (A := unit) w0) as (w' & id & addr & r & E & ?). exists w', (NotLeaderError id addr).
    split; [done |]. by exists id, addr, r. }
  case_decide as Hs; [rewrite bool_decide_eq_true_2 by done | rewrite bool_decide_eq_false_2 by done; injection Hr as <-; exact (Hnl _)].
  cbn [negb]. unfold st_bind at 1, st_get, Barrier. rewrite checked_open by done.
  destruct (raft_await_total (raft_Barrier (timeoutOr ro (ApplyTimeout (Advanced (cfg (w_db w)))))) (set_raft r1 w))
    as (w2 & resp & E2).
  cbn [set_raft set_db w_db cfg raft] in *. rewrite Hr in E2. erewrite st_bind_run by exact E2. cbn [fst].
  unfold raft_error. destruct (Is err raft_ErrNotLeader); [exact (Hnl _) |]. by eexists _, _.
Qed.

(** C26. A linearizable read never falls back to local data: on an open node that
    is not the leader, or whose barrier fails for whatever reason, every read
    returns an error: a [NotLeaderError] naming the leader Raft knows when the
    node did not lead or lost leadership before the barrier, and the error of
    the barrier otherwise. *)
Theorem reads_not_leader key ro prefix opts fn err (w : World) :
  closed (w_db w) = false -> (0 <= Timeout ro)%Z -> Mode ro = ReadLinearizable ->
  key <> EmptyString -> Read opts = ro -> (0 <= Limit opts)%Z ->
  read_refusal ro w = Some err ->
  exists w' e, refusal_reported err w' e /\
    GetBytes key ro w = (w', Err e) /\ ScanPrefixBytes prefix opts w = (w', Err e) /\
    ViewBadger ro (Some fn) w = (w', Err e).
Proof.
  intros Hc Ht Hm Hk Hro Hlim Hl. destruct (prepareRead_refused ro err w Hc Ht Hm Hl) as (w' & e & E & Hr).
  exists w', e. split; [done |]. split; [| split].
  - unfold GetBytes, is_empty. rewrite bool_decide_eq_false_2 by done. by apply st_bind_run_err.
  - unfold ScanPrefixBytes. pose proof (resolveLimit_cases opts) as Hcs.
    unfold st_bind at 1, st_lift. destruct (resolveLimit opts) as [n | e']; [| lia].
    rewrite Hro. by apply st_bind_run_err.
  - by apply st_bind_run_err.
Qed.

End Reads.

(** ** Linearizable reads *)
Section Linearizable.
Context `{B : BadgerOps} `{R : RaftOps backup} `{C : Codec} `{L : !BadgerLaws} `{RL : !RaftLaws backup}.

(** The world a linearizable read runs in: the store is the replay of the log
    up to a point past everything committed when the read was called. *)
Definition caught_up (base : kv) (n : nat) (rs : list (option error)) (w w1 : World) : Prop :=
  exists rs', delivered n rs rs' (raft (w_db w1)) w w1 /\ tracks base n (rs ++ rs') w1 /\
    committed (raft (w_db w)) `prefix_of` committed (raft (w_db w1)) /\
    length (committed (raft (w_db w))) <= n + length (rs ++ rs') /\
    closed (w_db w1) = false /\ w_clock w1 = w_clock w.

Lemma prepareRead_linear base n rs ro (w w1 : World) :
  tracks base n rs w -> Mode ro = ReadLinearizable -> prepareRead ro w = (w1, Ok tt) ->
  caught_up base n rs w w1.
Proof.
  intros Ht Hm H. unfold prepareRead in H. rewrite Hm, Z.eqb_refl in H.
  destruct (Z.ltb_spec (Timeout ro) 0); [done |]. apply checked_ok in H as [Hc H].
  apply st_bind_ok in H as (w2 & s & H2 & H). destruct (tracks_State _ _ _ _ _ _ H2 Ht) as [Ht2 Hp2].
  destruct (bool_decide _); cbn [negb] in H; [| by apply st_bind_ok in H as (? & ? & _ & ?)].
  assert (closed (w_db w2) = false /\ w_clock w2 = w_clock w) as [_ Hk2] by (by injection H2 as <- <-).
  apply st_bind_ok in H as (w2' & w2'' & Hg & H). injection Hg as <- <-.
  unfold Barrier in H. apply checked_ok in H as [Hc2 H].
  apply st_bind_ok in H as (w3 & out & H3 & H).
  set (to := timeoutOr ro _) in *. destruct (raft_Barrier to (raft (w_db w2))) as [r2 fut] eqn:Ef.
  destruct (raft_await_total (raft_Barrier to) w2) as (w3' & resp & E3).
  rewrite Ef in E3. cbn [snd] in E3. rewrite E3 in H3. injection H3 as <- <-. cbn [fst] in H.
  destruct (fut_error fut) as [err |] eqn:Hfe.
  { unfold raft_error in H. destruct (Is err raft_ErrNotLeader); [by apply st_bind_ok in H as (? & ? & _ & ?) | done]. }
  injection H as <-. destruct (Barrier_delivers _ _ _ _ Ef Hfe) as (Hp3 & Hlen & Ha & Hcalls).
  destruct (raft_await_tracks _ _ _ _ _ _ _ Ef Hp3 Ha Hcalls Ht2)
    as (w4 & rs' & E4 & Hdel & Ht4 & Hr4 & Hl4 & Hc4 & _ & Hk4).
  rewrite Hfe in E4. rewrite E4 in E3. injection E3 as <- _.
  exists rs'. split; [rewrite Hr4; by injection H2 as <- <- |].
  split; [done |]. rewrite Hr4. split; [by etrans |]. split; [| split; congruence].
  destruct Ht2 as (h2 & _ & Hn2 & _). pose proof (prefix_length _ _ Hp2). rewrite length_app. lia.
Qed.

(** The store of a caught-up world: the replay with the responses the state
    machine gave. *)
Definition caught_up_store (base : kv) (n : nat) (rs : list (option error)) (w w1 : World) (m : kv) : Prop :=
  exists rs', delivered n rs rs' (raft (w_db w1)) w w1 /\
    m = replay (take (length (rs ++ rs')) (drop n (committed (raft (w_db w1))))) (rs ++ rs') base /\
    committed (raft (w_db w)) `prefix_of` committed (raft (w_db w1)) /\
    length (committed (raft (w_db w))) <= n + length (rs ++ rs').

Lemma caught_up_has_store base n rs w w1 :
  caught_up base n rs w w1 ->
  exists h, store (w_db w1) = Some h /\ closed (w_db w1) = false /\
    caught_up_store base n rs w w1 (contents (h_db h)).
Proof.
  intros (rs' & Hdel & (h & Hs & _ & Hc) & Hp & Hl & Hcl & _). exists h. split; [done |]. split; [done |]. by exists rs'.
Qed.

(** C3. Linearizability of point reads: on a node that tracks the log, a
    linearizable read either fails before touching the store, with the error of
    its preparation, or answers from the replay of a prefix of the committed log
    that holds everything committed when the read was called: the value visible
    there, [ErrKeyNotFound] when there is none, and nothing else unless a call of
    the storage fails, whose error it then answers. *)
Theorem GetBytes_linearizable base n rs key ro (w : World) :
  tracks base n rs w -> key <> EmptyString -> Mode ro = ReadLinearizable ->
  (exists w' e, prepareRead ro w = (w', Err e) /\ GetBytes key ro w = (w', Err e)) \/
  (exists w1 m w' r, prepareRead ro w = (w1, Ok tt) /\ caught_up_store base n rs w w1 m /\
     GetBytes key ro w = (w', r) /\ w_db w' = w_db w1 /\
     point_read key (w_clock w) m (w_faults w1) r).
Proof.
  intros Ht Hk Hm. unfold GetBytes, is_empty. rewrite bool_decide_eq_false_2 by done.
  destruct (prepareRead ro w) as [w1 [[] | e]] eqn:E.
  - right. pose proof (prepareRead_linear _ _ _ _ _ _ Ht Hm E) as Hcu.
    assert (w_clock w1 = w_clock w) as Hclk by (by destruct Hcu as (? & _ & _ & _ & _ & _ & ?)).
    apply caught_up_has_store in Hcu as (h & Hs & Hc & Hst).
    destruct (getBytes_run key h w1 Hk Hc Hs) as (w' & r & Er & Hd & Hr). rewrite Hclk in Hr.
    exists w1, (contents (h_db h)), w', r. split; [done |]. split; [done |].
    split; [by erewrite st_bind_run by exact E | done].
  - left. exists w1, e. split; [done | by apply st_bind_run_err].
Qed.

(** C4. Linearizability of scans: the same for a prefix scan, whose result is
    the specified one for the replay of such a prefix of the committed log. *)
Theorem Scan_linearizable base n rs prefix opts limit (w : World) :
  tracks base n rs w -> Mode (Read opts) = ReadLinearizable -> resolveLimit opts = Ok limit ->
  (exists w' e, prepareRead (Read opts) w = (w', Err e) /\ ScanPrefixBytes prefix opts w = (w', Err e)) \/
  (exists w1 m w' r, prepareRead (Read opts) w = (w1, Ok tt) /\ caught_up_store base n rs w w1 m /\
     ScanPrefixBytes prefix opts w = (w', r) /\ w_db w' = w_db w1 /\
     match r with
     | Ok es => scan_spec prefix limit (w_clock w) m es
     | Err _ => faulty (w_faults w1)
     end).
Proof.
  intros Ht Hm Hl. rewrite (ScanPrefixBytes_limit _ _ limit) by done.
  destruct (prepareRead (Read opts) w) as [w1 [[] | e]] eqn:E.
  - right. pose proof (prepareRead_linear _ _ _ _ _ _ Ht Hm E) as Hcu.
    assert (w_clock w1 = w_clock w) as Hclk by (by destruct Hcu as (? & _ & _ & _ & _ & _ & ?)).
    apply caught_up_has_store in Hcu as (h & Hs & Hc & Hst).
    pose proof (resolveLimit_cases opts) as Hlim. rewrite Hl in Hlim.
    destruct (scan_store_run prefix limit h w1) as (w' & r & Er & Hd & Hr); [lia | done | done |].
    rewrite Hclk in Hr. exists w1, (contents (h_db h)), w', r. split; [done |]. split; [done |].
    split; [by erewrite st_bind_run by exact E | done].
  - left. exists w1, e. split; [done | by apply st_bind_run_err].
Qed.

End Linearizable.

(** ** Witnesses *)
Section Witnesses.
Import SimInstances.

(** A leader with a committed entry it has not been given yet. *)
Definition behind : SimRaft.world := Sim.server raft_Leader [mkLog 1 (Sim.bytes_of (Sim.set_cmd "b" "2"))] 0.
Definition w_behind : World := Sim.world behind Sim.kv1 [].
Definition h1 : handle := mkHandle Sim.opts (Sim.mem Sim.kv1).
Definition local : ReadOptions := mkReadOptions ReadLocal 0.

Lemma w_behind_tracks : tracks Sim.kv1 0 [] w_behind.
Proof. by exists h1. Qed.

Lemma GetBytes_local_witness :
  exists w' r, GetBytes "a" local w_behind = (w', r) /\ w_db w' = w_db w_behind /\
    point_read "a" (w_clock w_behind) (contents (h_db h1)) [] r.
Proof. by apply (GetBytes_local "a" local h1 w_behind). Defined.

Lemma Scan_local_witness :
  exists w' r, ScanPrefixBytes EmptyString (mkScanOptions local 0 false) w_behind = (w', r) /\
    w_db w' = w_db w_behind /\
    match r with
    | Ok es => scan_spec EmptyString 100 (w_clock w_behind) (contents (h_db h1)) es
    | Err _ => faulty (w_faults w_behind)
    end.
Proof. by apply (Scan_local EmptyString (mkScanOptions local 0 false) h1 w_behind 100). Defined.

Lemma reads_refused_witness : refused (GetBytes "a" (mkReadOptions 7 0)) w_behind.
Proof.
  apply (proj1 (reads_refused "a" (mkReadOptions 7 0) EmptyString (mkScanOptions local 0 false) None w_behind)).
  right. right. done.
Defined.

Definition w_follower : World := Sim.world Sim.follower Sim.kv1 [].

Lemma reads_not_leader_witness :
  exists w' e, refusal_reported (Sentinel raft_ErrNotLeader) w' e /\ GetBytes "a" zeroReadOptions w_follower = (w', Err e).
Proof.
  destruct (reads_not_leader "a" zeroReadOptions EmptyString (mkScanOptions zeroReadOptions 0 false)
              (fun _ => st_ret tt) (Sentinel raft_ErrNotLeader) w_follower) as (w' & e & Hr & E & _); try done.
  by exists w', e.
Defined.

Lemma GetBytes_linearizable_witness :
  (exists w' e, GetBytes "b" zeroReadOptions w_behind = (w', Err e)) \/
  (exists w1 m w' r, caught_up_store Sim.kv1 0 [] w_behind w1 m /\
     GetBytes "b" zeroReadOptions w_behind = (w', r) /\ point_read "b" (w_clock w_behind) m (w_faults w1) r).
Proof.
  destruct (GetBytes_linearizable Sim.kv1 0 [] "b" zeroReadOptions w_behind)
    as [(w' & e & _ & E) | (w1 & m & w' & r & _ & Hm & E & _ & Hr)].
  - apply w_behind_tracks.
  - done.
  - reflexivity.
  - left. by exists w', e.
  - right. by exists w1, m, w', r.
Defined.

Lemma Scan_linearizable_witness :
  (exists w' e, ScanPrefixBytes EmptyString (mkScanOptions zeroReadOptions 0 true) w_behind = (w', Err e)) \/
  (exists w1 m w' r, caught_up_store Sim.kv1 0 [] w_behind w1 m /\
     ScanPrefixBytes EmptyString (mkScanOptions zeroReadOptions 0 true) w_behind = (w', r) /\
     match r with Ok es => scan_spec EmptyString 0 (w_clock w_behind) m es | Err _ => faulty (w_faults w1) end).
Proof.
  destruct (Scan_linearizable Sim.kv1 0 [] EmptyString (mkScanOptions zeroReadOptions 0 true) 0 w_behind)
    as [(w' & e & _ & E) | (w1 & m & w' & r & _ & Hm & E & _ & Hr)].
  - apply w_behind_tracks.
  - reflexivity.
  - reflexivity.
  - left. by exists w', e.
  - right. by exists w1, m, w', r.
Defined.

(** The value of the undelivered entry is read. *)
Example linearizable_run :
  snd (GetBytes "b" zeroReadOptions w_behind) = Ok "2" /\
  snd (GetBytes "b" local w_behind) = Err (Sentinel ErrKeyNotFound).
Proof. by vm_compute. Qed.

End Witnesses.
