(* ===== verification/Cluster.v ===== *)
(** * Cluster: [cluster.go] and [status.go] *)
From S2P Require Import Prelude Errors Types Options Command Codec Badger Files Raft Node Fsm Wp Sim FsmApply Linear.

Section Cluster.
Context `{B : BadgerOps} {R : RaftOps backup} `{C : Codec}.

Abbreviation M := (ST World error).

(** ** Membership *)

Definition AddVoter (node : Node) : M unit :=
  if is_empty (ID node) then fail! (invalid "%w: AddVoter: node ID must not be empty" [])
  else if is_empty (RaftAddr node) then fail! (invalid "%w: AddVoter: node RaftAddr must not be empty" [])
  else if negb (Role node =? RoleNone)%Z && negb (Role node =? RoleVoter)%Z then
    fail! (invalid "%w: AddVoter: role must be RoleNone or RoleVoter, got %s"
             [ArgStr (NodeRole_String (Role node))])
  else
    do! checkOpen;
    let! s := raft_call raft_State in
    if negb (bool_decide (s = raft_Leader)) then let! e := notLeaderErr in fail! e
    else
      let! w := st_get in
      let! future := raft_await (raft_AddVoter (ID node) (RaftAddr node) 0 (ApplyTimeout (Advanced (cfg (w_db w))))) in
      match fst future with
      | Some err => raft_error err
      | None => ret! tt
      end.

Definition RemoveNode (id : string) : M unit :=
  if is_empty id then fail! (invalid "%w: RemoveNode: node ID must not be empty" [])
  else
    do! checkOpen;
    let! s := raft_call raft_State in
    if negb (bool_decide (s = raft_Leader)) then let! e := notLeaderErr in fail! e
    else
      let! w := st_get in
      let! future := raft_await (raft_RemoveServer id 0 (ApplyTimeout (Advanced (cfg (w_db w))))) in
      match fst future with
      | Some err => raft_error err
      | None => ret! tt
      end.

(** One server of a configuration, as [Members] reports it. *)
Definition node_of_server (server : Server) : Node :=
  mkNode (ServerID server) (Address server) (roleFromRaft (Suffrage server)).

(** The loop of [Members]. *)
Fixpoint members_loop (servers : list Server) (nodes : list Node) : list Node :=
  match servers with
  | [] => nodes
  | server :: servers => members_loop servers (nodes ++ [node_of_server server])
  end.

Definition Members : M (list Node) :=
  do! checkOpen;
  let! c := raft_call raft_GetConfiguration in
  let! servers := st_lift c in
  ret! (members_loop servers []).

(** The method [Snapshot] of [DB]. *)
Definition DB_Snapshot : M unit :=
  do! checkOpen;
  let! future := raft_await raft_Snapshot in
  st_lift (of_error (fst future)).

(** ** Waiting for a leader *)

Definition leaderPollInterval : Duration := 20 * Millisecond.

Definition out_of_fuel : error := New "out of fuel".

(** The loop of [waitForLeader]. *)
Fixpoint wait_loop (fuel : nat) (timeout : Duration) (deadline : Z) : M Node :=
  match fuel with
  | 0 => fail! out_of_fuel
  | S fuel =>
      do! checkOpen;
      let! l := raft_call raft_LeaderWithID in
      if negb (is_empty (snd l)) then ret! (mkNode (snd l) (fst l) RoleVoter)
      else
        let! now := time_Now in
        if negb (now <? deadline)%Z then
          fail! (Errorf "%w after %s" [ArgDur timeout] (Sentinel ErrNoLeader))
        else do! time_Sleep leaderPollInterval; wait_loop fuel timeout deadline
  end.

(** Polls until the deadline, and one more. *)
Definition wait_fuel (timeout : Duration) : nat := Z.to_nat (timeout / leaderPollInterval) + 2.

Definition waitForLeader (timeout : Duration) : M Node :=
  let! now := time_Now in wait_loop (wait_fuel timeout) timeout (now + timeout)%Z.

Definition WaitForLeader (timeout : Duration) : M Node := waitForLeader timeout.

(** ** Status *)

(** The loop over the configuration in [Status]: the first server with this
    node's ID decides the role. *)
Fixpoint local_role (id : string) (servers : list Server) (role : NodeRole) : NodeRole :=
  match servers with
  | [] => role
  | server :: servers =>
      if bool_decide (ServerID server = id) then roleFromRaft (Suffrage server)
      else local_role id servers role
  end.

(** The method [Status] of [DB]. *)
Definition DB_Status : M Status :=
  do! checkOpen;
  let! w := st_get in
  let id := NodeID (cfg (w_db w)) in
  let addr := transport_LocalAddr (raft (w_db w)) in
  let! s := raft_call raft_State in
  let! l := raft_call raft_LeaderWithID in
  let leader := if negb (is_empty (snd l)) then Some (mkNode (snd l) (fst l) RoleVoter) else None in
  let! c := raft_call raft_GetConfiguration in
  let! servers := st_lift c in
  ret! (mkStatus (mkNode id addr (local_role id servers RoleNone)) (stateFromRaft s) leader
          (appliedIndex (w_db w))).

Definition RawRaftStats : M (gmap string string) :=
  let! stats := raft_call raft_Stats in
  let! w := st_get in
  ret! (<["honeybadger_applied_index" := pretty (appliedIndex (w_db w))]> stats).

End Cluster.

Section ClusterProps.
Context `{B : BadgerOps} `{R : RaftOps backup} `{C : Codec} `{L : !BadgerLaws}.

(** The arguments a membership change must have. *)
Definition voter_valid (n : Node) : Prop :=
  ID n <> EmptyString /\ RaftAddr n <> EmptyString /\ (Role n = RoleNone \/ Role n = RoleVoter).

#[export] Instance voter_valid_dec n : Decision (voter_valid n).
Proof. unfold voter_valid. apply _. Defined.

(** A leader-only request: what its outcome must be, on the world [w], for the
    Raft call [f] it makes. *)
Definition leader_request (m : World -> World * result error unit)
    (f : Duration -> raftw -> raftw * future backup) (w : World) : Prop :=
  (closed (w_db w) = true -> m w = (w, Err (Sentinel ErrClosed))) /\
  (closed (w_db w) = false ->
   let r1 := fst (raft_State (raft (w_db w))) in
   let fut := f (ApplyTimeout (Advanced (cfg (w_db w)))) r1 in
   let not_leader := exists w' id addr r,
     m w = (w', Err (NotLeaderError id addr)) /\ raft_LeaderWithID r = (raft (w_db w'), (addr, id)) in
   if decide (snd (raft_State (raft (w_db w))) = raft_Leader) then
     match fut_error (snd fut) with
     | None => exists w' resp, m w = (w', Ok tt) /\
         raft_await (f (ApplyTimeout (Advanced (cfg (w_db w))))) (set_raft r1 w) = (w', Ok (None, resp))
     | Some err => if Is err raft_ErrNotLeader then not_leader else exists w', m w = (w', Err err)
     end
   else not_leader).

Lemma leader_request_run f (w : World) :
  leader_request
    (do! checkOpen;
     let! s := raft_call raft_State in
     if negb (bool_decide (s = raft_Leader)) then let! e := notLeaderErr in st_err e
     else
       let! w := st_get in
       let! future := raft_await (f (ApplyTimeout (Advanced (cfg (w_db w))))) in
       match fst future with Some err => raft_error err | None => st_ret tt end) f w.
Proof.
  split; intros Hc; [by apply checked_closed |]. rewrite checked_open by done. cbv zeta.
  destruct (raft_State (raft (w_db w))) as [r1 s] eqn:E1. cbn [fst snd].
  rewrite (st_bind_run _ _ _ (set_raft r1 w) s) by (unfold raft_call; by rewrite E1).
  case_decide as Hs; [| rewrite bool_decide_eq_false_2 by done; apply notLeader_run].
  rewrite bool_decide_eq_true_2 by done. cbn [negb].
  rewrite (st_bind_run _ _ _ (set_raft r1 w) (set_raft r1 w)) by done.
  destruct (raft_await_total (f (ApplyTimeout (Advanced (cfg (w_db w))))) (set_raft r1 w)) as (w2 & resp & E2).
  cbn [set_raft set_db w_db cfg raft] in *. erewrite st_bind_run by exact E2. cbn [fst].
  destruct (fut_error _) as [err |]; [| by exists w2, resp]. unfold raft_error.
  destruct (Is err raft_ErrNotLeader); [apply notLeader_run | by exists w2].
Qed.

Lemma AddVoter_refused node (w : World) : ~ voter_valid node -> refused (AddVoter node) w.
Proof.
  intros H. unfold refused, AddVoter, is_empty. case_bool_decide; [by eexists |]. case_bool_decide; [by eexists |].
  destruct (Z.eqb_spec (Role node) RoleNone), (Z.eqb_spec (Role node) RoleVoter); try by eexists.
  all: destruct H; unfold voter_valid; tauto.
Qed.

(** C34. Membership changes: arguments are checked first, with no effect on a
    refusal; then a closed node answers [ErrClosed]; a node that is not the
    leader, or loses leadership before the change is accepted, answers a
    [NotLeaderError] naming the leader Raft knows; on the leader the change is
    asked of Raft with the configured timeout and succeeds exactly when Raft's
    future does. *)
Theorem membership_changes node id (w : World) :
  (if decide (voter_valid node)
   then leader_request (AddVoter node) (raft_AddVoter (ID node) (RaftAddr node) 0) w
   else refused (AddVoter node) w) /\
  (if decide (id <> EmptyString)
   then leader_request (RemoveNode id) (raft_RemoveServer id 0) w
   else refused (RemoveNode id) w).
Proof.
  split; case_decide as H.
  - destruct H as (H1 & H2 & H3). unfold AddVoter, is_empty. rewrite !bool_decide_eq_false_2 by done.
    destruct H3 as [-> | ->]; apply leader_request_run.
  - by apply AddVoter_refused.
  - unfold RemoveNode, is_empty. rewrite bool_decide_eq_false_2 by done. apply leader_request_run.
  - destruct (decide (id = EmptyString)) as [-> |]; [by eexists | done].
Qed.

(** ** Members and Status *)

Lemma members_loop_fmap servers nodes : members_loop servers nodes = nodes ++ (node_of_server <$> servers).
Proof.
  revert nodes. induction servers as [| s servers IH]; intros nodes; simpl; [by rewrite app_nil_r |].
  by rewrite IH, <- app_assoc.
Qed.

(** The role of the first node of a list with the given ID. *)
Definition role_in (id : string) (ns : list Node) : NodeRole :=
  match filter (fun n => ID n = id) ns with n :: _ => Role n | [] => RoleNone end.

Lemma local_role_in id servers : local_role id servers RoleNone = role_in id (node_of_server <$> servers).
Proof.
  unfold role_in. induction servers as [| s servers IH]; [done |]. simpl.
  rewrite filter_cons. simpl. case_bool_decide; [by rewrite decide_True | by rewrite decide_False].
Qed.

(** C35. Status and Members agree: both report the configuration Raft gives, in
    its order; the local role is that of this node's entry in the member list,
    or none without one; the leader is reported exactly when Raft knows its ID;
    the applied index is the state machine's; and nothing but Raft's own state
    moves. *)
Theorem Status_reports (w : World) servers r1 s r2 addr id r3 :
  closed (w_db w) = false ->
  raft_State (raft (w_db w)) = (r1, s) -> raft_LeaderWithID r1 = (r2, (addr, id)) ->
  raft_GetConfiguration r2 = (r3, Ok servers) ->
  exists st ms, DB_Status w = (set_raft r3 w, Ok st) /\ Members (set_raft r2 w) = (set_raft r3 w, Ok ms) /\
    ms = node_of_server <$> servers /\
    Role (st_Local st) = role_in (ID (st_Local st)) ms /\ ID (st_Local st) = NodeID (cfg (w_db w)) /\
    st_State st = stateFromRaft s /\ st_AppliedIndex st = appliedIndex (w_db w) /\
    (st_Leader st = None <-> id = EmptyString) /\
    (forall l, st_Leader st = Some l -> l = mkNode id addr RoleVoter).
Proof.
  intros Hc E1 E2 E3.
  assert (st_Leader (mkStatus (mkNode (NodeID (cfg (w_db w))) (transport_LocalAddr (raft (w_db w)))
      (local_role (NodeID (cfg (w_db w))) servers RoleNone)) (stateFromRaft s)
      (if negb (is_empty id) then Some (mkNode id addr RoleVoter) else None) (appliedIndex (w_db w))) =
    if negb (is_empty id) then Some (mkNode id addr RoleVoter) else None) as Hl by done.
  eexists _, (node_of_server <$> servers). split; [| split; [| split; [done |]]].
  - unfold DB_Status. rewrite checked_open by done. unfold raft_call, st_bind, st_get, st_lift, st_ret.
    rewrite E1. cbn [fst snd set_raft set_db w_db raft]. rewrite E2. cbn [fst snd set_raft set_db w_db raft].
    rewrite E3. reflexivity.
  - unfold Members. rewrite checked_open by done. unfold raft_call, st_bind, st_lift, st_ret.
    cbn [set_raft set_db w_db raft]. rewrite E3. cbn [fst snd]. by rewrite members_loop_fmap.
  - cbn [st_Local st_State st_AppliedIndex Role ID]. split; [apply local_role_in |].
    split; [done |]. split; [done |]. split; [done |]. cbn [st_Leader]. unfold is_empty.
    case_bool_decide; simpl; split; naive_solver.
Qed.

(** ** WaitForLeader *)

Definition wait_outcome (deadline : Z) (w w' : World) (r : result error Node) : Prop :=
  match r with
  | Ok n => ID n <> EmptyString /\ Role n = RoleVoter /\
            exists r0, raft_LeaderWithID r0 = (raft (w_db w'), (RaftAddr n, ID n))
  | Err e => (e = Sentinel ErrClosed /\ closed (w_db w) = true) \/
             (Is e ErrNoLeader = true /\ (deadline <= w_clock w')%Z)
  end.

Lemma wait_loop_ends timeout deadline fuel : forall w : World,
  0 < fuel -> (deadline - w_clock w <= Z.of_nat (pred fuel) * leaderPollInterval)%Z ->
  exists w' r, wait_loop fuel timeout deadline w = (w', r) /\ wait_outcome deadline w w' r.
Proof.
  induction fuel as [| fuel IH]; intros w Hf Hd; [lia |]. cbn [wait_loop].
  destruct (closed (w_db w)) eqn:Hc; [rewrite checked_closed by done; eexists _, _; split; [done | by left] |].
  rewrite checked_open by done. unfold raft_call, st_bind at 1.
  destruct (raft_LeaderWithID (raft (w_db w))) as [r1 [addr id]] eqn:E. cbn [fst snd].
  unfold is_empty. case_bool_decide as Hid; cbn [negb].
  2:{ eexists _, _. split; [done |]. split; [done |]. split; [done |]. by eexists. }
  unfold st_bind at 1, time_Now. cbn [set_raft set_db w_clock w_db w_fs w_faults w_ticks].
  destruct (Z.ltb_spec (w_clock w) deadline); cbn [negb].
  - unfold st_bind, time_Sleep. lazymatch goal with |- context [wait_loop fuel timeout deadline ?w2] =>
      destruct (IH w2) as (w' & r & E2 & Hr) end.
    + unfold leaderPollInterval, Millisecond in *. simpl in Hd. lia.
    + cbn [w_clock]. unfold tick. cbn [w_ticks]. unfold leaderPollInterval, Millisecond in *.
      destruct fuel as [| fuel]; simpl in *; repeat case_match; lia.
    + exists w', r. split; [exact E2 |]. unfold wait_outcome in *. destruct r as [n | e]; [done |].
      destruct Hr as [[-> Hcl] | ?]; [| by right]. simpl in Hcl. congruence.
  - eexists _, _. split; [done |]. right. split; [done |]. simpl. unfold tick. simpl.
    repeat case_match; lia.
Qed.

(** C36. [WaitForLeader] always returns, within the number of polls its timeout
    allows: with a voter whose ID is not empty and which Raft names at that
    moment, with [ErrClosed] on a closed node, or with [ErrNoLeader] at a time not
    before the deadline. *)
Theorem WaitForLeader_ends timeout (w : World) :
  exists w' r, WaitForLeader timeout w = (w', r) /\
    wait_outcome (w_clock w + timeout) w w' r /\ r <> Err out_of_fuel.
Proof.
  destruct w as [db fs fl clk tk].
  set (w1 := mkWorld db fs fl (clk + tick (mkWorld db fs fl clk tk)) (tail tk)).
  destruct (wait_loop_ends timeout (clk + timeout) (wait_fuel timeout) w1) as (w' & r & E & Hr).
  - unfold wait_fuel. lia.
  - unfold wait_fuel, w1. cbn [w_clock]. unfold leaderPollInterval, Millisecond.
    pose proof (Z.mul_succ_div_gt timeout (20 * 1000000)). unfold tick. cbn [w_ticks].
    destruct (Z.le_gt_cases 0 (timeout / (20 * 1000000))); repeat case_match; lia.
  - exists w', r. split; [exact E |]. split; [exact Hr |]. intros ->.
    destruct Hr as [[? _] | [? _]]; done.
Qed.

End ClusterProps.

(** ** Witnesses *)
Section Witnesses.
Import SimInstances.

Definition w_cl : World := Sim.world Sim.leader Sim.kv1 [].

Lemma Status_reports_witness :
  exists st ms, DB_Status w_cl = (w_cl, Ok st) /\ Members w_cl = (w_cl, Ok ms) /\
    Role (st_Local st) = role_in (ID (st_Local st)) ms.
Proof.
  destruct (Status_reports w_cl (SimRaft.s_servers Sim.leader) Sim.leader raft_Leader Sim.leader
              "127.0.0.1:7001" "n1" Sim.leader) as (st & ms & E1 & E2 & _ & E3 & _); try reflexivity.
  exists st, ms. split; [exact E1 |]. split; [exact E2 | exact E3].
Defined.

(** A joined node is reported as a voter. *)
Example join_run :
  snd (Members (fst (AddVoter (mkNode "n2" "127.0.0.1:7002" RoleNone) w_cl))) =
    Ok [mkNode "n1" "127.0.0.1:7001" RoleVoter; mkNode "n2" "127.0.0.1:7002" RoleVoter] /\
  snd (WaitForLeader Second w_cl) = Ok (mkNode "n1" "127.0.0.1:7001" RoleVoter).
Proof. by vm_compute. Qed.

End Witnesses.
