(* ===== verification/Frame.v ===== *)
(** * Frame: what only [Close] may change

    Every operation but [Close] leaves a node's configuration, its directories
    and its shutdown state alone, and no operation turns the clock back.  The
    proof is by the shape of the code: a hint database follows the monad. *)
From S2P Require Import Prelude Errors Types Options Command Codec Bytes Badger Files Raft Node Fsm Write Read Cluster.

Section Frame.
Context `{B : BadgerOps} {R : RaftOps backup} `{C : Codec}.

(** The fields of a node that are fixed between [Open] and [Close]. *)
Definition fixed (d : DB) : Config * badger_Options * string * bool * bool * option error :=
  (cfg d, badgerOpts d, badgerDir d, closed d, closeOnce d, closeErr d).

Definition framed {A} (m : ST World error A) : Prop :=
  forall w, fixed (w_db (fst (m w))) = fixed (w_db w) /\ (w_clock w <= w_clock (fst (m w)))%Z.

Lemma framed_bind {A D} (m : ST World error A) (f : A -> ST World error D) :
  framed m -> (forall a, framed (f a)) -> framed (st_bind m f).
Proof.
  intros Hm Hf w. unfold st_bind. pose proof (Hm w) as [H Hk]. destruct (m w) as [w' [a | e]]; simpl in *; [| done].
  destruct (Hf a w') as [H' Hk']. split; [congruence | lia].
Qed.

Lemma framed_try {A} (m : ST World error A) : framed m -> framed (st_try m).
Proof. intros Hm w. unfold st_try. pose proof (Hm w) as H. by destruct (m w). Qed.

Lemma framed_ret {A} (a : A) : framed (st_ret a). Proof. by split. Qed.
Lemma framed_err {A} e : framed (A := A) (st_err e). Proof. by split. Qed.
Lemma framed_lift {A} (r : result error A) : framed (st_lift r). Proof. by split. Qed.
Lemma framed_get : framed st_get. Proof. by split. Qed.
Lemma framed_pop : framed pop_fault. Proof. intros w. unfold pop_fault. by destruct (w_faults w). Qed.
Lemma framed_now : framed time_Now.
Proof. split; [done |]. pose proof (tick_nonneg w). simpl. lia. Qed.
Lemma framed_sleep d : framed (time_Sleep d).
Proof. split; [done |]. pose proof (tick_nonneg w). simpl. lia. Qed.
Lemma framed_fs f : framed (st_mod (fun w => set_fs (f w) w)). Proof. by split. Qed.
Lemma framed_fs' fs : framed (st_mod (set_fs fs)). Proof. by split. Qed.
Lemma framed_store s : framed (st_mod (set_store s)). Proof. by split. Qed.
Lemma framed_index i : framed (st_mod (set_appliedIndex i)). Proof. by split. Qed.
Lemma framed_log e : framed (st_mod (add_log e)). Proof. by split. Qed.
Lemma framed_call {A} (f : raftw -> raftw * A) : framed (raft_call f). Proof. by split. Qed.

End Frame.

Create HintDb frame discriminated.
#[export] Hint Resolve framed_bind framed_try framed_ret framed_err framed_lift framed_get framed_pop
  framed_now framed_sleep framed_fs framed_fs' framed_store framed_index framed_log framed_call : frame.

(** Follow the code. *)
Ltac solve_framed :=
  repeat first
    [ progress intros | done
    | progress autounfold with frame
    | match goal with
      | |- framed (match ?x with _ => _ end) => destruct x
      | |- framed (let '(_, _) := ?x in _) => destruct x
      end
    | solve [eauto 2 with frame] | apply framed_bind | apply framed_try ].

#[export] Hint Unfold os_call os_RemoveAll os_MkdirAll os_Rename badger_Open badger_Close badger_Load
  badger_Update logger_Printf checkOpen withStore closeStore reopenLocked notLeaderErr ignore
  or_restoreErr restoreErr rollbackAndReopenLocked wipe_dir closeForSwap raft_error : frame.

Section Framed.
Context `{B : BadgerOps} {R : RaftOps backup} `{C : Codec}.

Lemma Apply_framed l : framed (Apply l).
Proof. unfold Apply. solve_framed. Qed.

Lemma or_restoreErr_framed {A} (m : ST World error A) c s : framed m -> framed c -> framed (or_restoreErr m c s).
Proof. intros. unfold or_restoreErr. solve_framed. Qed.

Lemma closeStore_framed : framed closeStore.
Proof. unfold closeStore. solve_framed. Qed.

Lemma restoreInPlace_framed rc : framed (restoreInPlace rc).
Proof. unfold restoreInPlace. solve_framed. Qed.

Lemma Restore_framed rc : framed (Restore rc).
Proof.
  pose proof (restoreInPlace_framed rc).
  unfold Restore, restoreStage, restoreSwap. solve_framed.
Qed.

Lemma fsm_calls_framed cs : framed (fsm_calls cs).
Proof.
  induction cs as [| [l | rc] cs IH]; simpl; [done | |];
    pose proof Apply_framed; pose proof Restore_framed; solve_framed.
Qed.

Lemma raft_await_framed f : framed (raft_await f).
Proof. pose proof fsm_calls_framed. unfold raft_await. solve_framed. Qed.

Lemma wait_loop_framed fuel timeout deadline : framed (wait_loop fuel timeout deadline).
Proof. induction fuel; simpl; solve_framed. Qed.

Lemma waitForLeader_framed timeout : framed (waitForLeader timeout).
Proof. pose proof wait_loop_framed. unfold waitForLeader. solve_framed. Qed.

(** ** The operations *)

Lemma apply_framed cmd : framed (apply cmd).
Proof. pose proof raft_await_framed. unfold apply. solve_framed. Qed.

Lemma resolveSetOptions_framed opts : framed (resolveSetOptions opts).
Proof. unfold resolveSetOptions. solve_framed. Qed.

Lemma SetBytes_framed key value opts : framed (SetBytes key value opts).
Proof. pose proof apply_framed. pose proof resolveSetOptions_framed. unfold SetBytes. solve_framed. Qed.

Lemma batch_loop_framed ms : forall i seen ps ds, framed (batch_loop i ms seen ps ds).
Proof. pose proof resolveSetOptions_framed. induction ms; intros; simpl; solve_framed. Qed.

Lemma Batch_framed ms : framed (Batch ms).
Proof. pose proof apply_framed. pose proof batch_loop_framed. unfold Batch. solve_framed. Qed.

Lemma Barrier_framed t : framed (Barrier t).
Proof. pose proof raft_await_framed. unfold Barrier. solve_framed. Qed.

Lemma prepareRead_framed ro : framed (prepareRead ro).
Proof. pose proof Barrier_framed. unfold prepareRead. solve_framed. Qed.

Lemma GetBytes_framed key ro : framed (GetBytes key ro).
Proof. pose proof prepareRead_framed. unfold GetBytes, getBytes, txn_get, item_ValueCopy. solve_framed. Qed.

Lemma scan_loop_framed prefix limit it : forall es, framed (scan_loop prefix limit it es).
Proof. induction it; intros; simpl; unfold item_ValueCopy; solve_framed. Qed.

Lemma ScanPrefixBytes_framed prefix so : framed (ScanPrefixBytes prefix so).
Proof. pose proof prepareRead_framed. pose proof scan_loop_framed. unfold ScanPrefixBytes. solve_framed. Qed.

Lemma AddVoter_framed node : framed (AddVoter node).
Proof. pose proof raft_await_framed. unfold AddVoter. solve_framed. Qed.

Lemma DB_Status_framed : framed DB_Status.
Proof. unfold DB_Status. solve_framed. Qed.

End Framed.

#[export] Hint Resolve Apply_framed Restore_framed fsm_calls_framed raft_await_framed waitForLeader_framed
  apply_framed SetBytes_framed Batch_framed Barrier_framed prepareRead_framed GetBytes_framed
  ScanPrefixBytes_framed AddVoter_framed DB_Status_framed : frame.
