(* ===== verification/Session.v ===== *)
(** * Session: a caller that writes and then reads on one node

    [write.go] and [read.go] together: what a linearizable read returns after a
    write of the same key returned [nil], whatever the cluster did in between. *)
From S2P Require Import Prelude Errors Types Options Command Codec Badger Files Raft Node Fsm Wp Sim FsmApply Linear Write WriteProps Read ReadProps Frame.

Section Session.
Context `{B : BadgerOps} `{R : RaftOps backup} `{C : Codec} `{L : !BadgerLaws} `{RL : !RaftLaws backup} `{CL : !CodecLaws}.

(** ** A node goes on *)

(** The committed log grew, and the node was given more of it. *)
Definition goes_on (base : kv) (n : nat) (w w' : World) : Prop :=
  committed (raft (w_db w)) `prefix_of` committed (raft (w_db w')) /\
  forall rs, tracks base n rs w -> exists rs', tracks base n (rs ++ rs') w'.

#[export] Instance goes_on_preorder base n : PreOrder (goes_on base n).
Proof.
  split; [intros w; split; [done |]; intros rs H; exists []; by rewrite app_nil_r |].
  intros w1 w2 w3 [P1 H1] [P2 H2]. split; [by etrans |]. intros rs H.
  destruct (H1 rs H) as [rs1 Ht1]. destruct (H2 _ Ht1) as [rs2 Ht2]. exists (rs1 ++ rs2). by rewrite app_assoc.
Qed.

Lemma later_goes_on base n w w' : later w w' -> goes_on base n w w'.
Proof.
  intros (Hd & _). unfold goes_on, tracks. rewrite Hd. split; [done |]. intros rs H. exists []. by rewrite app_nil_r.
Qed.

(** A caught-up read leaves its node further on. *)
Lemma prepareRead_goes_on base n rs ro w w' :
  tracks base n rs w -> Mode ro = ReadLinearizable -> prepareRead ro w = (w', Ok tt) -> goes_on base n w w'.
Proof.
  intros Ht Hm H. split.
  - by destruct (prepareRead_linear _ _ _ _ _ _ Ht Hm H) as (rs' & _ & _ & Hp & _).
  - intros rs0 Ht0. destruct (prepareRead_linear _ _ _ _ _ _ Ht0 Hm H) as (rs' & _ & Ht' & _). by exists rs'.
Qed.

(** ** Replaying from an entry on *)

Lemma replay_split ls rs m i l c :
  ls !! i = Some l -> rs !! i = Some None -> decodeCommand (Data l) = Ok c ->
  replay ls rs m = replay (drop (S i) ls) (drop (S i) rs) (cmd_apply (replay (take i ls) (take i rs) m) c).
Proof.
  intros Hl Hr Hd. pose proof (lookup_lt_Some _ _ _ Hl). pose proof (lookup_lt_Some _ _ _ Hr).
  rewrite <- (take_drop_middle ls i l Hl) at 1. rewrite <- (take_drop_middle rs i None Hr) at 1.
  rewrite replay_app by (rewrite !length_take; lia). rewrite replay_cons. unfold replay_entry at 1. simpl. by rewrite Hd.
Qed.

(** Commands are blind writes: what a key holds depends on what it held, and on
    nothing else. *)
Lemma replay_entry_key key e (m1 m2 : kv) : m1 !! key = m2 !! key -> replay_entry m1 e !! key = replay_entry m2 e !! key.
Proof.
  intros H. unfold replay_entry. destruct (snd e); [done |]. destruct (decodeCommand _); [| done].
  rewrite !cmd_apply_writes, !writes_apply_lookup. by destruct (last_write key _).
Qed.

Lemma replay_key key ls rs : forall m1 m2 : kv, m1 !! key = m2 !! key -> replay ls rs m1 !! key = replay ls rs m2 !! key.
Proof.
  revert rs. induction ls as [| l ls IH]; intros [| r rs] m1 m2 H; [done .. |].
  rewrite !replay_cons. by apply IH, replay_entry_key.
Qed.

(** No entry of [ls] that was applied writes [key]. *)
Definition untouched (key : string) (ls : list rlog) (rs : list (option error)) : Prop :=
  Forall (fun e => snd e = None -> forall c, decodeCommand (Data (fst e)) = Ok c -> last_write key (cmd_writes c) = None) (zip ls rs).

Lemma replay_untouched key ls rs : forall m : kv, untouched key ls rs -> replay ls rs m !! key = m !! key.
Proof.
  revert rs. induction ls as [| l ls IH]; intros [| r rs] m H; [done .. |]. inversion H as [| ? ? Hh Ht]; subst.
  rewrite replay_cons, (IH rs _ Ht). unfold replay_entry. simpl in *. destruct r as [e |]; [done |].
  destruct (decodeCommand (Data l)) as [c | e] eqn:E; [| done].
  rewrite cmd_apply_writes, writes_apply_lookup. by rewrite (Hh eq_refl c eq_refl).
Qed.

Lemma visible_key t key (m1 m2 : kv) : m1 !! key = m2 !! key -> visible t m1 key = visible t m2 key.
Proof. unfold visible. by intros ->. Qed.

Lemma point_read_key key t (m1 m2 : kv) fl r :
  m1 !! key = m2 !! key -> point_read key t m1 fl r -> point_read key t m2 fl r.
Proof. intros H. unfold point_read, read_outcome. by rewrite (visible_key t key m1 m2 H). Qed.

(** ** A write, then a read *)

(** The store with nothing but what [o] writes under [key]. *)
Definition only (key : string) (o : option bentry) : kv := write_apply ∅ (key, o).

Lemma only_key key o : only key o !! key = o.
Proof. unfold only, write_apply. destruct o; simpl; by rewrite ?lookup_insert_eq, ?lookup_delete_eq. Qed.

(** What a read of [key] in the world [wr] returns after the write of [o]: the
    replay over it of the entries committed after it, of which [p] were
    committed up to it. *)
Definition reads_write (key : string) (o : option bentry) (p : nat) (now : Z) (wr : World) (r : result error string) : Prop :=
  exists since responses,
    since = take (length responses) (drop p (committed (raft (w_db wr)))) /\
    point_read key now (replay since responses (only key o)) (w_faults wr) r /\
    (untouched key since responses -> point_read key now (only key o) (w_faults wr) r).

Lemma read_after base n rs key o i l c h (w wr : World) now r :
  tracks base n rs wr -> store (w_db wr) = Some h ->
  committed (raft (w_db w)) `prefix_of` committed (raft (w_db wr)) ->
  committed (raft (w_db w)) !! (n + i) = Some l -> decodeCommand (Data l) = Ok c -> rs !! i = Some None ->
  (forall m0, cmd_apply m0 c !! key = o) ->
  point_read key now (contents (h_db h)) (w_faults wr) r ->
  reads_write key o (S (n + i)) now wr r.
Proof.
  intros (h' & Hs' & Hn & Hc) Hs Hp Hl Hd Hr Hcmd Hread. assert (h' = h) as -> by congruence.
  pose proof (lookup_lt_Some _ _ _ Hr) as Hi. pose proof (applied_committed (raft (w_db wr))) as Hle.
  set (log := committed (raft (w_db wr))) in *. apply (prefix_lookup_Some _ _ _ _ Hl) in Hp.
  assert (take (length rs) (drop n log) !! i = Some l) as Hli.
  { rewrite lookup_take_lt, lookup_drop by done. done. }
  rewrite (replay_split _ _ _ _ _ _ Hli Hr Hd) in Hc.
  assert (drop (S i) (take (length rs) (drop n log)) = take (length (drop (S i) rs)) (drop (S (n + i)) log)) as Hsince.
  { rewrite skipn_firstn_comm, drop_drop, length_drop. do 2 f_equal. lia. }
  exists (take (length (drop (S i) rs)) (drop (S (n + i)) log)), (drop (S i) rs). split; [done |].
  rewrite Hsince in Hc. set (since := take _ _) in *. set (m0 := replay (take i _) _ _) in *.
  assert (cmd_apply m0 c !! key = only key o !! key) as Hk by (by rewrite Hcmd, only_key).
  split; [| intros Hu].
  - eapply point_read_key; [| exact Hread]. rewrite Hc. by apply replay_key.
  - eapply point_read_key; [| exact Hread]. rewrite Hc, replay_untouched by done. exact Hk.
Qed.

(** ** The calls of a writer *)

(** The writing methods of [DB]. *)
Inductive write_call : Set :=
| WSet (key value : string) (opts : list SetOption)
| WDelete (key : string)
| WBatch (ms : list Mutation).

Definition call_write (c : write_call) : ST World error unit :=
  match c with
  | WSet key value opts => SetBytes key value opts
  | WDelete key => DeleteBytes key
  | WBatch ms => Batch ms
  end.

(** A call as the mutations it stands for. *)
Definition mutations (c : write_call) : list Mutation :=
  match c with
  | WSet key value opts => [SetBytesOp key value opts]
  | WDelete key => [DeleteBytesOp key]
  | WBatch ms => ms
  end.

Lemma call_write_framed c : framed (call_write c).
Proof. destruct c; [apply SetBytes_framed | | apply Batch_framed]. pose proof apply_framed. unfold call_write, DeleteBytes. solve_framed. Qed.

(** What a call that returned [nil] submitted, as to one of its mutations. *)
Definition submitted (c : write_call) (m : Mutation) (w : World) : Prop :=
  exists w' cmd t, call_write c w = apply cmd w' /\ later w w' /\ wf_command cmd /\
    (w_clock w <= t <= w_clock w')%Z /\ m_key m <> EmptyString /\
    forall m0, cmd_apply m0 cmd !! m_key m = snd (mutation_write t m).

Lemma submits_submitted c m w :
  submits (call_write c) w (m_key m) (fun now => snd (mutation_write now m)) -> m_key m <> EmptyString -> submitted c m w.
Proof.
  intros (w' & cmd & E & Hl & Hwf & Hcmd) Hk. exists w', cmd, (w_clock w). do 3 (split; [done |]). split; [pose proof Hl as (_ & _ & _ & ?); lia |]. split; [done |].
  intros m0. rewrite Hcmd. unfold write_apply. destruct (snd (mutation_write _ m)); simpl; by rewrite ?lookup_insert_eq, ?lookup_delete_eq.
Qed.

Lemma batch_submitted ms m w w1 : Batch ms w = (w1, Ok tt) -> m ∈ ms -> submitted (WBatch ms) m w.
Proof.
  intros Hw Hm. pose proof Hw as Hc. apply checked_ok in Hc as [Hc _].
  destruct (decide (batch_valid ms)) as [Hv | Hv].
  2:{ destruct (Batch_refused ms w Hc Hv) as (w' & e & E & _). rewrite E in Hw. by injection Hw. }
  destruct (Batch_submits ms w Hc Hv) as (w' & cmd & ws & E & Hl & Hwf & HF & Hcmd).
  { intros ->. by apply not_elem_of_nil in Hm. }
  apply list_elem_of_lookup_1 in Hm as [j Hj]. destruct (Forall2_lookup_l _ _ _ _ _ HF Hj) as (x & Hx & t & Ht & ->).
  exists w', cmd, t. destruct Hv as [Hval Hnd]. split; [done |]. split; [done |]. split; [done |]. split; [done |].
  split; [by apply (Forall_lookup_1 _ _ _ _ Hval Hj) |]. intros m0. rewrite Hcmd, writes_apply_lookup.
  assert ((m_key m, snd (mutation_write t m)) ∈ ws) as Hx' by (by eapply list_elem_of_lookup_2).
  apply last_write_elem in Hx'; [by rewrite Hx' |]. by rewrite (batch_keys (fun t => (w_clock w <= t <= w_clock w')%Z) ms ws HF).
Qed.

Lemma call_submitted c m w w1 : call_write c w = (w1, Ok tt) -> m ∈ mutations c -> submitted c m w.
Proof.
  destruct c as [key value opts | key | ms]; simpl; intros Hw Hm; [| | by eapply batch_submitted].
  - apply list_elem_of_singleton in Hm as ->.
    destruct (decide (key <> EmptyString /\ opts_valid opts)) as [[Hk Ho] | Hno].
    + by apply submits_submitted; [apply SetBytes_submits |].
    + destruct (SetBytes_refused key value opts w Hno) as (e & E & _). rewrite E in Hw. by injection Hw.
  - apply list_elem_of_singleton in Hm as ->.
    destruct (decide (key = EmptyString)) as [-> | Hk]; [by injection Hw |].
    by apply submits_submitted; [apply DeleteBytes_submits |].
Qed.

(** The entry of a call that returned [nil]. *)
Lemma call_delivers base n rs c m (w w1 : World) :
  tracks base n rs w -> call_write c w = (w1, Ok tt) -> m ∈ mutations c ->
  m_key m <> EmptyString /\
  exists i rs' l cmd t, tracks base n (rs ++ rs') w1 /\ length (committed (raft (w_db w))) <= n + i /\
    committed (raft (w_db w1)) !! (n + i) = Some l /\ decodeCommand (Data l) = Ok cmd /\ (rs ++ rs') !! i = Some None /\
    (w_clock w <= t <= w_clock w1)%Z /\ forall m0, cmd_apply m0 cmd !! m_key m = snd (mutation_write t m).
Proof.
  intros Ht Hw Hm. destruct (call_submitted _ _ _ _ Hw Hm) as (w0 & cmd & t & Es & (Hdb & _) & Hwf & Hclk & Hk & Hcmd).
  split; [done |]. pose proof (eq_trans (eq_sym Es) Hw) as Ha. assert (tracks base n rs w0) as Ht0 by (unfold tracks; by rewrite Hdb).
  destruct (apply_framed cmd w0) as [_ Hk1]. rewrite Ha in Hk1. cbn [fst] in Hk1.
  destruct (apply_delivers _ _ _ _ _ _ Ht0 Hwf Ha) as (i & rs' & l & _ & Ht1 & Hi & Hli & Hd & Hri).
  exists i, rs', l, cmd, t. rewrite Hdb in Hi. repeat split; (done || lia).
Qed.


End Session.

(** ** Witness *)
Section Witnesses.
Import SimInstances.

(** A batch sets "k" and deletes "a"; after another linearizable read, "k" is
    read back. *)
Definition ms1 : list Mutation := [SetBytesOp "k" "v" []; DeleteBytesOp "a"].
Definition s0 : World := Sim.world Sim.leader Sim.kv1 [].
Definition s1 : World := fst (Batch ms1 s0).
Definition s2 : World := fst (prepareRead zeroReadOptions s1).
Definition s3 : World := fst (GetBytes "k" zeroReadOptions s2).

Lemma s0_tracks : tracks Sim.kv1 0 [] s0.
Proof. by eexists. Qed.

Definition s1_store : handle := mkHandle Sim.opts (Sim.mem (delete "a" (<[ "k" := Sim.entry "v" ]> Sim.kv1))).

Lemma s1_tracks : tracks Sim.kv1 0 [None] s1.
Proof.
  exists s1_store. split; [vm_cast_no_check (eq_refl (Some s1_store)) |].
  split; [vm_compute; reflexivity |]. vm_cast_no_check (eq_refl (contents (h_db s1_store))).
Qed.

Lemma run_to {W E A} (m : W -> W * result E A) w r : snd (m w) = r -> m w = (fst (m w), r).
Proof. intros <-. apply surjective_pairing. Qed.

Lemma s1_run : call_write (WBatch ms1) s0 = (s1, Ok tt).
Proof. apply (run_to (Batch ms1) s0). vm_compute. reflexivity. Qed.

Lemma s2_run : prepareRead zeroReadOptions s1 = (s2, Ok tt).
Proof. unfold s2. apply (run_to (prepareRead zeroReadOptions) s1). vm_compute. reflexivity. Qed.

Lemma s3_run : GetBytes "k" zeroReadOptions s2 = (s3, Ok "v").
Proof. unfold s3. apply (run_to (GetBytes "k" zeroReadOptions) s2). vm_compute. reflexivity. Qed.

Lemma s2_goes_on : goes_on Sim.kv1 0 s1 s2.
Proof. exact (prepareRead_goes_on Sim.kv1 0 [None] zeroReadOptions s1 s2 s1_tracks eq_refl s2_run). Qed.


End Witnesses.
