(* ===== verification/Open.v ===== *)
(** * Open: [Open] and [Close] of [db.go]

    [Open] acquires the store, the Raft log store, the transport and the Raft
    node in turn.  Go's deferred cleanups read the variable [err] of the function
    when it returns, not the returned error: the model keeps that variable and
    the stack of deferred functions, and a trace of what was opened, closed and
    bootstrapped. *)
From S2P Require Import Prelude Errors Types Options Command Codec Badger Files Raft Node Fsm Cluster.

Definition snapshotRetainCount : Z := 2.
Definition transportMaxPool : Z := 3.
Definition transportTimeout : Duration := 10 * Second.

(** The fields of [raft.Config] the source sets over Raft's defaults. *)
Record raft_Config := mkRaftConfig {
  LocalID : string;
  rc_SnapshotThreshold : Z;
  TrailingLogs : Z;
  rc_LogOutput : option string
}.

(** The third-party constructors [Open] calls.  [NewRaft] restores the node's
    latest snapshot, so it lists the calls it makes on the state machine. *)
Class OpenOps (backup : Type) `{RaftOps backup} := {
  addrw : Type;
  boltw : Type;
  snapw : Type;
  transw : Type;
  raft_nil : raftw;      (** what a node holds before it has a Raft instance *)
  net_ResolveTCPAddr : string -> result error addrw;
  NewBoltStore : string -> result error boltw;
  NewFileSnapshotStore : string -> Z -> option string -> result error snapw;
  NewTCPTransport : string -> option addrw -> Z -> Duration -> option string -> result error transw;
  LocalAddr : transw -> string;
  BootstrapCluster : raft_Config -> boltw -> snapw -> transw -> list Server -> boltw * option error;
  NewRaft : raft_Config -> boltw -> snapw -> transw -> list (fsm_call backup) * result error raftw
}.

(** ** Validation *)

(** The loop of [parseOpenOptions]. *)
Fixpoint parse_loop (options : list OpenOption) (newCluster : bool) : result error bool :=
  match options with
  | [] => Ok newCluster
  | newClusterOption :: options =>
      if newCluster then Err (invalid "%w: option NewCluster passed more than once" [])
      else parse_loop options true
  | otherOpenOption n :: _ => Err (invalid "%w: unknown open option %T" [ArgType n])
  end.

Definition parseOpenOptions (options : list OpenOption) : result error bool := parse_loop options false.

Definition validateConfig (cfg : Config) : option error :=
  if is_empty (NodeID cfg) then Some (New "honeybadger: missing required Config.NodeID")
  else if is_empty (RaftBind cfg) then Some (New "honeybadger: missing required Config.RaftBind")
  else if is_empty (DataDir cfg) then Some (New "honeybadger: missing required Config.DataDir")
  else None.

(** What [Open] acquires. *)
Inductive resource : Set := Store | Bolt | Transport | RaftNode.

#[export] Instance resource_eq_dec : EqDecision resource.
Proof. solve_decision. Defined.

Section Open.
Context `{B : BadgerOps} {R : RaftOps backup} {O : OpenOps backup} `{C : Codec}.

Abbreviation M := (ST World error).

Definition resolveAdvertise (cfg : Config) : result error (option addrw) :=
  if is_empty (RaftAdvertise (Advanced cfg)) then Ok None
  else
    match net_ResolveTCPAddr (RaftAdvertise (Advanced cfg)) with
    | Err err => Err (Errorf "honeybadger: resolve Config.Advanced.RaftAdvertise: %w" [] err)
    | Ok addr => Ok (Some addr)
    end.

Definition WithoutLogger (o : badger_Options) : badger_Options := mkOptions (Dir o) (ValueDir o) false.

Definition resolveBadgerOptions (cfg : Config) : badger_Options :=
  match BadgerOptions (Advanced cfg) with
  | Some o => o
  | None => WithoutLogger (DefaultOptions (filepath_Join [DataDir cfg; "badger"]))
  end.

(** ** Close *)

(** The body of the function [Close] passes to [closeOnce.Do], in a machine that
    [lift]s the steps of the node and is told of every resource as the call that
    closes it returns. *)
Section Closing.
Context {W : Type} (lift : forall A, M A -> ST W error A) (closed_ : resource -> ST W error unit).

Definition close_stage {A} (r : resource) (m : M A) : ST W error A :=
  let! a := lift _ m in do! closed_ r; ret! a.

Definition close_stages : ST W error (list (option error)) :=
  let! shut := close_stage RaftNode (raft_await raft_ShutdownCall) in
  let! e2 := close_stage Transport (raft_call transport_Close) in
  let! e3 := close_stage Bolt (raft_call boltStore_Close) in
  let! e4 := close_stage Store (st_try closeStore) in
  ret! [fst shut; e2; e3; error_of e4].

Definition closing : ST W error unit :=
  let! w := lift _ st_get in
  if closeOnce (w_db w) then lift _ (st_lift (of_error (closeErr (w_db w))))
  else
    do! lift _ (st_mod set_closed);
    let! errs := close_stages in
    let err := errors_Join errs in
    do! lift _ (st_mod (set_closeErr err));
    lift _ (st_lift (of_error err)).

End Closing.

(** The method [Close] of [DB]. *)
Definition Close : M unit := closing (fun _ m => m) (fun _ => ret! tt).

(** ** Open *)

Inductive event : Type :=
| Opened (r : resource)
| Closed (r : resource)
| Bootstrapped (servers : list Server).

(** A running [Open]: the world (with the node under construction), the
    variable [err], the deferred cleanups, newest first, and the trace. *)
Record OpenWorld := mkOpenWorld {
  o_world : World;
  o_err : option error;
  o_defers : list resource;
  o_trace : list event
}.

Abbreviation OM := (ST OpenWorld error).

Definition on_node {A} (m : M A) : OM A := fun o =>
  let p := m (o_world o) in (mkOpenWorld (fst p) (o_err o) (o_defers o) (o_trace o), snd p).
Definition set_err (e : option error) : OM unit :=
  st_mod (fun o => mkOpenWorld (o_world o) e (o_defers o) (o_trace o)).
Definition defer (r : resource) : OM unit :=
  st_mod (fun o => mkOpenWorld (o_world o) (o_err o) (r :: o_defers o) (o_trace o)).
Definition record (es : list event) : OM unit :=
  st_mod (fun o => mkOpenWorld (o_world o) (o_err o) (o_defers o) (o_trace o ++ es)).

(** [x, err := m; if err != nil { return nil, fmt.Errorf(format, err) }]. *)
Definition assign_err {A} (m : OM A) (format : string) : OM A :=
  let! r := st_try m in
  do! set_err (error_of r);
  match r with
  | Ok a => ret! a
  | Err err => fail! (Errorf format [] err)
  end.

(** The same with an [err] of its own. *)
Definition shadow_err {A} (m : OM A) (format : string) : OM A :=
  let! r := st_try m in
  match r with Ok a => ret! a | Err err => fail! (Errorf format [] err) end.

(** The call of [db.Close] inside [Open], whose error is dropped: what it closes
    goes on the trace. *)
Definition open_Close : OM unit :=
  do! st_try (closing (@on_node) (fun r => record [Closed r])); ret! tt.

(** A deferred cleanup: [if err != nil { close }]. *)
Definition run_defer (r : resource) : OM unit :=
  let! o := st_get in
  match o_err o with
  | None => ret! tt
  | Some _ =>
      do! (match r with Store => on_node (ignore closeStore) | _ => ret! tt end);
      record [Closed r]
  end.

Fixpoint run_defers (ds : list resource) : OM unit :=
  match ds with [] => ret! tt | r :: ds => do! run_defer r; run_defers ds end.

(** Up to the transport: the resources Raft is built on. *)
Definition open_resources (cfg : Config) (advertise : option addrw) : OM (boltw * snapw * transw) :=
  let badgerOpts := resolveBadgerOptions cfg in
  do! on_node (st_mod (set_db (fun _ =>
        mkDB cfg raft_nil [] None badgerOpts (Dir badgerOpts) false false None 0)));
  do! shadow_err (on_node (os_MkdirAll (comps (Dir badgerOpts)))) "honeybadger: create badger dir: %w";
  let! store := assign_err (on_node (badger_Open badgerOpts)) "honeybadger: open badger: %w" in
  do! on_node (st_mod (set_store (Some store)));
  do! record [Opened Store];
  do! defer Store;
  let raftDir := filepath_Join [DataDir cfg; "raft"] in
  do! assign_err (on_node (os_MkdirAll (comps raftDir))) "honeybadger: create raft dir: %w";
  let! boltStore := assign_err (st_lift (NewBoltStore (filepath_Join [raftDir; "raft.db"])))
                      "honeybadger: open raft bolt store: %w" in
  do! record [Opened Bolt];
  do! defer Bolt;
  let! snaps := assign_err (st_lift (NewFileSnapshotStore raftDir snapshotRetainCount (LogOutput (Advanced cfg))))
                  "honeybadger: open snapshot store: %w" in
  let! transport := assign_err (st_lift (NewTCPTransport (RaftBind cfg) advertise transportMaxPool transportTimeout
                                           (LogOutput (Advanced cfg))))
                      "honeybadger: open raft transport: %w" in
  do! record [Opened Transport];
  do! defer Transport;
  ret! (boltStore, snaps, transport).

(** The bootstrap of a new cluster: the log store it leaves. *)
Definition open_bootstrap (cfg : Config) (raftCfg : raft_Config) (bolt : boltw) (snaps : snapw)
    (transport : transw) : OM boltw :=
  let servers := [mkServer raft_Voter (NodeID cfg) (LocalAddr transport)] in
  let p := BootstrapCluster raftCfg bolt snaps transport servers in
  do! record [Bootstrapped servers];
  do! set_err (snd p);
  do! (match snd p with
       | Some err =>
           if negb (Is err raft_ErrCantBootstrap)
           then fail! (Errorf "honeybadger: bootstrap cluster: %w" [] err) else ret! tt
       | None => ret! tt
       end);
  do! set_err None;
  ret! (fst p).

(** From the Raft configuration on. *)
Definition open_raft (cfg : Config) (newCluster : bool) (rs : boltw * snapw * transw) : OM unit :=
  let '(bolt, snaps, transport) := rs in
  let a := Advanced cfg in
  let raftCfg := mkRaftConfig (NodeID cfg) (SnapshotThreshold a) (SnapshotThreshold a) (LogOutput a) in
  let! bolt := if newCluster then open_bootstrap cfg raftCfg bolt snaps transport else ret! bolt in
  let p := NewRaft raftCfg bolt snaps transport in
  do! on_node (fsm_calls (fst p));
  let! raft := assign_err (st_lift (snd p)) "honeybadger: start raft: %w" in
  do! on_node (st_mod (set_raft raft));
  do! record [Opened RaftNode];
  if newCluster then
    let! r := st_try (on_node (waitForLeader newClusterLeaderTimeout)) in
    match r with
    | Err werr =>
        do! open_Close;
        do! set_err None;
        fail! (Errorf "honeybadger: open new cluster: %w" [] werr)
    | Ok _ => ret! tt
    end
  else ret! tt.

(** The body of [Open], before the deferred functions run. *)
Definition open_body (cfg : Config) (options : list OpenOption) : OM unit :=
  let! newCluster := st_lift (parseOpenOptions options) in
  match validateConfig cfg with
  | Some err => fail! err
  | None =>
      let cfg := setDefaults cfg in
      let! advertise := st_lift (resolveAdvertise cfg) in
      let! rs := open_resources cfg advertise in
      open_raft cfg newCluster rs
  end.

(** [Open] on a machine in world [w], whose node it sets up: the world and the
    trace it leaves, and its error. *)
Definition Open (cfg : Config) (options : list OpenOption) (w : World) : OpenWorld * result error unit :=
  let '(o, r) := open_body cfg options (mkOpenWorld w None [] []) in
  (fst (run_defers (o_defers o) o), r).

End Open.
