(* ===== verification/OpenProps.v ===== *)
(** * OpenProps: what [Open] and [Close] guarantee *)
From S2P Require Import Prelude Errors Types Options Command Codec Bytes Badger Files Raft Node Fsm Wp Sim FsmApply FsmRestore Linear Write Read Cluster Frame Open.

Definition opened (tr : list event) : list resource :=
  omap (fun e => match e with Opened r => Some r | _ => None end) tr.
Definition closings (tr : list event) : list resource :=
  omap (fun e => match e with Closed r => Some r | _ => None end) tr.
Definition bootstraps (tr : list event) : list (list Server) :=
  omap (fun e => match e with Bootstrapped ss => Some ss | _ => None end) tr.

Lemma opened_app t1 t2 : opened (t1 ++ t2) = opened t1 ++ opened t2.
Proof. apply omap_app. Qed.
Lemma closings_app t1 t2 : closings (t1 ++ t2) = closings t1 ++ closings t2.
Proof. apply omap_app. Qed.
Lemma bootstraps_app t1 t2 : bootstraps (t1 ++ t2) = bootstraps t1 ++ bootstraps t2.
Proof. apply omap_app. Qed.

Section Rules.
Context `{B : BadgerOps} `{R : RaftOps backup} `{O : !OpenOps backup} `{C : Codec}.

Lemma wp_on_node {A} (m : ST World error A) (Q : result error A -> OpenWorld -> Prop) w e ds tr :
  wp m (fun r w' => Q r (mkOpenWorld w' e ds tr)) w -> wp (on_node m) Q (mkOpenWorld w e ds tr).
Proof. done. Qed.

Lemma wp_framed {A} (m : ST World error A) (Q : result error A -> World -> Prop) w :
  framed m -> (forall w' r, fixed (w_db w') = fixed (w_db w) -> Q r w') -> wp m Q w.
Proof. intros Hm H. unfold wp. apply H, (Hm w). Qed.

(** A step of [Open] that may fail: [err] keeps its error. *)
Lemma wp_assign_err {A} (m : ST OpenWorld error A) format (Q : result error A -> OpenWorld -> Prop) o :
  wp m (fun r o' =>
    match r with
    | Ok a => Q (Ok a) (mkOpenWorld (o_world o') None (o_defers o') (o_trace o'))
    | Err err => Q (Err (Errorf format [] err)) (mkOpenWorld (o_world o') (Some err) (o_defers o') (o_trace o'))
    end) o ->
  wp (assign_err m format) Q o.
Proof.
  intros H. unfold assign_err. apply wp_bind, wp_try. eapply wp_mono; [exact H |].
  intros [a | err] o' Hq; by apply wp_bind, wp_mod.
Qed.

(** A framed step on the node under construction. *)
Lemma wp_node_step {A} (m : ST World error A) format (Q : result error A -> OpenWorld -> Prop) w ds tr e :
  framed m ->
  (forall w' a, fixed (w_db w') = fixed (w_db w) -> Q (Ok a) (mkOpenWorld w' None ds tr)) ->
  (forall w' err err', Q (Err err') (mkOpenWorld w' (Some err) ds tr)) ->
  wp (assign_err (on_node m) format) Q (mkOpenWorld w e ds tr).
Proof.
  intros Hm H1 H2. apply wp_assign_err, wp_on_node, wp_framed; [done |].
  intros w' [a | err] Hf; [by apply H1 | apply H2].
Qed.

Lemma wp_lift_step {A} (r : result error A) format (Q : result error A -> OpenWorld -> Prop) w ds tr e :
  (forall a, r = Ok a -> Q (Ok a) (mkOpenWorld w None ds tr)) ->
  (forall err err', Q (Err err') (mkOpenWorld w (Some err) ds tr)) ->
  wp (assign_err (st_lift r) format) Q (mkOpenWorld w e ds tr).
Proof. intros H1 H2. apply wp_assign_err, wp_lift. destruct r as [a | err]; [by apply H1 | apply H2]. Qed.

(** ** Acquiring the resources *)

(** A failure on the way: everything opened so far is deferred, and unless that
    is nothing the variable [err] will trigger the cleanups. *)
Definition unwinding (o : OpenWorld) : Prop :=
  o_trace o = Opened <$> reverse (o_defers o) /\ (o_defers o = [] \/ is_Some (o_err o)).

(** The node [Open] sets up: its configuration, and nothing closed. *)
Definition new_node (cfg : Config) (w : World) : Prop :=
  fixed (w_db w) = (cfg, resolveBadgerOptions cfg, Dir (resolveBadgerOptions cfg), false, false, None).

Lemma open_resources_wp cfg advertise w (Q : result error (boltw * snapw * transw) -> OpenWorld -> Prop) :
  (forall e o, unwinding o -> Q (Err e) o) ->
  (forall b s t w', new_node cfg w' ->
     Q (Ok (b, s, t)) (mkOpenWorld w' None [Transport; Bolt; Store] [Opened Store; Opened Bolt; Opened Transport])) ->
  wp (open_resources cfg advertise) Q (mkOpenWorld w None [] []).
Proof.
  intros Herr Hok. unfold open_resources. set (opts := resolveBadgerOptions cfg).
  apply wp_bind, wp_on_node, wp_mod. cbv beta iota.
  apply wp_bind. unfold shadow_err. apply wp_bind, wp_try, wp_on_node, wp_framed; [solve_framed |].
  intros w1 [[] | e] F1; [apply wp_ret | apply wp_err, Herr; split; [done | by left]].
  apply wp_bind, wp_node_step; [solve_framed | | intros; apply Herr; split; [done | by left]].
  intros w2 h F2. apply wp_bind, wp_on_node, wp_mod, wp_bind, wp_mod, wp_bind, wp_mod.
  cbn [o_world o_err o_defers o_trace app].
  apply wp_bind, wp_node_step; [solve_framed | | intros; apply Herr; split; [done | by right]].
  intros w3 [] F3.
  apply wp_bind, wp_lift_step; [| intros; apply Herr; split; [done | by right]].
  intros b _. apply wp_bind, wp_mod, wp_bind, wp_mod. cbn [o_world o_err o_defers o_trace app].
  apply wp_bind, wp_lift_step; [| intros; apply Herr; split; [done | by right]].
  intros s _. apply wp_bind, wp_lift_step; [| intros; apply Herr; split; [done | by right]].
  intros t _. apply wp_bind, wp_mod, wp_bind, wp_mod, wp_ret. cbn [o_world o_err o_defers o_trace app].
  apply Hok. unfold new_node. rewrite F3. simpl in F2 |- *. rewrite F1 in F2. done.
Qed.

(** ** Shutting down *)

Lemma closeStore_none (w : World) : store (w_db (fst (closeStore w))) = None.
Proof.
  unfold closeStore, st_bind, st_get, st_try, st_mod, st_lift. destruct (store (w_db w)) as [h |] eqn:E; [| done].
  by destruct (badger_Close h w).
Qed.

End Rules.

Section OpenProps.
Context `{B : BadgerOps} `{R : RaftOps backup} `{O : !OpenOps backup} `{C : Codec} `{L : !BadgerLaws}.

(** The stages of a shutdown, in the order of the source, with the error of
    each: Raft, the transport, the log store, the store. *)
Definition shutdown (w : World) (e1 e2 e3 e4 : option error) (w' : World) : Prop :=
  exists w1 resp, raft_await raft_ShutdownCall (set_closed w) = (w1, Ok (e1, resp)) /\
    exists w2 w3 w4 r4, raft_call transport_Close w1 = (w2, Ok e2) /\ raft_call boltStore_Close w2 = (w3, Ok e3) /\
      closeStore w3 = (w4, r4) /\ e4 = error_of r4 /\ w' = set_closeErr (errors_Join [e1; e2; e3; e4]) w4.

Lemma Close_run (w : World) :
  closeOnce (w_db w) = false ->
  exists w' e1 e2 e3 e4, Close w = (w', of_error (errors_Join [e1; e2; e3; e4])) /\ shutdown w e1 e2 e3 e4 w'.
Proof.
  intros Ho. unfold Close, closing, close_stages, close_stage, st_bind at 1, st_get. rewrite Ho. unfold st_bind at 1, st_mod.
  destruct (raft_await_total raft_ShutdownCall (set_closed w)) as (w1 & resp & E1).
  set (w2 := fst (raft_call transport_Close w1)). set (w3 := fst (raft_call boltStore_Close w2)).
  destruct (closeStore w3) as [w4 r4] eqn:E4.
  do 5 eexists. split.
  - unfold st_bind, st_try, st_ret. rewrite E1. cbv beta iota.
    change (raft_call transport_Close w1) with (w2, Ok (E := error) (snd (transport_Close (raft (w_db w1))))).
    cbv beta iota. change (raft_call boltStore_Close w2) with (w3, Ok (E := error) (snd (boltStore_Close (raft (w_db w2))))).
    cbv beta iota. rewrite E4. reflexivity.
  - exists w1, resp. split; [exact E1 |]. by exists w2, w3, w4, r4.
Qed.

(** The same call inside [Open]: the node does what it does in [Close], and each
    stage that ran is on the trace. *)
Lemma open_Close_run (w : World) oe ds tr :
  closeOnce (w_db w) = false ->
  open_Close (mkOpenWorld w oe ds tr) =
    (mkOpenWorld (fst (Close w)) oe ds (tr ++ [Closed RaftNode; Closed Transport; Closed Bolt; Closed Store]), Ok tt).
Proof.
  intros Ho. unfold open_Close, Close, closing, close_stages, close_stage, st_bind, st_try, st_ret, st_get, on_node, record, st_mod.
  cbn [o_world fst snd]. rewrite Ho. cbn [o_world o_err o_defers o_trace fst snd].
  destruct (raft_await_total raft_ShutdownCall (set_closed w)) as (w1 & resp & E1). rewrite E1.
  cbn [o_world o_err o_defers o_trace fst snd].
  set (w2 := fst (raft_call transport_Close w1)). set (w3 := fst (raft_call boltStore_Close w2)).
  change (raft_call transport_Close w1) with (w2, Ok (E := error) (snd (transport_Close (raft (w_db w1))))).
  cbn [o_world o_err o_defers o_trace fst snd].
  change (raft_call boltStore_Close w2) with (w3, Ok (E := error) (snd (boltStore_Close (raft (w_db w2))))).
  cbn [o_world o_err o_defers o_trace fst snd].
  destruct (closeStore w3) as [w4 r4]. cbn [o_world o_err o_defers o_trace fst snd].
  rewrite <- !app_assoc. done.
Qed.

Lemma shutdown_state (w w' : World) e1 e2 e3 e4 :
  shutdown w e1 e2 e3 e4 w' ->
  closed (w_db w') = true /\ closeOnce (w_db w') = true /\ store (w_db w') = None /\
  closeErr (w_db w') = errors_Join [e1; e2; e3; e4].
Proof.
  intros (w1 & resp & E1 & w2 & w3 & w4 & r4 & E2 & E3 & E4 & _ & ->).
  pose proof (raft_await_framed raft_ShutdownCall (set_closed w)) as [F1 _]. rewrite E1 in F1.
  pose proof (closeStore_framed w3) as [F4 _]. rewrite E4 in F4.
  pose proof (closeStore_none w3) as Hn. rewrite E4 in Hn.
  injection E2 as <- _. injection E3 as <- _. simpl in *. repeat split; [| exact Hn].
  unfold fixed in *. simpl in *. congruence.
Qed.

(** C32. The first [Close] runs every stage of the shutdown in order, whichever
    of them fails, and leaves the node closed and without a store; its error is
    [nil] exactly when every stage's is, and matches a target exactly when one
    of theirs does.  Every later [Close] changes nothing and returns the same
    error. *)
Theorem Close_once (w : World) :
  closeOnce (w_db w) = false ->
  exists w' e e1 e2 e3 e4, Close w = (w', of_error e) /\ shutdown w e1 e2 e3 e4 w' /\
    closed (w_db w') = true /\ store (w_db w') = None /\
    (e = None <-> Forall (fun x => x = None) [e1; e2; e3; e4]) /\
    (forall t, (exists x, e = Some x /\ Is x t = true) <->
               (exists x, Some x ∈ [e1; e2; e3; e4] /\ Is x t = true)) /\
    Close w' = (w', of_error e).
Proof.
  intros Ho. destruct (Close_run w Ho) as (w' & e1 & e2 & e3 & e4 & E & Hs).
  exists w', (errors_Join [e1; e2; e3; e4]), e1, e2, e3, e4. split; [done |]. split; [done |].
  apply shutdown_state in Hs as (? & Ho' & ? & He). repeat (split; [done |]).
  split; [apply errors_Join_None |]. split; [intros t; apply errors_Join_Is |].
  unfold Close, closing, st_bind at 1, st_get. by rewrite Ho', He.
Qed.

(** ** The outcome of Open *)

Lemma wp_run_defers_armed ds : forall (o : OpenWorld) (Q : result error unit -> OpenWorld -> Prop),
  is_Some (o_err o) ->
  (forall o', o_trace o' = o_trace o ++ (Closed <$> ds) ->
     (Store ∈ ds -> store (w_db (o_world o')) = None) ->
     (Store ∉ ds -> o_world o' = o_world o) -> Q (Ok tt) o') ->
  wp (run_defers ds) Q o.
Proof.
  induction ds as [| d ds IH]; intros o Q He HQ; cbn [run_defers].
  - apply wp_ret, HQ; [by rewrite app_nil_r | by intros ?%not_elem_of_nil | done].
  - apply wp_bind. unfold run_defer. apply wp_bind, wp_get. destruct (o_err o) as [e |] eqn:Ee; [| by destruct He].
    apply wp_bind. destruct o as [w e' ds' tr]. simpl in Ee; subst e'.
    assert (forall w1, (d = Store -> store (w_db w1) = None) -> (d <> Store -> w1 = w) ->
      wp (record [Closed d]) (fun r w' => match r with
         | Ok _ => wp (run_defers ds) Q w' | Err e => Q (Err e) w' end) (mkOpenWorld w1 (Some e) ds' tr)) as Hrest.
    { intros w1 Hs Hne. apply wp_mod. cbn [o_world o_err o_defers o_trace]. apply IH; [simpl; eauto |].
      intros o' Ht Hn Hw. simpl in *. apply HQ.
      - by rewrite Ht, <- app_assoc.
      - intros [<- | Hin]%elem_of_cons; [| by apply Hn].
        destruct (decide (Store ∈ ds)) as [Hin | Hin]; [by apply Hn | rewrite Hw by done; by apply Hs].
      - intros [Hd Hin]%not_elem_of_cons. rewrite Hw by done. apply Hne. congruence. }
    destruct d; try (apply wp_ret, Hrest; done).
    apply wp_on_node, wp_ignore, wp_intro. intros w1 r E. apply Hrest; [intros _ | done].
    pose proof (closeStore_none w) as Hn. by rewrite E in Hn.
Qed.

Lemma run_defers_armed ds (o : OpenWorld) :
  is_Some (o_err o) ->
  o_trace (fst (run_defers ds o)) = o_trace o ++ (Closed <$> ds) /\
  (Store ∈ ds -> store (w_db (o_world (fst (run_defers ds o)))) = None).
Proof.
  intros He. apply (wp_run_defers_armed ds o (fun _ o' => o_trace o' = o_trace o ++ (Closed <$> ds) /\
    (Store ∈ ds -> store (w_db (o_world o')) = None))); auto.
Qed.

Lemma run_defers_disarmed ds (o : OpenWorld) : o_err o = None -> run_defers ds o = (o, Ok tt).
Proof.
  intros He. induction ds as [| d ds IH]; [done |]. cbn [run_defers].
  erewrite st_bind_run; [exact IH |]. unfold run_defer, st_bind, st_get. by rewrite He.
Qed.

(** Where [open_raft] may end: running; failed with the cleanups armed; or
    failed to find a leader, closed, with the cleanups disarmed. *)
Definition raft_phase (cfg : Config) (newCluster : bool) (addr : string) (r : result error unit) (o : OpenWorld) : Prop :=
  bootstraps (o_trace o) = (if newCluster then [[mkServer raft_Voter (NodeID cfg) addr]] else []) /\
  match r with
  | Ok _ => o_err o = None /\ new_node cfg (o_world o) /\
            opened (o_trace o) = [Store; Bolt; Transport; RaftNode] /\ closings (o_trace o) = []
  | Err _ => o_defers o = [Transport; Bolt; Store] /\
      ((is_Some (o_err o) /\ opened (o_trace o) = [Store; Bolt; Transport] /\ closings (o_trace o) = []) \/
       (o_err o = None /\ opened (o_trace o) = [Store; Bolt; Transport; RaftNode] /\
        closings (o_trace o) = [RaftNode; Transport; Bolt; Store] /\ store (w_db (o_world o)) = None))
  end.

Lemma new_node_fixed cfg (w w' : World) : fixed (w_db w') = fixed (w_db w) -> new_node cfg w -> new_node cfg w'.
Proof. unfold new_node. by intros ->. Qed.

Lemma open_Close_wp cfg (w : World) ds tr (Q : result error unit -> OpenWorld -> Prop) :
  new_node cfg w ->
  (forall w', store (w_db w') = None ->
     Q (Ok tt) (mkOpenWorld w' None ds (tr ++ [Closed RaftNode; Closed Transport; Closed Bolt; Closed Store]))) ->
  wp open_Close Q (mkOpenWorld w None ds tr).
Proof.
  intros Hn HQ. assert (closeOnce (w_db w) = false) as Ho by (unfold new_node, fixed in Hn; congruence).
  unfold wp. rewrite (open_Close_run w None ds tr Ho). apply HQ.
  destruct (Close_run w Ho) as (w' & e1 & e2 & e3 & e4 & -> & Hs). by apply shutdown_state in Hs as (_ & _ & Hs & _).
Qed.

(** From [NewRaft] on. *)
Lemma open_start_wp cfg (newCluster : bool) addr raftCfg bolt snaps transport (w : World) bs :
  new_node cfg w ->
  bootstraps bs = (if newCluster then [[mkServer raft_Voter (NodeID cfg) addr]] else []) ->
  opened bs = [] -> closings bs = [] ->
  wp (let p := NewRaft raftCfg bolt snaps transport in
      do! on_node (fsm_calls (fst p));
      let! raft := assign_err (st_lift (snd p)) "honeybadger: start raft: %w" in
      do! on_node (st_mod (set_raft raft));
      do! record [Opened RaftNode];
      if newCluster then
        let! r := st_try (on_node (waitForLeader newClusterLeaderTimeout)) in
        match r with
        | Err werr =>
            do! open_Close;
            do! set_err None;
            st_err (Errorf "honeybadger: open new cluster: %w" [] werr)
        | Ok _ => st_ret tt
        end
      else st_ret tt : ST OpenWorld error unit) (raft_phase cfg newCluster addr)
    (mkOpenWorld w None [Transport; Bolt; Store] ([Opened Store; Opened Bolt; Opened Transport] ++ bs)).
Proof.
  intros Hn Hb Ho Hc. cbv zeta. set (tr := _ ++ bs).
  assert (opened tr = [Store; Bolt; Transport]) as Ho' by (unfold tr; by rewrite opened_app, Ho).
  assert (closings tr = []) as Hc' by (unfold tr; by rewrite closings_app, Hc).
  assert (bootstraps tr = bootstraps bs) as Hb' by done. rewrite Hb in Hb'. clearbody tr.
  apply wp_bind, wp_on_node, wp_intro. intros w1 r1 E1.
  pose proof (fsm_calls_framed (fst (NewRaft raftCfg bolt snaps transport)) w) as [F1 _]. rewrite E1 in F1.
  destruct (fsm_calls_total (fst (NewRaft raftCfg bolt snaps transport)) w) as (w1' & rs & E1').
  rewrite E1 in E1'. injection E1' as <- ->. apply (new_node_fixed cfg _ _ F1) in Hn.
  apply wp_bind, wp_lift_step.
  2:{ intros err err'. split; [done |]. split; [done |]. left. simpl. eauto. }
  intros rf _. apply wp_bind, wp_on_node, wp_mod, wp_bind, wp_mod. cbn [o_world o_err o_defers o_trace].
  assert (opened (tr ++ [Opened RaftNode]) = [Store; Bolt; Transport; RaftNode]) as Ho2 by (by rewrite opened_app, Ho').
  assert (closings (tr ++ [Opened RaftNode]) = []) as Hc2 by (by rewrite closings_app, Hc').
  assert (bootstraps (tr ++ [Opened RaftNode]) = bootstraps tr) as Hb2 by (by rewrite bootstraps_app, app_nil_r).
  rewrite Hb' in Hb2. destruct newCluster; [| by apply wp_ret].
  apply wp_bind, wp_try, wp_on_node, wp_framed; [apply waitForLeader_framed |].
  intros w2 [n | e] F2.
  - apply wp_ret. split; [done |]. split; [done |]. split; [| done]. by eapply new_node_fixed.
  - apply wp_bind, (open_Close_wp cfg); [by eapply new_node_fixed |]. intros w3 Hs.
    apply wp_bind, wp_mod, wp_err. cbn [o_world o_err o_defers o_trace]. split; [| split; [done |]]; cbn [o_trace].
    + by rewrite bootstraps_app, Hb2.
    + right. split; [done |]. rewrite opened_app, closings_app, Ho2, Hc2. by split.
Qed.

Lemma open_raft_wp cfg newCluster bolt snaps transport (w : World) :
  new_node cfg w ->
  wp (open_raft cfg newCluster (bolt, snaps, transport)) (raft_phase cfg newCluster (LocalAddr transport))
    (mkOpenWorld w None [Transport; Bolt; Store] [Opened Store; Opened Bolt; Opened Transport]).
Proof.
  intros Hn. unfold open_raft. destruct newCluster.
  - apply wp_bind. unfold open_bootstrap. apply wp_bind, wp_mod, wp_bind, wp_mod. cbn [o_world o_err o_defers o_trace].
    set (p := BootstrapCluster _ _ _ _ _). apply wp_bind.
    destruct (snd p) as [err |]; [destruct (Is err raft_ErrCantBootstrap); cbn [negb] |].
    + apply wp_ret, wp_bind, wp_mod, wp_ret. cbn [o_world o_err o_defers o_trace app].
      by apply (open_start_wp cfg true (LocalAddr transport) _ _ _ _ w
        [Bootstrapped [mkServer raft_Voter (NodeID cfg) (LocalAddr transport)]]).
    + apply wp_err. split; [done |]. split; [done |]. left. simpl. eauto.
    + apply wp_ret, wp_bind, wp_mod, wp_ret. cbn [o_world o_err o_defers o_trace app].
      by apply (open_start_wp cfg true (LocalAddr transport) _ _ _ _ w
        [Bootstrapped [mkServer raft_Voter (NodeID cfg) (LocalAddr transport)]]).
  - apply wp_bind, wp_ret. by apply (open_start_wp cfg false (LocalAddr transport) _ _ _ _ w []).
Qed.

(** The whole of [open_body]. *)
Definition body_outcome (cfg : Config) (options : list OpenOption) (w : World) (r : result error unit) (o : OpenWorld) : Prop :=
  (exists e, r = Err e /\ unwinding o) \/
  (exists newCluster addr, parseOpenOptions options = Ok newCluster /\ raft_phase (setDefaults cfg) newCluster addr r o).

Lemma open_body_wp cfg options w :
  wp (open_body cfg options) (body_outcome cfg options w) (mkOpenWorld w None [] []).
Proof.
  assert (forall e, body_outcome cfg options w (Err e) (mkOpenWorld w None [] [])) as Hrej.
  { intros e. left. exists e. split; [done |]. split; [done | by left]. }
  unfold open_body. apply wp_bind, wp_lift. destruct (parseOpenOptions options) as [nc | e] eqn:Ep; [| apply Hrej].
  destruct (validateConfig cfg); [apply Hrej |]. cbv zeta. apply wp_bind, wp_lift.
  destruct (resolveAdvertise (setDefaults cfg)) as [adv | e]; [| apply Hrej].
  apply wp_bind, open_resources_wp.
  - intros e o Hu. left. by exists e.
  - intros b s t w' Hn. eapply wp_mono; [by apply open_raft_wp |].
    intros r o Hr. right. by exists nc, (LocalAddr t).
Qed.

Lemma opened_fmap ds : opened (Opened <$> ds) = ds.
Proof. unfold opened. induction ds as [| d ds IH]; [done |]. simpl. by f_equal. Qed.
Lemma closings_opened ds : closings (Opened <$> ds) = [].
Proof. unfold closings. by induction ds. Qed.
Lemma bootstraps_opened ds : bootstraps (Opened <$> ds) = [].
Proof. unfold bootstraps. by induction ds. Qed.
Lemma opened_closed ds : opened (Closed <$> ds) = [].
Proof. unfold opened. by induction ds. Qed.
Lemma closings_fmap ds : closings (Closed <$> ds) = ds.
Proof. unfold closings. induction ds as [| d ds IH]; [done |]. simpl. by f_equal. Qed.
Lemma bootstraps_closed ds : bootstraps (Closed <$> ds) = [].
Proof. unfold bootstraps. by induction ds. Qed.

(** What [Open] may end in. *)
Definition Open_post (cfg : Config) (options : list OpenOption) (p : OpenWorld * result error unit) : Prop :=
  match snd p with
  | Ok _ => opened (o_trace (fst p)) = [Store; Bolt; Transport; RaftNode] /\ closings (o_trace (fst p)) = [] /\
            new_node (setDefaults cfg) (o_world (fst p))
  | Err _ => closings (o_trace (fst p)) = reverse (opened (o_trace (fst p))) /\
             (Store ∈ opened (o_trace (fst p)) -> store (w_db (o_world (fst p))) = None)
  end /\
  match bootstraps (o_trace (fst p)) with
  | [] => snd p = Ok tt -> parseOpenOptions options = Ok false
  | [ss] => parseOpenOptions options = Ok true /\ exists addr, ss = [mkServer raft_Voter (NodeID cfg) addr]
  | _ => False
  end.

Lemma Open_wp cfg options w : Open_post cfg options (Open cfg options w).
Proof.
  unfold Open. destruct (open_body cfg options _) as [o r] eqn:E.
  pose proof (wp_elim _ _ _ _ _ (open_body_wp cfg options w) E) as H. clear E.
  unfold Open_post. cbn [fst snd].
  destruct H as [(e & -> & Ht & Hu) | (nc & addr & Hp & Hb & Hr)].
  - destruct Hu as [Hd | Hu].
    { rewrite Hd in Ht |- *. simpl in Ht. simpl. rewrite Ht. simpl. split; [| done]. split; [done |].
      by intros ?%not_elem_of_nil. }
    destruct (run_defers_armed (o_defers o) o Hu) as [Ht' Hs]. rewrite Ht', Ht, opened_app, closings_app, bootstraps_app, opened_fmap, closings_opened,
      bootstraps_opened, opened_closed, closings_fmap, bootstraps_closed, app_nil_r.
    split; [| done]. split; [by rewrite reverse_involutive |].
    intros Hin. apply Hs. revert Hin. by rewrite elem_of_reverse.
  - assert (forall p : Prop, p -> match (if nc then [[mkServer raft_Voter (NodeID (setDefaults cfg)) addr]] else []) with
      | [] => p -> parseOpenOptions options = Ok false
      | [ss] => parseOpenOptions options = Ok true /\ exists addr0, ss = [mkServer raft_Voter (NodeID cfg) addr0]
      | _ => False end) as Hboot by (intros p _; destruct nc; eauto).
    destruct r as [[] | e].
    + destruct Hr as (He & Hn & Ho & Hc). rewrite run_defers_disarmed by done. cbn [fst].
      rewrite Hb. split; [done |]. by apply Hboot.
    + destruct Hr as (Hd & [(He & Ho & Hc) | (He & Ho & Hc & Hs)]).
      * rewrite Hd. destruct (run_defers_armed [Transport; Bolt; Store] o He) as [Ht' Hs].
        rewrite Ht', opened_app, closings_app, bootstraps_app, opened_closed, closings_fmap,
          bootstraps_closed, !app_nil_r, Ho, Hc, Hb. split; [| destruct nc; eauto; done].
        split; [done |]. intros _. apply Hs. set_solver.
      * rewrite run_defers_disarmed by done. cbn [fst]. rewrite Ho, Hc, Hb. split; [done |].
        destruct nc; [| done]. eauto.
Qed.

(** C27. [Open] leaks nothing: when it fails, wherever that is, everything it
    opened has been closed exactly once, in the reverse order, and the node it
    set up has no store; when it succeeds, the four resources are open, none
    was closed, and the node has the configuration with its defaults and is not
    closed. *)
Theorem Open_no_leak cfg options (w : World) :
  let o := fst (Open cfg options w) in
  match snd (Open cfg options w) with
  | Ok _ => opened (o_trace o) = [Store; Bolt; Transport; RaftNode] /\ closings (o_trace o) = [] /\
            new_node (setDefaults cfg) (o_world o)
  | Err _ => closings (o_trace o) = reverse (opened (o_trace o)) /\
             (Store ∈ opened (o_trace o) -> store (w_db (o_world o)) = None)
  end.
Proof. apply (Open_wp cfg options w). Qed.

(** C28. A cluster is formed only on request: [Open] bootstraps at most once, only
    when [NewCluster] was passed, and then with this node as the single voter;
    an [Open] without it never does, and one with it that succeeds has. *)
Theorem Open_bootstraps cfg options (w : World) :
  match bootstraps (o_trace (fst (Open cfg options w))) with
  | [] => snd (Open cfg options w) = Ok tt -> parseOpenOptions options = Ok false
  | [ss] => parseOpenOptions options = Ok true /\ exists addr, ss = [mkServer raft_Voter (NodeID cfg) addr]
  | _ => False
  end.
Proof. apply (Open_wp cfg options w). Qed.

(** Options and configuration are checked before anything is touched: [Open]
    accepts no option or one [NewCluster] and refuses any other list with
    [ErrInvalidArgument]; a configuration with a required field missing is
    refused too; both without a trace or a change. *)
Theorem Open_validates cfg options (w : World) :
  (options <> [] -> options <> [NewCluster] ->
     exists e, Open cfg options w = (mkOpenWorld w None [] [], Err e) /\ Is e ErrInvalidArgument = true) /\
  (options = [] \/ options = [NewCluster] ->
     (NodeID cfg = EmptyString \/ RaftBind cfg = EmptyString \/ DataDir cfg = EmptyString ->
       exists e, Open cfg options w = (mkOpenWorld w None [] [], Err e)) /\
     (NodeID cfg <> EmptyString -> RaftBind cfg <> EmptyString -> DataDir cfg <> EmptyString ->
       validateConfig cfg = None)).
Proof.
  split.
  - intros H1 H2. assert (exists e, parseOpenOptions options = Err e /\ Is e ErrInvalidArgument = true)
      as (e & Ep & He).
    { unfold parseOpenOptions. destruct options as [| [| n] [| [| n'] options]]; try done; simpl; eauto. }
    exists e. split; [| done]. unfold Open, open_body, st_bind, st_lift. by rewrite Ep.
  - intros H. assert (exists nc, parseOpenOptions options = Ok nc) as [nc Ep].
    { destruct H as [-> | ->]; unfold parseOpenOptions; simpl; eauto. }
    unfold validateConfig, is_empty. split.
    + intros Hm. assert (exists e, validateConfig cfg = Some e) as [e Ev].
      { unfold validateConfig, is_empty. repeat case_bool_decide; naive_solver. }
      exists e. unfold Open, open_body, st_bind at 1, st_lift. rewrite Ep. by rewrite Ev.
    + intros. by rewrite !bool_decide_eq_false_2.
Qed.

End OpenProps.
