(* ===== verification/Lifecycle.v ===== *)
(** * Lifecycle: the node between [Open] and [Close] and after it *)
From S2P Require Import Prelude Errors Types Options Command Codec Bytes Badger Files Raft Node Fsm Wp Sim FsmApply FsmRestore Linear Write WriteProps Read ReadProps Cluster Frame Open OpenProps.

Section Lifecycle.
Context `{B : BadgerOps} `{R : RaftOps backup} `{O : !OpenOps backup} `{C : Codec} `{L : !BadgerLaws}.

(** ** Only [Close] closes *)

(** Between [Open] and [Close] a node's configuration, its directories and
    its shutdown state are fixed: no write, read, membership, snapshot or wait,
    and no call of Raft on the state machine (apply, persist or restore,
    successful or not) changes them, and none turns the clock back.  In particular
    only [Close] closes. *)
Theorem operations_framed cmd key value opts ms ro prefix so fn node id timeout l rc s :
  (forall h, framed (fn h)) ->
  framed (apply cmd) /\ framed (SetBytes key value opts) /\ framed (DeleteBytes key) /\ framed (Batch ms) /\
  framed (GetBytes key ro) /\ framed (ScanPrefixBytes prefix so) /\ framed (ViewBadger ro (Some fn)) /\
  framed (Barrier timeout) /\ framed (AddVoter node) /\ framed (RemoveNode id) /\ framed Members /\
  framed DB_Snapshot /\ framed (WaitForLeader timeout) /\ framed DB_Status /\ framed RawRaftStats /\
  framed (Apply l) /\ framed (Persist s) /\ framed (Restore rc).
Proof.
  intros Hfn. unfold DeleteBytes, ViewBadger, RemoveNode, Members, DB_Snapshot, WaitForLeader, RawRaftStats,
    Persist, badger_Backup, sink_Close, sink_Cancel.
  repeat match goal with |- _ /\ _ => split end; solve_framed.
Qed.

(** ** After [Close] *)

(** The operation answers [ErrClosed]; only time passes. *)
Definition answers_closed {A} (m : ST World error A) (w : World) : Prop :=
  exists w', m w = (w', Err (Sentinel ErrClosed)) /\ later w w'.

Lemma closed_bind {A} (f : unit -> ST World error A) (w : World) :
  closed (w_db w) = true -> answers_closed (st_bind checkOpen f) w.
Proof. intros H. exists w. by rewrite checked_closed. Qed.

Lemma closed_apply cmd (w : World) : closed (w_db w) = true -> answers_closed (apply cmd) w.
Proof. apply closed_bind. Qed.

Lemma closed_read {A} ro (f : unit -> ST World error A) (w : World) :
  closed (w_db w) = true -> ~ bad_read ro -> answers_closed (st_bind (prepareRead ro) f) w.
Proof.
  intros Hc Hb. exists w. split; [| done]. apply st_bind_run_err. unfold prepareRead, bad_read in *.
  destruct (Z.ltb_spec (Timeout ro) 0); [tauto |].
  destruct (Z.eqb_spec (Mode ro) ReadLinearizable); [by apply checked_closed |].
  destruct (Z.eqb_spec (Mode ro) ReadLocal); [| tauto].
  unfold checkOpen, st_bind, st_get. by rewrite Hc.
Qed.

(** The answer of an operation on a closed node: the checks of the arguments come
    first. *)
Definition on_closed {A} (valid : Prop) `{Decision valid} (m : ST World error A) (w : World) : Prop :=
  if decide valid then answers_closed m w else refused m w.

Lemma closed_writes key value opts (w : World) :
  closed (w_db w) = true ->
  on_closed (key <> EmptyString /\ opts_valid opts) (SetBytes key value opts) w /\
  on_closed (key <> EmptyString) (DeleteBytes key) w.
Proof.
  intros Hc. unfold on_closed. split; case_decide as H.
  - destruct H as [Hk Ho]. destruct (resolveSetOptions_valid opts w Ho) as (w' & E & Hw). unfold SetBytes.
    rewrite (is_empty_false _ Hk). unfold answers_closed.
    erewrite st_bind_run by exact E. destruct (closed_apply (mkCommand [mkPair key value (stamp (w_clock w) opts)] []) w')
      as (w'' & -> & ?); [by destruct Hw as [-> _] |]. exists w''. split; [done | by etrans].
  - by apply SetBytes_refused.
  - unfold DeleteBytes. rewrite (is_empty_false _ H). by apply closed_apply.
  - destruct (decide (key = EmptyString)) as [-> |]; [| done]. by eexists.
Qed.

Lemma closed_reads key ro prefix so fn (w : World) :
  closed (w_db w) = true ->
  on_closed (key <> EmptyString /\ ~ bad_read ro) (GetBytes key ro) w /\
  on_closed ((0 <= Limit so)%Z /\ ~ bad_read (Read so)) (ScanPrefixBytes prefix so) w /\
  on_closed (is_Some fn /\ ~ bad_read ro) (ViewBadger ro fn) w.
Proof.
  intros Hc. destruct (reads_refused key ro prefix so fn w) as (R1 & R2 & R3). unfold on_closed.
  split; [| split]; case_decide as H.
  - destruct H as [Hk Hb]. unfold GetBytes. rewrite (is_empty_false _ Hk). by apply closed_read.
  - apply R1. destruct (decide (key = EmptyString)), (decide (bad_read ro)); tauto.
  - destruct H as [Hl Hb]. pose proof (resolveLimit_cases so) as Hlim.
    destruct (resolveLimit so) as [n | e] eqn:En; [| lia].
    unfold answers_closed. rewrite (ScanPrefixBytes_limit _ _ n) by done. by apply closed_read.
  - apply R2. destruct (decide (Limit so < 0)%Z), (decide (bad_read (Read so))); (tauto || (destruct H; split; [lia | done])).
  - destruct H as [[fn' ->] Hb]. by apply closed_read.
  - apply R3. destruct fn as [fn' |]; [| by left]. destruct (decide (bad_read ro)); [by right |]. destruct H. by split; [eexists |].
Qed.

Lemma closed_members node id (w : World) :
  closed (w_db w) = true ->
  on_closed (voter_valid node) (AddVoter node) w /\ on_closed (id <> EmptyString) (RemoveNode id) w.
Proof.
  intros Hc. unfold on_closed. split; case_decide as H.
  - destruct H as (Hn1 & Hn2 & Hn3). unfold AddVoter. rewrite (is_empty_false _ Hn1), (is_empty_false _ Hn2).
    destruct Hn3 as [-> | ->]; by apply closed_bind.
  - by apply AddVoter_refused.
  - unfold RemoveNode. rewrite (is_empty_false _ H). by apply closed_bind.
  - destruct (decide (id = EmptyString)) as [-> |]; [| done]. by eexists.
Qed.

(** C33. On a closed node every operation but [Close] and [RawRaftStats] has no
    effect but the passing of time: it answers [ErrInvalidArgument] when it does
    not accept its arguments, which the operations that have any look at first
    ([Batch] excepted), and [ErrClosed] otherwise. *)
Theorem closed_operations key value opts ms ro prefix so fn node id timeout (w : World) :
  closed (w_db w) = true ->
  on_closed (key <> EmptyString /\ opts_valid opts) (SetBytes key value opts) w /\
  on_closed (key <> EmptyString) (DeleteBytes key) w /\
  answers_closed (Batch ms) w /\
  on_closed (key <> EmptyString /\ ~ bad_read ro) (GetBytes key ro) w /\
  on_closed ((0 <= Limit so)%Z /\ ~ bad_read (Read so)) (ScanPrefixBytes prefix so) w /\
  on_closed (is_Some fn /\ ~ bad_read ro) (ViewBadger ro fn) w /\
  answers_closed (Barrier timeout) w /\
  on_closed (voter_valid node) (AddVoter node) w /\ on_closed (id <> EmptyString) (RemoveNode id) w /\
  answers_closed Members w /\ answers_closed DB_Snapshot w /\
  answers_closed (WaitForLeader timeout) w /\ answers_closed DB_Status w.
Proof.
  intros Hc. destruct (closed_writes key value opts w Hc) as [? ?].
  destruct (closed_reads key ro prefix so fn w Hc) as (? & ? & ?). destruct (closed_members node id w Hc) as [? ?].
  do 2 (split; [done |]). split; [by apply closed_bind |]. do 3 (split; [done |]). split; [by apply closed_bind |].
  do 2 (split; [done |]). split; [by apply closed_bind |]. split; [by apply closed_bind |].
  split; [| by apply closed_bind]. unfold WaitForLeader, waitForLeader, answers_closed, wait_fuel.
  destruct (time_Now_later w) as (w' & E & Hw). erewrite st_bind_run by exact E.
  rewrite Nat.add_comm. cbn [Nat.add wait_loop]. rewrite checked_closed by (by destruct Hw as [-> _]).
  by exists w'.
Qed.

End Lifecycle.

(** ** A machine to open nodes on *)
Module SimOpen.
Import SimInstances.

(** Every constructor works; the log store remembers whether it was
    bootstrapped, and a node that was becomes the leader. *)
#[export] Instance ops : OpenOps backup := {|
  addrw := string; boltw := bool; snapw := unit; transw := string;
  raft_nil := Sim.follower;
  net_ResolveTCPAddr s := Ok s;
  NewBoltStore _ := Ok false;
  NewFileSnapshotStore _ _ _ := Ok tt;
  NewTCPTransport bind adv _ _ _ := Ok (default bind adv);
  LocalAddr t := t;
  BootstrapCluster _ b _ _ _ := (true, if b then Some (Sentinel raft_ErrCantBootstrap) else None);
  NewRaft c b _ t := ([], Ok (if b then Sim.leader else Sim.follower))
|}.

(** The machine before: no node, an empty disk. *)
Definition machine (faults : list (option fault)) : World :=
  mkWorld (Sim.db Sim.follower ∅) ∅ faults Sim.t0 [].

Definition cfg : Config :=
  mkConfig "n1" "127.0.0.1:7001" "/data/n1" (mkAdvanced 0 0 EmptyString None None).

(** A new cluster's node is writable at once; the creation of the Raft directory failing closes
    the store. *)
Example open_run :
  snd (Open cfg [NewCluster] (machine [])) = Ok tt /\
  snd (DB_Set "k" "v" [] (o_world (fst (Open cfg [NewCluster] (machine []))))) = Ok tt /\
  o_trace (fst (Open cfg [NewCluster] (machine [None; None; Some Sim.boom]))) = [Opened Store; Closed Store].
Proof. by vm_compute. Qed.

End SimOpen.

(** ** Witnesses *)
Section Witnesses.
Import SimInstances SimOpen.

Definition w_open : World := Sim.world Sim.leader Sim.kv1 [].
Definition fn0 (h : handle) : ST World error unit := st_ret tt.
Definition n2 : Node := mkNode "n2" "127.0.0.1:7002" RoleNone.
Definition scan0 : ScanOptions := mkScanOptions zeroReadOptions 0 false.

Lemma operations_framed_witness : framed (Batch [SetOp "k" "v" []]) /\ framed (Restore (Sim.kv1 : kv)).
Proof.
  destruct (operations_framed (Sim.set_cmd "k" "v") "k" "v" [] [SetOp "k" "v" []] zeroReadOptions EmptyString scan0
    fn0 n2 "n2" Second (mkLog 1 EmptyString) (Sim.kv1 : kv) (mkSink None SinkOpen))
    as (_ & _ & _ & H1 & _ & _ & _ & _ & _ & _ & _ & _ & _ & _ & _ & _ & _ & H2).
  - by intros h w.
  - split; [exact H1 | exact H2].
Defined.

Lemma closed_operations_witness :
  answers_closed (SetBytes "k" "v" []) (set_closed w_open) /\ answers_closed DB_Status (set_closed w_open) /\
  refused (RemoveNode EmptyString) (set_closed w_open).
Proof.
  destruct (closed_operations "k" "v" [] [] zeroReadOptions EmptyString scan0 (Some fn0) n2 EmptyString Second (set_closed w_open))
    as (H1 & _ & _ & _ & _ & _ & _ & _ & H2 & _ & _ & _ & H3).
  - reflexivity.
  - unfold on_closed in *. rewrite decide_True in H1 by (split; [done | split; [constructor | exact I]]).
    rewrite decide_False in H2 by (intros []; reflexivity). split; [exact H1 | split; [exact H3 | exact H2]].
Defined.

Lemma Close_once_witness :
  exists w' e, Close w_open = (w', of_error e) /\ Close w' = (w', of_error e) /\ store (w_db w') = None.
Proof.
  destruct (Close_once w_open) as (w' & e & e1 & e2 & e3 & e4 & E & _ & _ & Hs & _ & _ & E').
  - reflexivity.
  - exists w', e. split; [exact E |]. split; [exact E' | exact Hs].
Defined.

Lemma Open_validates_witness :
  exists e, Open cfg [NewCluster; NewCluster] (machine []) = (mkOpenWorld (machine []) None [] [], Err e) /\
    Is e ErrInvalidArgument = true.
Proof. by apply (Open_validates cfg [NewCluster; NewCluster] (machine [])). Defined.

End Witnesses.
