(* ===== verification/Layout.v ===== *)
(** * Layout: the default directories support the staged restore

    [filepath.Join] cleans the data directory, so the live, staging and backup
    directories of a node with the default options are siblings. *)
From S2P Require Import Prelude Errors Types Options Command Codec Bytes Badger Files Raft Node Fsm Wp Sim FsmApply FsmRestore Cluster Frame Open OpenProps.

(** ** Cleaned component lists *)

Definition normal (root : bool) (l : list string) : Prop := clean root l = l.

Definition proper (c : string) : Prop := slash_free c = true /\ c <> EmptyString.

Lemma clean_snoc root l c : clean root (l ++ [c]) = clean_step root (clean root l) c.
Proof. unfold clean. by rewrite fold_left_app. Qed.

Lemma removelast_snoc {A} (l : list A) x : removelast (l ++ [x]) = l.
Proof. apply removelast_last. Qed.

Lemma clean_length root l : length (clean root l) <= length l.
Proof.
  induction l as [| c l IH] using rev_ind; [done |]. rewrite clean_snoc, length_app. simpl.
  unfold clean_step. case_decide; [lia |]. case_decide; [| rewrite length_app; simpl; lia].
  destruct (last (clean root l)) as [d |]; [| destruct root; simpl; lia].
  case_decide; [rewrite length_app; simpl; lia |].
  assert (length (removelast (clean root l)) <= length (clean root l)).
  { destruct (clean root l) as [| x l' _] using rev_ind; [done |]. rewrite removelast_snoc, length_app. lia. }
  lia.
Qed.

Lemma normal_init root l x : normal root (l ++ [x]) -> normal root l.
Proof.
  unfold normal. rewrite clean_snoc. intros H. pose proof (clean_length root l) as Hlen.
  revert H. unfold clean_step. case_decide.
  - intros H'. rewrite H', length_app in Hlen. simpl in Hlen. lia.
  - case_decide as Hdd; [| by intros [? _]%app_inj_tail].
    destruct (last (clean root l)) as [d |] eqn:El.
    + case_decide; [by intros [? _]%app_inj_tail |]. intros H'.
      assert (length (removelast (clean root l)) <= length (clean root l)) as Hr.
      { destruct (clean root l) as [| y l' _] using rev_ind; [done |]. rewrite removelast_snoc, length_app. lia. }
      rewrite H', length_app in Hr. simpl in Hr. lia.
    + apply last_None in El. destruct root; [by destruct l |].
      destruct l as [| y l]; [done |]. by destruct l.
Qed.

Lemma clean_step_normal root acc c : normal root acc -> normal root (clean_step root acc c).
Proof.
  intros Hn. unfold clean_step at 1. case_decide as H1; [done |]. case_decide as H2.
  - subst c. destruct (last acc) as [d |] eqn:El; [case_decide as Hd |].
    + unfold normal. rewrite clean_snoc, Hn. unfold clean_step. rewrite decide_False by naive_solver.
      rewrite decide_True by done. rewrite El. by rewrite decide_True.
    + destruct acc as [| x acc _] using rev_ind; [done |]. rewrite removelast_snoc. by eapply normal_init.
    + by destruct root.
  - unfold normal. rewrite clean_snoc, Hn. unfold clean_step. by rewrite !decide_False.
Qed.

Lemma clean_normal root l : normal root (clean root l).
Proof.
  induction l as [| c l IH] using rev_ind; [done |]. rewrite clean_snoc. by apply clean_step_normal.
Qed.

Lemma clean_proper root l :
  Forall (fun c => slash_free c = true) l -> Forall proper (clean root l).
Proof.
  induction l as [| c l IH] using rev_ind; [constructor |]. rewrite clean_snoc, Forall_app, Forall_singleton.
  intros [Hl Hc]. specialize (IH Hl). unfold clean_step. case_decide as H1; [done |].
  assert (Forall proper (clean root l ++ [c])) as Hsn.
  { apply Forall_app. split; [done |]. constructor; [| constructor]. split; naive_solver. }
  case_decide as H2; [| done]. destruct (last (clean root l)) as [d |] eqn:El.
  - case_decide; [by subst |]. destruct (clean root l) as [| x l' _] using rev_ind; [constructor |].
    rewrite removelast_snoc. by apply Forall_app in IH as [? _].
  - destruct root; [constructor |]. by repeat constructor.
Qed.

Lemma split_slash_all_free s : Forall (fun c => slash_free c = true) (split_slash s).
Proof.
  induction s as [| c s IH]; [by repeat constructor |]. simpl. case_decide; [by constructor |].
  destruct (split_slash s) as [| h t]; inversion IH; subst; constructor; try done; simpl;
    by rewrite bool_decide_eq_false_2.
Qed.

(** ** Printing and reading back *)

Lemma concat_snoc_app cs x suf :
  String.concat "/" (cs ++ [x]) +:+ suf = String.concat "/" (cs ++ [x +:+ suf]).
Proof.
  induction cs as [| c cs IH]; [done |].
  assert (forall y, String.concat "/" ((c :: cs) ++ [y]) = c +:+ ("/" +:+ String.concat "/" (cs ++ [y]))) as E.
  { intros y. by destruct cs. }
  rewrite !E, !string_app_assoc. by rewrite IH.
Qed.

Lemma split_concat cs :
  cs <> [] -> Forall (fun c => slash_free c = true) cs -> split_slash (String.concat "/" cs) = cs.
Proof.
  intros Hne H. induction H as [| c cs Hc Hcs IH]; [done |].
  destruct cs as [| c' cs]; [by apply split_slash_free |].
  change (String.concat "/" (c :: c' :: cs)) with (c +:+ String slash (String.concat "/" (c' :: cs))).
  rewrite split_slash_app, split_slash_free, IH by done. done.
Qed.

Definition root_mark (root : bool) : string := if root then "/" else EmptyString.

(** A printed clean path, with an ordinary last component, reads back. *)
Lemma comps_printed root cs y :
  normal root cs -> Forall proper cs -> plain y ->
  comps (root_mark root +:+ String.concat "/" (cs ++ [y])) = (if root then ["/"] else []) ++ cs ++ [y].
Proof.
  intros Hn Hp (Hy & Hy0 & Hy1 & Hy2).
  assert (split_slash (String.concat "/" (cs ++ [y])) = cs ++ [y]) as Hs.
  { apply split_concat; [by destruct cs |]. apply Forall_app. split; [| by repeat constructor].
    eapply Forall_impl; [exact Hp |]. by intros c [? _]. }
  assert (clean root (cs ++ [y]) = cs ++ [y]) as Hc.
  { rewrite clean_snoc, Hn. unfold clean_step. rewrite decide_False by naive_solver. by rewrite decide_False. }
  unfold comps. destruct root; simpl root_mark.
  - change ("/" +:+ String.concat "/" (cs ++ [y])) with (String slash (String.concat "/" (cs ++ [y]))).
    simpl rooted. cbv iota. f_equal. simpl split_slash.
    rewrite Hs. exact Hc.
  - assert (rooted (String.concat "/" (cs ++ [y])) = false) as Hr.
    { destruct cs as [| c cs]; simpl.
      - destruct y as [| a y]; [done |]. simpl in *. apply andb_true_iff in Hy as [Hy _].
        by apply negb_true_iff in Hy.
      - inversion Hp as [| ? ? [Hcf Hc0] _]; subst. destruct c as [| a c]; [done |].
        simpl in Hcf. apply andb_true_iff in Hcf as [Hcf _]. apply negb_true_iff in Hcf.
        by destruct (cs ++ [y]). }
    change (EmptyString +:+ String.concat "/" (cs ++ [y])) with (String.concat "/" (cs ++ [y])).
    rewrite Hr, Hs. simpl. exact Hc.
Qed.

Lemma Join_badger d :
  d <> EmptyString ->
  filepath_Join [d; "badger"] =
    root_mark (rooted d) +:+ String.concat "/" (clean (rooted d) (split_slash d) ++ ["badger"]).
Proof.
  intros Hd. simpl. unfold is_empty. rewrite bool_decide_eq_false_2 by done.
  change (d +:+ "/" +:+ "badger") with (d +:+ String slash "badger"). unfold filepath_Clean.
  assert (rooted (d +:+ String slash "badger") = rooted d) as -> by (by destruct d).
  rewrite split_slash_app, (split_slash_free "badger") by done. rewrite clean_snoc.
  unfold clean_step at 1. rewrite decide_False by naive_solver. rewrite decide_False by done.
  unfold clean_step. rewrite decide_False by naive_solver. rewrite decide_False by done.
  destruct (rooted d); [done |]. simpl. unfold is_empty. rewrite bool_decide_eq_false_2; [done |].
  destruct (clean false (split_slash d)) as [| c cs]; [done |].
  intros H%(f_equal String.length). simpl in H. destruct (cs ++ ["badger"]) eqn:E; [by destruct cs |].
  rewrite !length_string_app in H. simpl in H. lia.
Qed.

Section Layout.
Context `{B : BadgerOps} `{R : RaftOps backup} `{O : !OpenOps backup} `{C : Codec} `{L : !BadgerLaws}.

(** C29. A node that [Open] set up with the default Badger options, whatever its
    data directory, has the layout the staged restore needs: tree and value log
    together, and the live, staging and backup directories apart. *)
Theorem default_layout cfg (w : World) :
  new_node cfg w -> BadgerOptions (Advanced cfg) = None -> DataDir cfg <> EmptyString ->
  staged_layout (w_db w).
Proof.
  intros Hn Hb Hd. unfold new_node, fixed in Hn. injection Hn as _ Ho Hdir _ _ _.
  assert (resolveBadgerOptions cfg = WithoutLogger (DefaultOptions (filepath_Join [DataDir cfg; "badger"]))) as Hopt.
  { unfold resolveBadgerOptions. by rewrite Hb. }
  destruct (DefaultOptions_dir (filepath_Join [DataDir cfg; "badger"])) as [H1 H2].
  rewrite Hopt in Ho, Hdir. unfold WithoutLogger in *. cbn [Dir] in Hdir. rewrite H1 in Hdir.
  unfold staged_layout, stagingDir, backupDir. rewrite Ho, Hdir. cbn [Dir ValueDir]. rewrite H1, H2.
  split; [done |]. split; [done |]. rewrite !Join_badger, !string_app_assoc, !concat_snoc_app by done.
  set (root := rooted (DataDir cfg)). set (cs := clean root (split_slash (DataDir cfg))).
  assert (forall y, plain y -> comps (root_mark root +:+ String.concat "/" (cs ++ [y])) =
    ((if root then ["/"] else []) ++ cs) ++ [y]) as Hc.
  { intros y Hy. rewrite <- app_assoc. apply comps_printed; [apply clean_normal | | done].
    apply clean_proper, split_slash_all_free. }
  rewrite !Hc by (by repeat split). split; [| split]; by apply snoc_apart.
Qed.

End Layout.

(** ** Witness *)
Section Witness.
Import SimInstances.

Definition w_default : World := Sim.world Sim.leader Sim.kv1 [].

#[local] Instance no_open : OpenOps backup := {|
  addrw := unit; boltw := unit; snapw := unit; transw := unit;
  raft_nil := Sim.follower;
  net_ResolveTCPAddr _ := Ok tt;
  NewBoltStore _ := Ok tt;
  NewFileSnapshotStore _ _ _ := Ok tt;
  NewTCPTransport _ _ _ _ _ := Ok tt;
  LocalAddr _ := "127.0.0.1:7001";
  BootstrapCluster _ b _ _ _ := (b, None);
  NewRaft _ _ _ _ := ([], Ok Sim.leader)
|}.

Lemma default_layout_witness : staged_layout (w_db w_default).
Proof.
  apply (default_layout Sim.config w_default).
  - reflexivity.
  - reflexivity.
  - done.
Defined.

End Witness.
