(* ===== verification/Replica.v ===== *)
(** * Replica: convergence of the replicas of a cluster

    The state machine of [fsm.go] as Raft drives it: entries are delivered in
    order through [Apply], a snapshot is labelled when [Snapshot] runs and filled
    later by [Persist], any snapshot of the cluster can be installed through
    [Restore], an installation can fail on one fault or on a stream that does not
    load, a node can restart and be fed the log again from the start, and the
    process can die in the middle of an installation.
    The labels are Raft's: the number of entries delivered, not the content. *)
From S2P Require Import Prelude Errors Types Options Command Codec Badger Files Raft Node Fsm Wp Sim FsmApply FsmRestore RestoreProps Crash.

Section Replica.
Context `{B : BadgerOps} `{R : RaftOps backup} `{C : Codec} `{L : !BadgerLaws}.

(** ** States and steps *)

(** What an entry of the log does: an entry that does not decode changes
    nothing, on any node. *)
Definition entry_command (data : string) : command :=
  match decodeCommand data with Ok c => c | Err _ => mkCommand [] [] end.

Abbreviation log_commands := (fmap (M := list) entry_command).

(** A node: its world, how many entries Raft has delivered to it, and the label
    of a snapshot that was started and not yet persisted. *)
Record replica := mkReplica { r_world : World; r_pos : nat; r_pending : option nat }.

(** The cluster: the committed log (the data of its entries), the nodes, the snapshots taken so far with
    their labels, and the latest clock a backup was taken at. *)
Record cluster := mkCluster {
  c_log : list string;
  c_nodes : list replica;
  c_snaps : list (nat * backup);
  c_horizon : Z
}.

(** What one node does: given the log and the snapshots, it may add a snapshot
    taken at a clock. *)
Inductive node_step (log : list string) (snaps : list (nat * backup)) :
    replica -> replica -> list (nat * backup * Z) -> Prop :=
| deliver w w' p pend l :
    log !! p = Some (Data l) -> Apply l w = (w', Ok None) ->
    node_step log snaps (mkReplica w p pend) (mkReplica w' (S p) pend) []
| deliver_garbled w w' p pend l e r :
    log !! p = Some (Data l) -> decodeCommand (Data l) = Err e -> Apply l w = (w', r) ->
    node_step log snaps (mkReplica w p pend) (mkReplica w' (S p) pend) []
| start_snapshot w p :
    Snapshot = Ok tt ->
    node_step log snaps (mkReplica w p None) (mkReplica w p (Some p)) []
| persist w w' p i s s' bs :
    Persist s w = (w', Ok (s', None)) -> sk_data s' = Some bs ->
    node_step log snaps (mkReplica w p (Some i)) (mkReplica w' p None) [((i, bs), w_clock w)]
| persist_failed w w' p i s s' e :
    Persist s w = (w', Ok (s', Some e)) ->
    node_step log snaps (mkReplica w p (Some i)) (mkReplica w' p None) []
| restore w w' p pend i bs :
    (i, bs) ∈ snaps -> (forall j, pend = Some j -> j <= i) -> Restore bs w = (w', Ok tt) ->
    node_step log snaps (mkReplica w p pend) (mkReplica w' i pend) []
| restore_failed w w' p pend h bs e :
    store (w_db w) = Some h -> one_fault (w_faults w) -> Restore bs w = (w', Err e) ->
    node_step log snaps (mkReplica w p pend) (mkReplica w' p pend) []
| restart w w' p pend h h' :
    store (w_db w) = Some h -> store (w_db w') = Some h' ->
    contents (h_db h') = contents (h_db h) ->    (** the files of a store keep its data *)
    staged_layout (w_db w') -> live_ready w' ->
    node_step log snaps (mkReplica w p pend) (mkReplica w' 0 None) []
| crash_restart w w0 w1 w' p pend h h' i bs :   (** the process dies in [Restore]; the next one opens what is left *)
    (i, bs) ∈ snaps -> store (w_db w) = Some h -> cut restore_calls (w_faults w) ->
    w_fs w0 = w_fs (fst (Restore bs w)) -> recovers h w (w_fs w0) ->
    badger_Open (badgerOpts (w_db w)) w0 = (w1, Ok h') ->
    badgerOpts (w_db w') = badgerOpts (w_db w) -> badgerDir (w_db w') = badgerDir (w_db w) ->
    store (w_db w') = Some h' -> w_fs w' = w_fs w1 ->
    node_step log snaps (mkReplica w p pend) (mkReplica w' 0 None) []
| tick_clock w w' p pend :
    w_db w' = w_db w -> w_fs w' = w_fs w ->
    node_step log snaps (mkReplica w p pend) (mkReplica w' p pend) [].

Definition later_horizon (t : Z) (new : list (nat * backup * Z)) : Z :=
  fold_left (fun t s => Z.max t (snd s)) new t.

Inductive cluster_step : cluster -> cluster -> Prop :=
| commit log nodes snaps t c :
    cluster_step (mkCluster log nodes snaps t) (mkCluster (log ++ [c]) nodes snaps t)
| node log nodes snaps t n r r' new :
    nodes !! n = Some r -> node_step log snaps r r' new ->
    cluster_step (mkCluster log nodes snaps t)
                 (mkCluster log (<[n := r']> nodes) (snaps ++ (fst <$> new)) (later_horizon t new)).

(** A fresh node: an empty store, nothing delivered. *)
Definition fresh (r : replica) : Prop :=
  r_pos r = 0 /\ r_pending r = None /\ staged_layout (w_db (r_world r)) /\ live_ready (r_world r) /\
  exists h, store (w_db (r_world r)) = Some h /\ contents (h_db h) = ∅.

Definition initial (c : cluster) : Prop :=
  c_log c = [] /\ c_snaps c = [] /\ Forall fresh (c_nodes c).

Definition reachable (c : cluster) : Prop := exists c0, initial c0 /\ rtc cluster_step c0 c.

(** ** The invariant *)

(** Contents [m] of a node that was given the first [p] entries: some [n] past
    [p] is such that replaying the entries from [p] to [n] over [m] gives the
    state of the log at [n]. *)
Definition catches_up (log : list command) (t : Z) (p : nat) (m : kv) : Prop :=
  exists n, p <= n <= length log /\
    run (take (n - p) (drop p log)) m ≈[t] run (take n log) ∅.

Definition snap_ok (log : list command) (t : Z) (s : nat * backup) : Prop :=
  exists d t0, (t0 <= t)%Z /\ db_Backup t0 d = Ok (snd s) /\ catches_up log t (fst s) (contents d).

Definition replica_ok (log : list command) (t : Z) (r : replica) : Prop :=
  staged_layout (w_db (r_world r)) /\ live_ready (r_world r) /\
  (forall i, r_pending r = Some i -> i <= r_pos r) /\
  exists h, store (w_db (r_world r)) = Some h /\ catches_up log t (r_pos r) (contents (h_db h)).

Definition cluster_ok (c : cluster) : Prop :=
  Forall (replica_ok (log_commands (c_log c)) (c_horizon c)) (c_nodes c) /\
  Forall (snap_ok (log_commands (c_log c)) (c_horizon c)) (c_snaps c).

(** ** Lemmas on logs *)

Lemma catches_up_equiv log t p m1 m2 : m1 ≈[t] m2 -> catches_up log t p m1 -> catches_up log t p m2.
Proof. intros Hm (n & Hn & H). exists n. split; [done |]. by rewrite <- Hm. Qed.

Lemma catches_up_later log t t' p m : (t <= t')%Z -> catches_up log t p m -> catches_up log t' p m.
Proof. intros Ht (n & Hn & H). exists n. split; [done |]. by eapply kv_equiv_later. Qed.

Lemma catches_up_snoc log t p m c : catches_up log t p m -> catches_up (log ++ [c]) t p m.
Proof.
  intros (n & Hn & H). exists n. rewrite length_app. split; [simpl; lia |].
  rewrite take_app_le, drop_app_le, take_app_le by (rewrite ?length_drop; lia). done.
Qed.

(** Going back to an earlier position is safe. *)
Lemma catches_up_back log t p q m : q <= p -> catches_up log t p m -> catches_up log t q m.
Proof.
  intros Hq (n & Hn & H). exists n. split; [lia |].
  assert (take (n - q) (drop q log) = take (p - q) (drop q log) ++ take (n - p) (drop p log)) as Hd.
  { replace (n - q) with ((p - q) + (n - p)) by lia. rewrite <- take_take_drop, drop_drop.
    do 3 f_equal. lia. }
  assert (take n log = take q log ++ take (n - q) (drop q log)) as Ht.
  { rewrite take_take_drop. f_equal. lia. }
  rewrite Ht, Hd in *. by apply run_rollback.
Qed.

(** One more entry: replayed if the store had it, new otherwise. *)
Lemma catches_up_step log t p m c :
  log !! p = Some c -> catches_up log t p m -> catches_up log t (S p) (cmd_apply m c).
Proof.
  intros Hc (n & [Hp Hn] & H). pose proof (lookup_lt_Some _ _ _ Hc) as Hlt.
  destruct (decide (p = n)) as [<- | Hne].
  - exists (S p). split; [lia |]. rewrite Nat.sub_diag in *. simpl in *.
    rewrite (take_S_r _ _ _ Hc), run_app. simpl. rewrite !cmd_apply_writes. by rewrite H.
  - exists n. split; [lia |]. rewrite (drop_S _ _ _ Hc) in H.
    replace (n - p) with (S (n - S p)) in H by lia. exact H.
Qed.

Lemma catches_up_empty log t : catches_up log t 0 ∅.
Proof. exists 0. split; [lia |]. done. Qed.

(** At the end of the log nothing is left to replay. *)
Lemma catches_up_end log t m : catches_up log t (length log) m -> m ≈[t] run log ∅.
Proof.
  intros (n & Hn & H). assert (n = length log) as -> by lia.
  rewrite Nat.sub_diag in H. simpl in H. by rewrite firstn_all in H.
Qed.

(** ** The steps keep the invariant *)

Lemma Apply_layout l w w' :
  Apply l w = (w', Ok None) -> staged_layout (w_db w) -> live_ready w ->
  staged_layout (w_db w') /\ live_ready w'.
Proof.
  intros H Hl Hr. apply Apply_nil_inv in H as (cmd & h & d & _ & _ & Hs & _ & fl & ->).
  split; [done |]. intros h' [= <-]. simpl. destruct (Hr h Hs) as [Ho Hi]. by split.
Qed.

Lemma Apply_garbled l e w w' r :
  decodeCommand (Data l) = Err e -> Apply l w = (w', r) ->
  core (w_db w') = core (w_db w) /\ w_fs w' = w_fs w.
Proof. intros He. unfold Apply. rewrite He. by intros [= <- _]. Qed.

Lemma same_core_layout (w w' : World) :
  core (w_db w') = core (w_db w) -> w_fs w' = w_fs w -> staged_layout (w_db w) -> live_ready w ->
  staged_layout (w_db w') /\ live_ready w' /\ store (w_db w') = store (w_db w).
Proof.
  intros Hc Hfs Hl Hr. destruct (core_layout _ _ Hc) as [Ho Hd]. apply core_store in Hc.
  unfold staged_layout, live_ready, stagingDir, backupDir in *. by rewrite Ho, Hd, Hc, Hfs.
Qed.

Lemma Restore_layout rc t d w w' :
  Restore rc w = (w', Ok tt) -> staged_layout (w_db w) -> live_ready w -> db_Backup t d = Ok rc ->
  staged_layout (w_db w') /\ live_ready w' /\
  exists h, store (w_db w') = Some h /\ contents (h_db h) ≈[t] contents d.
Proof.
  intros H Hl Hr Hb.
  assert (wp (Restore rc) (fun r w' => r = Ok tt -> staged_layout (w_db w') /\ live_ready w' /\
    exists h, store (w_db w') = Some h /\ contents (h_db h) ≈[t] contents d) w) as Hwp.
  { apply Restore_wp; try done. intros d0 dn w1 H0 Hload (dl & Hc & Hcont & Hfs & _) _.
    pose proof (core_store _ _ Hc) as Hs. destruct (core_layout _ _ Hc) as [Ho Hd]. simpl in Hs, Ho, Hd.
    split; [| split].
    - unfold staged_layout, stagingDir, backupDir in *. by rewrite Ho, Hd.
    - intros h Hh. rewrite Hs in Hh. injection Hh as <-. rewrite Ho, Hd. split; [done | by rewrite Hfs].
    - eexists. split; [exact Hs |]. simpl. rewrite Hcont. by eapply Load_Backup. }
  exact (wp_elim _ _ _ _ _ Hwp H eq_refl).
Qed.

Lemma Restore_failed_layout rc w w' h e :
  Restore rc w = (w', Err e) -> staged_layout (w_db w) -> live_ready w ->
  store (w_db w) = Some h -> one_fault (w_faults w) ->
  staged_layout (w_db w') /\ live_ready w' /\
  exists h', store (w_db w') = Some h' /\ contents (h_db h') = contents (h_db h).
Proof.
  intros H Hl Hr Hs H1.
  assert (wp (Restore rc) (fun r w' => forall e, r = Err e -> staged_layout (w_db w') /\ live_ready w' /\
    exists h', store (w_db w') = Some h' /\ contents (h_db h') = contents (h_db h)) w) as Hwp;
    [| exact (wp_elim _ _ _ _ _ Hwp H e eq_refl)].
  apply Restore_wp; try done.
  - intros e1 w1 (_ & Hc & _ & Hfs) _ _. destruct (core_layout _ _ Hc) as [Ho Hd].
    apply core_store in Hc. split; [unfold staged_layout, stagingDir, backupDir in *; by rewrite Ho, Hd |].
    split; [| exists h; by rewrite Hc]. intros h1. rewrite Hc, Ho, Hd. intros Hh1.
    destruct (Hr h1 Hh1) as [? Hi]. split; [done |]. rewrite Hfs; [done |]. by apply apart_sym, Hl.
  - intros e1 w1 (_ & s & lg & Hc & _ & Hfs & Hh) _ _. destruct (core_layout _ _ Hc) as [Ho Hd].
    apply core_store in Hc. simpl in Hc, Ho, Hd. destruct (Hh h) as (d & -> & Hd1); [| done |].
    { intros i j. rewrite !drop_drop. intros Hi Hj. pose proof (H1 _ _ Hi Hj). lia. }
    split; [unfold staged_layout, stagingDir, backupDir in *; by rewrite Ho, Hd |].
    split; [| by eexists]. intros h1. rewrite Hc, Ho, Hd. intros [= <-]. split; [done |]. apply Hfs. by eexists.
Qed.

Lemma crash_ok log t p w h rc w0 w1 h' i d t0 :
  staged_layout (w_db w) -> live_ready w -> store (w_db w) = Some h -> cut restore_calls (w_faults w) ->
  w_fs w0 = w_fs (fst (Restore rc w)) -> recovers h w (w_fs w0) ->
  badger_Open (badgerOpts (w_db w)) w0 = (w1, Ok h') ->
  (t0 <= t)%Z -> db_Backup t0 d = Ok rc -> catches_up log t i (contents d) -> catches_up log t p (contents (h_db h)) ->
  h_opts h' = badgerOpts (w_db w) /\ is_Some (w_fs w1 !! comps (badgerDir (w_db w))) /\
  catches_up log t 0 (contents (h_db h')).
Proof.
  intros Hl Hr Hs Hcut Hfs Hrec HO Ht Hb Hnew Hold.
  destruct (crash_reopens rc h w w0 w1 h' Hl Hr Hs Hcut Hfs Hrec HO) as (Ho & Hlive & Hc).
  split; [done |]. split; [done |]. destruct Hc as [-> | d0 dn H0 Hload -> | ->].
  - eapply catches_up_back; [| exact Hold]. lia.
  - eapply (catches_up_back _ _ i); [lia |]. eapply catches_up_equiv; [| exact Hnew].
    symmetry. eapply kv_equiv_later; [exact Ht | by eapply Load_Backup].
  - apply catches_up_empty.
Qed.

Lemma Persist_state s w w' s' e :
  Persist s w = (w', Ok (s', e)) -> w_db w' = w_db w /\ w_fs w' = w_fs w.
Proof.
  intros H. destruct w as [db fs fl clk tk]. unfold Persist, sink_Cancel, sink_Close, badger_Backup in H.
  st_unfold. destruct (store db) as [h |]; destruct fl as [| [f |] [| [g |] fl]]; simplify_eq/=; split_all; done.
Qed.

Lemma Persist_data s w w' s' bs :
  Persist s w = (w', Ok (s', None)) -> sk_data s' = Some bs ->
  exists h, store (w_db w) = Some h /\ db_Backup (w_clock w) (h_db h) = Ok bs.
Proof.
  intros (h & bs' & Hs & Hb & -> & _)%Persist_run [= <-]. by exists h.
Qed.

Lemma same_node_layout (w w' : World) :
  w_db w' = w_db w -> w_fs w' = w_fs w -> staged_layout (w_db w) -> live_ready w ->
  staged_layout (w_db w') /\ live_ready w'.
Proof. unfold live_ready. by intros -> ->. Qed.

Lemma later_horizon_mono t new : (t <= later_horizon t new)%Z.
Proof.
  revert t. induction new as [| s new IH]; intros t; simpl; [lia |]. specialize (IH (Z.max t (snd s))). lia.
Qed.

Lemma replica_okI log t w p pend h :
  staged_layout (w_db w) -> live_ready w -> (forall i, pend = Some i -> i <= p) ->
  store (w_db w) = Some h -> catches_up log t p (contents (h_db h)) -> replica_ok log t (mkReplica w p pend).
Proof. intros. do 3 (split; [done |]). by exists h. Qed.

Section Step.
Variables (log : list string) (t : Z) (w : World) (p : nat) (pend : option nat) (h : handle).
Hypotheses (Hl : staged_layout (w_db w)) (Hr : live_ready w) (Hpend : forall i, pend = Some i -> i <= p)
  (Hs : store (w_db w) = Some h) (Hcu : catches_up (log_commands log) t p (contents (h_db h))).

Lemma later_pend i : pend = Some i -> i <= S p.
Proof. intros Hi. specialize (Hpend i Hi). lia. Qed.

Lemma deliver_ok l w' :
  log !! p = Some (Data l) -> Apply l w = (w', Ok None) -> replica_ok (log_commands log) t (mkReplica w' (S p) pend).
Proof.
  intros Hc Ha. destruct (Apply_layout _ _ _ Ha Hl Hr) as [Hl' Hr'].
  apply Apply_nil_inv in Ha as (cmd & h1 & d & Hd' & _ & Hs1 & Hc1 & fl & ->).
  assert (h1 = h) as -> by congruence. eapply replica_okI; [done | done | apply later_pend | done |].
  simpl. rewrite Hc1. apply catches_up_step; [| done].
  rewrite list_lookup_fmap, Hc. simpl. unfold entry_command. by rewrite Hd'.
Qed.

Lemma garbled_ok l e r w' :
  log !! p = Some (Data l) -> decodeCommand (Data l) = Err e -> Apply l w = (w', r) ->
  replica_ok (log_commands log) t (mkReplica w' (S p) pend).
Proof.
  intros Hc Hd Ha. destruct (Apply_garbled _ _ _ _ _ Hd Ha) as [Hcore Hfs].
  destruct (same_core_layout _ _ Hcore Hfs Hl Hr) as (Hl' & Hr' & Hs').
  eapply (replica_okI _ _ _ _ _ h); [done | done | apply later_pend | congruence |].
  change (contents (h_db h)) with (cmd_apply (contents (h_db h)) (mkCommand [] [])).
  apply catches_up_step; [| done]. rewrite list_lookup_fmap, Hc. simpl. unfold entry_command. by rewrite Hd.
Qed.

(** A node with the same store and directories. *)
Lemma unchanged_ok w' t' pend' :
  w_db w' = w_db w -> w_fs w' = w_fs w -> (t <= t')%Z -> (forall i, pend' = Some i -> i <= p) ->
  replica_ok (log_commands log) t' (mkReplica w' p pend').
Proof.
  intros Hdb Hfs Ht Hp'. destruct (same_node_layout _ _ Hdb Hfs Hl Hr) as [Hl' Hr'].
  eapply (replica_okI _ _ _ _ _ h); [done | done | done | congruence |]. by eapply catches_up_later.
Qed.

Lemma persisted_ok w' i s s' bs :
  i <= p -> Persist s w = (w', Ok (s', None)) -> sk_data s' = Some bs ->
  snap_ok (log_commands log) (Z.max t (w_clock w)) (i, bs).
Proof.
  intros Hi Hp Hbs. destruct (Persist_data _ _ _ _ _ Hp Hbs) as (h1 & Hs1 & Hb). assert (h1 = h) as -> by congruence.
  exists (h_db h), (w_clock w). split; [lia |]. split; [done |].
  eapply catches_up_back; [exact Hi |]. eapply catches_up_later; [| exact Hcu]. lia.
Qed.

End Step.

(** A step of one node. *)
Lemma node_step_ok log snaps t r r' new :
  node_step log snaps r r' new ->
  replica_ok (log_commands log) t r -> Forall (snap_ok (log_commands log) t) snaps ->
  replica_ok (log_commands log) (later_horizon t new) r' /\
  Forall (snap_ok (log_commands log) (later_horizon t new)) (fst <$> new).
Proof.
  intros Hstep (Hl & Hr & Hpend & h & Hs & Hcu) Hsn. rewrite Forall_forall in Hsn.
  destruct Hstep as [w w' p pend l Hc Ha | w w' p pend l e rr Hc Hd Ha | w p _ | w w' p i s s' bs Hp Hbs | w w' p i s s' e Hp
    | w w' p pend i bs Hin Hi HR | w w' p pend h0 bs e Hs0 H1 HR | w w' p pend h0 h0' Hs0 Hs0' Hcont Hl' Hr'
    | w w0 w1 w' p pend h0 h' i bs Hin Hs0 Hcut Hfs Hrec HO Ho Hd Hs' Hfs' | w w' p pend Hdb Hfs];
    simpl in *; (split; [| constructor; try apply Forall_nil_2]).
  - by eapply deliver_ok.
  - by eapply garbled_ok.
  - eapply unchanged_ok; try done. by intros i [= <-].
  - destruct (Persist_state _ _ _ _ _ Hp). eapply unchanged_ok; try done. lia.
  - eapply persisted_ok; eauto.
  - destruct (Persist_state _ _ _ _ _ Hp). by eapply unchanged_ok.
  - destruct (Hsn _ Hin) as (d & t0 & Ht & Hb & Hcu').
    destruct (Restore_layout _ _ _ _ _ HR Hl Hr Hb) as (Hl' & Hr' & h' & Hs' & Hc').
    eapply replica_okI; [done | done | exact Hi | done |]. eapply catches_up_equiv; [| exact Hcu'].
    symmetry. by eapply kv_equiv_later.
  - destruct (Restore_failed_layout _ _ _ _ _ HR Hl Hr Hs0 H1) as (Hl' & Hr' & h' & Hs' & Hc').
    assert (h0 = h) as -> by congruence. eapply replica_okI; [done | done | done | done |]. by rewrite Hc'.
  - assert (h0 = h) as -> by congruence. eapply replica_okI; [done | done | done | done |].
    rewrite Hcont. eapply catches_up_back; [| exact Hcu]. lia.
  - assert (h0 = h) as -> by congruence. destruct (Hsn _ Hin) as (d & t0 & Ht & Hb & Hcu'). cbn [fst snd] in *.
    destruct (crash_ok _ _ _ _ _ _ _ _ _ _ _ _ Hl Hr Hs Hcut Hfs Hrec HO Ht Hb Hcu' Hcu) as (Ho' & Hlive & Hcu0).
    eapply replica_okI; [| | done | exact Hs' | done].
    + unfold staged_layout, stagingDir, backupDir in *. by rewrite Ho, Hd.
    + intros h1 Hh1. rewrite Ho, Hd, Hfs'. split; [congruence | done].
  - by eapply unchanged_ok.
Qed.

Lemma replica_ok_later log t t' r : (t <= t')%Z -> replica_ok log t r -> replica_ok log t' r.
Proof.
  intros Ht (? & ? & ? & h & ? & ?). do 3 (split; [done |]). exists h. split; [done |].
  by eapply catches_up_later.
Qed.

Lemma snap_ok_later log t t' s : (t <= t')%Z -> snap_ok log t s -> snap_ok log t' s.
Proof.
  intros Ht (d & t0 & ? & ? & ?). exists d, t0. split; [lia |]. split; [done |]. by eapply catches_up_later.
Qed.

Lemma cluster_step_ok c c' : cluster_step c c' -> cluster_ok c -> cluster_ok c'.
Proof.
  intros [log nodes snaps t cmd | log nodes snaps t n r r' new Hn Hstep] [Hnodes Hsnaps]; simpl in *.
  - split; simpl.
    + eapply Forall_impl; [exact Hnodes |]. intros r (? & ? & ? & h & ? & ?).
      do 3 (split; [done |]). exists h. split; [done |]. rewrite fmap_app. by apply catches_up_snoc.
    + eapply Forall_impl; [exact Hsnaps |]. intros s (d & t0 & ? & ? & ?). exists d, t0.
      do 2 (split; [done |]). rewrite fmap_app. by apply catches_up_snoc.
  - pose proof (later_horizon_mono t new) as Ht. split; simpl.
    + apply Forall_insert.
      * eapply Forall_impl; [exact Hnodes |]. intros r0. by apply replica_ok_later.
      * eapply node_step_ok; [done | | done]. by eapply Forall_lookup_1.
    + apply Forall_app. split.
      * eapply Forall_impl; [exact Hsnaps |]. intros s. by apply snap_ok_later.
      * eapply node_step_ok; [done | | done]. by eapply Forall_lookup_1.
Qed.

Lemma initial_ok c : initial c -> cluster_ok c.
Proof.
  intros (Hlog & Hsnaps & Hf). split; rewrite ?Hsnaps; [| constructor].
  eapply Forall_impl; [exact Hf |]. intros r (Hp & Hpend & Hl & Hr & h & Hs & Hc).
  split; [done |]. split; [done |]. split; [by rewrite Hpend |]. exists h. split; [done |].
  exists 0. rewrite Hlog, Hp, Hc. simpl. split; [lia | done].
Qed.

Lemma reachable_ok c : reachable c -> cluster_ok c.
Proof.
  intros (c0 & Hi%initial_ok & Hsteps). induction Hsteps as [| c0 c1 c Hstep _ IH]; [done |].
  apply IH. by eapply cluster_step_ok.
Qed.

(** ** Properties *)

(** A node that was given the whole log. *)
Lemma converges c r :
  reachable c -> r ∈ c_nodes c -> r_pos r = length (c_log c) ->
  exists h, store (w_db (r_world r)) = Some h /\
    forall t k, (c_horizon c <= t)%Z ->
      visible t (contents (h_db h)) k = visible t (run (log_commands (c_log c)) ∅) k.
Proof.
  intros [Hok _]%reachable_ok Hin Hp. rewrite Forall_forall in Hok.
  destruct (Hok r Hin) as (_ & _ & _ & h & Hs & Hcu). exists h. split; [done |].
  rewrite Hp, <- (length_fmap entry_command) in Hcu. intros t k Ht. by apply (catches_up_end _ _ _ Hcu).
Qed.

(** C1. Convergence: in every reachable cluster, whatever snapshots were taken
    while entries were being applied and installed on whatever node, with at
    most one fault in an installation that failed, however nodes restarted and
    replayed, and wherever in an installation a process died, a node that was given the whole committed log
    serves exactly the log's state, at every time from the latest backup on. *)
Theorem convergence c r :
  reachable c -> r ∈ c_nodes c -> r_pos r = length (c_log c) ->
  exists h, store (w_db (r_world r)) = Some h /\
    forall t k, (c_horizon c <= t)%Z ->
      visible t (contents (h_db h)) k = visible t (run (log_commands (c_log c)) ∅) k.
Proof. apply converges. Qed.

(** C2. A snapshot of a reachable cluster is as good as the log up to its label,
    even though its content may be later: restoring it and replaying the entries
    after the label gives the log's state, however many of them the content
    already holds. *)
Theorem snapshot_sound c i bs w w' :
  reachable c -> (i, bs) ∈ c_snaps c -> staged_layout (w_db w) -> live_ready w ->
  Restore bs w = (w', Ok tt) ->
  i <= length (c_log c) /\
  exists h, store (w_db w') = Some h /\
    run (log_commands (drop i (c_log c))) (contents (h_db h)) ≈[c_horizon c] run (log_commands (c_log c)) ∅.
Proof.
  intros [_ Hok]%reachable_ok Hin Hl Hr HR.
  rewrite fmap_drop, <- (length_fmap entry_command (c_log c)). set (log := log_commands (c_log c)) in *.
  rewrite Forall_forall in Hok.
  destruct (Hok _ Hin) as (d & t0 & Ht & Hb & n & Hn & H). cbn [fst snd] in *. split; [lia |].
  destruct (Restore_layout _ _ _ _ _ HR Hl Hr Hb) as (_ & _ & h & Hs & Hc). exists h. split; [done |].
  assert (drop i log = take (n - i) (drop i log) ++ drop n log) as Hd.
  { rewrite <- (take_drop (n - i) (drop i log)) at 1. rewrite drop_drop. do 2 f_equal. lia. }
  rewrite Hd, run_app. rewrite <- (take_drop n log) at 3. rewrite run_app. apply run_proper.
  rewrite <- H. apply run_proper. by eapply kv_equiv_later.
Qed.

End Replica.

(** ** Witnesses *)
Section Witnesses.
Import SimInstances.

Lemma run_snd {W E A} (m : W -> W * result E A) w r : snd (m w) = r -> m w = (fst (m w), r).
Proof. intros <-. apply surjective_pairing. Qed.

Lemma world_fs `{B : BadgerOps} {R : RaftOps backup} db fs fl clk tk : w_fs (mkWorld db fs fl clk tk) = fs.
Proof. done. Qed.

Lemma set_store_fields `{B : BadgerOps} {R : RaftOps backup} s (w : World) :
  store (w_db (set_store s w)) = s /\ w_fs (set_store s w) = w_fs w.
Proof. done. Qed.

Definition c1 : command := Sim.set_cmd "a" "1".
Definition c2 : command := Sim.del_cmd "a".
Definition l1 : rlog := mkLog 1 (Sim.bytes_of c1).
Definition l2 : rlog := mkLog 2 (Sim.bytes_of c2).
Definition l3 : rlog := mkLog 3 "garbled".
Definition handle2 : handle := mkHandle Sim.opts (Sim.mem {[ "a" := Sim.entry "1" ]}).
Definition open_sink : sink backup := mkSink None SinkOpen.

(** A node is given the first entry while a snapshot labelled 0 is pending and
    the snapshot is persisted with that entry in it.  The process dies between
    the two renames of an installation; the next one finds no database, installs
    the snapshot, and is given all three entries; the last one does not decode. *)
Definition v0 : World := Sim.world Sim.leader ∅ [].
Definition v1 : World := fst (Apply l1 v0).
Definition v2 : World := fst (Persist open_sink v1).
Definition bs2 : backup := ({[ "a" := Sim.entry "1" ]} : kv).
Definition dying : World :=
  mkWorld (w_db v2) (w_fs v2) (replicate 8 None ++ replicate 13 (Some Sim.boom)) (w_clock v2) [].
Definition left_over : World := mkWorld (w_db v0) (w_fs (fst (Restore bs2 dying))) [] (w_clock v2) [].
Definition found : World := fst (badger_Open (badgerOpts (w_db dying)) left_over).
Definition v2' : World := set_store (Some (mkHandle Sim.opts (Sim.mem ∅))) found.
Definition v3 : World := fst (Restore bs2 v2').
Definition v4 : World := fst (Apply l1 v3).
Definition v5 : World := fst (Apply l2 v4).
Definition v6 : World := fst (Apply l3 v5).

Definition cluster5 : cluster := mkCluster [Data l1; Data l2; Data l3] [mkReplica v6 3 None] [(0, bs2)] Sim.t0.

Lemma one_step log snaps t r r' new :
  node_step log snaps r r' new ->
  cluster_step (mkCluster log [r] snaps t) (mkCluster log [r'] (snaps ++ (fst <$> new)) (later_horizon t new)).
Proof. intros H. by apply (node log [r] snaps t 0 r r' new). Qed.

Lemma cluster5_reachable : reachable cluster5.
Proof.
  exists (mkCluster [] [mkReplica v0 0 None] [] 0%Z). split.
  { split; [done |]. split; [done |]. constructor; [| constructor]. split; [done |]. split; [done |].
    split; [by apply (staged_layout_plain "/data/n1" "badger") |].
    split; [intros h [= <-]; split; [done | vm_compute; eauto] |]. by eexists. }
  eapply rtc_l; [apply (commit [] _ _ _ (Data l1)) |].
  eapply rtc_l; [apply (commit [Data l1] _ _ _ (Data l2)) |].
  eapply rtc_l; [apply (commit [Data l1; Data l2] _ _ _ (Data l3)) |].
  eapply rtc_l; [apply one_step; by apply start_snapshot |].
  eapply rtc_l; [apply one_step, (deliver _ _ v0 v1 0 (Some 0) l1); [done |] |].
  { apply (run_snd (Apply l1) v0). vm_compute. reflexivity. }
  eapply rtc_l; [apply one_step, (persist _ _ v1 v2 1 0 open_sink (mkSink (Some bs2) SinkClosed) bs2) |].
  { apply (run_snd (Persist open_sink) v1). vm_compute. reflexivity. }
  { done. }
  eapply rtc_l; [apply one_step, (tick_clock _ _ v2 dying 1 None); reflexivity |].
  eapply rtc_l; [apply one_step,
    (crash_restart _ _ dying left_over found v2' 1 None handle2 (mkHandle Sim.opts (Sim.mem ∅)) 0 bs2) |].
  { left. }
  { vm_cast_no_check (eq_refl (Some handle2)). }
  { by apply (cut_at 8 13). }
  { exact (world_fs _ _ _ _ _). }
  { intros img d Himg. exfalso. revert Himg. vm_compute. discriminate. }
  { apply (run_snd (badger_Open (badgerOpts (w_db dying))) left_over).
    vm_cast_no_check (eq_refl (Ok (E := error) (mkHandle Sim.opts (Sim.mem ∅)))). }
  1-2: vm_compute; reflexivity.
  { exact (proj1 (set_store_fields _ found)). }
  { exact (proj2 (set_store_fields _ found)). }
  eapply rtc_l; [apply one_step, (restore _ _ v2' v3 0 None 0 bs2); [left | done |] |].
  { apply (run_snd (Restore bs2) v2'). vm_compute. reflexivity. }
  eapply rtc_l; [apply one_step, (deliver _ _ v3 v4 0 None l1); [done |] |].
  { apply (run_snd (Apply l1) v3). vm_compute. reflexivity. }
  eapply rtc_l; [apply one_step, (deliver _ _ v4 v5 1 None l2); [done |] |].
  { apply (run_snd (Apply l2) v4). vm_compute. reflexivity. }
  eapply rtc_l; [apply one_step, (deliver_garbled _ _ v5 v6 2 None l3 (New "gob: unknown type id or corrupted data")
    (snd (Apply l3 v5))); [done | vm_compute; reflexivity | apply surjective_pairing] |].
  apply rtc_refl.
Qed.

Lemma cluster5_log : entry_command <$> c_log cluster5 = [c1; c2; mkCommand [] []].
Proof. vm_compute. reflexivity. Qed.

Lemma convergence_witness :
  exists h, store (w_db v6) = Some h /\
    forall t k, (Sim.t0 <= t)%Z -> visible t (contents (h_db h)) k = visible t (run [c1; c2] ∅) k.
Proof.
  destruct (convergence cluster5 (mkReplica v6 3 None)) as (h & Hs & H);
    [apply cluster5_reachable | by left | reflexivity |].
  rewrite cluster5_log in H. exists h. split; [exact Hs | exact H].
Defined.

Lemma snapshot_sound_witness :
  exists w' h, store (w_db w') = Some h /\ run [c1; c2] (contents (h_db h)) ≈[Sim.t0] run [c1; c2] ∅.
Proof.
  destruct (snapshot_sound cluster5 0 bs2 v0 (fst (Restore bs2 v0))) as (_ & h & Hs & Hc).
  - apply cluster5_reachable.
  - by left.
  - by apply (staged_layout_plain "/data/n1" "badger").
  - intros h [= <-]. split; [done | vm_compute; eauto].
  - apply (run_snd (Restore bs2) v0). vm_compute. reflexivity.
  - rewrite drop_0, cluster5_log in Hc. eexists _, h. split; [exact Hs | exact Hc].
Defined.

End Witnesses.
