(* ===== verification/System.v ===== *)
(** * System: a write on one node, a read on another

    The path of a write through the whole program: [Set] or [Delete] on the
    leader (write.go, db.go), the replicated log, [Apply], snapshots and crashes
    on any node (fsm.go), and a local read there (read.go). *)
From S2P Require Import Prelude Errors Types Options Command Codec Badger Files Raft Node Fsm Wp Sim FsmApply FsmRestore RestoreProps Crash Linear Write WriteProps Read ReadProps Frame Session Replica.

Section System.
Context `{B : BadgerOps} `{R : RaftOps backup} `{C : Codec} `{L : !BadgerLaws} `{RL : !RaftLaws backup} `{CL : !CodecLaws}.

Lemma run_key key cs (m1 m2 : kv) : m1 !! key = m2 !! key -> run cs m1 !! key = run cs m2 !! key.
Proof. intros H. rewrite !run_writes, !writes_apply_lookup. by destruct (last_write key _). Qed.

(** No entry of the log [ds] writes [key]. *)
Definition never_writes (key : string) (ds : list string) : Prop :=
  Forall (fun d => last_write key (cmd_writes (entry_command d)) = None) ds.

Lemma run_never key ds (m : kv) : never_writes key ds -> run (entry_command <$> ds) m !! key = m !! key.
Proof.
  intros H. revert m. induction H as [| d ds Hd _ IH]; intros m; [done |].
  change (run (entry_command <$> ds) (cmd_apply m (entry_command d)) !! key = m !! key).
  rewrite IH, cmd_apply_writes, writes_apply_lookup. by rewrite Hd.
Qed.

(** The log from the entry that writes [o] under [key] on. *)
Lemma run_from log p data c key o (m : kv) :
  log !! p = Some data -> decodeCommand data = Ok c -> (forall m0, cmd_apply m0 c !! key = o) ->
  run (entry_command <$> log) m !! key = run (entry_command <$> drop (S p) log) (only key o) !! key.
Proof.
  intros Hp Hd Hc. rewrite <- (take_drop_middle log p data Hp) at 1.
  rewrite fmap_app, fmap_cons, run_app. cbn [run fold_left]. apply run_key.
  assert (entry_command data = c) as -> by (unfold entry_command; by rewrite Hd). by rewrite Hc, only_key.
Qed.

(** C7. An acknowledged write is the system's: when a [Set], a [Delete] or a
    [Batch] returned [nil] on a node, then on every node of a reachable cluster
    whose log goes on from that node's, a node that was given the whole log,
    through whatever snapshots, installs, restarts and crashes, answers a local
    read of a key the call wrote by what its mutation left, as changed by the
    later entries of the log; when none of them writes the key, by the value
    written until it expires, and by [ErrKeyNotFound] from then on or after a
    delete.  The read answers anything else only when a call of the storage
    fails, and then it answers that failure. *)
Theorem acknowledged_everywhere base n rs call m ro (w w1 : World) c r :
  tracks base n rs w -> call_write call w = (w1, Ok tt) -> m ∈ mutations call ->
  reachable c -> (Data <$> committed (raft (w_db w1))) `prefix_of` c_log c ->
  r ∈ c_nodes c -> r_pos r = length (c_log c) ->
  closed (w_db (r_world r)) = false -> (c_horizon c <= w_clock (r_world r))%Z ->
  Mode ro = ReadLocal -> (0 <= Timeout ro)%Z ->
  exists p t w' res, length (committed (raft (w_db w))) < p <= length (c_log c) /\ (w_clock w <= t <= w_clock w1)%Z /\
    GetBytes (m_key m) ro (r_world r) = (w', res) /\ w_db w' = w_db (r_world r) /\
    let o := snd (mutation_write t m) in let now := w_clock (r_world r) in
    point_read (m_key m) now (run (entry_command <$> drop p (c_log c)) (only (m_key m) o)) (w_faults (r_world r)) res /\
    (never_writes (m_key m) (drop p (c_log c)) -> point_read (m_key m) now (only (m_key m) o) (w_faults (r_world r)) res).
Proof.
  intros Ht Hw Hmut Hr Hlog Hin Hpos Hcl Hclk Hm Hto.
  destruct (call_delivers _ _ _ _ _ _ _ Ht Hw Hmut) as (Hk & i & rs' & l & cmd & t & _ & Hi & Hli & Hd & _ & Htt & Hcmd).
  destruct (converges c r Hr Hin Hpos) as (h & Hs & Hvis).
  destruct (GetBytes_local_run (m_key m) ro h (r_world r) Hk Hm Hto Hcl Hs) as (w' & res & E & Hdb & Hread).
  assert (c_log c !! (n + i) = Some (Data l)) as Hlc.
  { eapply prefix_lookup_Some; [| exact Hlog]. by rewrite list_lookup_fmap, Hli. }
  pose proof (run_from _ _ _ _ _ _ ∅ Hlc Hd Hcmd) as Hrun. set (key := m_key m) in *. set (o := snd _) in *.
  assert (visible (w_clock (r_world r)) (contents (h_db h)) key =
    visible (w_clock (r_world r)) (run (entry_command <$> drop (S (n + i)) (c_log c)) (only key o)) key) as Hv.
  { rewrite Hvis by done. by apply visible_key. }
  exists (S (n + i)), t, w', res. split; [apply lookup_lt_Some in Hlc; lia |]. do 3 (split; [done |]). cbv zeta.
  assert (point_read key (w_clock (r_world r)) (run (entry_command <$> drop (S (n + i)) (c_log c)) (only key o))
    (w_faults (r_world r)) res) as Hp by (unfold point_read, read_outcome in *; by rewrite <- Hv).
  split; [done |]. intros Hn. eapply point_read_key; [| exact Hp]. by apply run_never.
Qed.

End System.

(** ** Witness *)
Section Witnesses.
Import SimInstances.

Lemma run_fst {W E A} (m : W -> W * result E A) w r : snd (m w) = r -> m w = (fst (m w), r).
Proof. intros <-. apply surjective_pairing. Qed.

(** A leader sets "k"; another node is given the entry. *)
Definition u0 : World := Sim.world Sim.leader Sim.kv1 [].
Definition u1 : World := fst (SetBytes "k" "v" [] u0).
Definition entry1 : rlog := mkLog 1 (Sim.bytes_of (Sim.set_cmd "k" "v")).
Definition f0 : World := Sim.world Sim.follower ∅ [].
Definition f1 : World := fst (Apply entry1 f0).
Definition cluster1 : cluster := mkCluster [Data entry1] [mkReplica f1 1 None] [] 0.

Lemma u1_run : call_write (WSet "k" "v" []) u0 = (u1, Ok tt).
Proof. apply (run_fst (SetBytes "k" "v" []) u0). vm_compute. reflexivity. Qed.

Lemma u1_log : committed (raft (w_db u1)) = [entry1].
Proof. vm_compute. reflexivity. Qed.

Lemma f1_run : Apply entry1 f0 = (f1, Ok None).
Proof. apply (run_fst (Apply entry1) f0). vm_compute. reflexivity. Qed.

Lemma cluster1_reachable : reachable cluster1.
Proof.
  exists (mkCluster [] [mkReplica f0 0 None] [] 0%Z). split.
  { split; [done |]. split; [done |]. constructor; [| constructor]. split; [done |]. split; [done |].
    split; [by apply (staged_layout_plain "/data/n1" "badger") |].
    split; [intros h [= <-]; split; [done | vm_compute; eauto] |]. by eexists. }
  eapply rtc_l; [apply (commit [] _ _ _ (Data entry1)) |].
  eapply rtc_l; [apply one_step, (deliver _ _ f0 f1 0 None entry1); [done | exact f1_run] |].
  apply rtc_refl.
Qed.

Lemma acknowledged_everywhere_witness :
  exists w', GetBytes "k" (mkReadOptions ReadLocal 0) f1 = (w', Ok "v").
Proof.
  assert ((Data <$> committed (raft (w_db u1))) `prefix_of` c_log cluster1) as Hlog.
  { rewrite u1_log. exists []. reflexivity. }
  destruct (acknowledged_everywhere Sim.kv1 0 [] (WSet "k" "v" []) (SetBytesOp "k" "v" []) (mkReadOptions ReadLocal 0)
    u0 u1 cluster1 (mkReplica f1 1 None) ltac:(by eexists) u1_run ltac:(left) cluster1_reachable Hlog ltac:(left) eq_refl
    ltac:(vm_compute; reflexivity) ltac:(vm_compute; discriminate) eq_refl ltac:(vm_compute; discriminate))
    as (p & t & w' & res & Hp & _ & E & _ & _ & Hread).
  exists w'. etransitivity; [exact E |]. f_equal. etransitivity; [apply Hread | vm_compute; reflexivity].
  replace p with 1 by (simpl in Hp; lia). constructor.
Defined.

End Witnesses.
