(* ===== verification/Hazards.v ===== *)
(** * Hazards: behaviours of the code its documentation does not expect

    Theorems that hold of the code and contradict a comment or a document.  Two
    more, on the rollback of a failed swap and on a directory written with a
    trailing slash, are with the other theorems on [Restore]. *)
From S2P Require Import Prelude Errors Types Options Command Codec Badger Files Raft Node Fsm Wp Sim FsmApply FsmRestore RestoreProps Replica.

Section Hazards.
Context `{B : BadgerOps} `{R : RaftOps backup} `{C : Codec} `{L : !BadgerLaws}.

Lemma Apply_set l w w' k v x h :
  decodeCommand (Data l) = Ok (mkCommand [mkPair k v x] []) -> Apply l w = (w', Ok None) ->
  store (w_db w') = Some h -> contents (h_db h) !! k = Some (pair_entry (mkPair k v x)).
Proof.
  intros Hd Ha Hs. apply Apply_nil_inv in Ha as (cmd & h0 & d & Hd' & _ & _ & Hc & fl & ->).
  rewrite Hd in Hd'. injection Hd' as <-. injection Hs as <-. simpl. rewrite Hc. unfold cmd_apply; simpl.
  apply lookup_insert_eq.
Qed.

(** Replaying the log from an earlier index can make an expired key visible
    again: when a key was first stored without a TTL and then with one that has
    expired, the replay of the first entry alone serves the old value again,
    until the second entry is replayed. *)
Theorem replay_resurrects l1 l2 k v v' x t w0 w1 w2 w3 :
  decodeCommand (Data l1) = Ok (mkCommand [mkPair k v 0] []) ->
  decodeCommand (Data l2) = Ok (mkCommand [mkPair k v' x] []) -> (0 < x <= Unix t)%Z ->
  Apply l1 w0 = (w1, Ok None) -> Apply l2 w1 = (w2, Ok None) -> Apply l1 w2 = (w3, Ok None) ->
  exists h2 h3, store (w_db w2) = Some h2 /\ store (w_db w3) = Some h3 /\
    visible t (contents (h_db h2)) k = None /\ visible t (contents (h_db h3)) k = Some v.
Proof.
  intros Hd1 Hd2 Hx H1 H2 H3.
  pose proof (Apply_nil_inv _ _ _ H2) as (_ & h2 & d2 & _ & _ & _ & _ & fl2 & E2).
  pose proof (Apply_nil_inv _ _ _ H3) as (_ & h3 & d3 & _ & _ & _ & _ & fl3 & E3).
  exists (mkHandle (h_opts h2) d2), (mkHandle (h_opts h3) d3). split; [by rewrite E2 |]. split; [by rewrite E3 |].
  unfold visible. split.
  - rewrite (Apply_set l2 _ _ _ _ _ (mkHandle (h_opts h2) d2) Hd2 H2) by (by rewrite E2).
    unfold expired, pair_entry; simpl. rewrite (proj2 (Z.ltb_lt 0 x)) by lia. cbn [be_ExpiresAt].
    rewrite (proj2 (Z.eqb_neq x 0)), (proj2 (Z.leb_le x (Unix t))) by lia. done.
  - by rewrite (Apply_set l1 _ _ _ _ _ (mkHandle (h_opts h3) d3) Hd1 H3) by (by rewrite E3).
Qed.

(** C40. A snapshot persisted while the node is closing loses the entries refused
    meanwhile: [Apply] answers [ErrClosed] and leaves the store alone, but
    [Persist] does not look at the closing flag and still finishes a full backup
    of that store, which Raft labels with an index past the refused entry. *)
Theorem closing_snapshot_gap l w cmd h bs s :
  closed (w_db w) = true -> decodeCommand (Data l) = Ok cmd -> store (w_db w) = Some h ->
  ~ faulty (w_faults w) -> db_Backup (w_clock w) (h_db h) = Ok bs ->
  exists e w' s', Apply l w = (w, Ok (Some e)) /\ Is e ErrClosed = true /\
    Persist s w = (w', Ok (s', None)) /\ s' = mkSink (Some bs) SinkClosed.
Proof.
  intros Hc Hd Hs Hf Hb. destruct w as [db fs fl clk tk]; simpl in *.
  exists (Errorf "honeybadger: apply command at index %d: %w" [ArgInt (Index l)] (Sentinel ErrClosed)).
  assert (forall f fl', fl = Some f :: fl' -> False) as H0.
  { intros f fl' ->. apply Hf. by exists 0. }
  assert (forall o f fl', fl = o :: Some f :: fl' -> False) as H1.
  { intros o f fl' ->. apply Hf. by exists 1. }
  unfold Persist, sink_Close, badger_Backup, st_bind, st_get, st_try, st_lift, st_ret, pop_fault. simpl. rewrite Hs.
  assert (Apply l (mkWorld db fs fl clk tk) = (mkWorld db fs fl clk tk,
    Ok (Some (Errorf "honeybadger: apply command at index %d: %w" [ArgInt (Index l)] (Sentinel ErrClosed))))) as ->.
  { unfold Apply, withStore, checkOpen, st_try, st_bind, st_get, st_ret; simpl. rewrite Hd; simpl. by rewrite Hc. }
  destruct fl as [| [f |] [| [g |] fl]]; simpl; rewrite ?Hb; simpl;
    try (exfalso; eauto; done); eexists _, _; by repeat split.
Qed.

End Hazards.

(** ** Witnesses *)
Section Witnesses.
Import SimInstances.

Definition set1 : rlog := mkLog 1 (Sim.bytes_of (mkCommand [mkPair "k" "old" 0] [])).
Definition set2 : rlog := mkLog 2 (Sim.bytes_of (mkCommand [mkPair "k" "new" 1704067260] [])).
Definition x0 : World := Sim.world Sim.leader ∅ [].
Definition x1 : World := fst (Apply set1 x0).
Definition x2 : World := fst (Apply set2 x1).
Definition x3 : World := fst (Apply set1 x2).

Lemma replay_resurrects_witness :
  exists h2 h3, store (w_db x2) = Some h2 /\ store (w_db x3) = Some h3 /\
    visible (1704067260 * Second) (contents (h_db h2)) "k" = None /\
    visible (1704067260 * Second) (contents (h_db h3)) "k" = Some "old".
Proof.
  apply (replay_resurrects set1 set2 "k" "old" "new" 1704067260 (1704067260 * Second) x0 x1 x2 x3).
  - vm_compute. reflexivity.
  - vm_compute. reflexivity.
  - by vm_compute.
  - apply (run_snd (Apply set1) x0). vm_compute. reflexivity.
  - apply (run_snd (Apply set2) x1). vm_compute. reflexivity.
  - apply (run_snd (Apply set1) x2). vm_compute. reflexivity.
Defined.

Definition w_closing : World := set_closed (Sim.world Sim.leader Sim.kv1 []).
Definition backup1 : backup := (Sim.kv1 : kv).

Lemma closing_snapshot_gap_witness :
  exists e w' s', Apply set1 w_closing = (w_closing, Ok (Some e)) /\
    Persist open_sink w_closing = (w', Ok (s', None)) /\ sk_data s' = Some backup1.
Proof.
  destruct (closing_snapshot_gap set1 w_closing (mkCommand [mkPair "k" "old" 0] [])
              (mkHandle Sim.opts (Sim.mem Sim.kv1)) backup1 open_sink) as (e & w' & s' & Ea & _ & Ep & Hs).
  - reflexivity.
  - vm_compute. reflexivity.
  - reflexivity.
  - apply not_faulty_nil.
  - reflexivity.
  - exists e, w', s'. split; [exact Ea |]. split; [exact Ep |]. rewrite Hs. reflexivity.
Defined.

End Witnesses.
