(* ===== verification/Locks.v ===== *)
(** * Locks: the store lock of [db.go]

    [storeMu], the store pointer and the [closed] flag under every interleaving
    of the code that uses them: [withStore] and [Persist] hold the lock shared,
    the [Restore] swap and [Close] hold it exclusive.  A database instance is a
    number; the state remembers which instances are open and whether a closed
    one was ever used or closed again.  The mutex is Go's [sync.RWMutex]: a
    reader cannot enter while a writer holds the lock or waits for it.
    [Close] first waits for Raft's goroutines to stop, which is what
    [raft.Shutdown().Error()] does.

    [ViewBadger] runs code of the caller under the shared lock.  That code may
    call the node again: a method that reads takes the shared lock once more, to
    any depth, and a method that writes or waits for a barrier waits for a
    goroutine of Raft to finish its call on the state machine.  A callback that
    calls [Close] waits for itself and is not modelled. *)
From S2P Require Import Prelude.

(** What a goroutine holding the lock exclusively is there for. *)
Inductive purpose : Set := Swap | Shut.

#[export] Instance purpose_eq_dec : EqDecision purpose.
Proof. solve_decision. Defined.

(** Where a goroutine is. *)
Inductive pc : Set :=
| R_check                      (** [withStore]: before [checkOpen] *)
| R_lock                       (** before [RLock]; [Persist] starts here *)
| R_load                       (** holding it shared, before looking at [db.store] *)
| R_use (g d : nat)            (** using instance [g], having taken the lock [d] more times *)
| R_nest (g d : nat)           (** the same, before taking it once more for a nested call *)
| R_await (g d j : nat)        (** the same, waiting for goroutine [j] of Raft *)
| R_unlock
| C_flag                       (** [Close]: before setting [closed] *)
| C_shutdown                   (** waiting for Raft's goroutines *)
| W_lock (k : purpose)         (** before [Lock]; the swap of [Restore] starts here *)
| W_wait (k : purpose)         (** waiting for the lock *)
| W_close (k : purpose)        (** holding it, before closing the live store *)
| W_open                       (** the swap, with the old store closed *)
| W_publish (g : nat)          (** the swap, with a new instance open and not published *)
| W_unlock
| Done.

#[export] Instance pc_eq_dec : EqDecision pc.
Proof. solve_decision. Defined.

(** The shared state. *)
Record shared := mkShared {
  mu_readers : nat;
  mu_writer : bool;
  mu_waiting : nat;
  s_store : option nat;
  s_open : gset nat;
  s_next : nat;
  s_closed : bool;
  s_bad : bool;       (** a closed instance was used or closed *)
  s_shut : bool       (** [Close] has closed the store *)
}.

Definition lock_state (r : nat) (w : bool) (q : nat) (s : shared) : shared :=
  mkShared r w q (s_store s) (s_open s) (s_next s) (s_closed s) (s_bad s) (s_shut s).
Definition set_flag (s : shared) : shared :=
  mkShared (mu_readers s) (mu_writer s) (mu_waiting s) (s_store s) (s_open s) (s_next s) true (s_bad s) (s_shut s).
Definition touch (g : nat) (s : shared) : shared :=
  mkShared (mu_readers s) (mu_writer s) (mu_waiting s) (s_store s) (s_open s) (s_next s) (s_closed s)
    (s_bad s || bool_decide (g ∉ s_open s)) (s_shut s).
Definition shut_instance (g : nat) (s : shared) : shared :=
  let s := touch g s in
  mkShared (mu_readers s) (mu_writer s) (mu_waiting s) None (s_open s ∖ {[ g ]}) (s_next s) (s_closed s) (s_bad s) (s_shut s).
Definition open_instance (s : shared) : shared :=
  mkShared (mu_readers s) (mu_writer s) (mu_waiting s) (s_store s) ({[ s_next s ]} ∪ s_open s) (S (s_next s))
    (s_closed s) (s_bad s) (s_shut s).
(** The store was closed on behalf of [k]. *)
Definition mark (k : purpose) (s : shared) : shared :=
  mkShared (mu_readers s) (mu_writer s) (mu_waiting s) (s_store s) (s_open s) (s_next s) (s_closed s) (s_bad s)
    (s_shut s || bool_decide (k = Shut)).
Definition publish (g : nat) (s : shared) : shared :=
  mkShared (mu_readers s) (mu_writer s) (mu_waiting s) (Some g) (s_open s) (s_next s) (s_closed s) (s_bad s) (s_shut s).

(** After closing the store: the swap goes on, [Close] is done with it. *)
Definition after_close (k : purpose) : pc := match k with Swap => W_open | Shut => W_unlock end.

(** The goroutines: each with whether it is one of Raft's. *)
Abbreviation threads := (list (bool * pc)).

(** Raft's goroutines are done. *)
Definition quiet (ths : threads) : bool :=
  forallb (fun t => negb (fst t) || bool_decide (snd t = Done)) ths.

(** The steps of a goroutine among [ths]; [raft] tells whether it is Raft's. *)
Inductive tstep (ths : threads) (raft : bool) : shared -> pc -> shared -> pc -> Prop :=
| check_closed s : s_closed s = true -> tstep ths raft s R_check s Done
| check_open s : s_closed s = false -> tstep ths raft s R_check s R_lock
| rlock s : mu_writer s = false -> mu_waiting s = 0 ->
    tstep ths raft s R_lock (lock_state (S (mu_readers s)) false 0 s) R_load
| load_nil s : s_store s = None -> tstep ths raft s R_load s R_unlock
| load_store s g : s_store s = Some g -> tstep ths raft s R_load s (R_use g 0)
| use s g d : tstep ths raft s (R_use g d) (touch g s) (R_use g d)
| nest s g d : raft = false -> s_closed s = false -> tstep ths raft s (R_use g d) s (R_nest g d)
| nested_rlock s g d : mu_writer s = false -> mu_waiting s = 0 ->
    tstep ths raft s (R_nest g d) (lock_state (S (mu_readers s)) false 0 s) (R_use g (S d))
| nested_runlock s g d :
    tstep ths raft s (R_use g (S d)) (lock_state (pred (mu_readers s)) (mu_writer s) (mu_waiting s) s) (R_use g d)
| call_raft s g d j q : raft = false -> s_closed s = false -> ths !! j = Some (true, q) ->
    tstep ths raft s (R_use g d) s (R_await g d j)
| answered s g d j : ths !! j = Some (true, Done) -> tstep ths raft s (R_await g d j) s (R_use g d)
| used s g : tstep ths raft s (R_use g 0) (touch g s) R_unlock
| runlock s : tstep ths raft s R_unlock (lock_state (pred (mu_readers s)) (mu_writer s) (mu_waiting s) s) Done
| flag s : tstep ths raft s C_flag (set_flag s) C_shutdown
| shutdown s : quiet ths = true -> tstep ths raft s C_shutdown s (W_lock Shut)
| want s k : tstep ths raft s (W_lock k) (lock_state (mu_readers s) (mu_writer s) (S (mu_waiting s)) s) (W_wait k)
| acquire s k : mu_readers s = 0 -> mu_writer s = false ->
    tstep ths raft s (W_wait k) (lock_state 0 true (pred (mu_waiting s)) s) (W_close k)
| close_nil s k : s_store s = None -> tstep ths raft s (W_close k) (mark k s) (after_close k)
| close_store s k g : s_store s = Some g -> tstep ths raft s (W_close k) (mark k (shut_instance g s)) (after_close k)
| open_new s : tstep ths raft s W_open (open_instance s) (W_publish (s_next s))
| open_failed s : tstep ths raft s W_open s W_unlock
| published s g : tstep ths raft s (W_publish g) (publish g s) W_unlock
| load_failed s g : tstep ths raft s (W_publish g) (shut_instance g s) W_unlock    (** the in-place restore *)
| unlock s : tstep ths raft s W_unlock (lock_state (mu_readers s) false (mu_waiting s) s) Done.

Inductive step : shared * threads -> shared * threads -> Prop :=
| thread_step s s' ths i r p p' :
    ths !! i = Some (r, p) -> tstep ths r s p s' p' ->
    step (s, ths) (s', <[i := (r, p')]> ths).

(** At the start nobody is inside; Raft's goroutines run [Apply], [Persist] and
    [Restore], the others any method, [Close] included. *)
Definition start_pc (r : bool) (p : pc) : Prop :=
  p = R_check \/ p = R_lock \/ p = Done \/ (r = true /\ p = W_lock Swap) \/ (r = false /\ p = C_flag).

Definition start (st : shared * threads) : Prop :=
  (exists o, fst st = mkShared 0 false 0 o (match o with Some g => {[ g ]} | None => ∅ end)
               (match o with Some g => S g | None => 0 end) false false false) /\
  Forall (fun t => start_pc (fst t) (snd t)) (snd st).

Definition reachable (st : shared * threads) : Prop := exists st0, start st0 /\ rtc step st0 st.

(** ** Counting goroutines *)

(** How many times it holds the lock shared. *)
Definition hold (p : pc) : nat :=
  match p with R_load | R_unlock => 1 | R_use _ d | R_nest _ d | R_await _ d _ => S d | _ => 0 end.
Definition reading (p : pc) : bool := (0 <? hold p)%nat.
(** A callback that called its node and has not been answered. *)
Definition calling_back (p : pc) : bool := match p with R_nest _ _ | R_await _ _ _ => true | _ => false end.
Definition writing (p : pc) : bool :=
  match p with W_close _ | W_open | W_publish _ | W_unlock => true | _ => false end.
Definition waiting (p : pc) : bool := match p with W_wait _ => true | _ => false end.

Fixpoint count (f : pc -> bool) (ths : threads) : nat :=
  match ths with [] => 0 | t :: ths => Nat.b2n (f (snd t)) + count f ths end.

Lemma count_insert f ths i r p r' p' :
  ths !! i = Some (r, p) ->
  count f (<[i := (r', p')]> ths) + Nat.b2n (f p) = count f ths + Nat.b2n (f p').
Proof.
  revert i. induction ths as [| t ths IH]; intros [| i] H; try done; simpl in *.
  - injection H as ->. simpl. lia.
  - specialize (IH i H). lia.
Qed.

Lemma count_pos f ths i r p : ths !! i = Some (r, p) -> f p = true -> 0 < count f ths.
Proof.
  revert i. induction ths as [| t ths IH]; intros [| i] H Hf; try done; simpl in *.
  - injection H as ->. simpl. rewrite Hf. simpl. lia.
  - specialize (IH i H Hf). lia.
Qed.

Lemma count_find f ths : 0 < count f ths -> exists i r p, ths !! i = Some (r, p) /\ f p = true.
Proof.
  induction ths as [| [r p] ths IH]; simpl; [lia |]. destruct (f p) eqn:E.
  - intros _. by exists 0, r, p.
  - intros (i & r' & p' & ? & ?)%IH. by exists (S i), r', p'.
Qed.

Fixpoint holds (ths : threads) : nat :=
  match ths with [] => 0 | t :: ths => hold (snd t) + holds ths end.

Lemma holds_insert ths i r p r' p' :
  ths !! i = Some (r, p) -> holds (<[i := (r', p')]> ths) + hold p = holds ths + hold p'.
Proof.
  revert i. induction ths as [| t ths IH]; intros [| i] H; try done; simpl in *.
  - injection H as ->. simpl. lia.
  - specialize (IH i H). lia.
Qed.

Lemma holds_ge ths i r p : ths !! i = Some (r, p) -> hold p <= holds ths.
Proof. intros H. pose proof (holds_insert ths i r p r Done H) as E. simpl in E. lia. Qed.

Lemma reading_hold p : reading p = true <-> 0 < hold p.
Proof. unfold reading. apply Nat.ltb_lt. Qed.

Lemma holds_zero ths : holds ths = 0 -> count reading ths = 0.
Proof.
  induction ths as [| [r p] ths IH]; [done |]. simpl. intros H. unfold reading at 1.
  rewrite IH by lia. by replace (hold p) with 0 by lia.
Qed.

(** ** The invariant *)

(** What a goroutine at [p] knows. *)
Definition local_ok (s : shared) (r : bool) (p : pc) : Prop :=
  match p with
  | R_use g _ => s_store s = Some g
  | R_nest g _ | R_await g _ _ => s_store s = Some g /\ r = false
  | C_flag | C_shutdown => r = false
  | W_lock Shut | W_wait Shut => r = false
  | W_close Shut => r = false /\ (s_store s = None -> s_open s = ∅)
  | W_close Swap | W_unlock => s_store s = None -> s_open s = ∅
  | W_open => s_store s = None /\ s_open s = ∅
  | W_publish g => s_store s = None /\ s_open s = {[ g ]} /\ g < s_next s
  | _ => True
  end.

Record inv (st : shared * threads) : Prop := mkInv {
  i_readers : mu_readers (fst st) = holds (snd st);
  i_writer : Nat.b2n (mu_writer (fst st)) = count writing (snd st);
  i_waiting : mu_waiting (fst st) = count waiting (snd st);
  i_excl : mu_writer (fst st) = true -> mu_readers (fst st) = 0;
  i_bad : s_bad (fst st) = false;
  i_store : forall g, s_store (fst st) = Some g -> s_open (fst st) = {[ g ]} /\ g < s_next (fst st);
  i_local : forall i r p, snd st !! i = Some (r, p) -> local_ok (fst st) r p;
  i_open : s_store (fst st) = None -> count writing (snd st) = 0 -> s_open (fst st) = ∅;
  i_await : forall i r g d j, snd st !! i = Some (r, R_await g d j) -> exists q, snd st !! j = Some (true, q)
}.

Lemma start_inv st : start st -> inv st.
Proof.
  destruct st as [s ths]. intros [[o Hs] Hf]. simpl in *. subst s.
  assert (forall f, (forall r p, start_pc r p -> f p = false) -> count f ths = 0) as Hc.
  { intros f Hfp. induction Hf as [| [r p] ths Hp _ IH]; [done |]. simpl in *. by rewrite (Hfp r p Hp), IH. }
  assert (count writing ths = 0 /\ count waiting ths = 0) as (H2 & H3).
  { split; apply Hc; intros r p; unfold start_pc; naive_solver. }
  assert (holds ths = 0) as H1.
  { clear Hc H2 H3. induction Hf as [| [r p] ths Hp _ IH]; [done |]. simpl. rewrite IH.
    unfold start_pc in Hp. simpl in Hp. naive_solver. }
  split; simpl; try lia; try done.
  - intros g ->. split; [done | lia].
  - intros i r p Hi. rewrite Forall_lookup in Hf. specialize (Hf i _ Hi). unfold start_pc in Hf. simpl in Hf.
    naive_solver.
  - by intros ->.
  - intros i r g d j Hi. rewrite Forall_lookup in Hf. specialize (Hf i _ Hi). unfold start_pc in Hf. simpl in Hf.
    naive_solver.
Qed.

(** Two goroutines of the same kind count as two. *)
Lemma count_two f ths i j r p r' p' :
  ths !! i = Some (r, p) -> ths !! j = Some (r', p') -> i <> j -> f p = true -> f p' = true ->
  2 <= count f ths.
Proof.
  intros Hi Hj Hne Hf Hf'.
  destruct (f Done) eqn:Hd.
  - revert i j Hi Hj Hne. induction ths as [| t ths IH]; intros [| i] [| j] Hi Hj Hne; try done; simpl in *.
    + injection Hi as ->. pose proof (count_pos f ths j r' p' Hj Hf'). simpl. rewrite Hf. simpl. lia.
    + injection Hj as ->. pose proof (count_pos f ths i r p Hi Hf). simpl. rewrite Hf'. simpl. lia.
    + assert (i <> j) as Hij by congruence. specialize (IH i j Hi Hj Hij). lia.
  - pose proof (count_insert f ths i r p false Done Hi) as H. rewrite Hf, Hd in H. simpl in H.
    assert (<[i := (false, Done)]> ths !! j = Some (r', p')) as Hj' by (by rewrite list_lookup_insert_ne).
    pose proof (count_pos f _ j r' p' Hj' Hf'). lia.
Qed.

(** A goroutine's knowledge depends on the store and the open instances only,
    and on nothing of them outside the lock. *)
Lemma local_ok_same s s' r p :
  s_store s' = s_store s -> s_open s' = s_open s -> s_next s' = s_next s ->
  local_ok s r p -> local_ok s' r p.
Proof. intros H1 H2 H3. destruct p as [| | | | | | | | | [] | [] | [] | | | |]; simpl; by rewrite ?H1, ?H2, ?H3. Qed.

Lemma local_ok_outside s s' r p :
  reading p = false -> writing p = false -> local_ok s r p -> local_ok s' r p.
Proof. destruct p as [| | | | | | | | | [] | [] | [] | | | |]; simpl; done. Qed.

Lemma writing_excludes s ths i r p :
  inv (s, ths) -> ths !! i = Some (r, p) -> writing p = true ->
  mu_writer s = true /\ mu_readers s = 0 /\ count reading ths = 0 /\ count writing ths = 1.
Proof.
  intros [Hr Hw _ He _ _ _ _ _] Hi Hp; simpl in *. pose proof (count_pos writing _ _ _ _ Hi Hp).
  assert (mu_writer s = true) as Hm by (destruct (mu_writer s); simpl in *; [done | lia]).
  rewrite Hm in Hw. simpl in Hw. specialize (He Hm).
  assert (count reading ths = 0) by (apply holds_zero; lia). repeat split; (done || lia).
Qed.

(** While a goroutine is inside exclusively, the others are outside. *)
Lemma others_outside s ths i r p j r' p' :
  inv (s, ths) -> ths !! i = Some (r, p) -> writing p = true -> ths !! j = Some (r', p') -> i <> j ->
  reading p' = false /\ writing p' = false.
Proof.
  intros Hinv Hi Hp Hj Hne. destruct (writing_excludes _ _ _ _ _ Hinv Hi Hp) as (_ & _ & Hcr & Hcw). split.
  - destruct (reading p') eqn:E; [| done]. pose proof (count_pos reading _ _ _ _ Hj E). lia.
  - destruct (writing p') eqn:E; [| done]. pose proof (count_two writing _ _ _ _ _ _ _ Hi Hj Hne Hp E). lia.
Qed.

(** The new threads: the one that stepped, and the others. *)
Lemma lookup_step (ths : threads) i r p r' p' j x :
  ths !! i = Some (r, p) -> <[i := (r', p')]> ths !! j = Some x ->
  (j = i /\ x = (r', p')) \/ (j <> i /\ ths !! j = Some x).
Proof.
  intros Hi Hj. destruct (decide (j = i)) as [-> | Hne].
  - rewrite list_lookup_insert_eq in Hj by (by eapply lookup_lt_Some). injection Hj as <-. by left.
  - rewrite list_lookup_insert_ne in Hj by done. by right.
Qed.

Lemma await_step (ths : threads) i r p p' :
  ths !! i = Some (r, p) ->
  (forall k r0 g d j, ths !! k = Some (r0, R_await g d j) -> exists q, ths !! j = Some (true, q)) ->
  (forall g d j, p' = R_await g d j -> exists q, ths !! j = Some (true, q)) ->
  forall k r0 g d j, <[i := (r, p')]> ths !! k = Some (r0, R_await g d j) ->
    exists q, <[i := (r, p')]> ths !! j = Some (true, q).
Proof.
  intros Hi Ia Ha k r0 g d j Hk.
  assert (exists q, ths !! j = Some (true, q)) as [q Hj].
  { apply (lookup_step _ _ _ _ _ _ _ _ Hi) in Hk as [[_ [= _ Hp]] | [_ Hk]]; [by eapply Ha | by eapply Ia]. }
  destruct (decide (i = j)) as [<- | Hne].
  - rewrite list_lookup_insert_eq by (by eapply lookup_lt_Some). rewrite Hi in Hj. injection Hj as -> _. by eexists.
  - rewrite list_lookup_insert_ne by done. by eexists.
Qed.

(** A step that leaves the store and the instances alone. *)
Lemma quiet_step_inv s ths i r p s' p' :
  inv (s, ths) -> ths !! i = Some (r, p) ->
  s_store s' = s_store s -> s_open s' = s_open s -> s_next s' = s_next s -> s_bad s' = false ->
  mu_readers s' + hold p = mu_readers s + hold p' ->
  Nat.b2n (mu_writer s') + Nat.b2n (writing p) = Nat.b2n (mu_writer s) + Nat.b2n (writing p') ->
  mu_waiting s' + Nat.b2n (waiting p) = mu_waiting s + Nat.b2n (waiting p') ->
  (mu_writer s' = true -> mu_readers s' = 0) ->
  local_ok s r p' -> (forall g d j, p' = R_await g d j -> exists q, ths !! j = Some (true, q)) ->
  (writing p = true -> s_store s = None -> s_open s = ∅ \/ writing p' = true) ->
  inv (s', <[i := (r, p')]> ths).
Proof.
  intros Hinv Hi H1 H2 H3 Hb Hr Hw Hq He Hl Ha Ho. pose proof Hinv as [Ir Iw Iq Ie Ib Is Il Io Ia]; simpl in *.
  pose proof (holds_insert _ _ _ _ r p' Hi). pose proof (count_insert writing _ _ _ _ r p' Hi).
  pose proof (count_insert waiting _ _ _ _ r p' Hi).
  split; simpl; try lia; try done.
  - by rewrite H1, H2, H3.
  - intros j r0 p0 [[-> [= -> ->]] | [Hne Hj]]%(lookup_step _ _ _ _ _ _ _ _ Hi);
      (eapply local_ok_same; [done | done | done |]); [done | by eapply Il].
  - rewrite H1, H2. intros Hn Hc. destruct (writing p) eqn:E.
    + destruct (Ho eq_refl Hn) as [? | Hp']; [done |]. rewrite Hp' in *. simpl in *.
      pose proof (count_pos writing _ _ _ _ Hi E). lia.
    + apply Io; [done |]. simpl in *. lia.
  - by eapply await_step.
Qed.

(** A step of the writer that changes them. *)
Lemma writer_step_inv s ths i r p s' p' :
  inv (s, ths) -> ths !! i = Some (r, p) -> writing p = true -> writing p' = true ->
  waiting p = waiting p' -> hold p = hold p' ->
  mu_readers s' = mu_readers s -> mu_writer s' = mu_writer s -> mu_waiting s' = mu_waiting s ->
  s_bad s' = false -> (forall g, s_store s' = Some g -> s_open s' = {[ g ]} /\ g < s_next s') ->
  local_ok s' r p' -> inv (s', <[i := (r, p')]> ths).
Proof.
  intros Hinv Hi Hp Hp' Hwt Hrd H1 H2 H3 Hb Hs Hl. pose proof Hinv as [Ir Iw Iq Ie Ib Is Il Io Ia]; simpl in *.
  pose proof (holds_insert _ _ _ _ r p' Hi). pose proof (count_insert writing _ _ _ _ r p' Hi).
  pose proof (count_insert waiting _ _ _ _ r p' Hi). rewrite Hp, Hp', Hwt, Hrd in *.
  split; simpl; try lia; try done.
  - rewrite H2. lia.
  - rewrite H1, H2. done.
  - intros j r0 p0 [[-> [= -> ->]] | [Hne Hj]]%(lookup_step _ _ _ _ _ _ _ _ Hi); [done |].
    assert (i <> j) as Hne' by congruence.
    destruct (others_outside _ _ _ _ _ _ _ _ Hinv Hi Hp Hj Hne') as [Hr0 Hw0].
    eapply local_ok_outside; [done | done | by eapply Il].
  - intros _ Hc. pose proof (count_pos writing _ _ _ _ Hi Hp). simpl in *. lia.
  - eapply await_step; [done | done |]. by intros g d j ->.
Qed.

Lemma touch_bad s g : s_bad s = false -> s_open s = {[ g ]} -> s_bad (touch g s) = false.
Proof. intros Hb Ho. simpl. rewrite Hb, Ho, bool_decide_eq_false_2; [done | set_solver]. Qed.

(** A step whose new thread state and counters are arithmetic. *)
Ltac quietly Hinv Hi := apply (quiet_step_inv _ _ _ _ _ _ _ Hinv Hi); simpl; try done; try lia.

Lemma tstep_inv s ths i r p s' p' :
  inv (s, ths) -> ths !! i = Some (r, p) -> tstep ths r s p s' p' -> inv (s', <[i := (r, p')]> ths).
Proof.
  intros Hinv Hi Hstep. pose proof Hinv as [Ir Iw Iq Ie Ib Is Il Io Ia]; simpl in *.
  pose proof (Il _ _ _ Hi) as Hloc.
  pose proof (holds_ge ths i r p Hi) as Hcr. pose proof (count_pos waiting ths i r p Hi) as Hcq.
  destruct Hstep as [s Hc | s Hc | s Hw Hq | s Hn | s g Hg | s g d | s g d Hr Hc | s g d Hw Hq | s g d
    | s g d j q Hr Hc Hj | s g d j Hj | s g | s | s | s Hq | s k | s k Hr Hw | s k Hn
    | s k g Hg | s | s | s g | s g | s]; simpl in *.
  - quietly Hinv Hi.
  - quietly Hinv Hi.
  - quietly Hinv Hi. by rewrite Hw.
  - quietly Hinv Hi.
  - quietly Hinv Hi.
  - quietly Hinv Hi. destruct (Is g Hloc) as [Ho _]. by apply touch_bad.
  - quietly Hinv Hi.
  - quietly Hinv Hi; [by rewrite Hw | apply Hloc].
  - quietly Hinv Hi. intros Hm. specialize (Ie Hm). lia.
  - quietly Hinv Hi. intros ? ? ? [= _ _ <-]. by eexists.
  - quietly Hinv Hi. apply Hloc.
  - quietly Hinv Hi. destruct (Is g Hloc) as [Ho _]. by apply touch_bad.
  - quietly Hinv Hi. intros Hm. specialize (Ie Hm). lia.
  - quietly Hinv Hi.
  - quietly Hinv Hi.
  - quietly Hinv Hi.
  - specialize (Hcq eq_refl). rewrite Hw in Iw. simpl in Iw. quietly Hinv Hi.
    + rewrite Hw. done.
    + destruct k; [| split; [done |]]; intros Hn; by apply Io.
  - assert (s_open s = ∅) as Ho by (destruct k; [by apply Hloc | by apply (proj2 Hloc)]).
    destruct k; quietly Hinv Hi; by right.
  - destruct (Is g Hg) as [Ho _]. assert (s_open s ∖ {[g]} = ∅) as He by (rewrite Ho; set_solver).
    destruct k; apply (writer_step_inv _ _ _ _ _ _ _ Hinv Hi); simpl; try done; by apply touch_bad.
  - destruct Hloc as [Hn Ho]. apply (writer_step_inv _ _ _ _ _ _ _ Hinv Hi); try done.
    + simpl. by rewrite Hn.
    + simpl. rewrite Ho. split; [done |]. split; [| lia]. set_solver.
  - destruct Hloc as [Hn Ho]. quietly Hinv Hi.
  - destruct Hloc as (Hn & Ho & Hlt). apply (writer_step_inv _ _ _ _ _ _ _ Hinv Hi); try done.
    simpl. by intros g' [= <-].
  - destruct Hloc as (Hn & Ho & Hlt). apply (writer_step_inv _ _ _ _ _ _ _ Hinv Hi); try done.
    + by apply touch_bad.
    + intros _. simpl. rewrite Ho. set_solver.
  - quietly Hinv Hi.
    + destruct (writing_excludes _ _ _ _ _ Hinv Hi eq_refl) as (-> & _). done.
    + intros _ Hn. left. by apply Hloc.
Qed.

Lemma reachable_inv st : reachable st -> inv st.
Proof.
  intros (st0 & Hs & Hsteps). apply start_inv in Hs. induction Hsteps as [| st0 st1 st Hstep _ IH]; [done |].
  apply IH. destruct Hstep as [s s' ths i r p p' Hi Ht]. by eapply tstep_inv.
Qed.

(** ** After Close *)

(** The goroutines that may open an instance. *)
Definition swap_pc (p : pc) : bool :=
  match p with
  | W_lock Swap | W_wait Swap | W_close Swap | W_open | W_publish _ => true
  | _ => false
  end.

(** A [Close] past its wait for Raft, up to its closing of the store. *)
Definition shut_pc (p : pc) : bool :=
  match p with W_lock Shut | W_wait Shut | W_close Shut => true | _ => false end.

Record shut_inv (st : shared * threads) : Prop := mkShutInv {
  j_swap : forall i r p, snd st !! i = Some (r, p) -> swap_pc p = true -> r = true;
  j_wait : forall i r p, snd st !! i = Some (r, p) -> shut_pc p = true -> quiet (snd st) = true;
  j_shut : s_shut (fst st) = true ->
           quiet (snd st) = true /\ s_store (fst st) = None /\ s_open (fst st) = ∅
}.

Lemma quiet_lookup ths i p : quiet ths = true -> ths !! i = Some (true, p) -> p = Done.
Proof.
  unfold quiet. rewrite forallb_forall. intros H Hi%list_elem_of_lookup_2%list_elem_of_In.
  specialize (H _ Hi). simpl in H. by apply bool_decide_eq_true in H.
Qed.

(** Once Raft's goroutines are done they stay done. *)
Lemma quiet_insert ths i p p' :
  quiet ths = true -> ths !! i = Some (false, p) -> quiet (<[i := (false, p')]> ths) = true.
Proof.
  unfold quiet. intros H Hi. apply forallb_forall. intros [r q] Hin%list_elem_of_In.
  apply list_elem_of_lookup in Hin as [j Hj].
  apply (lookup_step _ _ _ _ _ _ _ _ Hi) in Hj as [[_ [= -> ->]] | [_ Hj]]; [done |].
  rewrite forallb_forall in H. by apply H, list_elem_of_In, (list_elem_of_lookup_2 _ j).
Qed.

Lemma tstep_quiet s ths i r p s' p' :
  quiet ths = true -> ths !! i = Some (r, p) -> tstep ths r s p s' p' ->
  r = false /\ quiet (<[i := (r, p')]> ths) = true.
Proof.
  intros Hq Hi Ht. destruct r.
  - pose proof (quiet_lookup _ _ _ Hq Hi). subst p. inversion Ht.
  - split; [done |]. by eapply quiet_insert.
Qed.

Lemma start_shut_inv st : start st -> shut_inv st.
Proof.
  destruct st as [s ths]. intros [[o Hs] Hf]. simpl in *. subst s. split; simpl; [| | done];
    intros i r p Hi Hp; rewrite Forall_lookup in Hf; specialize (Hf i _ Hi); simpl in Hf;
    unfold start_pc in Hf; destruct Hf as [-> | [-> | [-> | [[-> ->] | [-> ->]]]]]; done.
Qed.

Lemma tstep_shut_inv s ths i r p s' p' :
  inv (s, ths) -> shut_inv (s, ths) -> ths !! i = Some (r, p) -> tstep ths r s p s' p' ->
  shut_inv (s', <[i := (r, p')]> ths).
Proof.
  intros Hinv [Jw Jq Js] Hi Ht; simpl in *.
  assert (quiet ths = true -> quiet (<[i := (r, p')]> ths) = true) as Hquiet.
  { intros Hq. by destruct (tstep_quiet _ _ _ _ _ _ _ Hq Hi Ht). }
  split; simpl.
  - intros j r0 p0 [[-> [= -> ->]] | [_ Hj]]%(lookup_step _ _ _ _ _ _ _ _ Hi) Hp; [| by eapply Jw].
    apply (Jw _ _ _ Hi). clear -Ht Hp. destruct Ht; try done; by destruct k.
  - intros j r0 p0 [[-> [= -> ->]] | [_ Hj]]%(lookup_step _ _ _ _ _ _ _ _ Hi) Hp; [| by eapply Hquiet, Jq].
    apply Hquiet. pose proof (Jq _ _ _ Hi) as Hq. clear -Ht Hp Hq.
    destruct Ht; try done; destruct k; try done; by apply Hq.
  - intros Hs. pose proof (Jw _ _ _ Hi) as Hr. pose proof (Jq _ _ _ Hi) as Hq.
    pose proof (i_store _ Hinv) as Hst. pose proof (i_local _ Hinv _ _ _ Hi) as Hl. simpl in *.
    assert (quiet ths = true -> swap_pc p = true -> False) as Hno.
    { intros Hqt Hp. rewrite (Hr Hp) in Hi. pose proof (quiet_lookup _ _ _ Hqt Hi). by subst p. }
    clear Hi Jw Jq Hinv. destruct Ht; simpl in *;
      try (destruct (Js Hs) as (? & ? & ?); split; [by apply Hquiet |]; by split);
      try (destruct (Js Hs) as (? & ? & ?); by exfalso; apply Hno).
    + destruct k; [rewrite orb_false_r in Hs; destruct (Js Hs); by exfalso; apply Hno |].
      split; [by apply Hquiet, Hq |]. split; [done |]. by apply Hl.
    + destruct (Hst g H) as [Ho _]. destruct k; [rewrite orb_false_r in Hs; destruct (Js Hs); by exfalso; apply Hno |].
      split; [by apply Hquiet, Hq |]. split; [done |]. rewrite Ho. set_solver.
Qed.

Lemma reachable_shut_inv st : reachable st -> shut_inv st.
Proof.
  intros (st0 & Hs & Hsteps). assert (inv st0 /\ shut_inv st0) as H by (split; [by apply start_inv | by apply start_shut_inv]).
  enough (inv st /\ shut_inv st) by tauto. clear Hs. induction Hsteps as [| st0 st1 st Hstep _ IH]; [done |].
  apply IH. destruct H as [Hi Hj], Hstep as [s s' ths i r p p' Hl Ht].
  split; [by eapply tstep_inv | by eapply tstep_shut_inv].
Qed.

(** ** Properties *)

(** C15. The store lock is safe under every interleaving: no goroutine ever uses
    or closes a database instance that is closed; one that uses an instance uses
    the published one; at most one instance is open; and nobody is inside shared
    while somebody is inside exclusively. *)
Theorem lock_safety s ths :
  reachable (s, ths) ->
  s_bad s = false /\
  (forall i r g d, ths !! i = Some (r, R_use g d) -> s_store s = Some g /\ g ∈ s_open s) /\
  (exists o, s_open s = match o with Some g => {[ g ]} | None => ∅ end) /\
  (forall i j r r' p p', ths !! i = Some (r, p) -> ths !! j = Some (r', p') -> i <> j ->
     writing p = true -> reading p' = false /\ writing p' = false).
Proof.
  intros Hinv%reachable_inv. pose proof Hinv as [_ _ _ _ Hb Hs Hl Ho _]. simpl in *. split; [done |]. split; [| split].
  - intros i r g d Hi. specialize (Hl _ _ _ Hi). simpl in Hl. split; [done |].
    destruct (Hs g Hl) as [-> _]. set_solver.
  - destruct (s_store s) as [g |] eqn:Es; [exists (Some g); by apply Hs |].
    destruct (count writing ths) as [| n] eqn:Ec; [exists None; by apply Ho |].
    destruct (count_find writing ths) as (i & r & p & Hi & Hp); [lia |]. specialize (Hl _ _ _ Hi).
    destruct p as [| | | | | | | | | | | [] | | g | |]; try done; simpl in Hl;
      first [exists None; tauto | exists (Some g); tauto].
  - intros i j r r' p p' Hi Hj Hne Hp. by apply (others_outside s ths i r p j r' p').
Qed.

(** A goroutine that can move on. *)
Definition moves (ths : threads) (r : bool) (s : shared) (p : pc) : Prop :=
  exists s' p', tstep ths r s p s' p' /\ p' <> p.

Lemma reading_moves ths r s p : reading p = true -> calling_back p = false -> moves ths r s p.
Proof.
  unfold moves. intros H Hb. destruct p as [| | | g [| d] | | | | | | | | | | | |]; try done.
  - destruct (s_store s) as [g |] eqn:E; eexists _, _; (split; [by econstructor | done]).
  - eexists _, _. split; [apply used | done].
  - eexists _, _. split; [apply nested_runlock | intros [=]; lia].
  - eexists _, _. split; [apply runlock | done].
Qed.

Lemma writing_moves ths r s p : writing p = true -> moves ths r s p.
Proof.
  unfold moves. intros H. destruct p as [| | | | | | | | | | | k | | g | |]; try done.
  - destruct (s_store s) as [g |] eqn:E; eexists _, _; (split; [by econstructor | by destruct k]).
  - eexists _, _. split; [apply open_failed | done].
  - eexists _, _. split; [apply published | done].
  - eexists _, _. split; [apply unlock | done].
Qed.

(** Outside the lock: a waiting writer needs it free, the others need that no
    writer has it or waits. *)
Lemma outside_moves ths r s p :
  mu_writer s = false -> mu_waiting s = 0 /\ waiting p = false \/ waiting p = true /\ mu_readers s = 0 ->
  reading p = false -> p <> Done -> (p = C_shutdown -> quiet ths = true) -> moves ths r s p.
Proof.
  intros Hw Hq Hr Hd Hs. destruct (writing p) eqn:E; [by apply writing_moves |]. unfold moves.
  destruct p as [| | | | | | | | | k | k | | | | |]; try done.
  - destruct (s_closed s) eqn:Ec; eexists _, _; (split; [by econstructor | done]).
  - destruct Hq as [[Hq _] | [? _]]; [| done]. eexists _, _. split; [by apply rlock | done].
  - eexists _, _. split; [apply flag | done].
  - eexists _, _. split; [by apply shutdown, Hs | done].
  - eexists _, _. split; [apply want | done].
  - destruct Hq as [[_ ?] | [_ Hq]]; [done |]. eexists _, _. split; [by apply acquire | done].
Qed.

(** While no writer has the lock or waits for it, a goroutine of Raft moves. *)
Lemma raft_moves s ths j p :
  inv (s, ths) -> mu_writer s = false -> mu_waiting s = 0 -> ths !! j = Some (true, p) -> p <> Done ->
  moves ths true s p.
Proof.
  intros Hinv Hw Hq Hj Hd. pose proof (i_local _ Hinv _ _ _ Hj) as Hl.
  pose proof (i_waiting _ Hinv) as Hc. simpl in Hl, Hc.
  destruct (reading p) eqn:Er.
  - apply reading_moves; [done |]. destruct p; try done; by destruct Hl.
  - apply outside_moves; try done; [| by intros ->].
    left. split; [done |]. destruct (waiting p) eqn:E; [| done].
    pose proof (count_pos waiting _ _ _ _ Hj E). lia.
Qed.

(** And so does a goroutine that calls its node from a callback, or the one it
    waits for. *)
Lemma callback_moves s ths i r p :
  inv (s, ths) -> mu_writer s = false -> mu_waiting s = 0 -> ths !! i = Some (r, p) -> calling_back p = true ->
  exists i' r' p', ths !! i' = Some (r', p') /\ moves ths r' s p'.
Proof.
  intros Hinv Hw Hq Hi Hp. destruct p as [| | | | g d | g d j | | | | | | | | | |]; try done.
  - exists i, r, (R_nest g d). split; [done |]. eexists _, _. split; [by apply nested_rlock | done].
  - destruct (i_await _ Hinv _ _ _ _ _ Hi) as [q Hj]; simpl in Hj. destruct (decide (q = Done)) as [-> | Hd].
    + exists i, r, (R_await g d j). split; [done |]. eexists _, _. split; [by apply answered | done].
    + exists j, true, q. split; [done |]. by eapply raft_moves.
Qed.

Lemma not_quiet ths : quiet ths = false -> exists i p, ths !! i = Some (true, p) /\ p <> Done.
Proof.
  unfold quiet. induction ths as [| [r p] ths IH]; [done |]. simpl. intros [H | H]%andb_false_iff.
  - apply orb_false_iff in H as [Hr%negb_false_iff Hp%bool_decide_eq_false]. subst r. by exists 0, p.
  - destruct (IH H) as (i & q & ? & ?). by exists (S i), q.
Qed.

(** Nobody has the lock. *)
Lemma free_moves s ths :
  inv (s, ths) -> mu_writer s = false -> mu_readers s = 0 -> Exists (fun t => snd t <> Done) ths ->
  exists i r p, ths !! i = Some (r, p) /\ moves ths r s p.
Proof.
  intros Hinv Hw Hr Hex. pose proof (i_waiting _ Hinv) as Hq. pose proof (i_readers _ Hinv) as Hh. simpl in *.
  assert (forall i r p, ths !! i = Some (r, p) -> reading p = false) as Hno.
  { intros i r p Hi. unfold reading. apply Nat.ltb_ge. pose proof (holds_ge _ _ _ _ Hi). lia. }
  destruct (count waiting ths) as [| n] eqn:Eq.
  2:{ destruct (count_find waiting ths) as (i & r & p & Hi & Hp); [lia |].
      exists i, r, p. split; [done |]. apply outside_moves; [done | by right | by eapply Hno | by destruct p | by destruct p]. }
  destruct (quiet ths) eqn:Equ.
  - apply Exists_exists in Hex as ([r p] & [i Hi]%list_elem_of_lookup & Hp). simpl in Hp.
    exists i, r, p. split; [done |]. apply outside_moves; [done | | by eapply Hno | done | done].
    left. split; [done |]. destruct (waiting p) eqn:E; [| done]. pose proof (count_pos waiting _ _ _ _ Hi E). lia.
  - destruct (not_quiet _ Equ) as (i & p & Hi & Hp). exists i, true, p. split; [done |]. by eapply raft_moves.
Qed.

(** The one way in which goroutines wait for each other: a writer waits for the
    lock, and all that have it are callbacks that call their node. *)
Definition callbacks_block (s : shared) (ths : threads) : Prop :=
  0 < mu_waiting s /\ 0 < mu_readers s /\
  forall i r p, ths !! i = Some (r, p) -> reading p = true -> r = false /\ calling_back p = true.

(** C16. As long as some goroutine is not done, one of them can move on (and
    not just go on using the database), although [Close] waits for Raft's
    goroutines and a waiting writer keeps new readers out - unless callbacks of
    [ViewBadger] are in the way: a writer waits for the lock, and every goroutine
    that has it is a caller's, in a callback that calls its node and has not been
    answered.  Without a waiting writer, and without such a call, nothing
    deadlocks; [callback_deadlock] shows that the exception is real. *)
Theorem lock_progress s ths :
  reachable (s, ths) -> Exists (fun t => snd t <> Done) ths ->
  (exists i r p s' p', ths !! i = Some (r, p) /\ tstep ths r s p s' p' /\ p' <> p) \/ callbacks_block s ths.
Proof.
  intros Hinv%reachable_inv Hex. pose proof Hinv as [Hr Hw _ He _ _ Hl _ _]. simpl in *.
  enough ((exists i r p, ths !! i = Some (r, p) /\ moves ths r s p) \/ callbacks_block s ths)
    as [(i & r & p & Hi & s' & p' & Ht) | ?]; [left; by exists i, r, p, s', p' | by right |].
  destruct (mu_writer s) eqn:Ew.
  { simpl in Hw. destruct (count_find writing ths) as (i & r & p & Hi & Hp); [lia |].
    left. exists i, r, p. split; [done |]. by apply writing_moves. }
  destruct (decide (mu_readers s = 0)) as [H0 | H0]; [left; by apply free_moves |].
  destruct (count (fun p => reading p && negb (calling_back p)) ths) as [| n] eqn:Ec.
  2:{ destruct (count_find (fun p => reading p && negb (calling_back p)) ths) as (i & r & p & Hi & Hp); [lia |].
      apply andb_true_iff in Hp as [Hp Hb%negb_true_iff]. left. exists i, r, p. split; [done |]. by apply reading_moves. }
  assert (forall i r p, ths !! i = Some (r, p) -> reading p = true -> calling_back p = true) as Hall.
  { intros i r p Hi Hp. destruct (calling_back p) eqn:E; [done |].
    pose proof (count_pos (fun p => reading p && negb (calling_back p)) _ _ _ _ Hi) as H.
    simpl in H. rewrite Hp, E, Ec in H. specialize (H eq_refl). lia. }
  destruct (decide (mu_waiting s = 0)) as [Hq | Hq].
  - left. destruct (count reading ths) as [| n] eqn:Er.
    + exfalso. apply H0. rewrite Hr. clear -Er. induction ths as [| [r p] ths IH]; [done |]. simpl in *.
      unfold reading at 1 in Er. destruct (hold p); simpl in *; [by apply IH | lia].
    + destruct (count_find reading ths) as (i & r & p & Hi & Hp); [lia |].
      eapply callback_moves; [done | done | done | done | by eapply Hall].
  - right. split; [lia |]. split; [lia |]. intros i r p Hi Hp. specialize (Hall _ _ _ Hi Hp). split; [| done].
    specialize (Hl _ _ _ Hi). destruct p; try done; by destruct Hl.
Qed.

(** C17. What [Close] closed stays closed: from the step in which it closes the
    store on, no goroutine publishes or opens an instance again, because [Close]
    waited for Raft's goroutines and only they restore. *)
Theorem shut_is_final s ths :
  reachable (s, ths) -> s_shut s = true ->
  s_store s = None /\ s_open s = ∅ /\
  forall st', rtc step (s, ths) st' -> s_store (fst st') = None /\ s_open (fst st') = ∅.
Proof.
  intros Hreach Hs. pose proof (reachable_shut_inv _ Hreach) as [_ _ Hj]. simpl in Hj.
  destruct (Hj Hs) as (_ & Hn & Ho). split; [done |]. split; [done |].
  enough (forall st st', rtc step st st' -> s_shut (fst st) = true -> s_shut (fst st') = true) as Hkeep.
  { intros st' Hsteps. pose proof (Hkeep _ _ Hsteps Hs) as Hs'.
    destruct Hreach as (st0 & Hst0 & Hsteps0).
    assert (reachable st') as Hreach' by (exists st0; split; [done | by etrans]).
    pose proof (reachable_shut_inv _ Hreach') as [_ _ Hj']. by apply Hj'. }
  induction 1 as [| st0 st1 st2 Hstep _ IH]; [done |]. intros H. apply IH.
  destruct Hstep as [s0 s1 ths0 i r p p' _ Ht]. clear IH. destruct Ht; simpl in *; try done; by rewrite H.
Qed.

(** ** Witnesses *)

(** A goroutine of a caller and a restore, on an open store; then the caller
    uses the store, and the restore waits for the lock. *)
Definition shared0 : shared := mkShared 0 false 0 (Some 0) {[ 0 ]} 1 false false false.
Definition shared2 : shared := mkShared 1 false 1 (Some 0) {[ 0 ]} 1 false false false.

Lemma first_step s s' p p' t :
  tstep [(false, p); t] false s p s' p' -> step (s, [(false, p); t]) (s', [(false, p'); t]).
Proof. intros H. by apply (thread_step s s' [(false, p); t] 0 false p p'). Qed.

Lemma second_step s s' r p p' t :
  tstep [t; (r, p)] r s p s' p' -> step (s, [t; (r, p)]) (s', [t; (r, p')]).
Proof. intros H. by apply (thread_step s s' [t; (r, p)] 1 r p p'). Qed.

(** The caller enters and uses the store. *)
Lemma caller_uses r q :
  start_pc r q ->
  exists st0, start st0 /\
    rtc step st0 (lock_state 1 false 0 shared0, [(false, R_use 0 0); (r, q)]).
Proof.
  intros H. exists (shared0, [(false, R_check); (r, q)]). split.
  { split; [by exists (Some 0) |]. constructor; [by left |]. constructor; [exact H | constructor]. }
  eapply rtc_l; [apply first_step, check_open; reflexivity |].
  eapply rtc_l; [apply first_step, rlock; reflexivity |].
  eapply rtc_l; [apply first_step, (load_store _ _ _ 0); reflexivity |].
  apply rtc_refl.
Qed.

Lemma reachable2 : reachable (shared2, [(false, R_use 0 0); (true, W_wait Swap)]).
Proof.
  destruct (caller_uses true (W_lock Swap)) as (st0 & H0 & Hs); [unfold start_pc; tauto |].
  exists st0. split; [done |]. eapply rtc_r; [apply Hs |]. apply second_step, want.
Qed.

Lemma lock_safety_witness :
  s_store shared2 = Some 0 /\ 0 ∈ s_open shared2.
Proof.
  exact (proj1 (proj2 (lock_safety shared2 _ reachable2)) 0 false 0 0 eq_refl).
Defined.

Lemma lock_progress_witness :
  (exists i r p s' p', [(false, R_use 0 0); (true, W_wait Swap)] !! i = Some (r, p) /\
     tstep [(false, R_use 0 0); (true, W_wait Swap)] r shared2 p s' p' /\ p' <> p) \/
  callbacks_block shared2 [(false, R_use 0 0); (true, W_wait Swap)].
Proof. apply (lock_progress shared2 _ reachable2). by constructor. Defined.

(** A callback that reads while [Close] waits for the lock, and one that writes
    while a restore does: neither goroutine ever moves again. *)
Definition stuck (st : shared * threads) : Prop := forall st', ~ step st st'.

Theorem callback_deadlock :
  (exists s, let st := (s, [(false, R_nest 0 0); (false, W_wait Shut)]) in reachable st /\ stuck st) /\
  (exists s, let st := (s, [(false, R_await 0 0 1); (true, W_wait Swap)]) in reachable st /\ stuck st).
Proof.
  split.
  - destruct (caller_uses false C_flag) as (st0 & H0 & Hs); [unfold start_pc; tauto |].
    eexists (lock_state 1 false 1 (set_flag (lock_state 1 false 0 shared0))). split.
    + exists st0. split; [done |]. etrans; [apply Hs |].
      eapply rtc_l; [apply first_step, nest; reflexivity |].
      eapply rtc_l; [apply second_step, flag |].
      eapply rtc_l; [apply second_step, shutdown; reflexivity |].
      eapply rtc_l; [apply second_step, want |]. apply rtc_refl.
    + intros st' Hstep. inversion Hstep as [s s' ths [| [| i]] r p p' Hi Ht]; subst; simpl in Hi; simplify_eq;
        inversion Ht; simpl in *; lia.
  - destruct (caller_uses true (W_lock Swap)) as (st0 & H0 & Hs); [unfold start_pc; tauto |].
    eexists shared2. split.
    + exists st0. split; [done |]. etrans; [apply Hs |].
      eapply rtc_l; [apply first_step, (call_raft _ _ _ _ _ 1 (W_lock Swap)); reflexivity |].
      eapply rtc_l; [apply second_step, want |]. apply rtc_refl.
    + intros st' Hstep. inversion Hstep as [s s' ths [| [| i]] r p p' Hi Ht]; subst; simpl in Hi; simplify_eq;
        inversion Ht; simpl in *; try lia; done.
Qed.

(** A node that is closed while nobody else is there. *)
Definition shared1 : shared := mkShared 0 true 0 None ∅ 1 true false true.

Lemma solo_step s s' r p p' :
  tstep [(r, p)] r s p s' p' -> step (s, [(r, p)]) (s', [(r, p')]).
Proof. intros H. by apply (thread_step s s' [(r, p)] 0 r p p'). Qed.

Lemma reachable1 : reachable (shared1, [(false, W_unlock)]).
Proof.
  exists (shared0, [(false, C_flag)]). split.
  { split; [by exists (Some 0) |]. repeat constructor; unfold start_pc; simpl; tauto. }
  eapply rtc_l; [apply solo_step, flag |].
  eapply rtc_l; [apply solo_step, shutdown; reflexivity |].
  eapply rtc_l; [apply solo_step, want |].
  eapply rtc_l; [apply solo_step, acquire; reflexivity |].
  eapply rtc_l; [apply solo_step, (close_store _ _ _ Shut 0); reflexivity |].
  apply rtc_refl.
Qed.

Lemma shut_is_final_witness :
  s_shut shared1 = true /\ s_store shared1 = None /\ s_open shared1 = ∅.
Proof.
  split; [reflexivity |].
  destruct (shut_is_final shared1 [(false, W_unlock)] reachable1 eq_refl) as (Hs & Ho & _).
  exact (conj Hs Ho).
Defined.
