(* ===== verification/Demo.v ===== *)
(** * Demo: [examples/three-node/main.go]

    A program that runs three nodes in one process.  The process shares the file
    system, the clock and the faults; every node it opened is one of [p_dbs], and
    a pointer to a node is its position there.  Between two steps of the program
    the nodes' background goroutines may run: [p_bg] lists, for every coming
    step, what Raft asks of which node.  Go's panics are modelled, deferred
    functions run on the way out, and the variables a closure captures live
    outside the call that made them.  Printed text is kept as the format and its
    arguments, with the escapes of the source. *)
From S2P Require Import Prelude Errors Types Options Command Codec Badger Files Raft Node Fsm Write Read Cluster Open.
From Stdlib Require Import Ascii.

(** How a function ends other than by returning [nil]. *)
Inductive stop : Set :=
| Failed (err : error)
| Panicked
| OutOfFuel.

Inductive printarg : Set :=
| PStr (s : string)
| PBool (b : bool)
| PErr (e : error).

Inductive output : Set :=
| Println (text : string)
| Printf (format : string) (args : list printarg)
| Fatalf (format : string) (args : list printarg).

(** What was done to the nodes. *)
Inductive node_event : Set :=
| Booted (p : nat)
| Stopped (p : nat).

#[export] Instance node_event_eq_dec : EqDecision node_event.
Proof. solve_decision. Defined.

(** The named results of [bootNodes] and its variable [opened]; [v_cleanup] tells
    whether [cleanup] is set or [nil].  The function [cleanup] captures [nodes],
    [ids] and [opened]. *)
Record boot_vars := mkBoot {
  v_nodes : list (option nat);
  v_ids : list string;
  v_addrs : list string;
  v_cleanup : bool;
  v_err : option error;
  v_opened : nat
}.

Definition zero_boot : boot_vars := mkBoot [] [] [] false None 0.

Definition dquote : string := String "034"%char EmptyString.
Definition quoted (s : string) : string := dquote +:+ s +:+ dquote.

(** [defer c()] around the rest [m] of a function. *)
Definition finally {W E A} (m : ST W E A) (c : ST W E unit) : ST W E A := fun w =>
  let '(w1, r) := m w in
  match c w1 with
  | (w2, Ok _) => (w2, r)
  | (w2, Err e) => (w2, Err e)
  end.

(** [l[i]]. *)
Definition index {W A} (l : list A) (i : nat) : ST W stop A :=
  match l !! i with Some a => st_ret a | None => st_err Panicked end.

(** [if err != nil { return wrap(err) }]. *)
Definition or_fail {W A} (r : result error A) (wrap : error -> error) : ST W stop A :=
  match r with Ok a => st_ret a | Err e => st_err (Failed (wrap e)) end.

Section Demo.
Context `{B : BadgerOps} {R : RaftOps backup} {O : OpenOps backup} `{C : Codec}.

(** What the goroutines of a node do between two steps of the program; [Close]
    waits for them to end. *)
Record background := mkBackground { bg_calls : list (fsm_call backup); bg_raft : raftw -> raftw }.

Record Proc := mkProc {
  p_dbs : list DB;
  p_fs : gmap (list string) image;
  p_faults : list (option fault);
  p_clock : Z;
  p_ticks : list Z;
  p_bg : list (list (nat * background));
  p_ports : list Z;               (** the spare ports the system will offer *)
  p_tmp : string;                 (** the name it will give a temporary directory *)
  p_boot : boot_vars;
  p_out : list output;
  p_events : list node_event
}.

Abbreviation DM := (ST Proc stop).

Definition set_dbs (dbs : list DB) (q : Proc) : Proc :=
  mkProc dbs (p_fs q) (p_faults q) (p_clock q) (p_ticks q) (p_bg q) (p_ports q) (p_tmp q) (p_boot q) (p_out q) (p_events q).
Definition set_bg (bg : list (list (nat * background))) (q : Proc) : Proc :=
  mkProc (p_dbs q) (p_fs q) (p_faults q) (p_clock q) (p_ticks q) bg (p_ports q) (p_tmp q) (p_boot q) (p_out q) (p_events q).
Definition set_ports (ports : list Z) (q : Proc) : Proc :=
  mkProc (p_dbs q) (p_fs q) (p_faults q) (p_clock q) (p_ticks q) (p_bg q) ports (p_tmp q) (p_boot q) (p_out q) (p_events q).
Definition set_boot (f : boot_vars -> boot_vars) (q : Proc) : Proc :=
  mkProc (p_dbs q) (p_fs q) (p_faults q) (p_clock q) (p_ticks q) (p_bg q) (p_ports q) (p_tmp q) (f (p_boot q)) (p_out q) (p_events q).
Definition add_out (o : output) (q : Proc) : Proc :=
  mkProc (p_dbs q) (p_fs q) (p_faults q) (p_clock q) (p_ticks q) (p_bg q) (p_ports q) (p_tmp q) (p_boot q) (p_out q ++ [o]) (p_events q).
Definition add_event (e : node_event) (q : Proc) : Proc :=
  mkProc (p_dbs q) (p_fs q) (p_faults q) (p_clock q) (p_ticks q) (p_bg q) (p_ports q) (p_tmp q) (p_boot q) (p_out q) (p_events q ++ [e]).

(** ** The process and its nodes *)

(** The process as node [d] sees it, and the process after [d] ran. *)
Definition world_of (q : Proc) (d : DB) : World :=
  mkWorld d (p_fs q) (p_faults q) (p_clock q) (p_ticks q).
Definition share (w : World) (q : Proc) : Proc :=
  mkProc (p_dbs q) (w_fs w) (w_faults w) (w_clock w) (w_ticks w) (p_bg q) (p_ports q) (p_tmp q) (p_boot q) (p_out q) (p_events q).
Definition put (p : nat) (w : World) (q : Proc) : Proc :=
  set_dbs (<[p := w_db w]> (p_dbs q)) (share w q).

(** A node that is not one, for the system calls the program makes itself. *)
Definition no_db : DB :=
  mkDB (mkConfig EmptyString EmptyString EmptyString (mkAdvanced 0 0 EmptyString None None)) raft_nil [] None
    (mkOptions EmptyString EmptyString false) EmptyString false false None 0.

Definition on_proc {A} (m : ST World error A) : DM (result error A) := fun q =>
  let p := m (world_of q no_db) in (share (fst p) q, Ok (snd p)).

Definition bg_step (q : Proc) (e : nat * background) : Proc :=
  match p_dbs q !! fst e with
  | None => q
  | Some d =>
      if closed d then q
      else put (fst e) (fst ((do! fsm_calls (bg_calls (snd e));
                              st_mod (fun w => set_raft (bg_raft (snd e) (raft (w_db w))) w)) (world_of q d))) q
  end.

(** The background goroutines take their turn. *)
Definition turn : DM unit := fun q =>
  match p_bg q with
  | [] => (q, Ok tt)
  | es :: bg => (fold_left bg_step es (set_bg bg q), Ok tt)
  end.

(** A method call on a node; on a [nil] pointer it panics. *)
Definition call {A} (n : option nat) (m : ST World error A) : DM (result error A) :=
  do! turn;
  match n with
  | None => fail! Panicked
  | Some p => fun q =>
      match p_dbs q !! p with
      | None => (q, Err Panicked)
      | Some d => let r := m (world_of q d) in (put p (fst r) q, Ok (snd r))
      end
  end.

(** [honeybadger.Open]: a new node, or an error and no node. *)
Definition open_db (cfg : Config) (options : list OpenOption) : DM (result error nat) :=
  do! turn;
  fun q =>
    let '(o, r) := Open cfg options (world_of q no_db) in
    let q1 := share (o_world o) q in
    match r with
    | Ok _ => (add_event (Booted (length (p_dbs q))) (set_dbs (p_dbs q ++ [w_db (o_world o)]) q1),
               Ok (Ok (length (p_dbs q))))
    | Err e => (q1, Ok (Err e))
    end.

(** The method [Close] of a node. *)
Definition close_db (n : option nat) : DM (result error unit) :=
  let! r := call n Close in
  match n with
  | None => ret! r
  | Some p => do! st_mod (add_event (Stopped p)); ret! r
  end.

Definition println (text : string) : DM unit := st_mod (add_out (Println text)).
Definition printf (format : string) (args : list printarg) : DM unit := st_mod (add_out (Printf format args)).

(** The system calls of the program. *)
Definition proc_Now : DM Z := let! r := on_proc time_Now in or_fail r id.
Definition proc_Sleep (d : Duration) : DM unit := let! r := on_proc (time_Sleep d) in or_fail r id.
Definition os_MkdirTemp : DM string :=
  let! r := on_proc pop_fault in
  let! f := or_fail r id in
  match f with
  | Some f => fail! (Failed (f_error f))
  | None => let! q := st_get in ret! (p_tmp q)
  end.

(** ** Polling *)

Definition pollInterval : Duration := 25 * Millisecond.

(** The loop of [waitFor]. *)
Fixpoint poll_loop (fuel : nat) (timeout : Duration) (deadline : Z) (what : string) (cond : DM bool) : DM unit :=
  match fuel with
  | 0 => fail! OutOfFuel
  | S fuel =>
      let! b := cond in
      if b then ret! tt
      else
        let! now := proc_Now in
        if negb (now <? deadline)%Z then
          fail! (Failed (Plain "timed out after %s waiting for %s" [ArgDur timeout; ArgStr what]))
        else do! proc_Sleep pollInterval; poll_loop fuel timeout deadline what cond
  end.

Definition poll_fuel (timeout : Duration) : nat := Z.to_nat (timeout / pollInterval) + 2.

Definition waitFor (timeout : Duration) (what : string) (cond : DM bool) : DM unit :=
  let! now := proc_Now in
  poll_loop (poll_fuel timeout) timeout (now + timeout)%Z what cond.

(** ** Booting the nodes *)

Definition freePort : DM Z :=
  let! r := on_proc pop_fault in
  let! f := or_fail r id in
  match f with
  | Some f => fail! (Failed (Errorf "find free port: %w" [] (f_error f)))
  | None =>
      let! q := st_get in
      do! st_mod (set_ports (tail (p_ports q)));
      ret! (hd 0%Z (p_ports q))
  end.

(** [return nil, nil, nil, nil, err]: every named result is set. *)
Definition return_nil {A} (err : error) : DM A :=
  do! st_mod (set_boot (fun v => mkBoot [] [] [] false (Some err) (v_opened v)));
  fail! (Failed err).

(** The body of the loop of [bootNodes]. *)
Definition boot_node (root : string) (i : nat) (id : string) : DM unit :=
  let! port := st_try freePort in
  match port with
  | Err (Failed err) => return_nil err
  | Err s => fail! s
  | Ok port =>
      let addr := "127.0.0.1:" +:+ pretty port in
      do! st_mod (set_boot (fun v => mkBoot (v_nodes v) (v_ids v) (<[i := addr]> (v_addrs v)) (v_cleanup v) None (v_opened v)));
      let cfg := mkConfig id addr (filepath_Join [root; id]) (mkAdvanced 0 0 EmptyString None None) in
      let! n := open_db cfg (if (i =? 0)%nat then [NewCluster] else []) in
      match n with
      | Err err => return_nil (Errorf "open %s: %w" [ArgStr id] err)
      | Ok p =>
          do! st_mod (set_boot (fun v =>
                mkBoot (<[i := Some p]> (v_nodes v)) (v_ids v) (v_addrs v) (v_cleanup v) None (S (v_opened v))));
          printf "[boot] %-7s raft=%s newCluster=%v
" [PStr id; PStr addr; PBool (i =? 0)%nat]
      end
  end.

Fixpoint boot_loop (root : string) (i : nat) (ids : list string) : DM unit :=
  match ids with
  | [] => ret! tt
  | id :: ids => do! boot_node root i id; boot_loop root (S i) ids
  end.

(** The loop of [cleanup], which reads the variables it captured. *)
Fixpoint cleanup_loop (i : nat) : DM unit :=
  match i with
  | 0 => ret! tt
  | S i =>
      let! q := st_get in
      let! n := index (v_nodes (p_boot q)) i in
      let! id := index (v_ids (p_boot q)) i in
      let! r := close_db n in
      do! (match r with
           | Err err => printf "[stop] %s: %v
" [PStr id; PErr err]
           | Ok _ => printf "[stop] %s closed
" [PStr id]
           end);
      cleanup_loop i
  end.

(** A call of [cleanup]: calling a [nil] function panics. *)
Definition call_cleanup (cleanup : bool) : DM unit :=
  if cleanup then let! q := st_get in cleanup_loop (v_opened (p_boot q)) else fail! Panicked.

(** The deferred function of [bootNodes], which reads the named results. *)
Definition boot_deferred : DM unit :=
  let! q := st_get in
  match v_err (p_boot q) with
  | None => ret! tt
  | Some _ => call_cleanup (v_cleanup (p_boot q))
  end.

Definition node_ids : list string := ["node-1"; "node-2"; "node-3"].

Definition bootNodes (root : string) : DM boot_vars :=
  do! st_mod (set_boot (fun _ => zero_boot));
  do! st_mod (set_boot (fun _ => mkBoot (replicate (length node_ids) None) node_ids
                                   (replicate (length node_ids) EmptyString) false None 0));
  do! println "== booting nodes ==";
  do! st_mod (set_boot (fun v => mkBoot (v_nodes v) (v_ids v) (v_addrs v) true (v_err v) (v_opened v)));
  finally
    (do! boot_loop root 0 node_ids; let! q := st_get in ret! (p_boot q))
    boot_deferred.

(** ** Forming the cluster *)

(** The loop over [nodes[1:]]: [k] nodes left, from [i] on. *)
Fixpoint join_loop (leader : option nat) (ids addrs : list string) (k i : nat) : DM unit :=
  match k with
  | 0 => ret! tt
  | S k =>
      let! id := index ids i in
      let! addr := index addrs i in
      let! r := call leader (AddVoter (mkNode id addr RoleNone)) in
      do! or_fail r (Errorf "add voter %s: %w" [ArgStr id]);
      do! printf "[join] %s added as voter
" [PStr id];
      join_loop leader ids addrs k (S i)
  end.

(** [if err := waitFor(...); err != nil { return fmt.Errorf(... err) }]. *)
Definition wrapping {A} (m : DM A) (wrap : error -> error) : DM A :=
  let! r := st_try m in
  match r with
  | Ok a => ret! a
  | Err (Failed err) => fail! (Failed (wrap err))
  | Err s => fail! s
  end.

Definition is_voter (n : option nat) : DM bool :=
  let! r := call n DB_Status in
  ret! (match r with Ok st => (Role (st_Local st) =? RoleVoter)%Z | Err _ => false end).

(** The loop that waits for every node to be a voter. *)
Fixpoint voter_loop (ids : list string) (i : nat) (nodes : list (option nat)) : DM unit :=
  match nodes with
  | [] => ret! tt
  | n :: nodes =>
      let! id := index ids i in
      let named := Errorf "%s: %w" [ArgStr id] in
      let! r := call n (WaitForLeader (10 * Second)) in
      do! or_fail r named;
      do! wrapping (waitFor (10 * Second) (id +:+ " to report itself voter") (is_voter n)) named;
      let! r := call n DB_Status in
      let! st := or_fail r named in
      do! printf "[raft] %-7s state=%s role=%s
"
            [PStr id; PStr (State_String (st_State st)); PStr (NodeRole_String (Role (st_Local st)))];
      voter_loop ids (S i) nodes
  end.

Definition formCluster (nodes : list (option nat)) (ids addrs : list string) : DM unit :=
  do! println "
== forming cluster ==";
  let! leader := index nodes 0 in
  do! join_loop leader ids addrs (length nodes - 1) 1;
  do! voter_loop ids 0 nodes;
  let! r := call leader DB_Status in
  let! st := or_fail r id in
  match st_Leader st with
  | None => let! id0 := index ids 0 in fail! (Failed (Plain "%s reports no cluster leader yet" [ArgStr id0]))
  | Some l => printf "[raft] cluster leader: %s at %s
" [PStr (ID l); PStr (RaftAddr l)]
  end.

(** ** The demonstration *)

Definition demoWrites (leader : option nat) : DM unit :=
  do! println "
== writes (sent to the leader) ==";
  let! r := call leader (DB_Set "user:1" "ada" []) in
  do! or_fail r id;
  do! println ("[set]  user:1 = " +:+ quoted "ada");
  let! r := call leader (DB_Set "session:xyz" "token-123" [WithTTL (2 * Second)]) in
  do! or_fail r id;
  do! println ("[set]  session:xyz = " +:+ quoted "token-123" +:+ " (TTL 2s)");
  let! r := call leader (Batch [SetOp "user:2" "grace" []; SetOp "user:3" "edsger" []; DeleteOp "user:1"]) in
  do! or_fail r id;
  println "[batch] set user:2 + user:3, deleted user:1 (one Raft entry, one txn)".

(** The loop of [firstFollower], [None] when it falls through. *)
Fixpoint follower_loop (i : nat) (nodes : list (option nat)) : DM (option (option nat * nat)) :=
  match nodes with
  | [] => ret! None
  | n :: nodes =>
      let! r := call n DB_Status in
      match r with
      | Ok st => if negb (st_State st =? StateLeader)%Z then ret! (Some (n, i)) else follower_loop (S i) nodes
      | Err _ => follower_loop (S i) nodes
      end
  end.

Definition firstFollower (nodes : list (option nat)) : DM (option nat * nat) :=
  let! f := follower_loop 0 nodes in
  match f with
  | Some f => ret! f
  | None => let! n := index nodes 1 in ret! (n, 1)
  end.

Definition local : ReadOptions := mkReadOptions ReadLocal 0.

(** The conditions [demoReads] and [demoTTL] wait for. *)
Definition reads (follower : option nat) (key : string) (ok : result error string -> bool) : DM bool :=
  let! r := call follower (GetWithOptions key local) in ret! (ok r).

Definition is_value (v : string) (r : result error string) : bool :=
  match r with Ok v' => bool_decide (v' = v) | Err _ => false end.

Definition is_missing (r : result error string) : bool :=
  match r with Ok _ => false | Err err => Is err ErrKeyNotFound end.

Fixpoint print_entries (es : list Entry) : DM unit :=
  match es with
  | [] => ret! tt
  | e :: es => do! printf " %s=%q" [PStr (e_Key e); PStr (e_Value e)]; print_entries es
  end.

Definition demoReads (follower : option nat) (id addr : string) : DM unit :=
  do! println "
== reads (local, on a follower) ==";
  do! printf "[read] using follower %s at %s
" [PStr id; PStr addr];
  do! waitFor (10 * Second) "follower to replicate user:2" (reads follower "user:2" (is_value "grace"));
  do! println "[repl] follower caught up";
  let! r := call follower (GetWithOptions "user:2" local) in
  let! v := or_fail r (fun err => err) in
  do! printf "[get]  user:2 = %q
" [PStr v];
  do! waitFor (10 * Second) "follower to see user:1 deleted" (reads follower "user:1" is_missing);
  do! println "[get]  user:1 -> ErrKeyNotFound (batch delete replicated)";
  let! r := call follower (ScanPrefixBytes "user:" (mkScanOptions local 0 true)) in
  let! entries := or_fail r (fun err => err) in
  do! printf ("[scan] prefix " +:+ quoted "user:" +:+ " ->") [];
  do! print_entries entries;
  println EmptyString.

Definition demoTTL (follower : option nat) : DM unit :=
  do! println "
== TTL expiry ==";
  do! waitFor (10 * Second) "session:xyz to replicate" (reads follower "session:xyz" is_ok);
  let! r := call follower (GetWithOptions "session:xyz" local) in
  let v := match r with Ok v => v | Err _ => EmptyString end in
  do! printf "[get]  session:xyz = %q (before expiry)
" [PStr v];
  do! println "[wait] sleeping 2.6s for the 2s TTL to pass...";
  do! proc_Sleep (2600 * Millisecond);
  let! r := call follower (GetWithOptions "session:xyz" local) in
  printf "[get]  session:xyz -> ErrKeyNotFound: %v
" [PBool (is_missing r)].

(** The part of [run] after the nodes are up. *)
Definition run_demo (v : boot_vars) : DM unit :=
  do! formCluster (v_nodes v) (v_ids v) (v_addrs v);
  let! leader := index (v_nodes v) 0 in
  do! demoWrites leader;
  let! f := firstFollower (v_nodes v) in
  let! id := index (v_ids v) (snd f) in
  let! addr := index (v_addrs v) (snd f) in
  do! demoReads (fst f) id addr;
  do! demoTTL (fst f);
  println "
== demo complete ==".

Definition run : DM unit :=
  let! root := os_MkdirTemp in
  finally
    (do! println "== honeybadger three-node demo ==";
     do! printf "(data dir %s is removed on exit)

" [PStr root];
     let! v := bootNodes root in
     finally (run_demo v) (do! println "
== shutting down =="; call_cleanup (v_cleanup v)))
    (do! on_proc (os_RemoveAll (comps root)); ret! tt).

(** [main]: what is left of the process, and its exit status. *)
Definition main (q : Proc) : Proc * Z :=
  match run q with
  | (q, Ok _) => (q, 0%Z)
  | (q, Err (Failed err)) => (add_out (Fatalf "demo failed: %v" [PErr err]) q, 1%Z)
  | (q, Err _) => (q, 2%Z)
  end.

End Demo.
