(* ===== verification/DemoProps.v ===== *)
(** * DemoProps: what the three-node program guarantees *)
From S2P Require Import Prelude Errors Types Options Command Codec Bytes Badger Files Raft Node Fsm Wp Sim FsmApply FsmRestore Linear Write Read Cluster Frame Open OpenProps Lifecycle Demo.

Section DemoProps.
Context `{B : BadgerOps} `{R : RaftOps backup} `{O : !OpenOps backup} `{C : Codec} `{L : !BadgerLaws}.

Abbreviation DM := (ST Proc stop).

(** ** What a step of the program may change *)

(** Nodes are neither opened nor closed, and time goes forward. *)
Definition steady (q q' : Proc) : Prop :=
  p_events q' = p_events q /\ p_boot q' = p_boot q /\ p_tmp q' = p_tmp q /\
  fixed <$> p_dbs q' = fixed <$> p_dbs q /\ (p_clock q <= p_clock q')%Z.

#[export] Instance steady_preorder : PreOrder steady.
Proof.
  split; [by intros q |].
  intros q1 q2 q3 (? & ? & ? & ? & ?) (? & ? & ? & ? & ?). repeat split; (congruence || lia).
Qed.

Lemma steady_length q q' : steady q q' -> length (p_dbs q') = length (p_dbs q).
Proof. intros (_ & _ & _ & H & _). apply (f_equal length) in H. by rewrite !length_fmap in H. Qed.

(** [m] is steady in a process with [k] nodes, does not panic or run out of
    fuel, and returns values in [P]. *)
Definition orderly {A} (k : nat) (m : DM A) (P : A -> Prop) : Prop :=
  forall q, length (p_dbs q) = k ->
    wp m (fun r q' => steady q q' /\
      match r with Ok a => P a | Err (Failed _) => True | Err _ => False end) q.

Lemma orderly_bind {A D} k (m : DM A) (f : A -> DM D) P Q :
  orderly k m P -> (forall a, P a -> orderly k (f a) Q) -> orderly k (st_bind m f) Q.
Proof.
  intros Hm Hf q Hq. apply wp_bind. eapply wp_mono; [by apply Hm |]. intros [a | s] q1 [Hs Hr]; [| by split].
  pose proof (steady_length _ _ Hs) as Hl.
  eapply wp_mono; [apply (Hf a Hr q1); congruence |]. intros r q2 [Hs2 Hr2]. split; [by etrans | done].
Qed.

(** When the value does not matter. *)
Lemma orderly_seq {A D} k (m : DM A) (f : A -> DM D) Q :
  orderly k m (fun _ => True) -> (forall a, orderly k (f a) Q) -> orderly k (st_bind m f) Q.
Proof. intros Hm Hf. eapply orderly_bind; [exact Hm |]. intros a _. apply Hf. Qed.

Lemma orderly_ret {A} k (a : A) (P : A -> Prop) : P a -> orderly k (st_ret a) P.
Proof. intros H q _. by apply wp_ret. Qed.

Lemma orderly_fail {A} k e (P : A -> Prop) : orderly k (st_err (Failed e)) P.
Proof. intros q _. by apply wp_err. Qed.

Lemma orderly_weaken {A} k (m : DM A) (P Q : A -> Prop) :
  orderly k m P -> (forall a, P a -> Q a) -> orderly k m Q.
Proof.
  intros Hm H q Hq. eapply wp_mono; [by apply Hm |]. intros [a | s] q' [? ?]; split; auto.
Qed.

Lemma orderly_or_fail {A} k (r : result error A) wrap : orderly k (or_fail r wrap) (fun _ => True).
Proof. destruct r; [by apply orderly_ret | apply orderly_fail]. Qed.

Lemma orderly_out k o : orderly k (st_mod (add_out o)) (fun _ => True).
Proof. intros q _. by apply wp_mod. Qed.

Lemma orderly_index {A} k (l : list A) i (P : A -> Prop) :
  i < length l -> (forall a, l !! i = Some a -> P a) -> orderly k (index l i) P.
Proof.
  intros Hi H. unfold index. destruct (lookup_lt_is_Some_2 l i Hi) as [a Ha]. rewrite Ha.
  by apply orderly_ret, H.
Qed.

(** ** Calls *)

Lemma put_steady {A} (m : ST World error A) q p d :
  framed m -> p_dbs q !! p = Some d -> steady q (put p (fst (m (world_of q d))) q).
Proof.
  intros Hm Hd. destruct (Hm (world_of q d)) as [Hf Hk]. repeat split; [| exact Hk]. simpl.
  rewrite list_fmap_insert, Hf. apply list_insert_id. by rewrite list_lookup_fmap, Hd.
Qed.

Lemma bg_step_steady q e : steady q (bg_step q e).
Proof.
  unfold bg_step. destruct (p_dbs q !! fst e) as [d |] eqn:Hd; [| done]. destruct (closed d); [done |].
  apply put_steady; [| done]. apply framed_bind; [auto with frame |]. by split.
Qed.

Lemma turn_steady q : exists q', turn q = (q', Ok tt) /\ steady q q'.
Proof.
  unfold turn. destruct (p_bg q) as [| es bg]; [by exists q |]. eexists. split; [done |].
  assert (forall es q0, steady q0 (fold_left bg_step es q0)) as H.
  { induction es0 as [| e es0 IH]; intros q0; [done |]. simpl. etrans; [apply bg_step_steady | apply IH]. }
  etrans; [| apply H]. by repeat split.
Qed.

Lemma wp_turn (Q : result stop unit -> Proc -> Prop) q :
  (forall q', steady q q' -> Q (Ok tt) q') -> wp turn Q q.
Proof. intros H. destruct (turn_steady q) as (q' & E & Hs). unfold wp. rewrite E. by apply H. Qed.

(** A pointer to one of the first [k] nodes. *)
Definition valid (k : nat) (n : option nat) : Prop := exists p, n = Some p /\ p < k.

Lemma orderly_call {A} k n (m : ST World error A) :
  valid k n -> framed m -> orderly k (call n m) (fun _ => True).
Proof.
  intros (p & -> & Hp) Hm q Hq. unfold call. apply wp_bind, wp_turn. intros q1 Hs.
  pose proof (steady_length _ _ Hs) as Hl. destruct (lookup_lt_is_Some_2 (p_dbs q1) p) as [d Hd]; [lia |].
  unfold wp. rewrite Hd. simpl. split; [| done]. etrans; [done | by apply put_steady].
Qed.

Lemma orderly_on_proc {A} k (m : ST World error A) : framed m -> orderly k (on_proc m) (fun _ => True).
Proof. intros Hm q _. unfold wp, on_proc. simpl. split; [| done]. repeat split. apply (Hm (world_of q no_db)). Qed.

Lemma orderly_wrapping {A} k (m : DM A) wrap P : orderly k m P -> orderly k (wrapping m wrap) P.
Proof.
  intros Hm q Hq. unfold wrapping. apply wp_bind, wp_try. eapply wp_mono; [by apply Hm |].
  by intros [a | [e | |]] q' [? ?].
Qed.

End DemoProps.

Section DemoPolling.
Context `{B : BadgerOps} `{R : RaftOps backup} `{O : !OpenOps backup} `{C : Codec} `{L : !BadgerLaws}.

Abbreviation DM := (ST Proc stop).

(** ** Polling *)

(** How a wait on [cond] that started at [q] may end: right after [cond] held or
    stopped, or with a timeout, not before the deadline. *)
Definition poll_outcome (cond : DM bool) (timeout : Duration) (deadline : Z) (what : string) (q : Proc)
    (r : result stop unit) (q' : Proc) : Prop :=
  match r with
  | Ok _ => exists q0, steady q q0 /\ cond q0 = (q', Ok true)
  | Err s =>
      (exists q0, steady q q0 /\ cond q0 = (q', Err s)) \/
      (s = Failed (Plain "timed out after %s waiting for %s" [ArgDur timeout; ArgStr what]) /\
       (deadline <= p_clock q')%Z)
  end.

Lemma poll_outcome_later cond timeout deadline what q q1 r q' :
  steady q q1 -> poll_outcome cond timeout deadline what q1 r q' -> poll_outcome cond timeout deadline what q r q'.
Proof.
  intros Hs. destruct r as [[] | s]; [| intros [H | H]; [left | by right]; revert H];
    intros (q0 & Hs0 & E); exists q0; (split; [by etrans | done]).
Qed.

Lemma proc_Now_run (q : Proc) :
  exists q', proc_Now q = (q', Ok (p_clock q)) /\ steady q q'.
Proof.
  unfold proc_Now, on_proc, st_bind, time_Now. cbn [fst snd or_fail]. eexists. split; [done |].
  repeat split. pose proof (tick_nonneg (world_of q no_db)). simpl in *. lia.
Qed.

Lemma proc_Sleep_run d (q : Proc) :
  exists q', proc_Sleep d q = (q', Ok tt) /\ steady q q' /\ (p_clock q + d <= p_clock q')%Z.
Proof.
  unfold proc_Sleep, on_proc, st_bind, time_Sleep. cbn [fst snd or_fail]. eexists. split; [done |].
  pose proof (tick_nonneg (world_of q no_db)). repeat split; simpl in *; lia.
Qed.

(** [cond] is steady wherever the wait may try it. *)
Definition steady_from (cond : DM bool) (q : Proc) : Prop :=
  forall q0, steady q q0 -> steady q0 (fst (cond q0)).

Lemma steady_from_later cond q q1 : steady q q1 -> steady_from cond q -> steady_from cond q1.
Proof. intros Hs H q0 H0. apply H. by etrans. Qed.

Lemma poll_loop_ends cond timeout deadline what fuel : forall q,
  steady_from cond q -> 0 < fuel -> (deadline - p_clock q <= Z.of_nat (pred fuel) * pollInterval)%Z ->
  wp (poll_loop fuel timeout deadline what cond)
    (fun r q' => steady q q' /\ poll_outcome cond timeout deadline what q r q') q.
Proof.
  induction fuel as [| fuel IH]; intros q Hc Hf Hd; [lia |]. cbn [poll_loop].
  apply wp_bind, wp_intro. intros q1 r E.
  assert (steady q q1) as Hs by (change q1 with (fst (q1, r)); rewrite <- E; by apply Hc).
  destruct r as [[] | s]; [apply wp_ret; split; [done | by exists q] | | split; [done | left; by exists q]].
  apply wp_bind. destruct (proc_Now_run q1) as (q2 & E2 & Hs2). unfold wp at 1. rewrite E2. cbn [fst snd].
  pose proof Hs as (_ & _ & _ & _ & Hk1). pose proof Hs2 as (_ & _ & _ & _ & Hk2).
  assert (steady q q2) as Hq2 by (by etrans).
  destruct (Z.ltb_spec (p_clock q1) deadline) as [Hlt | Hge]; cbn [negb].
  - destruct (proc_Sleep_run pollInterval q2) as (q3 & E3 & Hs3 & Hk3). assert (steady q q3) as Hq3 by (by etrans).
    apply wp_bind. unfold wp at 1. rewrite E3. cbn [fst snd].
    unfold pollInterval, Millisecond in *. eapply wp_mono; [apply (IH q3); [by eapply steady_from_later | |] |].
    + destruct fuel; simpl in *; lia.
    + destruct fuel; simpl in *; lia.
    + intros r q' [Hs4 Hr]. split; [by etrans | by eapply poll_outcome_later].
  - split; [done |]. right. split; [done | simpl; lia].
Qed.

Lemma poll_fuel_enough timeout now clk :
  (now <= clk)%Z ->
  0 < poll_fuel timeout /\ (now + timeout - clk <= Z.of_nat (pred (poll_fuel timeout)) * pollInterval)%Z.
Proof.
  intros H. unfold poll_fuel. split; [lia |]. unfold pollInterval, Millisecond.
  pose proof (Z.mul_succ_div_gt timeout (25 * 1000000)).
  destruct (Z.le_gt_cases 0 (timeout / (25 * 1000000))); lia.
Qed.

Lemma waitFor_wp cond timeout what q :
  steady_from cond q ->
  wp (waitFor timeout what cond)
    (fun r q' => steady q q' /\ poll_outcome cond timeout (p_clock q + timeout) what q r q') q.
Proof.
  intros Hc. unfold waitFor. apply wp_bind. destruct (proc_Now_run q) as (q1 & E & Hs).
  unfold wp at 1. rewrite E. cbn [fst snd]. pose proof Hs as (_ & _ & _ & _ & Hk).
  destruct (poll_fuel_enough timeout (p_clock q) (p_clock q1) Hk) as [H1 H2].
  eapply wp_mono; [apply poll_loop_ends; eauto using steady_from_later |].
  intros r q' [Hs' Hr]. split; [by etrans | by eapply poll_outcome_later].
Qed.

Lemma orderly_run {A} k (m : DM A) P q :
  orderly k m P -> length (p_dbs q) = k ->
  steady q (fst (m q)) /\ match snd (m q) with Ok a => P a | Err (Failed _) => True | Err _ => False end.
Proof. intros Hm Hq. exact (Hm q Hq). Qed.

Lemma orderly_waitFor k timeout what (cond : DM bool) :
  orderly k cond (fun _ => True) -> orderly k (waitFor timeout what cond) (fun _ => True).
Proof.
  intros Hc q Hq. eapply wp_mono; [apply waitFor_wp |].
  - intros q0 H0. apply (orderly_run k cond _ q0 Hc). by rewrite (steady_length _ _ H0).
  - intros [a | s] q' [Hs Hr]; (split; [done |]); [done |].
    destruct Hr as [(q0 & H0 & E) | [-> _]]; [| done].
    destruct (orderly_run k cond _ q0 Hc) as [_ Hr]; [by rewrite (steady_length _ _ H0) |]. by rewrite E in Hr.
Qed.

End DemoPolling.

(** ** Automation *)

Create HintDb orderly discriminated.
#[export] Hint Resolve orderly_ret orderly_fail orderly_or_fail orderly_out orderly_call orderly_on_proc : orderly.

#[export] Hint Unfold println printf proc_Now proc_Sleep is_voter reads WaitForLeader GetWithOptions DB_Set : orderly.

(** Follow the program. *)
Ltac solve_orderly :=
  repeat first
    [ progress intros | exact I | done
    | progress autounfold with orderly
    | match goal with
      | |- orderly _ (match ?x with _ => _ end) _ => destruct x
      | |- orderly _ (st_bind _ _) _ => apply orderly_seq
      | |- orderly _ (wrapping _ _) _ => apply orderly_wrapping
      | |- orderly _ (waitFor _ _ _) _ => apply orderly_waitFor
      | |- framed _ => solve [auto with frame | solve_framed]
      end
    | solve [eauto with orderly frame] ].

Section DemoStages.
Context `{B : BadgerOps} `{R : RaftOps backup} `{O : !OpenOps backup} `{C : Codec} `{L : !BadgerLaws}.

Abbreviation DM := (ST Proc stop).

(** ** The stages after the boot *)

Lemma join_loop_orderly k leader ids addrs n : forall i,
  valid k leader -> i + n <= length ids -> i + n <= length addrs ->
  orderly k (join_loop leader ids addrs n i) (fun _ => True).
Proof.
  induction n as [| n IH]; intros i Hl Hi Ha; [by apply orderly_ret |]. cbn [join_loop].
  eapply orderly_bind; [apply (orderly_index _ _ _ (fun _ => True)); [lia | done] |]. intros id _.
  eapply orderly_bind; [apply (orderly_index _ _ _ (fun _ => True)); [lia | done] |]. intros addr _.
  pose proof (IH (S i) Hl ltac:(lia) ltac:(lia)). solve_orderly.
Qed.

Lemma voter_loop_orderly k ids nodes : forall i,
  Forall (valid k) nodes -> i + length nodes <= length ids ->
  orderly k (voter_loop ids i nodes) (fun _ => True).
Proof.
  induction nodes as [| n nodes IH]; intros i Hn Hi; [by apply orderly_ret |]. cbn [voter_loop]. simpl in Hi.
  inversion Hn as [| ? ? Hv Hn']; subst.
  eapply orderly_bind; [apply (orderly_index _ _ _ (fun _ => True)); [lia | done] |]. intros id _.
  pose proof (IH (S i) Hn' ltac:(lia)).  solve_orderly.
Qed.

Lemma formCluster_orderly k nodes ids addrs :
  Forall (valid k) nodes -> 0 < length nodes -> length ids = length nodes -> length addrs = length nodes ->
  orderly k (formCluster nodes ids addrs) (fun _ => True).
Proof.
  intros Hn Hl Hi Ha. unfold formCluster. apply orderly_seq; [solve_orderly |]. intros [].
  eapply orderly_bind; [apply (orderly_index _ _ _ (valid k)); [lia |] |].
  { intros a Hin. by eapply Forall_lookup_1. }
  intros leader Hv. pose proof (join_loop_orderly k leader ids addrs (length nodes - 1) 1 Hv ltac:(lia) ltac:(lia)).
  pose proof (voter_loop_orderly k ids nodes 0 Hn ltac:(lia)).
  pose proof (orderly_index k ids 0 (fun _ => True) ltac:(lia) (fun _ _ => I)).
  solve_orderly.
Qed.

Lemma demoWrites_orderly k leader : valid k leader -> orderly k (demoWrites leader) (fun _ => True).
Proof. intros Hv. unfold demoWrites. solve_orderly. Qed.

Lemma follower_loop_orderly k nodes : forall i,
  Forall (valid k) nodes ->
  orderly k (follower_loop i nodes) (fun f => forall x, f = Some x -> valid k (fst x) /\ i <= snd x < i + length nodes).
Proof.
  induction nodes as [| n nodes IH]; intros i Hn; [by apply orderly_ret |]. cbn [follower_loop].
  inversion Hn as [| ? ? Hv Hn']; subst. apply orderly_seq; [solve_orderly |]. intros r.
  assert (orderly k (follower_loop (S i) nodes)
    (fun f => forall x, f = Some x -> valid k (fst x) /\ i <= snd x < i + length (n :: nodes))) as Hrest.
  { eapply orderly_weaken; [by apply IH |]. intros f Hf x Hx. destruct (Hf x Hx). split; [done | simpl; lia]. }
  destruct r as [st | e]; [| done]. destruct (negb _); [| done].
  apply orderly_ret. intros x [= <-]. split; [done | simpl; lia].
Qed.

Lemma firstFollower_orderly k nodes :
  Forall (valid k) nodes -> 1 < length nodes ->
  orderly k (firstFollower nodes) (fun x => valid k (fst x) /\ snd x < length nodes).
Proof.
  intros Hn Hl. unfold firstFollower. eapply orderly_bind; [by apply follower_loop_orderly |].
  intros [x |] Hx; [apply orderly_ret; destruct (Hx x eq_refl); split; [done | lia] |].
  eapply orderly_bind; [apply (orderly_index _ _ _ (valid k)); [lia |] |].
  { intros a Hin. by eapply Forall_lookup_1. }
  intros n Hv. by apply orderly_ret.
Qed.

Lemma print_entries_orderly k es : orderly k (print_entries (R := R) es) (fun _ => True).
Proof. induction es; simpl; solve_orderly. Qed.

Lemma reads_orderly k follower key ok : valid k follower -> orderly k (reads follower key ok) (fun _ => True).
Proof. intros Hv. solve_orderly. Qed.

Lemma demoReads_orderly k follower id addr :
  valid k follower -> orderly k (demoReads follower id addr) (fun _ => True).
Proof. intros Hv. pose proof print_entries_orderly. unfold demoReads. solve_orderly. Qed.

Lemma demoTTL_orderly k follower : valid k follower -> orderly k (demoTTL follower) (fun _ => True).
Proof. intros Hv. unfold demoTTL. solve_orderly. Qed.

Lemma run_demo_orderly k v :
  Forall (valid k) (v_nodes v) -> 1 < length (v_nodes v) ->
  length (v_ids v) = length (v_nodes v) -> length (v_addrs v) = length (v_nodes v) ->
  orderly k (run_demo v) (fun _ => True).
Proof.
  intros Hn Hl Hi Ha. unfold run_demo. apply orderly_seq; [apply formCluster_orderly; (done || lia) |]. intros [].
  eapply orderly_bind; [apply (orderly_index _ _ _ (valid k)); [lia |] |].
  { intros a Hin. by eapply Forall_lookup_1. }
  intros leader Hv. apply orderly_seq; [by apply demoWrites_orderly |]. intros [].
  eapply orderly_bind; [by apply firstFollower_orderly |]. intros f [Hf Hs].
  pose proof (orderly_index k (v_ids v) (snd f) (fun _ => True) ltac:(lia) (fun _ _ => I)).
  pose proof (orderly_index k (v_addrs v) (snd f) (fun _ => True) ltac:(lia) (fun _ _ => I)).
  pose proof demoReads_orderly. pose proof demoTTL_orderly. solve_orderly.
Qed.

End DemoStages.

Section DemoRun.
Context `{B : BadgerOps} `{R : RaftOps backup} `{O : !OpenOps backup} `{C : Codec} `{L : !BadgerLaws}.

Abbreviation DM := (ST Proc stop).

(** ** Nodes that are up, nodes that are down *)

Definition up (d : DB) : Prop := closed d = false /\ closeOnce d = false.
Definition down (d : DB) : Prop := closed d = true /\ store d = None.

Lemma steady_up q q' p d :
  steady q q' -> p_dbs q !! p = Some d -> up d -> exists d', p_dbs q' !! p = Some d' /\ up d'.
Proof.
  intros (_ & _ & _ & Hf & _) Hd Hu. apply (f_equal (fun l => l !! p)) in Hf.
  rewrite !list_lookup_fmap, Hd in Hf. destruct (p_dbs q' !! p) as [d' |]; [| done].
  exists d'. split; [done |]. injection Hf. unfold up in *. by intros _ -> -> _ _ _.
Qed.

Lemma steady_all_up q q' : steady q q' -> Forall up (p_dbs q) -> Forall up (p_dbs q').
Proof.
  intros Hs Hu. apply Forall_lookup. intros p d' Hd'.
  destruct (lookup_lt_is_Some_2 (p_dbs q) p) as [d Hd].
  { rewrite <- (steady_length _ _ Hs). by eapply lookup_lt_Some. }
  destruct (steady_up _ _ _ _ Hs Hd) as (d0 & Hd0 & ?); [by eapply Forall_lookup_1 |]. congruence.
Qed.

(** The goroutines of a closed node are gone. *)
Lemma turn_keeps_down q p d :
  p_dbs q !! p = Some d -> down d -> p_dbs (fst (turn q)) !! p = Some d.
Proof.
  intros Hd [Hc _]. unfold turn. destruct (p_bg q) as [| es bg]; [done |]. cbn [fst].
  assert (forall es q0, p_dbs q0 !! p = Some d -> p_dbs (fold_left bg_step es q0) !! p = Some d) as H; [| by apply H].
  clear - Hc. induction es as [| e es IH]; intros q0 H0; [done |]. simpl. apply IH. unfold bg_step.
  destruct (p_dbs q0 !! fst e) as [d0 |] eqn:E; [| done]. destruct (closed d0) eqn:Hc0; [done |].
  simpl. rewrite list_lookup_insert_ne; [done |]. intros <-. congruence.
Qed.

(** [Close] on a node that is up. *)
Lemma close_db_wp p d (Q : result stop (result error unit) -> Proc -> Prop) q :
  p_dbs q !! p = Some d -> up d ->
  (forall r q' d', p_events q' = p_events q ++ [Stopped p] -> p_boot q' = p_boot q ->
     length (p_dbs q') = length (p_dbs q) -> p_dbs q' !! p = Some d' -> down d' ->
     (forall j dj, p_dbs q !! j = Some dj -> j <> p -> up dj -> exists dj', p_dbs q' !! j = Some dj' /\ up dj') ->
     (forall j dj, p_dbs q !! j = Some dj -> j <> p -> down dj -> p_dbs q' !! j = Some dj) ->
     Q (Ok r) q') ->
  wp (close_db (Some p)) Q q.
Proof.
  intros Hd Hu HQ. unfold close_db, call. apply wp_bind, wp_bind.
  destruct (turn_steady q) as (q1 & E & Hs). pose proof (turn_keeps_down q) as Hdown. rewrite E in Hdown.
  unfold wp at 1. rewrite E. cbn [fst snd]. destruct (steady_up _ _ _ _ Hs Hd Hu) as (d1 & Hd1 & Hc1 & Ho1).
  pose proof (steady_length _ _ Hs) as Hlen.
  destruct Hs as (Hev & Hboot & Htmp & Hfix & Hclk) eqn:HsE. clear HsE.
  assert (steady q q1) as Hst by done.
  unfold wp. rewrite Hd1.
  destruct (Close_run (world_of q1 d1) Ho1) as (w' & e1 & e2 & e3 & e4 & Ec & Hsh).
  rewrite Ec. apply shutdown_state in Hsh as (H1 & _ & H2 & _).
  apply (HQ _ _ (w_db w')); cbn [st_mod st_bind add_event put set_dbs share p_events p_boot p_dbs fst snd].
  - simpl. by rewrite Hev.
  - done.
  - simpl. by rewrite length_insert.
  - simpl. rewrite list_lookup_insert_eq; [done |]. by eapply lookup_lt_Some.
  - done.
  - intros j dj Hj Hne Huj. simpl. rewrite list_lookup_insert_ne by done. by eapply steady_up.
  - intros j dj Hj Hne Hdj. simpl. rewrite list_lookup_insert_ne by done. by apply Hdown.
Qed.

(** ** The cleanup *)

(** The captured variables after a boot of [k] nodes. *)
Definition booted_vars (k : nat) (v : boot_vars) : Prop :=
  v_nodes v = Some <$> seq 0 k /\ length (v_ids v) = k /\ length (v_addrs v) = k /\ v_cleanup v = true /\ v_opened v = k.

Lemma cleanup_loop_wp k i : forall q,
  booted_vars k (p_boot q) -> i <= k -> length (p_dbs q) = k ->
  (forall j d, p_dbs q !! j = Some d -> j < i -> up d) ->
  (forall j d, p_dbs q !! j = Some d -> i <= j -> down d) ->
  wp (cleanup_loop i) (fun r q' => r = Ok tt /\ p_events q' = p_events q ++ (Stopped <$> reverse (seq 0 i)) /\
    length (p_dbs q') = k /\ Forall down (p_dbs q')) q.
Proof.
  induction i as [| i IH]; intros q (Hn & Hids & Had & Hcl & Hop) Hi Hlen Hup Hdown.
  { apply wp_ret. simpl. rewrite app_nil_r. repeat split; [done |]. apply Forall_lookup. intros j d Hj.
    eapply Hdown; [done | lia]. }
  cbn [cleanup_loop]. apply wp_bind, wp_get. apply wp_bind. unfold index at 1.
  rewrite Hn, list_lookup_fmap, lookup_seq_lt by lia. apply wp_ret. apply wp_bind. unfold index.
  destruct (lookup_lt_is_Some_2 (v_ids (p_boot q)) i) as [nid Hid]; [lia |]. rewrite Hid. apply wp_ret.
  destruct (lookup_lt_is_Some_2 (p_dbs q) i) as [d Hd]; [lia |].
  apply wp_bind, (close_db_wp i d); [done | eapply Hup; [done | lia] |].
  intros r q1 d1 Hev Hb Hl Hd1 Hdn Hups Hdns. apply wp_bind.
  assert (forall o, wp (cleanup_loop i) (fun r q' => r = Ok tt /\
    p_events q' = p_events q ++ (Stopped <$> reverse (seq 0 (S i))) /\ length (p_dbs q') = k /\ Forall down (p_dbs q'))
    (add_out o q1)) as Hrest.
  { intros o. eapply wp_mono; [apply (IH (add_out o q1)) |].
    - change (p_boot (add_out o q1)) with (p_boot q1). rewrite Hb. by repeat split.
    - lia.
    - simpl. lia.
    - simpl. intros j dj Hj Hji. destruct (lookup_lt_is_Some_2 (p_dbs q) j) as [d0 Hd0]; [lia |].
      destruct (Hups j d0 Hd0) as (d0' & ? & ?); [lia | eapply Hup; [done | lia] |]. congruence.
    - simpl. intros j dj Hj Hji. destruct (decide (j = i)) as [-> | Hne]; [congruence |].
      destruct (lookup_lt_is_Some_2 (p_dbs q) j) as [d0 Hd0]; [apply lookup_lt_Some in Hj; lia |].
      assert (down d0) as H0 by (eapply Hdown; [done | lia]). pose proof (Hdns j d0 Hd0 Hne H0). congruence.
    - intros r' q' (Hr' & He' & Hl' & Hf'). repeat split; [done | | done | done].
      rewrite He'. simpl p_events. rewrite Hev, seq_S, reverse_snoc, fmap_cons, <- app_assoc. done. }
  destruct r; apply wp_mod, Hrest.
Qed.

Lemma call_cleanup_wp k q :
  booted_vars k (p_boot q) -> length (p_dbs q) = k -> Forall up (p_dbs q) ->
  wp (call_cleanup true) (fun r q' => r = Ok tt /\ p_events q' = p_events q ++ (Stopped <$> reverse (seq 0 k)) /\
    length (p_dbs q') = k /\ Forall down (p_dbs q')) q.
Proof.
  intros Hb Hlen Hup. unfold call_cleanup. apply wp_bind, wp_get.
  destruct Hb as (? & ? & ? & ? & Hop) eqn:Hb'. rewrite Hop. apply (cleanup_loop_wp k k); [done | lia | done | |].
  - intros j d Hj _. by eapply Forall_lookup_1.
  - intros j d Hj Hk. apply lookup_lt_Some in Hj. lia.
Qed.

(** ** The boot *)

(** [i] nodes were opened. *)
Definition booting (i : nat) (q : Proc) : Prop :=
  length (p_dbs q) = i /\ Forall up (p_dbs q) /\ p_events q = Booted <$> seq 0 i /\
  v_nodes (p_boot q) = (Some <$> seq 0 i) ++ replicate (3 - i) None /\ v_ids (p_boot q) = node_ids /\
  length (v_addrs (p_boot q)) = 3 /\ v_cleanup (p_boot q) = true /\ v_err (p_boot q) = None /\
  v_opened (p_boot q) = i.

(** The next one was not, and the named results were set for the return. *)
Definition boot_failed (q : Proc) : Prop :=
  exists i, i < 3 /\ length (p_dbs q) = i /\ Forall up (p_dbs q) /\ p_events q = Booted <$> seq 0 i /\
    v_cleanup (p_boot q) = false /\ is_Some (v_err (p_boot q)).

(** What the boot needs of the steps between two openings. *)
Definition kept (q q' : Proc) : Prop := exists q1, steady q q1 /\ p_dbs q' = p_dbs q1 /\
  p_events q' = p_events q1 /\ p_boot q' = p_boot q1.

Lemma steady_kept q q' : steady q q' -> kept q q'.
Proof. intros H. by exists q'. Qed.

Lemma kept_booting i q q' : kept q q' -> booting i q -> booting i q'.
Proof.
  intros (q1 & Hs & Hd & He & Hb) (Hl & Hu & He0 & H).
  pose proof (steady_length _ _ Hs). pose proof (steady_all_up _ _ Hs Hu).
  destruct Hs as (He' & Hb' & _). unfold booting. rewrite Hd, He, Hb, Hb', He'.
  repeat split; [congruence | done | done | apply H ..].
Qed.

Lemma freePort_orderly k : orderly k freePort (fun _ => True).
Proof.
  assert (forall ps, orderly k (st_mod (set_ports ps)) (fun _ => True)) as Hp by (by intros ps q _; apply wp_mod).
  assert (orderly k st_get (fun _ => True)) as Hg by (by intros q _; apply wp_get).
  unfold freePort. solve_orderly.
Qed.

Lemma return_nil_wp {A} err i q (Q : result stop A -> Proc -> Prop) :
  i < 3 -> booting i q -> (forall q', boot_failed q' -> Q (Err (Failed err)) q') -> wp (return_nil err) Q q.
Proof.
  intros Hi (Hl & Hu & He & _) HQ. unfold return_nil. apply wp_bind, wp_mod, wp_err, HQ. exists i.
  repeat split; [done | done | done | done |]. by eexists.
Qed.

(** The node [Open] gives is up. *)
Lemma open_db_wp cfg options q (Q : result stop (result error nat) -> Proc -> Prop) :
  (forall q' e, kept q q' -> Q (Ok (Err e)) q') ->
  (forall q' q1 d, steady q q1 -> up d -> p_dbs q' = p_dbs q1 ++ [d] -> p_boot q' = p_boot q1 ->
     p_events q' = p_events q1 ++ [Booted (length (p_dbs q1))] -> Q (Ok (Ok (length (p_dbs q1)))) q') ->
  wp (open_db cfg options) Q q.
Proof.
  intros Herr Hok. unfold open_db. apply wp_bind, wp_turn. intros q1 Hs.
  unfold wp. pose proof (Open_wp cfg options (world_of q1 no_db)) as Hp.
  destruct (Open cfg options (world_of q1 no_db)) as [o [[] | e]]; cbn [fst snd] in *.
  - apply (Hok _ q1 (w_db (o_world o))); try done.
    destruct Hp as [(_ & _ & Hn) _]. unfold new_node, fixed in Hn. injection Hn as _ _ _ Hc1 Hc2 _. by split.
  - apply Herr. by exists q1.
Qed.

Lemma boot_node_wp root i nid q :
  i < 3 -> booting i q ->
  wp (boot_node root i nid) (fun r q' =>
    match r with Ok _ => booting (S i) q' | Err (Failed _) => boot_failed q' | Err _ => False end) q.
Proof.
  intros Hi Hb. unfold boot_node. apply wp_bind, wp_try. destruct Hb as [Hl Hb'] eqn:Hbe. clear Hbe.
  eapply wp_mono; [apply (freePort_orderly i q Hl) |]. intros [port | [err | |]] q1 [Hs Hr]; try done.
  2:{ eapply return_nil_wp; [done | eauto using kept_booting, steady_kept | done]. }
  apply (kept_booting i _ _ (steady_kept _ _ Hs)) in Hb. apply wp_bind, wp_mod. set (addr := _ +:+ pretty port).
  match goal with |- wp _ _ ?q => set (q2 := q) end.
  assert (booting i q2) as Hb2.
  { destruct Hb as (? & ? & ? & ? & ? & ? & ? & ? & ?). unfold q2, booting. simpl.
    rewrite length_insert. by repeat split. }
  apply wp_bind, open_db_wp; cbv beta iota.
  - intros q3 e Hs3. eapply return_nil_wp; [done | eauto using kept_booting, steady_kept | done].
  - intros q4 q3 d Hs3 Hd Hdbs Hboot Hev. apply (kept_booting i _ _ (steady_kept _ _ Hs3)) in Hb2.
    destruct Hb2 as (Hl3 & Hu3 & He3 & Hn3 & Hid3 & Ha3 & Hc3 & Herr3 & Ho3).
    apply wp_bind, wp_mod, wp_mod. unfold booting.
    cbn [p_dbs p_events p_boot set_boot add_out v_nodes v_ids v_addrs v_cleanup v_err v_opened].
    rewrite Hdbs, Hboot, Hev, Hl3, length_app, Hl3, He3, Hn3, Ho3, seq_S, !fmap_app.
    cbn [length Nat.add fmap list_fmap].
    split; [lia |]. split; [apply Forall_app; split; [done | by apply Forall_singleton] |]. split; [done |].
    split; [| done].
    replace (3 - i) with (S (2 - i)) by lia. cbn [replicate].
    rewrite insert_app_r_alt by (rewrite length_fmap, length_seq; lia).
    rewrite length_fmap, length_seq, Nat.sub_diag, <- app_assoc. done.
Qed.

Lemma boot_loop_wp root ids : forall i q,
  i + length ids = 3 -> booting i q ->
  wp (boot_loop root i ids) (fun r q' =>
    match r with Ok _ => booting 3 q' | Err (Failed _) => boot_failed q' | Err _ => False end) q.
Proof.
  induction ids as [| id ids IH]; intros i q Hi Hb; simpl in Hi.
  - apply wp_ret. by replace 3 with i by lia.
  - cbn [boot_loop]. apply wp_bind. eapply wp_mono; [apply (boot_node_wp root i id q); [lia | done] |].
    intros [[] | s] q1 H; [| done]. apply IH; [lia | done].
Qed.

Lemma wp_finally {W E A} (m : ST W E A) c (Q : result E A -> W -> Prop) w :
  wp m (fun r w1 => wp c (fun rc w2 => match rc with Ok _ => Q r w2 | Err e => Q (Err e) w2 end) w1) w ->
  wp (finally m c) Q w.
Proof.
  unfold wp, finally. destruct (m w) as [w1 r]. cbn [fst snd]. by destruct (c w1) as [w2 [[] | e]].
Qed.

(** A boot that fails ends in a panic: the deferred function finds [cleanup]
    [nil], as the return statement has just set it. *)
Lemma bootNodes_wp root q :
  p_dbs q = [] -> p_events q = [] ->
  wp (bootNodes root) (fun r q' =>
    match r with
    | Ok v => booting 3 q' /\ v = p_boot q'
    | Err s => s = Panicked /\ boot_failed q'
    end) q.
Proof.
  intros Hd He. unfold bootNodes. apply wp_bind, wp_mod, wp_bind, wp_mod, wp_bind, wp_mod, wp_bind, wp_mod, wp_finally, wp_bind.
  eapply wp_mono; [apply (boot_loop_wp root node_ids 0); [done |] |].
  { unfold booting. simpl. rewrite Hd, He. by repeat split. }
  intros [[] | [err | |]] q1 H; try done.
  - apply wp_bind, wp_get, wp_ret. unfold boot_deferred. apply wp_bind, wp_get.
    destruct H as (? & ? & ? & ? & ? & ? & ? & Hv & ?) eqn:HE. rewrite Hv. by apply wp_ret.
  - unfold boot_deferred. apply wp_bind, wp_get. destruct H as (i & ? & ? & ? & ? & Hc & [e Hv]) eqn:HE.
    rewrite Hv, Hc. apply wp_err. split; [done |]. by exists i.
Qed.

(** ** The whole program *)

Definition opened_nodes (q : Proc) : list nat :=
  omap (fun e => match e with Booted p => Some p | _ => None end) (p_events q).
Definition stopped_nodes (q : Proc) : list nat :=
  omap (fun e => match e with Stopped p => Some p | _ => None end) (p_events q).

Definition run_outcome (r : result stop unit) (q' : Proc) : Prop :=
  if decide (opened_nodes q' = [0; 1; 2]) then
    stopped_nodes q' = [2; 1; 0] /\ length (p_dbs q') = 3 /\ Forall down (p_dbs q') /\
    match r with Ok _ | Err (Failed _) => True | _ => False end
  else
    stopped_nodes q' = [] /\ length (p_dbs q') = length (opened_nodes q') /\ Forall up (p_dbs q') /\
    (r = Err Panicked \/ opened_nodes q' = [] /\ exists e, r = Err (Failed e)).

(** The last thing the program does is to remove its temporary directory. *)
Definition tmp_removed (root : string) (q' : Proc) : Prop :=
  exists q1, q' = fst (on_proc (os_RemoveAll (comps root)) q1) /\
    (next_fault (p_faults q1) = None -> forall p, under (comps root) p -> p_fs q' !! p = None).

Lemma booted_outcome i (r : result stop unit) q' :
  i < 3 -> p_events q' = Booted <$> seq 0 i -> length (p_dbs q') = i -> Forall up (p_dbs q') ->
  (r = Err Panicked \/ i = 0 /\ exists e, r = Err (Failed e)) -> run_outcome r q'.
Proof.
  intros Hi He Hl Hu Hr. unfold run_outcome, opened_nodes, stopped_nodes. rewrite He.
  destruct i as [| [| [| i]]]; [.. | lia]; simpl; repeat split; try done; naive_solver.
Qed.

Lemma remove_wp root r (q : Proc) :
  run_outcome r q ->
  wp (do! on_proc (os_RemoveAll (comps root)); st_ret tt)
    (fun rc q2 => match rc with
       | Ok _ => run_outcome r q2 /\ tmp_removed root q2
       | Err e => run_outcome (Err e) q2 /\ tmp_removed root q2
       end) q.
Proof.
  intros H. apply wp_bind. unfold wp at 1. cbn [on_proc fst snd].
  split; [exact H |]. exists q. split; [done |]. intros Hn p Hp.
  destruct q as [dbs fs fl clk tk bg ports tmp boot out ev]. cbn [world_of p_faults] in *.
  unfold on_proc, os_RemoveAll, os_call, st_bind, pop_fault, st_get, st_mod, st_lift.
  destruct fl as [| [f |] fl]; [| done |]; cbn [fst snd world_of w_faults w_fs RemoveAll share set_fs p_fs];
    apply map_lookup_filter_None; right; intros i _ Hnot; by apply Hnot.
Qed.

(** C39. Resources of the demonstration, for every behaviour of the system and of
    the nodes' goroutines: once the three nodes are up, whatever step fails, each
    is closed exactly once, in the reverse order of opening, and ends closed and
    without a store; the program neither panics nor waits for ever.  When a node
    cannot be opened the program panics, and none of the nodes opened before it
    is closed.  In both cases the temporary directory is removed last, and
    nothing under it is left unless that call fails. *)
Theorem run_ends (q : Proc) :
  p_dbs q = [] -> p_events q = [] ->
  run_outcome (snd (run q)) (fst (run q)) /\
  (tmp_removed (p_tmp q) (fst (run q)) \/ opened_nodes (fst (run q)) = [] /\ exists e, snd (run q) = Err (Failed e)).
Proof.
  intros Hd He. change (wp run (fun r q' => run_outcome r q' /\
    (tmp_removed (p_tmp q) q' \/ opened_nodes q' = [] /\ exists e, r = Err (Failed e))) q).
  unfold run, os_MkdirTemp. apply wp_bind, wp_bind. unfold wp at 1. cbn [on_proc fst snd].
  set (q0 := share _ q). assert (p_dbs q0 = [] /\ p_events q0 = [] /\ p_tmp q0 = p_tmp q) as (Hd0 & He0 & Ht0) by done.
  assert (exists f, snd (pop_fault (world_of q no_db)) = Ok (E := error) f) as [f ->].
  { unfold pop_fault. destruct (w_faults _); by eexists. }
  apply wp_bind, wp_ret. clearbody q0. destruct f as [f |].
  { apply wp_err. split; [| right; split; [unfold opened_nodes; by rewrite He0 | eauto]].
    apply (booted_outcome 0); rewrite ?Hd0; [lia | done | done | by constructor | eauto]. }
  apply wp_bind, wp_get, wp_ret. rewrite Ht0. apply wp_finally.
  eapply wp_mono; [| intros r q1 H; eapply wp_mono; [exact (remove_wp (p_tmp q) r q1 H) |]].
  2:{ intros [[] | e] q2 [H1 H2]; by split; [| left]. }
  apply wp_bind, wp_mod, wp_bind, wp_mod, wp_bind.
  eapply wp_mono; [apply bootNodes_wp; done |]. intros [v | s] q1 H.
  2:{ destruct H as [-> (i & Hi & Hl & Hu & Hev & _)]. apply (booted_outcome i); auto. }
  destruct H as [(Hl & Hu & Hev & Hn & Hid & Had & Hc & Herr & Hop) ->]. apply wp_finally.
  eapply wp_mono; [apply (run_demo_orderly 3 (p_boot q1)); [| | | | done] |].
  { rewrite Hn, app_nil_r. apply Forall_fmap, Forall_seq. intros j Hj. exists j. split; [done | lia]. }
  all: try (rewrite Hn, app_nil_r, length_fmap, length_seq, ?Hid; simpl; lia).
  intros r q2 [Hs Hr]. pose proof (steady_all_up _ _ Hs Hu) as Hu2. pose proof (steady_length _ _ Hs) as Hl2.
  destruct Hs as (Hev2 & Hb2 & _). apply wp_bind, wp_mod.
  rewrite Hc. eapply wp_mono; [apply (call_cleanup_wp 3) |].
  - simpl. rewrite Hb2. repeat split; [by rewrite Hn, app_nil_r | by rewrite Hid | done | done | done].
  - simpl. congruence.
  - done.
  - intros rc q3 (-> & Hev3 & Hl3 & Hd3). simpl in Hev3. rewrite Hev2, Hev in Hev3.
    unfold run_outcome, opened_nodes, stopped_nodes. rewrite Hev3. simpl. repeat split; [done | done |].
    by destruct r as [[] | [| |]].
Qed.

(** A wait of the demonstration ends: within the polls its timeout allows it
    returns right after the condition held, stops when the condition stops the
    program, or times out, not before the deadline. *)
Theorem waitFor_ends timeout what (cond : DM bool) (q : Proc) :
  (forall q0, steady q q0 -> steady q0 (fst (cond q0)) /\ snd (cond q0) <> Err OutOfFuel) ->
  exists q' r, waitFor timeout what cond q = (q', r) /\ steady q q' /\
    poll_outcome cond timeout (p_clock q + timeout) what q r q' /\ r <> Err OutOfFuel.
Proof.
  intros Hc. destruct (wp_run _ _ _ (waitFor_wp cond timeout what q (fun q0 H => proj1 (Hc q0 H)))) as (q' & r & E & Hs & Hr).
  exists q', r. repeat split; try done; try apply Hs. intros ->. destruct Hr as [(q0 & H0 & E0) | [? _]]; [| done].
  destruct (Hc q0 H0) as [_ Hn]. by rewrite E0 in Hn.
Qed.

End DemoRun.

(** ** A process to run it in *)
Module SimDemo.
Import SimInstances.

Definition three : list Server :=
  [mkServer raft_Voter "node-1" "127.0.0.1:7001"; mkServer raft_Voter "node-2" "127.0.0.1:7002";
   mkServer raft_Voter "node-3" "127.0.0.1:7003"].

(** A node that was bootstrapped leads a cluster of its own; another one knows
    of no cluster. *)
#[export] Instance ops : OpenOps backup := {|
  addrw := string; boltw := bool; snapw := unit; transw := string;
  raft_nil := Sim.follower;
  net_ResolveTCPAddr s := Ok s;
  NewBoltStore _ := Ok false;
  NewFileSnapshotStore _ _ _ := Ok tt;
  NewTCPTransport bind adv _ _ _ := Ok (default bind adv);
  LocalAddr t := t;
  BootstrapCluster _ b _ _ _ := (true, None);
  NewRaft c b _ t := ([], Ok (
    if b then SimRaft.mkWorld raft_Leader (t, LocalID c) [] 0 [mkServer raft_Voter (LocalID c) t] t []
    else SimRaft.mkWorld raft_Follower (EmptyString, EmptyString) [] 0 [] t []))
|}.

(** A follower learns of the cluster, and is given the entries of the leader. *)
Definition joined (w : SimRaft.world) : SimRaft.world :=
  SimRaft.mkWorld raft_Follower ("127.0.0.1:7001", "node-1") [] 0 three (SimRaft.s_addr w) [].

Definition entries : list (fsm_call (@backup MapBadger.ops)) :=
  CallApply <$> [mkLog 1 (Sim.bytes_of (Sim.set_cmd "user:1" "ada"));
    mkLog 2 (Sim.bytes_of (mkCommand [mkPair "session:xyz" "token-123" (Sim.t0 / Second + 2)] []));
    mkLog 3 (Sim.bytes_of (mkCommand [mkPair "user:2" "grace" 0; mkPair "user:3" "edsger" 0] ["user:1"]))].

Definition learn (p : nat) : nat * background := (p, mkBackground [] joined).
Definition catch_up (p : nat) : nat * background := (p, mkBackground entries id).

Definition proc (faults : list (option fault)) : Proc :=
  mkProc [] ∅ faults Sim.t0 [] (replicate 5 [] ++ [[learn 1; learn 2]] ++ replicate 14 [] ++ [[catch_up 1]])
    [7001%Z; 7002%Z; 7003%Z] "/tmp/honeybadger-demo-1" zero_boot [] [].

End SimDemo.

Section Witnesses.
Import SimInstances SimDemo.

(** The whole demonstration, and one whose second node finds no port. *)
Lemma run_ends_witness :
  (snd (main (proc [])) = 0%Z /\ p_events (fst (run (proc []))) = [Booted 0; Booted 1; Booted 2; Stopped 2; Stopped 1; Stopped 0]) /\
  (snd (main (proc (replicate 5 None ++ [Some Sim.boom]))) = 2%Z /\
   p_events (fst (run (proc (replicate 5 None ++ [Some Sim.boom])))) = [Booted 0]) /\
  run_outcome (snd (run (proc []))) (fst (run (proc []))).
Proof.
  split; [by split; vm_compute |]. split; [by split; vm_compute |].
  exact (proj1 (run_ends (proc []) eq_refl eq_refl)).
Defined.

(** A wait on a value the node never gets: it times out. *)
Definition lone : Proc :=
  fst (open_db (mkConfig "node-1" "127.0.0.1:7001" "/tmp/node-1" (mkAdvanced 0 0 EmptyString None None)) [NewCluster] (proc [])).

Lemma waitFor_ends_witness :
  length (p_dbs lone) = 1 /\
  exists q' r, waitFor (10 * Second) "user:2" (reads (Some 0) "user:2" (is_value "grace")) lone = (q', r) /\
    r <> Err OutOfFuel.
Proof.
  assert (length (p_dbs lone) = 1) as Hl by (vm_compute; reflexivity). split; [exact Hl |].
  destruct (waitFor_ends (10 * Second) "user:2" (reads (Some 0) "user:2" (is_value "grace")) lone) as (q' & r & E & _ & _ & H).
  - intros q0 H0. assert (orderly 1 (reads (Some 0) "user:2" (is_value "grace")) (fun _ => True)) as Ho.
    { apply reads_orderly. exists 0. split; [reflexivity | exact Nat.lt_0_1]. }
    destruct (orderly_run 1 _ _ q0 Ho) as [H1 H2]; [by rewrite (steady_length _ _ H0) |].
    split; [exact H1 |]. intros E. by rewrite E in H2.
  - exact (ex_intro _ q' (ex_intro _ r (conj E H))).
Defined.

End Witnesses.
